(* ===== verification/_CoqProject ===== *)
-Q . S2P
Prelude.v
Float64.v
Types.v
Vertex.v
OrderVertex.v
PriceLevelVertex.v
VenueVertex.v
MarketMakerVertex.v
OrderBook.v
RdmaTransport.v
NetworkThread.v
PartitionMap.v
MessageBus.v
Barrier.v
NumaScheduler.v
SchedulerStop.v
Heartbeat.v
WorkerNode.v
Superstep.v
Tasks.v
ParallelStep.v
ParallelCollect.v
PregelSpec.v
OrderBookGraph.v
Coordinator.v
Market.v
Engine.v
Lifetime.v
Main.v
Bench.v
Locks.v
Report.v
