(* ===== verification/Prelude.v ===== *)
(** Verification of the Pregel engine.

    The program is a graph engine in the style of Pregel, in one process.  A
    coordinator runs supersteps; in each, every worker hands its vertices the
    messages they were sent in the superstep before, computes them on the threads
    of a shared task scheduler, and routes what they send.  Messages between
    workers go through simulated RDMA queue pairs.  A failure detector watches the
    workers.  The graph is an order book: venues, price levels, orders and market
    makers.

    ** The files

    Each file models the source files it names at its top, by the names the code
    has.  State is a Record, a method a function on it; [option] is used where the
    C++ may be undefined ([None]: signed overflow, division by zero, index out of
    range, [atoi] of a number that is no [int]).  Unsigned arithmetic is written
    with its wrap-around ([u32], [u64]), signed arithmetic with its check ([i64]).

    - [Prelude] (this file): machine integers, [foldM], counting, tactics, hints.
    - [Float64]: [double], in binary64.
    - [Types], [Vertex]: [types.hpp], [vertex.hpp].  [VertexImpl] is the virtual
      [compute]; [VertexLaws] is what the worker may assume of it.
    - [OrderVertex], [PriceLevelVertex], [VenueVertex], [MarketMakerVertex],
      [OrderBook]: the four classes of [order_book_graph.cpp], and their dispatch,
      an instance of [VertexImpl] and [VertexLaws].  [OrderBookGraph]: the
      construction of the graph.
    - [RdmaTransport], [PartitionMap], [MessageBus], [Barrier]:
      [rdma_transport.cpp], [message_bus.cpp].  The barrier is a transition system
      of its atomic accesses.  [NetworkThread] is a queue pair with its network thread,
      critical section by critical section, down to the join in [~QueuePair].
    - [NumaScheduler], [SchedulerStop]: [numa_scheduler.cpp], transition systems
      over the interleavings of its threads; the second is about the life of the
      threads.
    - [Heartbeat]: [heartbeat.cpp].
    - [WorkerNode], [Superstep], [Tasks]: [worker_node.cpp].  [WorkerNode] has the
      operations, [Superstep] what a superstep does, [Tasks] the interleavings of
      its tasks.  [ParallelStep] puts [Tasks] on the threads of [NumaScheduler]: the
      supersteps of several workers on one scheduler, access by access, up to the
      return of [wait_all].  [ParallelCollect] goes on from there to the barrier: the
      main threads collect and flush, while tasks may still run.
    - [PregelSpec]: the abstract machine, and that one worker refines it.
    - [Coordinator]: [coordinator.cpp].
    - [Market]: the invariants of the running order book.
    - [Engine], [Main], [Bench]: [graph_engine.cpp], [main.cpp],
      [bench_throughput.cpp].
    - [Lifetime]: the threads and the destruction of the coordinator
      ([coordinator.cpp], [heartbeat.cpp], [main.cpp]).
    - [Locks]: every mutex of the program, the data it guards and the threads that
      take it, on each of their paths.
    - [Report]: the throughputs, in binary64, and the texts that are printed.

    ** What the theorems show

    The engine.  [superstep_spec] describes a superstep vertex by vertex;
    [single_worker_refines] says that a worker alone is Pregel's machine: every
    message arrives, once, in the superstep after it was sent.
    [local_messages_arrive] is its part that holds with any number of workers.
    The other part fails: [transport_loops_back] and [foreign_mail_never_arrives]
    prove that a message for another worker comes back to its sender's worker.
    [superstep_schedule_independent] and [tasks_parallel] say that neither the
    order of the tasks nor the interleaving of their accesses matters.
    [threads_run_supersteps] closes the gap to the threads: however they interleave,
    a worker that has the scheduler for itself computes what [run_superstep] says,
    over any number of supersteps; [threads_finish_superstep] says that each of them
    ends.  With several workers they still all reach the barrier
    ([supersteps_reach_barrier]), but [two_workers_race] is an execution in which
    [wait_all] returns before its worker's tasks are over, and a message is left
    behind.  [superstep_outcome] says what the race can do: at the barrier all tasks
    have run with their usual effect, and what is missing are messages of late
    vertices, which are in the outboxes of these.

    The threads.  The barrier is safe and completes.  The scheduler conserves its
    tasks, and its threads finish them; [scheduler_stops]: the joins of [stop]
    return, and queued tasks are lost.  [lifetimes_nest]: without fault injection no
    thread outlives what it uses; [injection_dangles]: with it, one can.

    [network_thread_refines]: the interleaved accesses of a queue pair do what
    [RdmaTransport] says in one step, with the completions at most one behind;
    [flush_waits], [queue_pair_stops]: its calls return.  [locks_exclude] and
    [no_deadlock]: the mutexes of all components together keep the threads apart, and
    never block one for good.  They are why the other files may take a critical section
    for a step.

    The components: the message bus, the queue pairs, the failure detector, and
    each of the vertex classes have their functional specification and invariants.

    The program.  [graph_built] and [engine_loads]: the graph that is built, and
    which worker gets which vertex.  [engine_run], [engine_order_book] and
    [program_runs]: from the command line to the end of a sequential execution,
    without the fault injection thread, nothing is undefined, all supersteps are made, and in the end no order is filled and no market maker
    has traded.  [coordinator_run], [run_keeps_partition]: the loop ends at a
    superstep without active vertices or at the limit, and failures move nothing.
    [benchmark_is_run] and [benchmarks_complete]: the benchmark computes what a run
    computes.
    [bad_count_undefined]: what the command line does not check.
    [engine_protocol]: every message follows the protocol of the market, who says what
    to whom.
    [rows_defined]: no throughput is NaN, and the tables can be printed; the conversion
    in the summary is in range at realistic rates.

    The witnesses apply the theorems to small concrete systems, and those of
    [Engine], [Main] and [Bench] to the default configuration.

    ** Assumptions and parameters

    - Random numbers: [NoiseSource] and [GraphSource] stand for the engines and
      distributions of the standard library.  The theorems of [Engine] take a bound
      [N] on the draws of a venue, and [in_business] asks that the price band,
      which grows by [N + 200] at each superstep, stay positive: for a hundred
      supersteps any [N] up to a million does.
    - [BoundedPriceDraws] bounds the normal draws that build the graph by a million,
      200 000 standard deviations.  The C++ standard does not promise it; a larger
      draw could overflow a price.
    - [MathLib] stands for the functions of the C library that the detector calls.
    - Clock readings, iteration orders of the unordered maps, schedules of the
      tasks, paths through the critical sections and runs of the network threads are
      arguments, arbitrary but for the
      hypothesis that an order enumerates what it iterates over.
    - [run_superstep] runs its tasks to completion before it collects the
      outboxes.  [ParallelStep] proves that this is what happens when a worker is
      alone on the scheduler.  With several workers it is an assumption, that [wait_all] waited: [two_workers_race] shows an execution in which it did not.
      The theorems of [Coordinator], [Engine] and [Main] are about the executions in
      which it did; [ParallelCollect] is about one superstep in all of them.
      Within a superstep of the coordinator the workers run one after the other:
      they share no state that they write but the scheduler and the barrier.

    There is no fuel: every recursion is over a list or a number of supersteps.

    ** Not modelled

    The banner, the usage text and the frames of the tables; the throughput in
    [WorkerStats], which only [Report] computes; [metrics.cpp] and [vertex.cpp],
    which are empty; the fields and types of the headers that no code uses
    ([RdmaBuffer], [RdmaWorkRequest], [NumaNode], [send_buf_],
    [collect_votes_and_advance]); members that are set and never read
    ([WorkerNode::running_], [hb_detector_]); [send_heartbeat], whose body is empty;
    weak memory, since an atomic access is one step that all threads see, and data races:
    after an early [wait_all] the collection of a vertex and its [compute] can be at
    the same time, which [ParallelCollect] orders; declarations
    without a body, and accessors that return a field. *)
From Stdlib Require Export ZArith Lia.
From stdpp Require Export base tactics numbers option list gmap sets fin_maps strings.
Local Open Scope Z_scope.

(** ** Machine integers *)

Definition in_u32 (z : Z) : Prop := 0 ≤ z < 2 ^ 32.
Definition in_u64 (z : Z) : Prop := 0 ≤ z < 2 ^ 64.
Definition in_i64 (z : Z) : Prop := - 2 ^ 63 ≤ z < 2 ^ 63.

#[export] Instance in_u32_dec z : Decision (in_u32 z).
Proof. unfold in_u32. apply _. Defined.
#[export] Instance in_u64_dec z : Decision (in_u64 z).
Proof. unfold in_u64. apply _. Defined.
#[export] Instance in_i64_dec z : Decision (in_i64 z).
Proof. unfold in_i64. apply _. Defined.

(** Unsigned arithmetic wraps around. *)
Definition u32 (z : Z) : Z := z `mod` 2 ^ 32.
Definition u64 (z : Z) : Z := z `mod` 2 ^ 64.

(** [static_cast<int64_t>] of an integer: modular since C++20. *)
Definition i64_cast (z : Z) : Z := (z + 2 ^ 63) `mod` 2 ^ 64 - 2 ^ 63.

(** Signed arithmetic that overflows is undefined behaviour: [None]. *)
Definition i64 (z : Z) : option Z := if decide (in_i64 z) then Some z else None.

(** [std::int32_t] conversions, for [int]. *)
Definition i32_cast (z : Z) : Z := (z + 2 ^ 31) `mod` 2 ^ 32 - 2 ^ 31.

Lemma u64_small z : in_u64 z → u64 z = z.
Proof. apply Z.mod_small. Qed.
Lemma u32_small z : in_u32 z → u32 z = z.
Proof. apply Z.mod_small. Qed.
Lemma u64_range z : in_u64 (u64 z).
Proof. apply Z.mod_pos_bound. lia. Qed.
Lemma u32_range z : in_u32 (u32 z).
Proof. apply Z.mod_pos_bound. lia. Qed.
Lemma i64_cast_range z : in_i64 (i64_cast z).
Proof.
  unfold in_i64, i64_cast.
  pose proof (Z.mod_pos_bound (z + 2 ^ 63) (2 ^ 64) ltac:(lia)). lia.
Qed.
Lemma i64_cast_small z : in_i64 z → i64_cast z = z.
Proof. unfold in_i64, i64_cast. intros. rewrite Z.mod_small; lia. Qed.
Lemma i64_cast_u64 z : in_i64 z → i64_cast (u64 z) = z.
Proof.
  intros. unfold i64_cast, u64. rewrite Zplus_mod_idemp_l.
  by apply i64_cast_small.
Qed.
Lemma u64_i64_cast z : in_u64 z → u64 (i64_cast z) = z.
Proof.
  intros Hz. unfold i64_cast, u64. rewrite Zminus_mod_idemp_l.
  rewrite Z.add_simpl_r. by apply u64_small.
Qed.
Lemma u64_add_idemp a b : u64 (u64 a + b) = u64 (a + b).
Proof. unfold u64. by rewrite Zplus_mod_idemp_l. Qed.
Lemma u32_add_idemp a b : u32 (u32 a + b) = u32 (a + b).
Proof. unfold u32. by rewrite Zplus_mod_idemp_l. Qed.
Lemma u64_sub_idemp a b : u64 (u64 a - b) = u64 (a - b).
Proof. unfold u64. by rewrite Zminus_mod_idemp_l. Qed.
Lemma i64_Some z z' : i64 z = Some z' ↔ z' = z ∧ in_i64 z.
Proof. unfold i64. case_decide; split; [intros [= ->]|intros [-> _]|done|intros [_ ?]]; done. Qed.
Lemma i64_ok z : in_i64 z → i64 z = Some z.
Proof. intros. by apply i64_Some. Qed.

Create HintDb pregel.
Create Rewrite HintDb pregel.
#[export] Hint Resolve u64_range u32_range i64_cast_range : pregel.
#[export] Hint Rewrite i64_cast_u64 u64_i64_cast using (assumption) : pregel.

(** ** Loops that can fail *)

(** A [for] loop whose body may be undefined. *)
Fixpoint foldM {A B} (f : A → B → option A) (a : A) (l : list B) : option A :=
  match l with
  | [] => Some a
  | x :: l => f a x ≫= λ a', foldM f a' l
  end.

Lemma foldM_app {A B} (f : A → B → option A) a l k :
  foldM f a (l ++ k) = foldM f a l ≫= λ a', foldM f a' k.
Proof. revert a. induction l as [|x l IH]; intros a; cbn; [done|]. destruct (f a x); cbn; auto. Qed.

(** Loop invariant. *)
Lemma foldM_inv {A B} (P : A → Prop) (f : A → B → option A) l a a' :
  (∀ a x a', x ∈ l → P a → f a x = Some a' → P a') →
  P a → foldM f a l = Some a' → P a'.
Proof.
  revert a. induction l as [|x l IH]; intros a Hf Ha; cbn; [naive_solver|].
  destruct (f a x) as [b|] eqn:E; [|done]; cbn.
  apply IH; eauto using list_elem_of_here, list_elem_of_further.
Qed.

(** The loop is defined when each iteration is, under an invariant. *)
Lemma foldM_total {A B} (P : A → Prop) (f : A → B → option A) l a :
  (∀ a x, x ∈ l → P a → ∃ a', f a x = Some a' ∧ P a') →
  P a → ∃ a', foldM f a l = Some a' ∧ P a'.
Proof.
  revert a. induction l as [|x l IH]; intros a Hf Ha; cbn; [naive_solver|].
  destruct (Hf a x (list_elem_of_here _ _) Ha) as (b & -> & Hb). cbn.
  apply IH; eauto using list_elem_of_further.
Qed.

Lemma foldM_ext {A B} (f g : A → B → option A) a l :
  (∀ a x, x ∈ l → f a x = g a x) → foldM f a l = foldM g a l.
Proof.
  revert a. induction l as [|x l IH]; intros a H; cbn; [done|].
  rewrite H by apply list_elem_of_here. destruct (g a x); cbn; [|done].
  apply IH. eauto using list_elem_of_further.
Qed.

(** A loop whose distinct iterations commute does not depend on the order. *)
Lemma foldM_permutation {A B} (f : A → B → option A) (l l' : list B) a :
  (∀ a x y, x ≠ y → f a x ≫= (λ a, f a y) = f a y ≫= (λ a, f a x)) →
  NoDup l → l ≡ₚ l' → foldM f a l = foldM f a l'.
Proof.
  intros Hf Hnd Hp. revert a Hnd.
  induction Hp as [|x l l' Hp IH|x y l|l l1 l2 Hp1 IH1 Hp2 IH2]; intros a Hnd; [done|..].
  - apply NoDup_cons in Hnd as [_ Hnd]. cbn. destruct (f a x); cbn; auto.
  - apply NoDup_cons in Hnd as [Hx Hnd]. cbn.
    assert (y ≠ x) as Hne by (intros ->; apply Hx, list_elem_of_here).
    specialize (Hf a y x Hne).
    destruct (f a y) as [ay|], (f a x) as [ax|]; cbn in *; try done; try by rewrite Hf.
    all: try by rewrite <- Hf.
  - rewrite IH1 by done. apply IH2. by rewrite <- Hp1.
Qed.

(** ** Counting in a list *)

Definition count {A} (p : A → bool) (l : list A) : nat := length (filter p l).
#[global] Arguments count : simpl never.

Lemma count_cons {A} (p : A → bool) x l : count p (x :: l) = (Nat.b2n (p x) + count p l)%nat.
Proof.
  unfold count. destruct (p x) eqn:E.
  - by rewrite filter_cons_True by (by rewrite E).
  - by rewrite filter_cons_False by (by rewrite E; intros ?).
Qed.

Lemma count_nil {A} (p : A → bool) : count p [] = O.
Proof. done. Qed.

Lemma count_app {A} (p : A → bool) l k : count p (l ++ k) = (count p l + count p k)%nat.
Proof. unfold count. by rewrite filter_app, length_app. Qed.

#[export] Instance count_perm {A} (p : A → bool) : Proper ((≡ₚ) ==> (=)) (count p).
Proof. intros l l' Hl. unfold count. by rewrite Hl. Qed.

Lemma count_insert {A} (p : A → bool) (l : list A) i x y :
  l !! i = Some y →
  (count p (<[i := x]> l) + Nat.b2n (p y) = count p l + Nat.b2n (p x))%nat.
Proof.
  revert i. induction l as [|z l IH]; intros [|i] Hi; try done; cbn in Hi.
  - injection Hi as ->. change (<[0%nat:=x]> (y :: l)) with (x :: l). rewrite !count_cons. lia.
  - change (<[S i:=x]> (z :: l)) with (z :: <[i:=x]> l).
    rewrite !count_cons. specialize (IH i Hi). lia.
Qed.

Lemma sum_list_insert {A} (f : A → nat) (l : list A) i x y :
  l !! i = Some y →
  (sum_list_with f (<[i := x]> l) + f y = sum_list_with f l + f x)%nat.
Proof.
  revert i. induction l as [|z l IH]; intros [|i] Hi; try done; cbn in Hi.
  - injection Hi as ->. change (<[0%nat:=x]> (y :: l)) with (x :: l). cbn. lia.
  - change (<[S i:=x]> (z :: l)) with (z :: <[i:=x]> l). cbn. specialize (IH i Hi). lia.
Qed.

Lemma count_le {A} (p : A → bool) (l : list A) : (count p l ≤ length l)%nat.
Proof. apply length_filter. Qed.

Lemma count_all {A} (p : A → bool) (l : list A) :
  count p l = length l ↔ Forall (λ x, p x = true) l.
Proof.
  induction l as [|x l IH]; [done|]. rewrite count_cons, Forall_cons, <- IH. cbn [length].
  pose proof (count_le p l). destruct (p x); cbn; intuition lia.
Qed.

(** Case analysis on an equation between options built with bind, guards and
    matches. *)
Ltac simplify_bind :=
  repeat match goal with
  | H : (_ ≫= _) = Some _ |- _ => apply bind_Some in H; destruct H as (? & ? & H)
  | H : i64 _ = Some _ |- _ => apply i64_Some in H; destruct H
  | H : Some _ = Some _ |- _ => injection H as H
  | H : (if decide _ then _ else _) = Some _ |- _ => case_decide
  | _ => progress simplify_eq/=
  end.
