(* ===== verification/Float64.v ===== *)
(** [double]: IEEE 754 binary64, rounding to nearest, through the Standard Library's
    executable [spec_float].  The literals and operations are those the program uses;
    the lemmas are on the size of mantissas and on the comparison of converted
    integers. *)
From Stdlib Require Import SpecFloat.
From S2P Require Import Prelude.
Local Open Scope Z_scope.

Module F64.

Abbreviation float := spec_float (only parsing).

Definition add : float → float → float := SFadd 53 1024.
Definition sub : float → float → float := SFsub 53 1024.
Definition mul : float → float → float := SFmul 53 1024.
Definition div : float → float → float := SFdiv 53 1024.
Definition sqrt : float → float := SFsqrt 53 1024.
Definition neg : float → float := SFopp.
Definition lt : float → float → bool := SFltb.
Definition le : float → float → bool := SFleb.

(** The conversion of an integer. *)
Definition of_Z (z : Z) : float := binary_normalize 53 1024 z 0 false.

(** [std::max(a, b)] *)
Definition max (a b : float) : float := if lt a b then b else a.

(** The literals [0.5], [1e-9] and [1e-15]. *)
Definition half : float := S754_finite false 4503599627370496 (-53).
Definition c1e_9 : float := S754_finite false 4835703278458517 (-82).
Definition c1e_15 : float := S754_finite false 5070602400912918 (-102).

Definition is_nan (f : float) : bool := match f with S754_nan => true | _ => false end.

(** [duration<double, std::milli>] of a number of nanoseconds. *)
Definition millis (ns : Z) : float := div (of_Z ns) (of_Z 1000000).

Lemma compare_antisym a b :
  SFcompare b a = CompOpp <$> SFcompare a b.
Proof.
  destruct a as [| [] | | [] m1 e1], b as [| [] | | [] m2 e2]; cbn; try done;
    rewrite (Z.compare_antisym e1 e2); destruct (e1 ?= e2); cbn; try done;
    f_equal; fold (m1 ?= m2)%positive; fold (m2 ?= m1)%positive;
    rewrite ?(Pos.compare_antisym m1 m2), ?CompOpp_involutive; done.
Qed.

Lemma le_neg a b : le (neg a) b = true → le (neg b) a = true.
Proof.
  unfold le, SFleb, neg.
  destruct a as [[]|[]| |[] m1 e1], b as [[]|[]| |[] m2 e2]; cbn; try done;
    rewrite (Z.compare_antisym e1 e2); destruct (e1 ?= e2); cbn; try done;
    fold (m1 ?= m2)%positive; fold (m2 ?= m1)%positive;
    rewrite (Pos.compare_antisym m1 m2); by destruct (m1 ?= m2)%positive.
Qed.

(** The maximum is at least its second argument, unless the first is NaN. *)
Lemma max_ge a b : is_nan a = false → is_nan b = false → le b (max a b) = true.
Proof.
  unfold max, lt, le, SFltb, SFleb. intros Ha Hb.
  destruct (SFcompare a b) as [c|] eqn:E.
  - destruct c; rewrite compare_antisym.
    + by rewrite E.
    + assert (SFcompare b b = Some Eq) as Hbb; [|by rewrite Hbb].
      destruct b as [|[]| |[] m e]; cbn; try done; rewrite Z.compare_refl;
        cbn; f_equal; fold (m ?= m)%positive; by rewrite Pos.compare_refl.
    + by rewrite E.
  - exfalso. destruct a as [| [] | | [] ??], b as [| [] | | [] ??]; cbn in *; done.
Qed.

(** ** Digits and rounding *)

Lemma digits_upper p : Z.pos p < 2 ^ Z.pos (digits2_pos p).
Proof.
  induction p as [p IH|p IH|]; cbn [digits2_pos]; [..|reflexivity];
    rewrite Pos2Z.inj_succ, Z.pow_succ_r by lia; lia.
Qed.

Lemma digits_lower p : 2 ^ (Z.pos (digits2_pos p) - 1) ≤ Z.pos p.
Proof.
  induction p as [p IH|p IH|]; cbn [digits2_pos]; [..|cbn; lia];
    rewrite Pos2Z.inj_succ;
    replace (Z.succ (Z.pos (digits2_pos p)) - 1) with (Z.succ (Z.pos (digits2_pos p) - 1)) by lia;
    rewrite Z.pow_succ_r by lia; lia.
Qed.

Lemma Zdigits_upper m : 0 ≤ m → m < 2 ^ Zdigits2 m ∧ 0 ≤ Zdigits2 m.
Proof. destruct m as [|p|p]; cbn [Zdigits2]; [cbn; lia|pose proof (digits_upper p); lia|lia]. Qed.

Lemma Zdigits_le m n : 0 ≤ m < 2 ^ n → 0 ≤ n → Zdigits2 m ≤ n.
Proof.
  destruct m as [|p|p]; cbn [Zdigits2]; intros Hm Hn; [lia| |lia].
  pose proof (digits_lower p). assert (2 ^ (Z.pos (digits2_pos p) - 1) < 2 ^ n) as H1 by lia.
  apply Z.pow_lt_mono_r_iff in H1; lia.
Qed.

Lemma shr_1_bound mrs :
  0 ≤ shr_m mrs → 0 ≤ 2 * shr_m (shr_1 mrs) ≤ shr_m mrs.
Proof. destruct mrs as [[|[p|p|]|p] r s]; cbn; lia. Qed.

Lemma iter_shr_bound p mrs :
  0 ≤ shr_m mrs → 0 ≤ 2 ^ Z.pos p * shr_m (SpecFloat.iter_pos shr_1 p mrs) ≤ shr_m mrs.
Proof.
  revert mrs. induction p as [p IH|p IH|]; intros mrs Hm; cbn [SpecFloat.iter_pos].
  - pose proof (shr_1_bound mrs Hm). destruct (IH (shr_1 mrs)) as [H1 H2]; [lia|].
    destruct (IH (SpecFloat.iter_pos shr_1 p (shr_1 mrs))) as [H3 H4]; [nia|].
    replace (Z.pos p~1) with (Z.pos p + Z.pos p + 1) by lia.
    rewrite !Z.pow_add_r by lia. nia.
  - destruct (IH mrs Hm) as [H1 H2]. destruct (IH (SpecFloat.iter_pos shr_1 p mrs)) as [H3 H4]; [nia|].
    replace (Z.pos p~0) with (Z.pos p + Z.pos p) by lia.
    rewrite Z.pow_add_r by lia. nia.
  - pose proof (shr_1_bound mrs Hm). cbn -[shr_1]. lia.
Qed.

(** One rounding shift: the mantissa gets 53 bits, the exponent is known. *)
Lemma shr_fexp_bound m e l :
  0 ≤ m →
  let r := shr_fexp 53 1024 m e l in
  0 ≤ shr_m r.1 < 2 ^ 53 ∧ r.2 = Z.max e (Z.max (Zdigits2 m + e - 53) (-1074)).
Proof.
  intros Hm. cbn zeta. destruct (Zdigits_upper m Hm) as [Hd Hd0].
  unfold shr_fexp, fexp, emin. replace (3 - 1024 - 53) with (-1074) by lia.
  set (k := Z.max _ _ - e). set (mrs := shr_record_of_loc m l).
  assert (shr_m mrs = m) as Emrs by (unfold mrs; by destruct l as [|[]]).
  unfold shr. destruct k as [|p|p] eqn:Ek; cbn [fst snd].
  - rewrite Emrs. split; [|lia]. assert (Zdigits2 m ≤ 53) by lia.
    pose proof (Z.pow_le_mono_r 2 (Zdigits2 m) 53 ltac:(lia) ltac:(lia)). lia.
  - split; [|lia]. pose proof (iter_shr_bound p mrs ltac:(lia)) as [H1 H2].
    rewrite Emrs in H2. set (m' := shr_m _) in *.
    assert (0 < 2 ^ Z.pos p) by (apply Z.pow_pos_nonneg; lia).
    split; [nia|]. assert (Zdigits2 m ≤ 53 + Z.pos p) as Hle by lia.
    pose proof (Z.pow_le_mono_r 2 _ _ ltac:(lia) Hle) as Hpow.
    rewrite Z.pow_add_r in Hpow by lia. nia.
  - rewrite Emrs. split; [|lia]. assert (Zdigits2 m ≤ 53) by lia.
    pose proof (Z.pow_le_mono_r 2 (Zdigits2 m) 53 ltac:(lia) ltac:(lia)). lia.
Qed.

Lemma round_even_bound m l : 0 ≤ m → 0 ≤ round_nearest_even m l ≤ m + 1.
Proof. intros. unfold round_nearest_even. destruct l as [|[]]; try destruct (Z.even m); lia. Qed.

Lemma iter_xO m d : Z.pos (Pos.iter xO m d) = Z.pos m * 2 ^ Z.pos d.
Proof.
  induction d as [|d IH] using Pos.peano_ind; [cbn; lia|].
  rewrite Pos.iter_succ, Pos2Z.inj_succ, Z.pow_succ_r by lia. lia.
Qed.

Lemma Zdigits_lower m : 0 < m → 2 ^ (Zdigits2 m - 1) ≤ m ∧ 0 < Zdigits2 m.
Proof. destruct m as [|p|p]; cbn [Zdigits2]; [lia|pose proof (digits_lower p); lia|lia]. Qed.

Lemma Zdigits_ge m n : 0 ≤ n → 2 ^ n ≤ m → n + 1 ≤ Zdigits2 m.
Proof.
  intros Hn Hm. assert (0 < 2 ^ n) by (apply Z.pow_pos_nonneg; lia).
  destruct (Zdigits_upper m ltac:(lia)) as [Hu H0].
  assert (2 ^ n < 2 ^ Zdigits2 m) as Hlt by lia. apply Z.pow_lt_mono_r_iff in Hlt; lia.
Qed.

Lemma Zdigits_mono m n : 0 ≤ m ≤ n → Zdigits2 m ≤ Zdigits2 n.
Proof.
  intros H. destruct (Zdigits_upper n ltac:(lia)). apply Zdigits_le; lia.
Qed.

Lemma Zdigits_succ m : 0 < m → Zdigits2 (m + 1) ≤ Zdigits2 m + 1.
Proof.
  intros Hm. destruct (Zdigits_upper m ltac:(lia)) as [Hu H0]. apply Zdigits_le; [|lia].
  rewrite Z.pow_add_r by lia. lia.
Qed.

(** *** Magnitudes *)

(** [f] is positive, with its leading bit at [l] to [u]: from [2 ^ (l - 1)] to below
    [2 ^ u]. *)
Definition leading (l u : Z) (f : float) : Prop :=
  ∃ m e, f = S754_finite false m e ∧ l ≤ Zdigits2 (Z.pos m) + e ≤ u.

Lemma shr_1_div mrs : 0 ≤ shr_m mrs → shr_m (shr_1 mrs) = shr_m mrs / 2.
Proof.
  intros H. rewrite <- Z.div2_div. by destruct mrs as [[|[p|p|]|p] r s].
Qed.

Lemma iter_shr_div p mrs :
  0 ≤ shr_m mrs → shr_m (SpecFloat.iter_pos shr_1 p mrs) = shr_m mrs / 2 ^ Z.pos p.
Proof.
  revert mrs. induction p as [p IH|p IH|]; intros mrs Hm; cbn [SpecFloat.iter_pos];
    [| |by apply shr_1_div]; assert (0 < 2 ^ Z.pos p) as Hpow by (by apply Z.pow_pos_nonneg).
  - assert (0 ≤ shr_m (shr_1 mrs)) as H1 by (rewrite shr_1_div by done; by apply Z.div_pos).
    assert (0 ≤ shr_m (SpecFloat.iter_pos shr_1 p (shr_1 mrs))) as H2
      by (rewrite IH by done; by apply Z.div_pos).
    rewrite !IH, shr_1_div, !Z.div_div by lia.
    f_equal. replace (Z.pos p~1) with (1 + Z.pos p + Z.pos p) by lia.
    rewrite !Z.pow_add_r by lia. lia.
  - assert (0 ≤ shr_m (SpecFloat.iter_pos shr_1 p mrs)) as H2
      by (rewrite IH by done; by apply Z.div_pos).
    rewrite !IH, Z.div_div by lia.
    f_equal. replace (Z.pos p~0) with (Z.pos p + Z.pos p) by lia.
    rewrite Z.pow_add_r by lia. lia.
Qed.

(** A rounding shift leaves the leading bit where it is. *)
Lemma shr_fexp_leading m e l :
  0 < m → -1000 ≤ Zdigits2 m + e →
  let r := shr_fexp 53 1024 m e l in
  0 < shr_m r.1 ∧ Zdigits2 (shr_m r.1) + r.2 = Zdigits2 m + e.
Proof.
  intros Hm Hlow. cbn zeta. unfold shr_fexp, fexp, emin.
  replace (Z.max (Zdigits2 m + e - 53) (3 - 1024 - 53) - e) with (Zdigits2 m - 53) by lia.
  set (mrs := shr_record_of_loc m l).
  assert (shr_m mrs = m) as Emrs by (unfold mrs; by destruct l as [|[]]).
  unfold shr. destruct (Zdigits2 m - 53) as [|p|p] eqn:Ek; cbn [fst snd]; rewrite ?Emrs; [done| |done].
  rewrite iter_shr_div, Emrs by lia. destruct (Zdigits_lower m Hm) as [Hlo _].
  destruct (Zdigits_upper m ltac:(lia)) as [Hup _].
  set (d := Zdigits2 m) in *. assert (d = 53 + Z.pos p) as -> by lia. clear Ek Hlow.
  replace (53 + Z.pos p - 1) with (52 + Z.pos p) in Hlo by lia.
  rewrite Z.pow_add_r in Hlo, Hup by lia.
  assert (0 < 2 ^ Z.pos p) as Hpow by (apply Z.pow_pos_nonneg; lia).
  assert (2 ^ 52 ≤ m / 2 ^ Z.pos p) as H1 by (apply Z.div_le_lower_bound; lia).
  assert (m / 2 ^ Z.pos p < 2 ^ 53) as H2 by (apply Z.div_lt_upper_bound; lia).
  pose proof (Zdigits_ge _ 52 ltac:(lia) H1). pose proof (Zdigits_le (m / 2 ^ Z.pos p) 53 ltac:(lia)).
  lia.
Qed.

(** Rounding moves it by one place at most. *)
Lemma round_aux_leading m e l :
  0 < m → -1000 ≤ Zdigits2 m + e ≤ 900 →
  leading (Zdigits2 m + e) (Zdigits2 m + e + 1) (binary_round_aux 53 1024 false m e l).
Proof.
  intros Hm Hd. unfold binary_round_aux.
  destruct (shr_fexp_leading m e l Hm ltac:(lia)) as [Hp1 Hd1].
  destruct (shr_fexp 53 1024 m e l) as [mrs1 e1]. cbn [fst snd] in *.
  set (m1 := round_nearest_even _ _).
  assert (shr_m mrs1 ≤ m1 ≤ shr_m mrs1 + 1) as Hm1.
  { unfold m1, round_nearest_even. destruct (loc_of_shr_record mrs1) as [|[]];
      try destruct (Z.even _); lia. }
  pose proof (Zdigits_mono (shr_m mrs1) m1 ltac:(lia)).
  pose proof (Zdigits_mono m1 (shr_m mrs1 + 1) ltac:(lia)).
  pose proof (Zdigits_succ (shr_m mrs1) Hp1).
  destruct (shr_fexp_leading m1 e1 loc_Exact ltac:(lia) ltac:(lia)) as [Hp2 Hd2].
  destruct (shr_fexp 53 1024 m1 e1 loc_Exact) as [mrs2 e2]. cbn [fst snd] in *.
  destruct (Zdigits_lower (shr_m mrs2) Hp2) as [_ Hpos].
  destruct (shr_m mrs2) as [|p|p]; [lia| |lia].
  destruct (Z.leb_spec e2 (1024 - 53)) as [Hle|Hgt]; [|lia].
  exists p, e2. split; [done|]. lia.
Qed.

Lemma of_Z_leading z :
  0 < z < 2 ^ 64 → leading (Zdigits2 z) (Zdigits2 z + 1) (of_Z z).
Proof.
  intros Hz. assert (Zdigits2 z ≤ 64) as Hd by (apply Zdigits_le; lia).
  unfold of_Z, binary_normalize. destruct z as [|p|p]; [lia| |lia].
  unfold binary_round, shl_align. set (ex := fexp _ _ _ - 0).
  assert (∀ q e, Zdigits2 (Z.pos q) + e = Zdigits2 (Z.pos p) →
    leading (Zdigits2 (Z.pos p)) (Zdigits2 (Z.pos p) + 1)
      (binary_round_aux 53 1024 false (Z.pos q) e loc_Exact)) as Hq.
  { intros q e He. rewrite <- He. destruct (Zdigits_lower (Z.pos p) eq_refl).
    apply round_aux_leading; [done|]. lia. }
  destruct ex as [|k|k] eqn:Ek; [apply Hq; lia..|].
  assert (fexp 53 1024 (Z.pos (digits2_pos p) + 0) = Z.neg k) as -> by lia.
  apply Hq. destruct (Zdigits_lower (Z.pos p) eq_refl) as [Hlo H0].
  destruct (Zdigits_upper (Z.pos p) ltac:(lia)) as [Hup _].
  set (d := Zdigits2 (Z.pos p)) in *.
  assert (0 < 2 ^ Z.pos k) by (apply Z.pow_pos_nonneg; lia).
  assert (2 ^ (d - 1 + Z.pos k) ≤ Z.pos (Pos.iter xO p k)) as H1
    by (rewrite iter_xO, Z.pow_add_r by lia; nia).
  assert (Z.pos (Pos.iter xO p k) < 2 ^ (d + Z.pos k)) as H2
    by (rewrite iter_xO, Z.pow_add_r by lia; nia).
  pose proof (Zdigits_ge _ (d - 1 + Z.pos k) ltac:(lia) H1).
  pose proof (Zdigits_le (Z.pos (Pos.iter xO p k)) (d + Z.pos k) ltac:(lia) ltac:(lia)). lia.
Qed.

(** ** Converted integers *)

(** The exponent of a rounded number is not below the one it starts from. *)
Lemma round_aux_exponent m e l sgn p e' :
  0 ≤ m → binary_round_aux 53 1024 sgn m e l = S754_finite sgn p e' →
  Z.max e (Zdigits2 m + e - 53) ≤ e'.
Proof.
  intros Hm. unfold binary_round_aux.
  destruct (shr_fexp_bound m e l Hm) as [Hb1 He1].
  destruct (shr_fexp 53 1024 m e l) as [mrs1 e1]. cbn [fst snd] in *.
  set (m1 := round_nearest_even _ _).
  assert (0 ≤ m1) as Hm1
    by (pose proof (round_even_bound (shr_m mrs1) (loc_of_shr_record mrs1)); lia).
  destruct (shr_fexp_bound m1 e1 loc_Exact Hm1) as [_ He2].
  destruct (shr_fexp 53 1024 m1 e1 loc_Exact) as [mrs2 e2]. cbn [fst snd] in *.
  destruct (shr_m mrs2); [done| |done]. destruct (_ <=? _)%Z; [|done]. intros [= _ ->]. lia.
Qed.

(** A number of 53 digits is not rounded. *)
Lemma round_aux_exact p e :
  Zdigits2 (Z.pos p) = 53 → -1074 ≤ e ≤ 971 →
  binary_round_aux 53 1024 false (Z.pos p) e loc_Exact = S754_finite false p e.
Proof.
  intros Hd He. assert (∀ e, -1074 ≤ e → shr_fexp 53 1024 (Z.pos p) e loc_Exact =
    (shr_record_of_loc (Z.pos p) loc_Exact, e)) as Hs.
  { intros e' He'. unfold shr_fexp, fexp, emin. rewrite Hd.
    replace (Z.max _ _ - e') with 0 by lia. done. }
  unfold binary_round_aux. rewrite Hs by lia. cbn [shr_record_of_loc shr_m loc_of_shr_record].
  cbn [round_nearest_even]. rewrite Hs by lia. cbn [shr_record_of_loc shr_m].
  destruct (Z.leb_spec e (1024 - 53)); [done|lia].
Qed.

(** An integer below 2^53 is converted exactly: scaled to 53 digits. *)
Lemma of_Z_exact p :
  Z.pos p < 2 ^ 53 →
  ∃ m, of_Z (Z.pos p) = S754_finite false m (Zdigits2 (Z.pos p) - 53) ∧
    Z.pos m = Z.pos p * 2 ^ (53 - Zdigits2 (Z.pos p)) ∧ Zdigits2 (Z.pos m) = 53.
Proof.
  intros Hp. assert (Zdigits2 (Z.pos p) ≤ 53) as Hle by (apply Zdigits_le; lia).
  destruct (Zdigits_lower (Z.pos p) eq_refl) as [Hlo H0].
  destruct (Zdigits_upper (Z.pos p) ltac:(lia)) as [Hup _].
  unfold of_Z, binary_normalize, binary_round, shl_align, fexp, emin.
  change (Z.pos (digits2_pos p)) with (Zdigits2 (Z.pos p)). set (d := Zdigits2 (Z.pos p)) in *.
  replace (Z.max (d + 0 - 53) (3 - 1024 - 53) - 0) with (d - 53) by lia.
  replace (Z.max (d + 0 - 53) (3 - 1024 - 53)) with (d - 53) by lia.
  destruct (d - 53) as [|k|k] eqn:Ek; [|lia|].
  - exists p. rewrite round_aux_exact by (unfold d in *; lia). split_and!; [done| |unfold d in *; lia].
    replace (53 - d) with 0 by lia. lia.
  - assert (Z.pos (Pos.iter xO p k) = Z.pos p * 2 ^ (53 - d)) as Em
      by (rewrite iter_xO; do 2 f_equal; lia).
    assert (Zdigits2 (Z.pos (Pos.iter xO p k)) = 53) as Hd.
    { assert (0 < 2 ^ (53 - d)) by (apply Z.pow_pos_nonneg; lia).
      assert (2 ^ d * 2 ^ (53 - d) = 2 ^ 53) as E1 by (rewrite <- Z.pow_add_r by lia; f_equal; lia).
      assert (2 ^ (d - 1) * 2 ^ (53 - d) = 2 ^ 52) as E2
        by (rewrite <- Z.pow_add_r by lia; f_equal; lia).
      rewrite Em. apply Z.le_antisymm; [apply Zdigits_le; [nia|lia]|].
      apply (Zdigits_ge _ 52); [lia|nia]. }
    exists (Pos.iter xO p k). by rewrite round_aux_exact by lia.
Qed.

(** A larger one that fits 64 bits has a positive exponent. *)
Lemma of_Z_large p :
  2 ^ 53 ≤ Z.pos p < 2 ^ 64 → ∃ m e, of_Z (Z.pos p) = S754_finite false m e ∧ 0 < e.
Proof.
  intros Hp. destruct (of_Z_leading (Z.pos p) ltac:(lia)) as (m & e & E & _).
  exists m, e. split; [exact E|].
  pose proof (Zdigits_ge (Z.pos p) 53 ltac:(lia) ltac:(lia)) as Hd. revert E.
  unfold of_Z, binary_normalize, binary_round, shl_align, fexp, emin.
  change (Z.pos (digits2_pos p)) with (Zdigits2 (Z.pos p)).
  replace (Z.max (Zdigits2 (Z.pos p) + 0 - 53) (3 - 1024 - 53) - 0)
    with (Zdigits2 (Z.pos p) - 53) by lia.
  destruct (Zdigits2 (Z.pos p) - 53) as [|k|k] eqn:Ek; [lia| |lia].
  intros E%round_aux_exponent; lia.
Qed.

(** The comparison of two converted integers, of which the first is exact. *)
Lemma lt_of_Z a b :
  0 < a < 2 ^ 53 → 0 ≤ b < 2 ^ 64 → lt (of_Z a) (of_Z b) = (a <? b).
Proof.
  destruct a as [|a|a]; [lia| |lia]. intros Ha Hb.
  destruct (of_Z_exact a ltac:(lia)) as (ma & -> & Ea & Da). unfold lt, SFltb.
  assert (Zdigits2 (Z.pos a) ≤ 53) as Hda by (apply Zdigits_le; lia).
  destruct b as [|b|b]; [|destruct (decide (Z.pos b < 2 ^ 53)) as [Hb'|Hb']|lia].
  - by rewrite (proj2 (Z.ltb_ge (Z.pos a) 0)) by lia.
  - destruct (of_Z_exact b Hb') as (mb & -> & Eb & Db). cbn [SFcompare].
    assert (Zdigits2 (Z.pos b) ≤ 53) as Hdb by (apply Zdigits_le; lia).
    set (da := Zdigits2 (Z.pos a)) in *. set (db := Zdigits2 (Z.pos b)) in *.
    destruct (Z.compare_spec (da - 53) (db - 53)) as [Hd|Hd|Hd].
    + assert (da = db) as E by lia. rewrite E in Ea. fold (ma ?= mb)%positive.
      assert (0 < 2 ^ (53 - db)) by (apply Z.pow_pos_nonneg; lia).
      change (ma ?= mb)%positive with (Z.pos ma ?= Z.pos mb). rewrite Ea, Eb.
      rewrite <- Zmult_compare_compat_r by lia. done.
    + symmetry. apply Z.ltb_lt. destruct (Z_lt_le_dec (Z.pos a) (Z.pos b)) as [|Hle]; [done|].
      pose proof (Zdigits_mono (Z.pos b) (Z.pos a) ltac:(lia)). unfold da, db in *. lia.
    + symmetry. apply Z.ltb_ge. destruct (Z_lt_le_dec (Z.pos a) (Z.pos b)) as [Hle|]; [|done].
      pose proof (Zdigits_mono (Z.pos a) (Z.pos b) ltac:(lia)). unfold da, db in *. lia.
  - destruct (of_Z_large b ltac:(lia)) as (mb & e & -> & He). cbn [SFcompare].
    destruct (Z.compare_spec (Zdigits2 (Z.pos a) - 53) e); [lia| |lia].
    symmetry. apply Z.ltb_lt. lia.
Qed.

End F64.
