(* ===== verification/Types.v ===== *)
(** The data types every component shares: [src/types.hpp].

    Integers are [Z] kept in the range of their C++ type.  A [Message] is the
    64-byte object of [types.hpp]; its payload union is the four 64-bit words
    that occupy it, and the union's members are views of those words, so that
    copying a message copies the union whatever member was written. *)
From S2P Require Import Prelude.
Local Open Scope Z_scope.

Abbreviation VertexId := Z (only parsing).
Abbreviation WorkerId := Z (only parsing).
Abbreviation Superstep := Z (only parsing).

Inductive Side := BID | ASK.

Inductive VertexType := ORDER | PRICE_LEVEL | VENUE | MARKET_MAKER.

Inductive MsgType :=
  | ORDER_FILL
  | PRICE_UPDATE
  | CANCEL_ACK
  | POSITION_UPDATE
  | ARBITRAGE_SIGNAL
  | HEARTBEAT
  | BARRIER_SYNC.

#[export] Instance Side_eq_dec : EqDecision Side.
Proof. solve_decision. Defined.
#[export] Instance VertexType_eq_dec : EqDecision VertexType.
Proof. solve_decision. Defined.
#[export] Instance MsgType_eq_dec : EqDecision MsgType.
Proof. solve_decision. Defined.

(** [Message::Payload]: the 32 bytes of the union, as little-endian words. *)
Record Payload := mkPayload { pw0 : Z; pw1 : Z; pw2 : Z; pw3 : Z }.

#[export] Instance Payload_eq_dec : EqDecision Payload.
Proof. solve_decision. Defined.

Definition payload_zero : Payload := mkPayload 0 0 0 0.

(** The member [fill]. *)
Definition fill_price (p : Payload) : Z := i64_cast (pw0 p).
Definition fill_qty (p : Payload) : Z := pw1 p.
Definition fill_trade_id (p : Payload) : Z := pw2 p.
Definition mk_fill (price qty trade_id : Z) : Payload :=
  mkPayload (u64 price) qty trade_id 0.

(** The member [price]. *)
Definition price_bid (p : Payload) : Z := i64_cast (pw0 p).
Definition price_ask (p : Payload) : Z := i64_cast (pw1 p).
Definition price_bid_qty (p : Payload) : Z := pw2 p.
Definition price_ask_qty (p : Payload) : Z := pw3 p.
Definition mk_price (bid ask bid_qty ask_qty : Z) : Payload :=
  mkPayload (u64 bid) (u64 ask) bid_qty ask_qty.

(** The member [arb]. *)
Definition arb_spread (p : Payload) : Z := i64_cast (pw0 p).
Definition arb_venue_a (p : Payload) : Z := pw1 p.
Definition arb_venue_b (p : Payload) : Z := pw2 p.
Definition mk_arb (spread venue_a venue_b : Z) : Payload :=
  mkPayload (u64 spread) venue_a venue_b 0.

Record Message := mkMessage {
  msg_src : VertexId;
  msg_dst : VertexId;
  msg_type : MsgType;
  msg_step : Superstep;
  msg_payload : Payload;
}.

#[export] Instance Message_eq_dec : EqDecision Message.
Proof. solve_decision. Defined.

(** [Message m{};] *)
Definition message_zero : Message := mkMessage 0 0 ORDER_FILL 0 payload_zero.

(** A message the code builds with [Message m{}; m.type = ..; m.step = ..]. *)
Definition new_message (type : MsgType) (step : Superstep) (p : Payload) : Message :=
  mkMessage 0 0 type step p.

(** [sizeof(Message)] *)
Definition sizeof_Message : Z := 64.

(** Every field of the message holds a value of its type. *)
Definition payload_wf (p : Payload) : Prop :=
  in_u64 (pw0 p) ∧ in_u64 (pw1 p) ∧ in_u64 (pw2 p) ∧ in_u64 (pw3 p).
Definition message_wf (m : Message) : Prop :=
  in_u64 (msg_src m) ∧ in_u64 (msg_dst m) ∧ in_u64 (msg_step m) ∧
  payload_wf (msg_payload m).

(** [struct EngineConfig], with its defaults.  The fields the engine reads. *)
Record EngineConfig := mkConfig {
  worker_count : Z;
  numa_nodes : Z;
  max_supersteps : Z;
  heartbeat_interval_ms : Z;
  failure_timeout_ms : Z;
  enable_rdma_sim : bool;
  enable_fault_injection : bool;
}.

Definition default_config : EngineConfig :=
  mkConfig 4 2 100 500 2000 true false.

(** [struct WorkerStats]: the atomic counters. *)
Record WorkerStats := mkStats {
  vertices_processed : Z;
  messages_sent : Z;
  messages_received : Z;
  bytes_transferred : Z;
  supersteps_completed : Z;
  latency_spike_count : Z;
  migrations_performed : Z;
  rdma_ops : Z;
}.

Definition stats_zero : WorkerStats := mkStats 0 0 0 0 0 0 0 0.

(** ** The union's members read back what was written *)

Lemma price_bid_mk (b a bq aq : Z) : in_i64 b → price_bid (mk_price b a bq aq) = b.
Proof. intros. unfold price_bid, mk_price; cbn. by apply i64_cast_u64. Qed.

Lemma price_ask_mk (b a bq aq : Z) : in_i64 a → price_ask (mk_price b a bq aq) = a.
Proof. intros. unfold price_ask, mk_price; cbn. by apply i64_cast_u64. Qed.

Lemma fill_price_mk (p q t : Z) : in_i64 p → fill_price (mk_fill p q t) = p.
Proof. intros. unfold fill_price, mk_fill; cbn. by apply i64_cast_u64. Qed.

Lemma arb_spread_mk (s a b : Z) : in_i64 s → arb_spread (mk_arb s a b) = s.
Proof. intros. unfold arb_spread, mk_arb; cbn. by apply i64_cast_u64. Qed.

#[export] Hint Rewrite price_bid_mk price_ask_mk fill_price_mk arb_spread_mk
  using (assumption) : pregel.

(** ** The fills of an inbox *)

(** The quantity of the fills of an inbox. *)
Definition fill_of (m : Message) : Z :=
  if decide (msg_type m = ORDER_FILL) then fill_qty (msg_payload m) else 0.
Definition fills (inbox : list Message) : Z := foldr (λ m, Z.add (fill_of m)) 0 inbox.

Lemma fills_cons m inbox : fills (m :: inbox) = fill_of m + fills inbox.
Proof. done. Qed.

Lemma fill_of_fill m : msg_type m = ORDER_FILL → fill_of m = fill_qty (msg_payload m).
Proof. intros. unfold fill_of. by rewrite decide_True. Qed.
Lemma fill_of_other m : msg_type m ≠ ORDER_FILL → fill_of m = 0.
Proof. intros. unfold fill_of. by rewrite decide_False. Qed.

Lemma fill_of_nonneg m : message_wf m → 0 ≤ fill_of m.
Proof. intros (_&_&_&_&[? _]&_). unfold fill_of, fill_qty. case_decide; lia. Qed.

Lemma fills_nonneg inbox : Forall message_wf inbox → 0 ≤ fills inbox.
Proof.
  induction 1 as [|m inbox Hm _ IH]; [done|]. rewrite fills_cons.
  apply fill_of_nonneg in Hm. lia.
Qed.
