(* ===== verification/Vertex.v ===== *)
(** The vertex base class and the interface of [Vertex::compute]:
    [src/vertex.hpp].

    [Vertex] is the state of the base class.  A derived class is a type [D] of
    the fields it adds together with an instance of [VertexImpl], which stands
    for the virtual member function [compute]; [VertexLaws] is what the worker
    may assume of every override: it leaves the vertex's identity and edges
    alone, keeps the class's own invariant, and adds to the outbox only
    well-formed messages that it sends itself along its edges. *)
From S2P Require Import Prelude Types.
Local Open Scope Z_scope.

Record Edge := mkEdge { edge_dst : VertexId; edge_weight : Z; edge_type : Z }.

#[export] Instance Edge_eq_dec : EqDecision Edge.
Proof. solve_decision. Defined.

Record Vertex := mkVertex {
  id_ : VertexId;
  type_ : VertexType;
  owner_ : WorkerId;
  halted_ : bool;
  edges_ : list Edge;
  outbox_ : list Message;
}.

(** [Vertex::Vertex(id, type, owner)] *)
Definition new_vertex (id : VertexId) (type : VertexType) (owner : WorkerId) : Vertex :=
  mkVertex id type owner false [] [].

Definition set_owner (w : WorkerId) (v : Vertex) : Vertex :=
  mkVertex (id_ v) (type_ v) w (halted_ v) (edges_ v) (outbox_ v).
Definition set_halted (b : bool) (v : Vertex) : Vertex :=
  mkVertex (id_ v) (type_ v) (owner_ v) b (edges_ v) (outbox_ v).
Definition vote_to_halt (v : Vertex) : Vertex := set_halted true v.
Definition wake_up (v : Vertex) : Vertex := set_halted false v.
Definition clear_outbox (v : Vertex) : Vertex :=
  mkVertex (id_ v) (type_ v) (owner_ v) (halted_ v) (edges_ v) [].
(** [edges().push_back(e)] *)
Definition add_edge (e : Edge) (v : Vertex) : Vertex :=
  mkVertex (id_ v) (type_ v) (owner_ v) (halted_ v) (edges_ v ++ [e]) (outbox_ v).

(** [send_message(dst, m)]: the message as it is stored in the outbox. *)
Definition addressed (src dst : VertexId) (m : Message) : Message :=
  mkMessage src dst (msg_type m) (msg_step m) (msg_payload m).
Definition send_message (dst : VertexId) (m : Message) (v : Vertex) : Vertex :=
  mkVertex (id_ v) (type_ v) (owner_ v) (halted_ v) (edges_ v)
           (outbox_ v ++ [addressed (id_ v) dst m]).

(** [for (edge : edges_) if (p edge) send_message(edge.dst, m);] *)
Definition send_along (p : Edge → bool) (m : Message) (v : Vertex) : Vertex :=
  foldl (λ v e, if p e then send_message (edge_dst e) m v else v) v (edges_ v).

(** ** What [compute] may do to the base class *)

(** [v'] is [v] after sending the messages [sent] and possibly changing the
    halted flag. *)
Definition sends (v : Vertex) (sent : list Message) (v' : Vertex) : Prop :=
  id_ v' = id_ v ∧ type_ v' = type_ v ∧ owner_ v' = owner_ v ∧
  edges_ v' = edges_ v ∧ outbox_ v' = outbox_ v ++ sent.

(** A message the vertex sends to a neighbour. *)
Definition along_edge (v : Vertex) (m : Message) : Prop :=
  msg_src m = id_ v ∧ msg_dst m ∈ edge_dst <$> edges_ v.

(** The virtual function [compute(inbox, step)]; [None] is undefined
    behaviour. *)
Class VertexImpl (D : Type) : Type :=
  compute : Vertex → D → list Message → Superstep → option (Vertex * D).

(** The vertex's identifiers are in range. *)
Definition vertex_wf (v : Vertex) : Prop :=
  in_u64 (id_ v) ∧ Forall (λ e, in_u64 (edge_dst e)) (edges_ v).

(** The contract between [compute] and the worker, for the data that satisfy the
    class's own invariant [data_ok]. *)
Class VertexLaws (D : Type) `{VertexImpl D} := {
  data_ok : D → Prop;
  compute_law v d inbox step v' d' :
    vertex_wf v → data_ok d → Forall message_wf inbox → in_u64 step →
    compute v d inbox step = Some (v', d') →
    data_ok d' ∧
    ∃ sent, sends v sent v' ∧ Forall (along_edge v) sent ∧ Forall message_wf sent
}.

(** ** Lemmas *)

Lemma sends_refl v : sends v [] v.
Proof. repeat split. by rewrite app_nil_r. Qed.

Lemma sends_trans v1 s1 v2 s2 v3 :
  sends v1 s1 v2 → sends v2 s2 v3 → sends v1 (s1 ++ s2) v3.
Proof.
  intros (?&?&?&?&E1) (?&?&?&?&E2). repeat split; try congruence.
  by rewrite E2, E1, app_assoc.
Qed.

Lemma sends_halted b v s v' : sends v s v' → sends v s (set_halted b v').
Proof. by intros (?&?&?&?&?). Qed.

Lemma sends_message v dst m : sends v [addressed (id_ v) dst m] (send_message dst m v).
Proof. done. Qed.

Lemma along_edge_sends v s v' m : sends v s v' → along_edge v' m ↔ along_edge v m.
Proof. intros (H1&_&_&H2&_). unfold along_edge. by rewrite H1, H2. Qed.

(** The messages a [send_along] loop appends, in edge order. *)
Definition along (p : Edge → bool) (m : Message) (v : Vertex) : list Message :=
  (λ e, addressed (id_ v) (edge_dst e) m) <$> filter p (edges_ v).

Lemma foldl_sends (p : Edge → bool) m l v :
  sends v ((λ e, addressed (id_ v) (edge_dst e) m) <$> filter p l)
    (foldl (λ v e, if p e then send_message (edge_dst e) m v else v) v l) ∧
  halted_ (foldl (λ v e, if p e then send_message (edge_dst e) m v else v) v l) = halted_ v.
Proof.
  revert v. induction l as [|e l IH]; intros v; cbn [foldl].
  { split; [apply sends_refl|done]. }
  destruct (p e) eqn:E.
  - destruct (IH (send_message (edge_dst e) m v)) as [IH1 IH2]. split; [|done].
    rewrite filter_cons_True by (rewrite E; done). cbn [fmap list_fmap].
    apply (sends_trans _ [_] (send_message (edge_dst e) m v)); [done|exact IH1].
  - rewrite filter_cons_False by (rewrite E; auto). apply IH.
Qed.

Lemma send_along_sends p m v : sends v (along p m v) (send_along p m v).
Proof. apply foldl_sends. Qed.

Lemma send_along_halted p m v : halted_ (send_along p m v) = halted_ v.
Proof. apply foldl_sends. Qed.

Lemma along_all m v :
  along (λ _, true) m v = (λ e, addressed (id_ v) (edge_dst e) m) <$> edges_ v.
Proof.
  unfold along. f_equal. induction (edges_ v) as [|e l IH]; [done|].
  rewrite filter_cons_True by done. by f_equal.
Qed.

Lemma along_edges p m v : Forall (along_edge v) (along p m v).
Proof.
  apply Forall_forall. intros x (e & -> & He)%list_elem_of_fmap.
  split; [done|]. apply list_elem_of_filter in He as [_ He]. cbn.
  apply list_elem_of_fmap. eauto.
Qed.

Lemma sends_along_Forall v s v' : sends v s v' →
  ∀ s', Forall (along_edge v') s' → Forall (along_edge v) s'.
Proof. intros H s' Hs. eapply Forall_impl; [exact Hs|]. intros m. apply (along_edge_sends _ _ _ m H). Qed.

(** Sent messages are well formed. *)
Lemma along_wf p m v : vertex_wf v → message_wf m → Forall message_wf (along p m v).
Proof.
  intros [Hid He] (_ & _ & Hst & Hp). apply Forall_forall.
  intros x (e & -> & [_ Hin]%list_elem_of_filter)%list_elem_of_fmap.
  rewrite Forall_forall in He. split; [done|]. split; [by apply He|by split].
Qed.

Lemma sends_wf v s v' : sends v s v' → vertex_wf v → vertex_wf v'.
Proof. intros (Hid&_&_&He&_) [??]. split; congruence. Qed.

#[export] Hint Resolve sends_refl sends_halted sends_message send_along_sends
  along_edges : pregel.
