(* ===== verification/OrderVertex.v ===== *)
(** Order vertices: class [OrderVertex] of [src/order_book_graph.hpp] and its
    [compute] in [src/order_book_graph.cpp].

    The arithmetic is unsigned, so [compute] is total.  The lemmas follow an
    order's open quantity through the fills of an inbox, its messages, and its
    vote to halt. *)
From S2P Require Import Prelude Types Vertex.
Local Open Scope Z_scope.

Module Order.

Record State := mkState {
  limit_price : Z;
  quantity : Z;
  filled_qty : Z;
  side : Side;
  active : bool;
  venue_id : Z;
  trader_id : Z;
  timestamp_ns : Z;
}.

Record Data := mkData {
  state_ : State;
  best_market_price_ : Z;
  steps_without_fill_ : Z;
}.

(** The constructor: the members' default initialisers. *)
Definition new (s : State) : Data := mkData s 0 0.

Definition set_filled (q : Z) (s : State) : State :=
  mkState (limit_price s) (quantity s) q (side s) (active s) (venue_id s)
    (trader_id s) (timestamp_ns s).
Definition set_active (b : bool) (s : State) : State :=
  mkState (limit_price s) (quantity s) (filled_qty s) (side s) b (venue_id s)
    (trader_id s) (timestamp_ns s).
Definition set_state (s : State) (d : Data) : Data :=
  mkData s (best_market_price_ d) (steps_without_fill_ d).
Definition set_price (p : Z) (d : Data) : Data :=
  mkData (state_ d) p (steps_without_fill_ d).
Definition set_steps (n : Z) (d : Data) : Data :=
  mkData (state_ d) (best_market_price_ d) n.

(** One iteration of the loop over the inbox; the flag says that [compute]
    returned from inside it. *)
Definition on_message (d : Data) (msg : Message) : Data * bool :=
  let s := state_ d in
  match msg_type msg with
  | PRICE_UPDATE =>
      (set_price (if decide (side s = BID) then price_bid (msg_payload msg)
                  else price_ask (msg_payload msg)) d, false)
  | ORDER_FILL =>
      let s := set_filled (u64 (filled_qty s + fill_qty (msg_payload msg))) s in
      if decide (quantity s ≤ filled_qty s)
      then (set_state (set_active false s) d, true)
      else (set_state s d, false)
  | CANCEL_ACK => (set_state (set_active false s) d, true)
  | _ => (d, false)
  end.

Fixpoint on_inbox (d : Data) (inbox : list Message) : Data * bool :=
  match inbox with
  | [] => (d, false)
  | msg :: rest =>
      match on_message d msg with
      | (d, true) => (d, true)
      | (d, false) => on_inbox d rest
      end
  end.

Definition marketable (d : Data) : bool :=
  let s := state_ d in
  bool_decide (0 < best_market_price_ d) &&
  match side s with
  | BID => bool_decide (best_market_price_ d ≤ limit_price s)
  | ASK => bool_decide (limit_price s ≤ best_market_price_ d)
  end.

(** The fill message of a marketable order. *)
Definition fill_message (id : VertexId) (step : Superstep) (s : State) : Message :=
  new_message ORDER_FILL step
    (mk_fill (limit_price s) (u64 (quantity s - filled_qty s))
       (Z.lxor id (u64 (Z.shiftl step 32)))).

Definition compute (v : Vertex) (d : Data) (inbox : list Message) (step : Superstep)
    : Vertex * Data :=
  if active (state_ d) then
    match on_inbox d inbox with
    | (d, true) => (vote_to_halt v, d)
    | (d, false) =>
        if marketable d then
          (send_along (λ _, true) (fill_message (id_ v) step (state_ d)) v,
           set_steps 0 d)
        else
          let n := u32 (steps_without_fill_ d + 1) in
          (if decide (10 < n) then vote_to_halt v else v, set_steps n d)
    end
  else (vote_to_halt v, d).

(** ** Lemmas *)

(** Field ranges, and an open order has an open quantity. *)
Definition order_wf (d : Data) : Prop :=
  let s := state_ d in
  in_u64 (quantity s) ∧ in_u64 (filled_qty s) ∧ in_i64 (limit_price s) ∧
  in_i64 (best_market_price_ d) ∧ in_u32 (steps_without_fill_ d) ∧
  (active s = true → filled_qty s < quantity s).

Lemma order_on_message_wf d m : order_wf d → order_wf (on_message d m).1.
Proof.
  intros (?&?&?&?&?&Ha). unfold on_message.
  pose proof (i64_cast_range (pw0 (msg_payload m))).
  pose proof (i64_cast_range (pw1 (msg_payload m))).
  destruct (msg_type m); repeat case_decide; unfold order_wf; cbn -[u64] in *;
    split_and!; auto with pregel; intros; try done; lia.
Qed.

Lemma order_on_inbox_wf inbox d : order_wf d → order_wf (on_inbox d inbox).1.
Proof.
  revert d. induction inbox as [|m inbox IH]; intros d Hd; cbn; [done|].
  apply order_on_message_wf with (m := m) in Hd.
  destruct (on_message d m) as [d1 []]; cbn in *; auto.
Qed.

Lemma order_set_steps_wf n d : in_u32 n → order_wf d → order_wf (set_steps n d).
Proof. intros ? (?&?&?&?&?&?). unfold order_wf. by split_and!. Qed.

(** The identity of the order and its terms never change. *)
Lemma order_on_message_active d m d' b :
  on_message d m = (d', b) → active (state_ d) = true →
  b = negb (active (state_ d')) ∧ quantity (state_ d') = quantity (state_ d) ∧
  limit_price (state_ d') = limit_price (state_ d) ∧ side (state_ d') = side (state_ d) ∧
  steps_without_fill_ d' = steps_without_fill_ d.
Proof.
  unfold on_message. intros H Hact.
  destruct (msg_type m); simplify_eq/=; rewrite ?Hact; try done.
  case_decide; simplify_eq/=; rewrite ?Hact; done.
Qed.

Lemma order_on_inbox_active inbox d d' b :
  on_inbox d inbox = (d', b) → active (state_ d) = true →
  b = negb (active (state_ d')) ∧ quantity (state_ d') = quantity (state_ d) ∧
  limit_price (state_ d') = limit_price (state_ d) ∧ side (state_ d') = side (state_ d) ∧
  steps_without_fill_ d' = steps_without_fill_ d.
Proof.
  revert d. induction inbox as [|m inbox IH]; intros d; cbn.
  { intros [= <- <-] Hact. by rewrite Hact. }
  destruct (on_message d m) as [d1 b1] eqn:E. intros H Hact.
  apply order_on_message_active in E as (-> & Hq & Hl & Hs & Hn); [|done].
  destruct (active (state_ d1)) eqn:E1; cbn in H; simplify_eq.
  - apply IH in H as (->&->&->&->&->); [by split_and!|done].
  - rewrite E1. by split_and!.
Qed.

Lemma order_on_inbox_fills inbox d :
  order_wf d → Forall message_wf inbox → active (state_ d) = true →
  (∀ m, m ∈ inbox → msg_type m ≠ CANCEL_ACK) →
  filled_qty (state_ d) + fills inbox < 2 ^ 64 →
  ((on_inbox d inbox).2 = true ↔
     quantity (state_ d) ≤ filled_qty (state_ d) + fills inbox) ∧
  ((on_inbox d inbox).2 = false →
     filled_qty (state_ (on_inbox d inbox).1) = filled_qty (state_ d) + fills inbox).
Proof.
  revert d. induction inbox as [|m inbox IH]; intros d Hwf Hm Hact Hc Hov.
  { destruct Hwf as (?&?&?&?&?&Hopen). specialize (Hopen Hact). cbn. lia. }
  apply Forall_cons in Hm as [Hm Hms]. rewrite fills_cons in *. cbn [on_inbox].
  pose proof (fills_nonneg _ Hms). pose proof (fill_of_nonneg _ Hm).
  pose proof (order_on_message_wf d m Hwf) as Hwf1.
  pose proof (Hc m (list_elem_of_here _ _)) as Hcm.
  assert (filled_qty (state_ (on_message d m).1) = filled_qty (state_ d) + fill_of m ∧
          ((on_message d m).2 = true ↔ quantity (state_ d) ≤ filled_qty (state_ d) + fill_of m))
    as [Hf Hb].
  { destruct Hwf as (?&[? ?]&?&?&?&Hopen). specialize (Hopen Hact).
    unfold on_message. destruct (msg_type m) eqn:Et;
      first [rewrite (fill_of_fill _ Et) in * | rewrite fill_of_other in * by congruence];
      cbn -[u64]; try done; try lia.
    rewrite u64_small by (unfold in_u64; lia). case_decide; cbn; lia. }
  destruct (on_message d m) as [d1 b1] eqn:E. cbn in *.
  apply order_on_message_active in E as (Eb & Hq & _); [|done].
  destruct b1; cbn; [lia|].
  destruct (IH d1) as [IH1 IH2]; try done.
  - by destruct (active (state_ d1)).
  - intros. apply Hc. by apply list_elem_of_further.
  - lia.
  - split; [rewrite IH1; lia|intros Hr; rewrite (IH2 Hr); lia].
Qed.

Lemma order_idle_compute v d step :
  active (state_ d) = true → marketable d = false →
  compute v d [] step =
    (set_halted (halted_ v || bool_decide (10 < u32 (steps_without_fill_ d + 1))) v,
     set_steps (u32 (steps_without_fill_ d + 1)) d).
Proof.
  intros Ha Hm. unfold compute. rewrite Ha. cbn [on_inbox]. rewrite Hm.
  destruct v; unfold vote_to_halt, set_halted; cbn.
  case_bool_decide; [rewrite decide_True by done|rewrite decide_False by done];
    rewrite ?orb_true_r, ?orb_false_r; done.
Qed.

Lemma lxor_u64 a b : in_u64 a → in_u64 b → in_u64 (Z.lxor a b).
Proof.
  unfold in_u64. intros [Ha Ha'] [Hb Hb']. split; [by apply Z.lxor_nonneg|].
  destruct (decide (Z.lxor a b = 0)) as [->|Hne]; [lia|].
  apply Z.log2_lt_pow2; [pose proof (proj2 (Z.lxor_nonneg a b)); lia|].
  eapply Z.le_lt_trans; [by apply Z.log2_lxor|].
  apply Z.max_lub_lt; (destruct (decide (0 < a)), (decide (0 < b)));
    try (by apply Z.log2_lt_pow2); rewrite Z.log2_nonpos; lia.
Qed.

Lemma fill_message_wf id step s :
  in_u64 id → in_u64 step → message_wf (fill_message id step s).
Proof.
  intros Hid Hst. unfold message_wf, payload_wf, fill_message, new_message, mk_fill.
  cbn -[u64]. split_and!; try done; try apply u64_range; try (unfold in_u64; lia).
  by apply lxor_u64; [|apply u64_range].
Qed.

(** The contract of the worker. *)
Lemma order_compute_law v d inbox step v' d' :
  vertex_wf v → order_wf d → in_u64 step → compute v d inbox step = (v', d') →
  order_wf d' ∧
  ∃ sent, sends v sent v' ∧ Forall (along_edge v) sent ∧ Forall message_wf sent.
Proof.
  intros Hv Hwf Hst. unfold compute. pose proof (order_on_inbox_wf inbox d Hwf) as Hwf1.
  assert (∀ b, ∃ sent, sends v sent (if b : bool then vote_to_halt v else v) ∧
    Forall (along_edge v) sent ∧ Forall message_wf sent) as Hquiet.
  { intros []; exists []; (split; [try apply sends_halted; apply sends_refl|by split]). }
  destruct (active (state_ d)); [|intros [= <- <-]; by split; [|apply (Hquiet true)]].
  destruct (on_inbox d inbox) as [d1 []]; cbn [fst] in Hwf1.
  { intros [= <- <-]. by split; [|apply (Hquiet true)]. }
  destruct (marketable d1); intros [= <- <-].
  - split; [apply order_set_steps_wf; [unfold in_u32; lia|done]|].
    eexists; split; [apply send_along_sends|]. split; [apply along_edges|].
    apply along_wf; [done|]. by apply fill_message_wf; [apply Hv|].
  - split; [apply order_set_steps_wf; auto with pregel|].
    case_decide; [apply (Hquiet true)|apply (Hquiet false)].
Qed.

(** ** Properties *)

(** C35: The order invariant.  [compute] keeps every field in the range of its
    type and keeps an active order's filled quantity strictly below its
    quantity, even where the fills wrap around.  Whatever the inbox, an order that
    is active and marketable after it sends one message along each of its edges, in
    their order, and any other order sends none; each message is an ORDER_FILL of
    this superstep from the order, at the limit price, for the whole open quantity,
    which is positive and does not underflow. *)
Theorem order_compute_invariant v d inbox step v' d' :
  order_wf d → compute v d inbox step = (v', d') →
  order_wf d' ∧
  ∃ sent, sends v sent v' ∧
    msg_dst <$> sent =
      (if active (state_ d') && marketable d' then edge_dst <$> edges_ v else []) ∧
    Forall (λ m, msg_type m = ORDER_FILL ∧ msg_step m = step ∧ msg_src m = id_ v ∧
                 fill_price (msg_payload m) = limit_price (state_ d) ∧
                 fill_qty (msg_payload m) = quantity (state_ d') - filled_qty (state_ d') ∧
                 0 < fill_qty (msg_payload m) ≤ quantity (state_ d)) sent.
Proof.
  intros Hwf. unfold compute.
  destruct (active (state_ d)) eqn:Hact; cycle 1.
  { intros [= <- <-]. rewrite Hact. split; [done|]. exists []. eauto using sends_halted, sends_refl. }
  pose proof (order_on_inbox_wf inbox d Hwf) as Hwf1.
  destruct (on_inbox d inbox) as [d1 b] eqn:E. cbn in Hwf1.
  apply order_on_inbox_active in E as (-> & Hq & Hl & _ & _); [|done].
  destruct (active (state_ d1)) eqn:Hact1; cbn [negb]; cycle 1.
  { intros [= <- <-]. rewrite Hact1. split; [done|]. exists [].
    eauto using sends_halted, sends_refl. }
  destruct (marketable d1) eqn:Hmk; intros [= <- <-]; cbn [state_ set_steps]; rewrite Hact1.
  - split; [apply order_set_steps_wf; [unfold in_u32; lia|done]|].
    eexists; split; [apply send_along_sends|]. destruct Hwf1 as (Hq1&Hf1&Hl1&?&?&Hopen).
    split.
    { change (marketable (set_steps _ d1)) with (marketable d1). rewrite Hmk, along_all.
      by rewrite <- list_fmap_compose. }
    specialize (Hopen Hact1). apply Forall_forall. intros m (e & -> & _)%list_elem_of_fmap.
    cbn -[fill_price fill_qty]. unfold fill_message, new_message. cbn [msg_payload].
    rewrite fill_price_mk by done. unfold fill_qty, mk_fill. cbn [pw1].
    unfold in_u64 in *. rewrite u64_small by (unfold in_u64; lia). rewrite Hl. by split_and!; try lia.
  - split; [apply order_set_steps_wf; auto with pregel|].
    change (marketable (set_steps _ d1)) with (marketable d1). rewrite Hmk.
    exists []. split; [case_decide; eauto using sends_halted, sends_refl|done].
Qed.

(** Fills close the order exactly when they cover it.  An active order
    that receives fills (and no CANCEL_ACK) whose total does not overflow the
    counter goes inactive and halts without sending anything when its filled
    quantity plus the fills reaches its quantity; otherwise it stays active
    and its filled quantity has grown by exactly the fills. *)
Theorem order_fills_close v d inbox step v' d' :
  order_wf d → active (state_ d) = true → Forall message_wf inbox →
  (∀ m, m ∈ inbox → msg_type m ≠ CANCEL_ACK) →
  filled_qty (state_ d) + fills inbox < 2 ^ 64 →
  compute v d inbox step = (v', d') →
  if decide (quantity (state_ d) ≤ filled_qty (state_ d) + fills inbox)
  then active (state_ d') = false ∧ halted_ v' = true ∧ outbox_ v' = outbox_ v
  else active (state_ d') = true ∧
       filled_qty (state_ d') = filled_qty (state_ d) + fills inbox.
Proof.
  intros Hwf Hact Hms Hc Hov. unfold compute. rewrite Hact.
  destruct (order_on_inbox_fills inbox d) as [Hiff Hfill]; try done.
  destruct (on_inbox d inbox) as [d1 b] eqn:E. cbn in Hiff, Hfill.
  apply order_on_inbox_active in E as (Hb & _); [|done].
  destruct b; intros Hcomp.
  - rewrite decide_True by (by apply Hiff). simplify_eq.
    by destruct (active (state_ d')).
  - rewrite decide_False by (intros ?%Hiff; done). specialize (Hfill eq_refl).
    destruct (active (state_ d1)) eqn:E1; [|done].
    destruct (marketable d1); simplify_eq; done.
Qed.

(** Idle orders halt at the eleventh idle superstep.  An active order that
    gets no message and is not marketable, run for [n] supersteps, has voted
    to halt if and only if [n] is at least 11. *)
Theorem order_idle_halts v d step n :
  active (state_ d) = true → marketable d = false →
  halted_ v = false → steps_without_fill_ d = 0 →
  halted_ (Nat.iter n (λ vd, compute vd.1 vd.2 [] step) (v, d)).1 =
    bool_decide (11 ≤ n)%nat.
Proof.
  intros Ha Hm Hv Hs.
  cut (let vd := Nat.iter n (λ vd, compute vd.1 vd.2 [] step) (v, d) in
       halted_ vd.1 = bool_decide (11 ≤ n)%nat ∧
       vd.2 = set_steps (u32 (Z.of_nat n)) d); [by intros []|].
  induction n as [|n [IH1 IH2]]; cbn [Nat.iter nat_rect].
  { cbn. rewrite Hv. split; [done|]. destruct d; cbn in *. by rewrite Hs. }
  change (nat_rect _ _ _ n) with (Nat.iter n (λ vd, compute vd.1 vd.2 [] step) (v, d)).
  rewrite IH2, order_idle_compute by done. cbn [fst snd set_halted halted_].
  cbn [steps_without_fill_ set_steps]. rewrite IH1.
  replace (u32 (u32 (Z.of_nat n) + 1)) with (u32 (Z.of_nat (S n)))
    by (unfold u32; rewrite Zplus_mod_idemp_l; f_equal; lia).
  split; [|done]. repeat case_bool_decide; try done; try lia; exfalso.
  - pose proof (Z.mod_le (Z.of_nat (S n)) (2 ^ 32)). unfold u32 in *. lia.
  - rewrite u32_small in * by (unfold in_u32; lia). lia.
Qed.

(** ** The theorems at a concrete order *)

(** A buy order for 500 shares at $150, 100 of them filled, whose venue last
    quoted a bid of $149.99; it has edges to the vertices 7 and 8. *)
Definition sample_vertex : Vertex :=
  mkVertex 9 ORDER 1 false [mkEdge 7 1 0; mkEdge 8 1 0] [].
Definition sample_order : Data :=
  mkData (mkState 150000000 500 100 BID true 0 17 0) 149990000 0.
(** The same order before its venue quoted. *)
Definition quiet_order : Data := set_price 0 sample_order.
Definition sample_fill (q : Z) : Message :=
  mkMessage 7 9 ORDER_FILL 3 (mk_fill 150000000 q 1).

Lemma sample_order_wf : order_wf sample_order.
Proof. unfold order_wf. cbn. unfold in_u64, in_i64, in_u32. split_and!; lia. Qed.

Lemma sample_fill_wf q : 0 ≤ q < 2 ^ 64 → message_wf (sample_fill q).
Proof.
  intros. unfold message_wf, payload_wf, sample_fill, mk_fill. cbn -[u64].
  split_and!; try apply u64_range; unfold in_u64; lia.
Qed.

Lemma order_compute_invariant_witness :
  order_wf (compute sample_vertex sample_order [sample_fill 150] 4).2.
Proof.
  destruct (compute sample_vertex sample_order [sample_fill 150] 4) as [v' d'] eqn:E.
  exact (proj1 (order_compute_invariant _ _ _ _ _ _ sample_order_wf E)).
Defined.

Lemma order_fills_close_witness :
  halted_ (compute sample_vertex sample_order [sample_fill 150; sample_fill 250] 4).1 = true.
Proof.
  destruct (compute sample_vertex sample_order _ 4) as [v' d'] eqn:E.
  refine (proj1 (proj2 (order_fills_close _ _ _ _ _ _ sample_order_wf eq_refl _ _ _ E))).
  - repeat constructor; apply sample_fill_wf; lia.
  - intros m [->|[->|[]%elem_of_nil]%elem_of_cons]%elem_of_cons; done.
  - done.
Defined.

Lemma order_idle_halts_witness :
  halted_ (Nat.iter 11 (λ vd, compute vd.1 vd.2 [] 5) (sample_vertex, quiet_order)).1 = true.
Proof. exact (order_idle_halts sample_vertex quiet_order 5 11 eq_refl eq_refl eq_refl eq_refl). Defined.

End Order.
