(* ===== verification/PriceLevelVertex.v ===== *)
(** Price levels: class [PriceLevelVertex] of [src/order_book_graph.hpp] and its
    [compute] in [src/order_book_graph.cpp].  The arithmetic is unsigned, so
    [compute] is total. *)
From S2P Require Import Prelude Types Vertex.
Local Open Scope Z_scope.

Module PriceLevel.

Record State := mkState {
  price : Z;
  side : Side;
  total_qty : Z;
  order_count : Z;
  venue_id : Z;
  is_best_level : bool;
}.

Record Data := mkData { state_ : State; prev_total_qty_ : Z }.

Definition new (s : State) : Data := mkData s 0.

Definition set_level (q n : Z) (s : State) : State :=
  mkState (price s) (side s) q n (venue_id s) (is_best_level s).

(** The state change of an ORDER_FILL. *)
Definition apply_fill (fill_qty : Z) (s : State) : State :=
  if decide (total_qty s ≤ fill_qty) then set_level 0 0 s
  else set_level (u64 (total_qty s - fill_qty))
         (if decide (0 < order_count s) then u32 (order_count s - 1)
          else order_count s) s.

Definition to_order (e : Edge) : bool := bool_decide (edge_type e = 1).
Definition to_venue (e : Edge) : bool := bool_decide (edge_type e = 2).

(** [Message upd = msg; upd.step = step;] *)
Definition restamp (step : Superstep) (m : Message) : Message :=
  mkMessage (msg_src m) (msg_dst m) (msg_type m) step (msg_payload m).

Definition on_message (step : Superstep) (vs : Vertex * State) (msg : Message)
    : Vertex * State :=
  let '(v, s) := vs in
  match msg_type msg with
  | ORDER_FILL => (v, apply_fill (fill_qty (msg_payload msg)) s)
  | PRICE_UPDATE => (send_along to_order (restamp step msg) v, s)
  | _ => (v, s)
  end.

(** The PRICE_UPDATE that announces the level. *)
Definition level_message (step : Superstep) (s : State) : Message :=
  new_message PRICE_UPDATE step
    (mk_price (if decide (side s = BID) then price s else 0)
              (if decide (side s = ASK) then price s else 0)
              (if decide (side s = BID) then total_qty s else 0)
              (if decide (side s = ASK) then total_qty s else 0)).

Definition compute (v : Vertex) (d : Data) (inbox : list Message) (step : Superstep)
    : Vertex * Data :=
  let '(v, s) := foldl (on_message step) (v, state_ d) inbox in
  let '(v, prev) :=
    if decide (total_qty s = u64 (prev_total_qty_ d)) then (v, prev_total_qty_ d)
    else (send_along to_venue (level_message step s) v, i64_cast (total_qty s)) in
  (if decide (total_qty s = 0 ∧ inbox = []) then vote_to_halt v else v,
   mkData s prev).

(** ** Lemmas *)

Definition level_wf (d : Data) : Prop :=
  in_u64 (total_qty (state_ d)) ∧ in_i64 (prev_total_qty_ d) ∧
  in_i64 (price (state_ d)).

(** The messages the loop forwards to the level's orders. *)
Definition forwards (step : Superstep) (v : Vertex) (inbox : list Message) : list Message :=
  inbox ≫= λ m, if decide (msg_type m = PRICE_UPDATE)
                 then along to_order (restamp step m) v else [].

Lemma apply_fill_total q s :
  in_u64 (total_qty s) → 0 ≤ q →
  total_qty (apply_fill q s) = Z.max 0 (total_qty s - q).
Proof.
  intros [? ?] ?. unfold apply_fill. case_decide; cbn -[u64]; [lia|].
  rewrite u64_small by (unfold in_u64; lia). lia.
Qed.

Lemma apply_fill_static q s :
  price (apply_fill q s) = price s ∧ side (apply_fill q s) = side s.
Proof. unfold apply_fill. by case_decide. Qed.

Lemma along_sends p m v s v' : sends v s v' → along p m v' = along p m v.
Proof. intros (H1&_&_&H2&_). unfold along. by rewrite H1, H2. Qed.

(** The loop over the inbox. *)
Lemma loop_spec step inbox v s :
  in_u64 (total_qty s) → Forall message_wf inbox →
  let vs := foldl (on_message step) (v, s) inbox in
  sends v (forwards step v inbox) vs.1 ∧ halted_ vs.1 = halted_ v ∧
  total_qty vs.2 = Z.max 0 (total_qty s - fills inbox) ∧
  price vs.2 = price s ∧ side vs.2 = side s.
Proof.
  intros Hs Hin. revert v s Hs.
  induction Hin as [|m inbox Hm Hin IH]; intros v s Hs.
  { cbn. destruct Hs. split_and!; try done; [apply sends_refl|lia]. }
  cbn [foldl]. rewrite fills_cons. pose proof (fill_of_nonneg m Hm).
  pose proof (fills_nonneg inbox Hin).
  unfold forwards. rewrite bind_cons. fold (forwards step v inbox).
  assert (∃ v1 s1 sent, on_message step (v, s) m = (v1, s1) ∧
    sent = (if decide (msg_type m = PRICE_UPDATE) then along to_order (restamp step m) v else [])
    ∧ sends v sent v1 ∧ halted_ v1 = halted_ v ∧
    total_qty s1 = Z.max 0 (total_qty s - fill_of m) ∧ price s1 = price s ∧ side s1 = side s)
    as (v1 & s1 & sent & E & <- & Hv & Hh & Ht & Hp & Hd).
  { unfold on_message. destruct (msg_type m) eqn:Et;
      first [rewrite (fill_of_fill _ Et) in * | rewrite fill_of_other in * by congruence];
      do 3 eexists; (split; [done|]); (split; [done|]);
      (split; [first [apply sends_refl|apply send_along_sends]|]);
      (split; [first [done|apply send_along_halted]|]);
      (split; [first [by apply apply_fill_total|destruct Hs; lia]|]);
      first [done|apply apply_fill_static]. }
  rewrite E. assert (in_u64 (total_qty s1)) by (unfold in_u64 in *; lia).
  destruct (IH v1 s1) as (Hv2 & Hh2 & Ht2 & Hp2 & Hd2); [done|].
  split_and!; try congruence; [|lia].
  eapply sends_trans; [exact Hv|].
  replace (forwards step v inbox) with (forwards step v1 inbox); [done|].
  apply list_bind_ext; [|done]. intros m'. by rewrite (along_sends _ _ _ _ _ Hv).
Qed.

Lemma compute_spec v d inbox step :
  level_wf d → Forall message_wf inbox →
  let '(v', d') := compute v d inbox step in
  let q := Z.max 0 (total_qty (state_ d) - fills inbox) in
  let sent := forwards step v inbox ++
    if decide (q = u64 (prev_total_qty_ d)) then []
    else along to_venue (level_message step (state_ d')) v in
  sends v sent v' ∧
  halted_ v' = halted_ v || bool_decide (q = 0 ∧ inbox = []) ∧
  total_qty (state_ d') = q ∧ u64 (prev_total_qty_ d') = q ∧ level_wf d'.
Proof.
  intros (Ht & Hp & Hpr) Hin.
  destruct (loop_spec step inbox v (state_ d) Ht Hin) as (Hs & Hh & Hq & Hprice & _).
  unfold compute. destruct (foldl _ _ _) as [v1 s1]. cbn [fst snd] in *.
  pose proof (fills_nonneg inbox Hin).
  rewrite <- Hq. assert (in_u64 (total_qty s1)) as Hr by (unfold in_u64 in *; lia).
  assert (∀ v2 sent, sends v sent v2 → halted_ v2 = halted_ v1 →
    let v3 := if decide (total_qty s1 = 0 ∧ inbox = []) then vote_to_halt v2 else v2 in
    sends v sent v3 ∧ halted_ v3 = halted_ v || bool_decide (total_qty s1 = 0 ∧ inbox = []))
    as Hend.
  { intros v2 sent Hv2 Hh2. cbn. case_decide; rewrite bool_decide_decide.
    - rewrite decide_True, orb_true_r by done. split; [by apply sends_halted|done].
    - rewrite decide_False, orb_false_r by done. split; [done|congruence]. }
  destruct (decide (total_qty s1 = u64 (prev_total_qty_ d))) as [Hd|Hd].
  - destruct (Hend v1 (forwards step v inbox) Hs eq_refl) as [Hs' Hh'].
    rewrite app_nil_r. unfold level_wf. cbn [state_ prev_total_qty_].
    rewrite Hprice. split_and!; done.
  - destruct (Hend (send_along to_venue (level_message step s1) v1)
               (forwards step v inbox ++ along to_venue (level_message step s1) v1))
      as [Hs' Hh'].
    { eapply sends_trans; [exact Hs|apply send_along_sends]. }
    { by rewrite send_along_halted. }
    rewrite (along_sends _ _ _ _ _ Hs) in Hs'.
    unfold level_wf. cbn [state_ prev_total_qty_]. rewrite Hprice.
    split_and!; auto using i64_cast_range, u64_i64_cast.
Qed.

(** A level keeps its price. *)
Lemma level_price v d inbox step :
  level_wf d → Forall message_wf inbox →
  price (state_ (compute v d inbox step).2) = price (state_ d).
Proof.
  intros (Ht & _) Hin.
  destruct (loop_spec step inbox v (state_ d) Ht Hin) as (_ & _ & _ & Hp & _).
  unfold compute. destruct (foldl _ _ _) as [v1 s1]. by case_decide.
Qed.

Lemma forwards_ok step v inbox :
  vertex_wf v → in_u64 step → Forall message_wf inbox →
  Forall (along_edge v) (forwards step v inbox) ∧ Forall message_wf (forwards step v inbox).
Proof.
  intros Hv Hst Hin. unfold forwards. induction Hin as [|m inbox Hm _ [IH1 IH2]]; [by split|].
  rewrite bind_cons. split; apply Forall_app; (split; [|done]); case_decide;
    auto using along_edges. apply along_wf; [done|].
  destruct Hm as (?&?&_&?). by split_and!.
Qed.

Lemma level_message_wf step s :
  in_u64 step → in_u64 (total_qty s) → message_wf (level_message step s).
Proof.
  intros. unfold message_wf, payload_wf, level_message, new_message, mk_price. cbn -[u64].
  split_and!; try done; try apply u64_range; case_decide; done.
Qed.

(** The contract of the worker. *)
Lemma price_level_compute_law v d inbox step v' d' :
  vertex_wf v → level_wf d → Forall message_wf inbox → in_u64 step →
  compute v d inbox step = (v', d') →
  level_wf d' ∧
  ∃ sent, sends v sent v' ∧ Forall (along_edge v) sent ∧ Forall message_wf sent.
Proof.
  intros Hv Hd Hin Hst Hc. pose proof (compute_spec v d inbox step Hd Hin) as Hs.
  rewrite Hc in Hs. cbn zeta in Hs. destruct Hs as (Hs & _ & _ & _ & Hd').
  split; [done|]. eexists; split; [exact Hs|].
  destruct (forwards_ok step v inbox Hv Hst Hin) as [Hf1 Hf2].
  split; apply Forall_app; (split; [done|]); case_decide; auto using along_edges.
  apply along_wf; [done|]. apply level_message_wf; [done|apply Hd'].
Qed.

(** ** Properties *)

(** C36: What a price level does in a superstep.  Its quantity falls by the
    fills of the inbox, stopping at zero; it forwards every PRICE_UPDATE, in
    order, to each of its orders, restamped; it announces its price and the
    new quantity to its venue exactly when the quantity differs from the last
    one it announced; and it votes to halt exactly when it is empty and got
    no message. *)
Theorem price_level_compute_spec v d inbox step v' d' :
  level_wf d → Forall message_wf inbox → compute v d inbox step = (v', d') →
  let q := Z.max 0 (total_qty (state_ d) - fills inbox) in
  total_qty (state_ d') = q ∧ level_wf d' ∧
  halted_ v' = halted_ v || bool_decide (q = 0 ∧ inbox = []) ∧
  outbox_ v' = outbox_ v ++ forwards step v inbox ++
    if decide (q = u64 (prev_total_qty_ d)) then []
    else along to_venue (level_message step (state_ d')) v.
Proof.
  intros Hd Hin Hc. pose proof (compute_spec v d inbox step Hd Hin) as Hs.
  rewrite Hc in Hs. cbn zeta in *. destruct Hs as ((_&_&_&_&Ho) & ? & ? & _ & ?).
  by split_and!.
Qed.

(** A level announces a quantity once.  After any superstep, a superstep
    without messages sends nothing and leaves the quantity alone. *)
Theorem price_level_announces_once v d inbox step v' d' step' :
  level_wf d → Forall message_wf inbox → compute v d inbox step = (v', d') →
  outbox_ (compute v' d' [] step').1 = outbox_ v' ∧
  total_qty (state_ (compute v' d' [] step').2) = total_qty (state_ d').
Proof.
  intros Hd Hin Hc. pose proof (compute_spec v d inbox step Hd Hin) as Hs.
  rewrite Hc in Hs. cbn zeta in *. destruct Hs as (_ & _ & Hq & Hprev & Hd').
  pose proof (compute_spec v' d' [] step' Hd' (Forall_nil_2 _)) as Hs.
  destruct (compute v' d' [] step') as [v2 d2]. cbn zeta in Hs.
  destruct Hs as ((_&_&_&_&Ho) & _ & Hq2 & _). pose proof Hd' as [[Hq' ?] _].
  cbn [fst snd]. rewrite Ho, Hq2. cbn [fills foldr].
  rewrite decide_True by (rewrite Hprev, <- Hq; lia). cbn. rewrite app_nil_r.
  split; [done|lia].
Qed.

(** ** The theorems at a concrete level *)

Definition sample_vertex : Vertex :=
  mkVertex 5 PRICE_LEVEL 1 false [mkEdge 0 1 2; mkEdge 6 1 1] [].
Definition sample_level : Data := new (mkState 149999900 BID 1000 2 0 true).
Definition sample_fill : Message := mkMessage 6 5 ORDER_FILL 3 (mk_fill 149999900 600 1).

Lemma sample_level_wf : level_wf sample_level.
Proof. unfold level_wf. cbn. unfold in_u64, in_i64. split_and!; lia. Qed.

Lemma level_fill_wf : Forall message_wf [sample_fill].
Proof.
  constructor; [|done]. unfold message_wf, payload_wf, sample_fill, mk_fill. cbn -[u64].
  split_and!; try apply u64_range; unfold in_u64; lia.
Qed.

Lemma price_level_compute_spec_witness :
  total_qty (state_ (compute sample_vertex sample_level [sample_fill] 4).2) = 400.
Proof.
  destruct (compute sample_vertex sample_level [sample_fill] 4) as [v' d'] eqn:E.
  exact (proj1 (price_level_compute_spec _ _ _ _ _ _ sample_level_wf level_fill_wf E)).
Defined.

Lemma price_level_announces_once_witness :
  let vd := compute sample_vertex sample_level [sample_fill] 4 in
  length (outbox_ vd.1) = 1%nat ∧
  outbox_ (compute vd.1 vd.2 [] 5).1 = outbox_ vd.1.
Proof.
  split; [reflexivity|].
  destruct (compute sample_vertex sample_level [sample_fill] 4) as [v' d'] eqn:E.
  exact (proj1 (price_level_announces_once _ _ _ _ _ _ 5 sample_level_wf level_fill_wf E)).
Defined.

End PriceLevel.
