(* ===== verification/VenueVertex.v ===== *)
(** Venues: class [VenueVertex] of [src/order_book_graph.hpp] and its [compute]
    in [src/order_book_graph.cpp].  Prices are [int64_t]: an overflow is [None].
    [latency_us] is written once and never read; it is left out. *)
From S2P Require Import Prelude Types Vertex.
Local Open Scope Z_scope.

Definition FIXED_SCALE : Z := 1000000.
Definition TICK_SIZE : Z := 100.

(** The random source a venue owns.  [rng_seed] is [std::mt19937_64(seed)];
    [noise] is one draw of [std::normal_distribution<double>(0, 2 * TICK_SIZE)]
    from the engine, converted to [int64_t].  The distribution's algorithm is
    left open by the C++ standard, so the source is an interface. *)
Class NoiseSource (R : Type) := { rng_seed : Z → R; noise : R → Z * R }.

Module Venue.
Section Venue.
Context {R : Type} `{NoiseSource R}.

Record State := mkState {
  venue_id : Z;
  name : string;
  best_bid : Z;
  best_ask : Z;
  bid_size : Z;
  ask_size : Z;
  is_primary : bool;
}.

Record Data := mkData { state_ : State; tick_ : Z; rng_ : R }.

Definition new (s : State) : Data :=
  mkData s 0 (rng_seed (u64 (venue_id s * 0xDEADBEEF12345678))).

Definition set_book (b a bs az : Z) (s : State) : State :=
  mkState (venue_id s) (name s) b a bs az (is_primary s).

Definition on_message (s : State) (msg : Message) : State :=
  match msg_type msg with
  | PRICE_UPDATE =>
      let p := msg_payload msg in
      let s := if decide (0 < price_bid p)
               then set_book (Z.max (best_bid s) (price_bid p)) (best_ask s)
                      (u64 (bid_size s + price_bid_qty p)) (ask_size s) s
               else s in
      if decide (0 < price_ask p) then
        if decide (best_ask s = 0 ∨ price_ask p < best_ask s)
        then set_book (best_bid s) (price_ask p) (bid_size s)
               (u64 (ask_size s + price_ask_qty p)) s
        else s
      else s
  | _ => s
  end.

Definition half_spread : Z := TICK_SIZE * 2.

(** The price walk: [mid], then the new bid and ask around it. *)
Definition walk (s : State) (draw : Z) : option State :=
  sum ← i64 (best_bid s + best_ask s);
  let mid := Z.quot sum 2 in
  let mid := if decide (mid = 0) then 100000 * FIXED_SCALE else mid in
  mid ← i64 (mid + draw);
  bid ← i64 (mid - half_spread);
  ask ← i64 (mid + half_spread);
  Some (set_book bid ask (bid_size s) (ask_size s) s).

Definition nbbo_message (step : Superstep) (s : State) : Message :=
  new_message PRICE_UPDATE step
    (mk_price (best_bid s) (best_ask s) (bid_size s) (ask_size s)).

Definition compute (v : Vertex) (d : Data) (inbox : list Message) (step : Superstep)
    : option (Vertex * Data) :=
  let s := foldl on_message (state_ d) inbox in
  let '(draw, rng) := noise (rng_ d) in
  s ← walk s draw;
  Some (send_along (λ _, true) (nbbo_message step s) v,
        mkData s (u32 (tick_ d + 1)) rng).

(** ** Lemmas *)

(** The sizes of the book are in range. *)
Definition venue_wf (d : Data) : Prop :=
  in_u64 (bid_size (state_ d)) ∧ in_u64 (ask_size (state_ d)).

Lemma on_inbox_sizes inbox s :
  in_u64 (bid_size s) ∧ in_u64 (ask_size s) →
  in_u64 (bid_size (foldl on_message s inbox)) ∧ in_u64 (ask_size (foldl on_message s inbox)).
Proof.
  revert s. induction inbox as [|m inbox IH]; intros s Hs; [done|]. apply IH.
  unfold on_message. destruct Hs. destruct (msg_type m); try done.
  repeat case_decide; cbn -[u64]; auto with pregel.
Qed.

(** The contract of the worker. *)
Lemma venue_compute_law v d inbox step v' d' :
  vertex_wf v → venue_wf d → in_u64 step → compute v d inbox step = Some (v', d') →
  venue_wf d' ∧
  ∃ sent, sends v sent v' ∧ Forall (along_edge v) sent ∧ Forall message_wf sent.
Proof.
  intros Hv Hd Hst. unfold compute. destruct (noise _) as [draw r]. intros Hc.
  apply bind_Some in Hc as (s & Hw & [= <- <-]).
  pose proof (on_inbox_sizes inbox _ Hd) as Hs.
  assert (bid_size s = bid_size (foldl on_message (state_ d) inbox) ∧
          ask_size s = ask_size (foldl on_message (state_ d) inbox)) as [Eb Ea].
  { unfold walk in Hw. by simplify_bind. }
  rewrite <- Eb, <- Ea in Hs. split; [exact Hs|].
  eexists; split; [apply send_along_sends|]. split; [apply along_edges|].
  apply along_wf; [done|]. destruct Hs.
  unfold message_wf, payload_wf, nbbo_message, new_message, mk_price. cbn -[u64].
  split_and!; try done; apply u64_range.
Qed.

(** The venue's quotes are within [B] of zero. *)
Definition book_bounded (B : Z) (s : State) : Prop :=
  Z.abs (best_bid s) ≤ B ∧ Z.abs (best_ask s) ≤ B.

(** The quotes a message carries are at most [B]. *)
Definition quotes_bounded (B : Z) (m : Message) : Prop :=
  msg_type m = PRICE_UPDATE →
  price_bid (msg_payload m) ≤ B ∧ price_ask (msg_payload m) ≤ B.

Lemma on_message_bounded B s m :
  book_bounded B s → quotes_bounded B m → book_bounded B (on_message s m).
Proof.
  unfold book_bounded, quotes_bounded, on_message. intros [Hb Ha] Hm.
  destruct (msg_type m); try done. specialize (Hm eq_refl) as [? ?].
  repeat case_decide; cbn in *; lia.
Qed.

Lemma on_inbox_bounded B inbox s :
  book_bounded B s → Forall (quotes_bounded B) inbox →
  book_bounded B (foldl on_message s inbox).
Proof.
  intros Hs Hin. revert s Hs. induction Hin as [|m inbox Hm _ IH]; intros s Hs; [done|].
  apply IH. by apply on_message_bounded.
Qed.

Lemma walk_defined B N s draw :
  book_bounded B s → 100000 * FIXED_SCALE ≤ B → Z.abs draw ≤ N →
  B + N + half_spread < 2 ^ 62 →
  ∃ s', walk s draw = Some s' ∧ book_bounded (B + N + half_spread) s'.
Proof.
  intros [Hb Ha] HB HN Hmax. change half_spread with 200 in *.
  change (100000 * FIXED_SCALE) with 100000000000 in HB.
  unfold walk. change half_spread with 200.
  change (100000 * FIXED_SCALE) with 100000000000.
  rewrite i64_ok by (unfold in_i64; lia). cbn -[Z.quot].
  set (mid := if decide (Z.quot (best_bid s + best_ask s) 2 = 0) then _ else _).
  assert (Z.abs mid ≤ B).
  { unfold mid. case_decide; [lia|]. pose proof (Z.quot_rem' (best_bid s + best_ask s) 2).
    pose proof (Z.rem_bound_abs (best_bid s + best_ask s) 2 ltac:(lia)). lia. }
  rewrite !i64_ok by (unfold in_i64; lia). cbn.
  rewrite !i64_ok by (unfold in_i64; lia). cbn.
  eexists; split; [done|]. unfold book_bounded; cbn. lia.
Qed.

Lemma walk_spread s draw s' :
  walk s draw = Some s' →
  best_ask s' - best_bid s' = 2 * half_spread ∧
  in_i64 (best_bid s') ∧ in_i64 (best_ask s').
Proof.
  unfold walk. intros Hw. simplify_bind. split_and!; try done. lia.
Qed.

(** ** Properties *)

(** A venue always quotes an uncrossed market and never votes to halt.
    Whatever it receives, a superstep of a venue leaves its ask exactly four
    ticks above its bid, sends that quote and nothing else to every neighbour,
    and does not touch the halted flag. *)
Theorem venue_quotes v (d : Data) inbox step v' d' :
  compute v d inbox step = Some (v', d') →
  best_ask (state_ d') - best_bid (state_ d') = 4 * TICK_SIZE ∧
  halted_ v' = halted_ v ∧ tick_ d' = u32 (tick_ d + 1) ∧
  ∃ sent, sends v sent v' ∧ length sent = length (edges_ v) ∧
    Forall (λ m, msg_type m = PRICE_UPDATE ∧
                 price_bid (msg_payload m) = best_bid (state_ d') ∧
                 price_ask (msg_payload m) = best_ask (state_ d')) sent.
Proof.
  unfold compute. destruct (noise (rng_ d)) as [draw r]. intros Hc. simplify_bind.
  match goal with H : walk _ _ = Some _ |- _ => apply walk_spread in H as (Hs & Hb & Ha) end.
  rewrite send_along_halted. split_and!; try done.
  eexists; split; [apply send_along_sends|]. split.
  - rewrite along_all. apply length_fmap.
  - apply Forall_forall. intros m (e & -> & _)%list_elem_of_fmap. cbn -[price_bid price_ask].
    unfold nbbo_message, new_message. cbn [msg_payload].
    by rewrite price_bid_mk, price_ask_mk.
Qed.

(** C37: The price walk cannot overflow while the quotes are bounded.  If the
    book and the quotes received are within [B] of zero, [B] is at least 10^11 (the
    mid price the code starts from when it has no book), the noise drawn is within
    [N], and [B + N + 200] (200 is [half_spread]) is below 2^62, then the superstep is
    defined and its quotes are within [B + N + 200] of zero.  The bound [N] is the
    caller's: nothing bounds what [std::normal_distribution] may draw. *)
Theorem venue_no_overflow B N v (d : Data) inbox step :
  book_bounded B (state_ d) → Forall (quotes_bounded B) inbox →
  100000 * FIXED_SCALE ≤ B → Z.abs (noise (rng_ d)).1 ≤ N →
  B + N + half_spread < 2 ^ 62 →
  ∃ v' d', compute v d inbox step = Some (v', d') ∧
           book_bounded (B + N + half_spread) (state_ d').
Proof.
  intros Hs Hin HB HN Hmax. unfold compute. destruct (noise (rng_ d)) as [draw r].
  destruct (walk_defined B N (foldl on_message (state_ d) inbox) draw) as (s' & -> & Hs');
    try done; [by apply on_inbox_bounded|].
  cbn. eauto.
Qed.

(** A venue without a book starts from a mid price of 10^11, which at six
    decimals is $100,000. *)
Lemma venue_default_price s :
  best_bid s = 0 → best_ask s = 0 →
  ∃ s', walk s 0 = Some s' ∧
        best_bid s' = 100000 * FIXED_SCALE - 200 ∧ best_ask s' = 100000 * FIXED_SCALE + 200.
Proof. intros Hb Ha. unfold walk. rewrite Hb, Ha. eexists; split; [reflexivity|done]. Qed.

End Venue.
Arguments Data R : clear implicits.

(** ** The theorems at a concrete venue *)

(** A deterministic source: draws between -200 and 200. *)
Definition lcg_step (r : Z) : Z := u64 (r * 6364136223846793005 + 1442695040888963407).
#[export] Instance lcg : NoiseSource Z :=
  {| rng_seed s := lcg_step s; noise r := (r `mod` 401 - 200, lcg_step r) |}.

Definition sample_vertex : Vertex :=
  mkVertex 0 VENUE 0 false [mkEdge 5 1 0; mkEdge 9 1 3] [].
Definition sample_venue : Data Z :=
  new (mkState 3 "BATS" 149999900 150000100 500 700 false).
Definition sample_quote : Message :=
  mkMessage 5 0 PRICE_UPDATE 1 (mk_price 149999950 0 100 0).

Lemma venue_quotes_witness :
  ∃ v' d', compute sample_vertex sample_venue [sample_quote] 2 = Some (v', d') ∧
           best_ask (state_ d') - best_bid (state_ d') = 400.
Proof.
  destruct (compute sample_vertex sample_venue [sample_quote] 2) as [[v' d']|] eqn:E.
  - exists v', d'. split; [reflexivity|].
    exact (proj1 (venue_quotes sample_vertex sample_venue [sample_quote] 2 v' d' E)).
  - vm_compute in E. discriminate E.
Defined.

Lemma venue_no_overflow_witness :
  ∃ v' d', compute sample_vertex sample_venue [sample_quote] 2 = Some (v', d') ∧
           book_bounded 100000000400 (state_ d').
Proof.
  refine (venue_no_overflow 100000000000 200 sample_vertex sample_venue [sample_quote] 2 _ _ _ _ _).
  - split; vm_compute; discriminate.
  - constructor; [|constructor]. intros _. split; vm_compute; discriminate.
  - vm_compute; discriminate.
  - vm_compute; discriminate.
  - vm_compute; reflexivity.
Defined.

End Venue.
