(* ===== verification/MarketMakerVertex.v ===== *)
(** Market makers: class [MarketMakerVertex] of [src/order_book_graph.hpp] and its
    [compute] in [src/order_book_graph.cpp].  Positions and prices are [int64_t]:
    an overflow is [None]. *)
From S2P Require Import Prelude Float64 Types Vertex.
Local Open Scope Z_scope.

Definition ARB_THRESHOLD_BPS : Z := 5.

Module MarketMaker.

(** [inventory_limit] is a [double]. *)
Record State := mkState {
  mm_id : Z;
  net_position : Z;
  pnl_fixed : Z;
  fill_count : Z;
  arb_signals_sent : Z;
  inventory_limit : F64.float;
}.

Record Data := mkData { state_ : State; last_known_bid_ : Z; last_known_ask_ : Z }.

Definition new (s : State) : Data := mkData s 0 0.

Definition on_fill (price qty : Z) (s : State) : option State :=
  let delta_qty := i64_cast qty in
  net ← i64 (net_position s + delta_qty);
  cost ← i64 (price * delta_qty);
  pnl ← i64 (pnl_fixed s - cost);
  Some (mkState (mm_id s) net pnl (u64 (fill_count s + 1)) (arb_signals_sent s)
          (inventory_limit s)).

Definition on_message (d : Data) (msg : Message) : option Data :=
  let p := msg_payload msg in
  match msg_type msg with
  | ORDER_FILL =>
      s ← on_fill (fill_price p) (fill_qty p) (state_ d);
      Some (mkData s (last_known_bid_ d) (last_known_ask_ d))
  | PRICE_UPDATE =>
      Some (mkData (state_ d)
              (if decide (0 < price_bid p) then price_bid p else last_known_bid_ d)
              (if decide (0 < price_ask p) then price_ask p else last_known_ask_ d))
  | _ => Some d
  end.

(** The spread in basis points, when bid and ask are known and crossed. *)
Definition arb_bps (d : Data) : option (option Z) :=
  if decide (0 < last_known_bid_ d ∧ 0 < last_known_ask_ d) then
    spread ← i64 (last_known_bid_ d - last_known_ask_ d);
    if decide (0 < spread) then
      sum ← i64 (last_known_bid_ d + last_known_ask_ d);
      let mid := Z.quot sum 2 in
      bps ← (if decide (0 < mid)
             then scaled ← i64 (spread * 10000); Some (Z.quot scaled mid)
             else Some 0);
      Some (if decide (ARB_THRESHOLD_BPS ≤ bps) then Some bps else None)
    else Some None
  else Some None.

Definition arb_message (step : Superstep) (bps : Z) : Message :=
  new_message ARBITRAGE_SIGNAL step (mk_arb bps 0 1).

Definition count_signal (s : State) : State :=
  mkState (mm_id s) (net_position s) (pnl_fixed s) (fill_count s)
    (u64 (arb_signals_sent s + 1)) (inventory_limit s).

Definition compute (v : Vertex) (d : Data) (inbox : list Message) (step : Superstep)
    : option (Vertex * Data) :=
  d ← foldM on_message d inbox;
  signal ← arb_bps d;
  let '(v, s) :=
    match signal with
    | Some bps => (send_along (λ _, true) (arb_message step bps) v,
                   count_signal (state_ d))
    | None => (v, state_ d)
    end in
  position ← i64 (Z.abs (net_position s));
  let v := if F64.lt (inventory_limit s) (F64.of_Z position) then vote_to_halt v
           else if decide (inbox = [] ∧ outbox_ v = []) then vote_to_halt v
           else v in
  Some (v, mkData s (last_known_bid_ d) (last_known_ask_ d)).

(** ** Lemmas *)

Lemma arb_message_wf step bps : in_u64 step → message_wf (arb_message step bps).
Proof.
  intros. unfold message_wf, payload_wf, arb_message, new_message, mk_arb. cbn -[u64].
  split_and!; try done; apply u64_range.
Qed.

(** The contract of the worker. *)
Lemma market_maker_compute_law v d inbox step v' d' :
  vertex_wf v → in_u64 step → compute v d inbox step = Some (v', d') →
  ∃ sent, sends v sent v' ∧ Forall (along_edge v) sent ∧ Forall message_wf sent.
Proof.
  intros Hv Hst. unfold compute. intros Hc. apply bind_Some in Hc as (d1 & _ & Hc).
  apply bind_Some in Hc as (sig & _ & Hc).
  destruct (match sig with Some _ => _ | None => _ end) as [v1 s1] eqn:E.
  apply bind_Some in Hc as (pos & _ & [= <- <-]).
  assert (∃ sent, sends v sent v1 ∧ Forall (along_edge v) sent ∧ Forall message_wf sent)
    as (sent & Hs & Hr).
  { destruct sig; injection E as <- <-; eexists; (split; [|split]);
      [apply send_along_sends|apply along_edges|by apply along_wf, arb_message_wf
      |apply sends_refl|done|done]. }
  exists sent. split; [|done].
  destruct (F64.lt _ _); repeat case_decide; try done; by apply sends_halted.
Qed.

(** What one fill adds to the position and costs. *)
Definition position_of (m : Message) : Z :=
  if decide (msg_type m = ORDER_FILL) then i64_cast (fill_qty (msg_payload m)) else 0.
Definition cost_of (m : Message) : Z :=
  if decide (msg_type m = ORDER_FILL)
  then fill_price (msg_payload m) * i64_cast (fill_qty (msg_payload m)) else 0.
Definition total (f : Message → Z) (inbox : list Message) : Z :=
  foldr (λ m, Z.add (f m)) 0 inbox.

(** A quote with both sides present and not crossed. *)
Definition two_sided (m : Message) : Prop :=
  msg_type m = PRICE_UPDATE →
  0 < price_bid (msg_payload m) < price_ask (msg_payload m).

(** The last quotes do not show an opportunity. *)
Definition uncrossed (d : Data) : Prop :=
  (last_known_bid_ d = 0 ∧ last_known_ask_ d = 0) ∨
  (0 < last_known_bid_ d < last_known_ask_ d ∧ in_i64 (last_known_ask_ d)).

Lemma on_message_ledger d m d' :
  on_message d m = Some d' →
  net_position (state_ d') = net_position (state_ d) + position_of m ∧
  pnl_fixed (state_ d') = pnl_fixed (state_ d) - cost_of m ∧
  inventory_limit (state_ d') = inventory_limit (state_ d).
Proof.
  unfold on_message, on_fill, position_of, cost_of. intros H.
  destruct (msg_type m); simplify_bind; split_and!; first [lia|done].
Qed.

Lemma on_inbox_ledger inbox d d' :
  foldM on_message d inbox = Some d' →
  net_position (state_ d') = net_position (state_ d) + total position_of inbox ∧
  pnl_fixed (state_ d') = pnl_fixed (state_ d) - total cost_of inbox ∧
  inventory_limit (state_ d') = inventory_limit (state_ d).
Proof.
  revert d. induction inbox as [|m inbox IH]; intros d; cbn.
  { intros [= ->]. split_and!; first [lia|done]. }
  intros H. apply bind_Some in H as (d1 & H1 & H2).
  apply on_message_ledger in H1 as (? & ? & ?). apply IH in H2 as (? & ? & ?).
  unfold total in *. split_and!; first [lia|congruence].
Qed.

Lemma on_message_uncrossed d m d' :
  two_sided m → uncrossed d → on_message d m = Some d' → uncrossed d'.
Proof.
  unfold on_message, two_sided, uncrossed. intros Hm Hd H.
  destruct (msg_type m); simplify_bind; auto.
  specialize (Hm eq_refl). repeat (case_decide; [|lia]).
  right. split; [done|]. apply i64_cast_range.
Qed.

Lemma arb_bps_uncrossed d : uncrossed d → arb_bps d = Some None.
Proof.
  unfold uncrossed, arb_bps. intros Hd. case_decide; [|done].
  rewrite (i64_ok (last_known_bid_ d - last_known_ask_ d)) by (unfold in_i64 in *; lia).
  cbn. by rewrite decide_False by lia.
Qed.

(** The guard of the signal, in the integers. *)
Definition signals (b a : Z) : Prop :=
  0 < a ∧ a < b ∧ ARB_THRESHOLD_BPS * ((b + a) / 2) ≤ (b - a) * 10000.
#[export] Instance signals_dec b a : Decision (signals b a).
Proof. unfold signals. apply _. Defined.

Lemma arb_bps_spec d o :
  arb_bps d = Some o →
  let b := last_known_bid_ d in let a := last_known_ask_ d in
  o = if decide (signals b a) then Some ((b - a) * 10000 / ((b + a) / 2)) else None.
Proof.
  unfold arb_bps, signals. cbn zeta.
  set (b := last_known_bid_ d). set (a := last_known_ask_ d). intros H.
  destruct (decide (0 < b ∧ 0 < a)) as [Hpos|Hpos];
    [|injection H as <-; by rewrite decide_False by lia].
  apply bind_Some in H as (spread & [-> _]%i64_Some & H).
  destruct (decide (0 < b - a)) as [Hspread|Hspread];
    [|injection H as <-; by rewrite decide_False by lia].
  apply bind_Some in H as (sum & [-> _]%i64_Some & H).
  assert (1 ≤ (b + a) / 2) by (apply Z.div_le_lower_bound; lia).
  rewrite !(Z.quot_div_nonneg (b + a)) in H by lia. rewrite (decide_True (P := 0 < _)) in H by lia.
  apply bind_Some in H as (bps & Hbps & H).
  apply bind_Some in Hbps as (scaled & [-> _]%i64_Some & [= <-]). injection H as <-.
  rewrite Z.quot_div_nonneg by lia. unfold ARB_THRESHOLD_BPS.
  assert (5 ≤ (b - a) * 10000 / ((b + a) / 2) ↔ 5 * ((b + a) / 2) ≤ (b - a) * 10000)
    as Hiff.
  { split; intros Hle.
    - etrans; [apply Z.mul_le_mono_nonneg_r; [lia|exact Hle]|].
      rewrite Z.mul_comm. apply Z.mul_div_le. lia.
    - apply Z.div_le_lower_bound; lia. }
  repeat case_decide; try done; lia.
Qed.

(** ** Properties *)

(** C38: A market maker's ledger.  A superstep adds the quantities of the fills
    it received to the net position, each taken as a signed number, and
    subtracts their cost from the profit; it raises the halted flag exactly
    when the position, converted to [double], is beyond the inventory limit, or when
    neither an inbox nor an outbox is left to work on; for a limit that is an integer
    below 2^53, as the program's, the comparison is that of the integers. *)
Theorem market_maker_ledger v d inbox step v' d' :
  compute v d inbox step = Some (v', d') →
  net_position (state_ d') = net_position (state_ d) + total position_of inbox ∧
  pnl_fixed (state_ d') = pnl_fixed (state_ d) - total cost_of inbox ∧
  halted_ v' = halted_ v ||
    F64.lt (inventory_limit (state_ d)) (F64.of_Z (Z.abs (net_position (state_ d')))) ||
    bool_decide (inbox = [] ∧ outbox_ v' = []) ∧
  ∀ limit, inventory_limit (state_ d) = F64.of_Z limit → 0 < limit < 2 ^ 53 →
    halted_ v' = halted_ v ||
      bool_decide (limit < Z.abs (net_position (state_ d')) ∨ inbox = [] ∧ outbox_ v' = []).
Proof.
  unfold compute. intros Hc. apply bind_Some in Hc as (d1 & H1 & Hc).
  apply on_inbox_ledger in H1 as (Hn & Hp & Hl).
  apply bind_Some in Hc as (sig & _ & Hc).
  destruct (match sig with Some _ => _ | None => _ end) as [v1 s1] eqn:E.
  assert (halted_ v1 = halted_ v ∧ net_position s1 = net_position (state_ d1) ∧
          pnl_fixed s1 = pnl_fixed (state_ d1) ∧
          inventory_limit s1 = inventory_limit (state_ d1)) as (Hh & Hn1 & Hp1 & Hl1).
  { destruct sig; simplify_eq/=; rewrite ?send_along_halted; done. }
  apply bind_Some in Hc as (pos & Hpos & [= <- <-]).
  apply i64_Some in Hpos as [-> Hpos]. cbn [state_]. rewrite Hl1, Hl.
  set (beyond := F64.lt (inventory_limit (state_ d)) (F64.of_Z (Z.abs (net_position s1)))).
  set (v2 := if beyond then vote_to_halt v1 else _).
  assert (outbox_ v2 = outbox_ v1 ∧ halted_ v2 = halted_ v || beyond ||
            bool_decide (inbox = [] ∧ outbox_ v1 = [])) as [Ho Hv2].
  { unfold v2. rewrite <- Hh, bool_decide_decide. destruct beyond; [|case_decide]; cbn;
      by rewrite ?orb_true_r, ?orb_false_r. }
  split_and!; [lia|lia|by rewrite Hv2, Ho|]. intros limit Hlim Hr.
  unfold beyond in Hv2. rewrite Hlim, F64.lt_of_Z in Hv2 by (unfold in_i64 in *; lia).
  rewrite Hv2, Ho, bool_decide_or, orb_assoc. do 2 f_equal.
  apply eq_true_iff_eq. by rewrite bool_decide_eq_true, Z.ltb_lt.
Qed.

(** The arbitrage signal.  After a superstep the market maker has sent one
    ARBITRAGE_SIGNAL to every neighbour, with the spread in basis points, when
    the last bid and ask it knows are positive and crossed by at least five
    basis points of their midpoint, and nothing otherwise. *)
Theorem market_maker_signal v d inbox step v' d' :
  compute v d inbox step = Some (v', d') →
  let b := last_known_bid_ d' in let a := last_known_ask_ d' in
  outbox_ v' = outbox_ v ++
    if decide (signals b a)
    then along (λ _, true) (arb_message step ((b - a) * 10000 / ((b + a) / 2))) v
    else [].
Proof.
  unfold compute. intros Hc. apply bind_Some in Hc as (d1 & _ & Hc).
  apply bind_Some in Hc as (sig & Hsig & Hc). apply arb_bps_spec in Hsig. cbn zeta in Hsig.
  destruct (match sig with Some _ => _ | None => _ end) as [v1 s1] eqn:E.
  apply bind_Some in Hc as (pos & _ & [= <- <-]). cbn [last_known_bid_ last_known_ask_].
  destruct (decide (signals _ _)); subst sig; injection E as <- <-; rewrite ?app_nil_r;
    destruct (F64.lt _ _); repeat case_decide; cbn [vote_to_halt set_halted outbox_]; try done;
    match goal with |- outbox_ (send_along ?p ?m ?v) = _ =>
      exact (proj2 (proj2 (proj2 (proj2 (send_along_sends p m v))))) end.
Qed.

(** Uncrossed markets are silent.  If every PRICE_UPDATE received has both
    sides, bid below ask, there is no fill among the messages, and the quotes
    known before were not crossed, then the superstep is defined, sends
    nothing, leaves the ledger alone and keeps the quotes uncrossed. *)
Theorem market_maker_uncrossed_silent v d inbox step :
  Forall two_sided inbox → (∀ m, m ∈ inbox → msg_type m ≠ ORDER_FILL) →
  uncrossed d → Z.abs (net_position (state_ d)) < 2 ^ 63 →
  ∃ v' d', compute v d inbox step = Some (v', d') ∧ outbox_ v' = outbox_ v ∧
           uncrossed d' ∧ state_ d' = state_ d.
Proof.
  intros Hin Hfill Hd Hpos.
  destruct (foldM_total (λ d1, uncrossed d1 ∧ state_ d1 = state_ d) on_message inbox d)
    as (d1 & H1 & Hd1 & Hs1); [|done|].
  { intros d1 m Hm [Hd1 Hs1]. rewrite Forall_forall in Hin.
    assert (∃ d2, on_message d1 m = Some d2 ∧ state_ d2 = state_ d1) as (d2 & H2 & Hs2).
    { specialize (Hfill m Hm). unfold on_message. destruct (msg_type m); try done; eauto. }
    exists d2. split_and!; [done| |congruence].
    by eapply on_message_uncrossed; [apply Hin| |]. }
  unfold compute. rewrite H1. cbn [mbind option_bind].
  rewrite arb_bps_uncrossed, Hs1 by done. cbn [mbind option_bind].
  rewrite i64_ok by (unfold in_i64; lia). cbn [mbind option_bind].
  do 2 eexists; split; [done|]. destruct (F64.lt _ _); repeat case_decide; done.
Qed.

(** ** The theorems at a concrete market maker *)

Definition sample_vertex : Vertex :=
  mkVertex 9 MARKET_MAKER 1 false [mkEdge 0 1 0; mkEdge 5 1 2] [].
Definition sample_maker : Data := new (mkState 0 0 0 0 0 (F64.of_Z 1000000)).
Definition sample_fill : Message := mkMessage 6 9 ORDER_FILL 3 (mk_fill 150000000 600 1).
Definition sample_quote (b a : Z) : Message :=
  mkMessage 0 9 PRICE_UPDATE 3 (mk_price b a 100 100).

Lemma market_maker_ledger_witness :
  ∃ v' d', compute sample_vertex sample_maker [sample_fill; sample_fill] 4 = Some (v', d') ∧
           net_position (state_ d') = 1200.
Proof.
  destruct (compute sample_vertex sample_maker [sample_fill; sample_fill] 4) as [[v' d']|] eqn:E.
  - exists v', d'. split; [reflexivity|].
    exact (proj1 (market_maker_ledger _ _ _ _ _ _ E)).
  - vm_compute in E. discriminate E.
Defined.

(** A bid of $150.20 on one venue against an ask of $150.00 on another. *)
Definition crossed_inbox : list Message :=
  [sample_quote 149999800 150000000; sample_quote 150200000 0].

Lemma market_maker_signal_witness :
  ∃ v' d', compute sample_vertex sample_maker crossed_inbox 4 = Some (v', d') ∧
           outbox_ v' = along (λ _, true) (arb_message 4 13) sample_vertex.
Proof.
  destruct (compute sample_vertex sample_maker crossed_inbox 4) as [[v' d']|] eqn:E.
  - exists v', d'. split; [reflexivity|].
    pose proof (market_maker_signal _ _ _ _ _ _ E) as Hs.
    vm_compute in E. injection E as <- <-. exact Hs.
  - vm_compute in E. discriminate E.
Defined.

Lemma market_maker_uncrossed_silent_witness :
  ∃ v' d', compute sample_vertex sample_maker [sample_quote 149999800 150000200] 4
             = Some (v', d') ∧ outbox_ v' = outbox_ sample_vertex ∧
           uncrossed d' ∧ state_ d' = state_ sample_maker.
Proof.
  refine (market_maker_uncrossed_silent sample_vertex sample_maker _ 4 _ _ _ _).
  - constructor; [|constructor]. intros _. split; vm_compute; reflexivity.
  - intros m [->|[]%elem_of_nil]%elem_of_cons. discriminate.
  - left. split; reflexivity.
  - vm_compute. reflexivity.
Defined.

End MarketMaker.
