(* ===== verification/OrderBook.v ===== *)
(** The order-book domain: the four vertex classes of [src/order_book_graph.cpp]
    as one implementation of the [VertexImpl] interface. *)
From S2P Require Import Prelude Types Vertex OrderVertex PriceLevelVertex VenueVertex MarketMakerVertex.
Local Open Scope Z_scope.

(** ** The domain's vertices behind the base class *)

Inductive OBData (R : Type) :=
  | OrderV (d : Order.Data)
  | PriceLevelV (d : PriceLevel.Data)
  | VenueV (d : Venue.Data R)
  | MarketMakerV (d : MarketMaker.Data).
Arguments OrderV {R}.
Arguments PriceLevelV {R}.
Arguments VenueV {R}.
Arguments MarketMakerV {R}.

(** Virtual dispatch. *)
#[export] Instance order_book_compute {R} `{NoiseSource R} : VertexImpl (OBData R) :=
  λ v d inbox step,
    match d with
    | OrderV d => let '(v, d) := Order.compute v d inbox step in Some (v, OrderV d)
    | PriceLevelV d =>
        let '(v, d) := PriceLevel.compute v d inbox step in Some (v, PriceLevelV d)
    | VenueV d => '(v, d) ← Venue.compute v d inbox step; Some (v, VenueV d)
    | MarketMakerV d =>
        '(v, d) ← MarketMaker.compute v d inbox step; Some (v, MarketMakerV d)
    end.

(** The invariant of each class. *)
Definition ob_ok {R} (d : OBData R) : Prop :=
  match d with
  | OrderV d => Order.order_wf d
  | PriceLevelV d => PriceLevel.level_wf d
  | VenueV d => Venue.venue_wf d
  | MarketMakerV _ => True
  end.

(** Every class honours the contract of the worker. *)
#[export] Program Instance order_book_laws {R} `{NoiseSource R} : VertexLaws (OBData R) :=
  {| data_ok := ob_ok |}.
Next Obligation.
  intros R HR v d inbox step v' d' Hv Hd Hin Hst. unfold compute, order_book_compute. destruct d.
  - destruct (Order.compute _ _ _ _) eqn:E. intros [= <- <-].
    by eapply Order.order_compute_law.
  - destruct (PriceLevel.compute _ _ _ _) eqn:E. intros [= <- <-].
    by eapply PriceLevel.price_level_compute_law.
  - destruct (Venue.compute _ _ _ _) as [[]|] eqn:E; [|done]. intros [= <- <-].
    by eapply Venue.venue_compute_law.
  - destruct (MarketMaker.compute _ _ _ _) as [[]|] eqn:E; [|done]. intros [= <- <-].
    split; [done|]. by eapply MarketMaker.market_maker_compute_law.
Qed.
