(* ===== verification/RdmaTransport.v ===== *)
(** The simulated RDMA transport: [src/rdma_transport.hpp],
    [src/rdma_transport.cpp].

    Module [Bytes] is the object representation of a [Message], which
    [post_write] copies with [memcpy].  Module [QP] is [QueuePair]: its queues
    and counters, the calls its owner makes and the steps of its network
    thread, which [NetworkThread] takes apart.  A clock reading is an argument of the operation that takes it, in
    nanoseconds.  Module [Transport] is [RdmaTransport].

    [send_buf_], [recv_buf_] and [next_wr_id_] are never used by the code and
    are left out.  [std::atomic] counters are modelled with the interleaving
    semantics: every update is one step. *)
From S2P Require Import Prelude Types.
Local Open Scope Z_scope.

Module Bytes.

(** [n] bytes of [z], least significant first. *)
Fixpoint le_bytes (n : nat) (z : Z) : list Z :=
  match n with
  | O => []
  | S n => z `mod` 256 :: le_bytes n (z / 256)
  end.

Fixpoint le_value (bs : list Z) : Z :=
  match bs with
  | [] => 0
  | b :: bs => b + 256 * le_value bs
  end.

Definition type_byte (t : MsgType) : Z :=
  match t with
  | ORDER_FILL => 0 | PRICE_UPDATE => 1 | CANCEL_ACK => 2 | POSITION_UPDATE => 3
  | ARBITRAGE_SIGNAL => 4 | HEARTBEAT => 5 | BARRIER_SYNC => 6
  end.

(** The enumerator of a byte; the bytes of a [Message] hold one of the seven. *)
Definition byte_type (b : Z) : MsgType :=
  match b with
  | 0 => ORDER_FILL | 1 => PRICE_UPDATE | 2 => CANCEL_ACK | 3 => POSITION_UPDATE
  | 4 => ARBITRAGE_SIGNAL | 5 => HEARTBEAT | _ => BARRIER_SYNC
  end.

(** The 64 bytes of a message: [src], [dst], [type], [pad] and alignment,
    [step], [payload]. *)
Definition message_bytes (m : Message) : list Z :=
  let p := msg_payload m in
  le_bytes 8 (msg_src m) ++ le_bytes 8 (msg_dst m) ++
  [type_byte (msg_type m)] ++ replicate 7 0 ++ le_bytes 8 (msg_step m) ++
  le_bytes 8 (pw0 p) ++ le_bytes 8 (pw1 p) ++ le_bytes 8 (pw2 p) ++ le_bytes 8 (pw3 p).

(** The 64-bit word at an offset. *)
Definition word_at (off : nat) (bs : list Z) : Z := le_value (take 8 (drop off bs)).

Definition message_of_bytes (bs : list Z) : Message :=
  mkMessage (word_at 0 bs) (word_at 8 bs) (byte_type (nth 16 bs 0)) (word_at 24 bs)
    (mkPayload (word_at 32 bs) (word_at 40 bs) (word_at 48 bs) (word_at 56 bs)).

(** [memcpy(dst, src, len)] *)
Definition memcpy (dst src : list Z) (len : nat) : list Z := take len src ++ drop len dst.

Lemma le_value_bytes n z : le_value (le_bytes n z) = z `mod` 256 ^ Z.of_nat n.
Proof.
  revert z. induction n as [|n IH]; intros z; cbn [le_bytes le_value].
  { symmetry. apply Z.mod_1_r. }
  rewrite IH, Nat2Z.inj_succ, Z.pow_succ_r by lia.
  rewrite Z.rem_mul_r by (try apply Z.pow_pos_nonneg; lia). lia.
Qed.

Lemma word_roundtrip z : in_u64 z → le_value (le_bytes 8 z) = z.
Proof. intros. rewrite le_value_bytes. by apply Z.mod_small. Qed.

Lemma message_bytes_length m : length (message_bytes m) = 64%nat.
Proof. reflexivity. Qed.

Lemma message_roundtrip m : message_wf m → message_of_bytes (message_bytes m) = m.
Proof.
  intros (Hs & Hd & Ht & H0 & H1 & H2 & H3). destruct m as [s d t st [p0 p1 p2 p3]].
  cbn [msg_src msg_dst msg_step msg_payload pw0 pw1 pw2 pw3] in *.
  unfold message_of_bytes, word_at.
  assert (∀ z, take 8 (le_bytes 8 z) = le_bytes 8 z) as Htake by reflexivity.
  change (byte_type _) with (byte_type (type_byte t)).
  change (take 8 (drop 0 _)) with (le_bytes 8 s).
  change (take 8 (drop 8 _)) with (le_bytes 8 d).
  change (take 8 (drop 24 _)) with (le_bytes 8 st).
  change (take 8 (drop 32 _)) with (le_bytes 8 p0).
  change (take 8 (drop 40 _)) with (le_bytes 8 p1).
  change (take 8 (drop 48 _)) with (le_bytes 8 p2).
  change (take 8 (drop 56 _)) with (le_bytes 8 p3).
  rewrite !word_roundtrip by done. by destruct t.
Qed.

(** Copying a whole message onto another gives that message's bytes. *)
Lemma memcpy_all m m0 :
  memcpy (message_bytes m0) (message_bytes m) (Z.to_nat sizeof_Message) = message_bytes m.
Proof. reflexivity. Qed.

End Bytes.

Module QP.

Record PendingWrite := mkPending { pw_wr_id : Z; pw_msg : Message; deliver_at : Z }.

(** [RdmaCompletion] *)
Record Completion := mkCompletion { wr_id : Z; bytes : Z; success : bool }.

Record QueuePair := mkQP {
  local_ : WorkerId;
  remote_ : WorkerId;
  inbox_ : list Message;
  pending_wr_ : Z;
  in_flight_ : list PendingWrite;
  cq_ : list Completion;
}.

Definition new (local remote : WorkerId) : QueuePair := mkQP local remote [] 0 [] [].

(** [RDMA_LATENCY_US] in nanoseconds. *)
Definition RDMA_LATENCY_NS : Z := 2 * 1000.

Definition post_write (now : Z) (src : list Z) (len wr : Z) (qp : QueuePair)
    : QueuePair * bool :=
  if decide (sizeof_Message < len) then (qp, false)
  else
    let msg := Bytes.message_of_bytes
                 (Bytes.memcpy (Bytes.message_bytes message_zero) src (Z.to_nat len)) in
    (mkQP (local_ qp) (remote_ qp) (inbox_ qp) (u64 (pending_wr_ qp + 1))
       (in_flight_ qp ++ [mkPending wr msg (now + RDMA_LATENCY_NS)]) (cq_ qp), true).

(** The body of the inner loop of [network_loop]; [None]: its condition is
    false and the loop ends. *)
Definition network_step (now : Z) (qp : QueuePair) : option QueuePair :=
  match in_flight_ qp with
  | pw :: rest =>
      if decide (deliver_at pw ≤ now) then
        Some (mkQP (local_ qp) (remote_ qp) (inbox_ qp ++ [pw_msg pw])
                (u64 (pending_wr_ qp - 1)) rest
                (cq_ qp ++ [mkCompletion (pw_wr_id pw) sizeof_Message true]))
      else None
  | [] => None
  end.

(** One pass of the inner loop: each iteration takes the next clock reading.
    The pass is complete when the readings outnumber the writes in flight. *)
Fixpoint network_pass (clock : list Z) (qp : QueuePair) : QueuePair :=
  match clock with
  | [] => qp
  | now :: clock =>
      match network_step now qp with
      | Some qp => network_pass clock qp
      | None => qp
      end
  end.

(** [poll_cq(max_completions)]; a negative bound makes an iterator before
    [begin()], which is undefined. *)
Definition poll_cq (max_completions : Z) (qp : QueuePair)
    : option (QueuePair * list Completion) :=
  let n := Z.min (i32_cast (Z.of_nat (length (cq_ qp)))) max_completions in
  if decide (0 ≤ n) then
    Some (mkQP (local_ qp) (remote_ qp) (inbox_ qp) (pending_wr_ qp) (in_flight_ qp)
            (drop (Z.to_nat n) (cq_ qp)),
          take (Z.to_nat n) (cq_ qp))
  else None.

(** The condition on which the loop of [flush] ends. *)
Definition flush_done (qp : QueuePair) : bool := bool_decide (pending_wr_ qp ≤ 0).

Definition drain_received (qp : QueuePair) : QueuePair * list Message :=
  (mkQP (local_ qp) (remote_ qp) [] (pending_wr_ qp) (in_flight_ qp) (cq_ qp), inbox_ qp).

(** ** Runs of a queue pair *)

Inductive Event :=
  | Post (now : Z) (m : Message) (wr : Z)
  | Deliver (now : Z)
  | Drain
  | Poll (max_completions : Z).

(** A queue pair with what its owner has got out of it. *)
Record Run := mkRun {
  qp : QueuePair;
  drained : list Message;
  polled : list Completion;
}.

Inductive step : Run → Event → Run → Prop :=
  | step_post r now m wr :
      step r (Post now m wr)
        (mkRun (post_write now (Bytes.message_bytes m) sizeof_Message wr (qp r)).1
           (drained r) (polled r))
  | step_deliver r now q :
      network_step now (qp r) = Some q →
      step r (Deliver now) (mkRun q (drained r) (polled r))
  | step_drain r :
      step r Drain (mkRun (drain_received (qp r)).1
                      (drained r ++ (drain_received (qp r)).2) (polled r))
  | step_poll r n q cs :
      poll_cq n (qp r) = Some (q, cs) →
      step r (Poll n) (mkRun q (drained r) (polled r ++ cs)).

Inductive steps : Run → list Event → Run → Prop :=
  | steps_nil r : steps r [] r
  | steps_snoc r evs r' ev r'' :
      steps r evs r' → step r' ev r'' → steps r (evs ++ [ev]) r''.

Definition start (local remote : WorkerId) : Run := mkRun (new local remote) [] [].

(** The messages and work requests a run posted. *)
Definition posted (evs : list Event) : list Message :=
  evs ≫= λ ev, match ev with Post _ m _ => [m] | _ => [] end.
Definition posted_wr (evs : list Event) : list Z :=
  evs ≫= λ ev, match ev with Post _ _ wr => [wr] | _ => [] end.
Definition event_wf (ev : Event) : Prop :=
  match ev with Post _ m _ => message_wf m | _ => True end.

(** ** Lemmas *)

(** The messages a queue pair holds, oldest first. *)
Definition contents (q : QueuePair) : list Message :=
  inbox_ q ++ (pw_msg <$> in_flight_ q).

(** The pending counter counts the writes in flight. *)
Definition qp_wf (q : QueuePair) : Prop :=
  pending_wr_ q = u64 (Z.of_nat (length (in_flight_ q))).

Lemma post_write_message now m wr q :
  message_wf m →
  post_write now (Bytes.message_bytes m) sizeof_Message wr q =
    (mkQP (local_ q) (remote_ q) (inbox_ q) (u64 (pending_wr_ q + 1))
       (in_flight_ q ++ [mkPending wr m (now + RDMA_LATENCY_NS)]) (cq_ q), true).
Proof.
  intros Hm. unfold post_write. rewrite decide_False by (unfold sizeof_Message; lia).
  rewrite Bytes.memcpy_all, Bytes.message_roundtrip by done. done.
Qed.

Lemma post_write_wf now src len wr q : qp_wf q → qp_wf (post_write now src len wr q).1.
Proof.
  unfold qp_wf, post_write. intros Hq. case_decide; [done|]. cbn -[u64].
  rewrite length_app, Hq. cbn [length]. unfold u64. rewrite Zplus_mod_idemp_l. f_equal. lia.
Qed.

Lemma network_step_inv now q q' :
  network_step now q = Some q' →
  contents q' = contents q ∧ length (in_flight_ q) = S (length (in_flight_ q')) ∧
  (qp_wf q → qp_wf q').
Proof.
  unfold network_step, contents, qp_wf. intros H.
  destruct (in_flight_ q) as [|pw rest] eqn:E; [done|]. case_decide; [|done].
  injection H as <-. cbn -[u64]. split_and!; [by rewrite <- app_assoc|done|].
  intros ->. unfold u64. rewrite Zminus_mod_idemp_l. f_equal. lia.
Qed.

Lemma network_pass_inv clock q :
  contents (network_pass clock q) = contents q ∧ (qp_wf q → qp_wf (network_pass clock q)).
Proof.
  revert q. induction clock as [|now clock IH]; intros q; cbn; [done|].
  destruct (network_step now q) as [q'|] eqn:E; [|done].
  apply network_step_inv in E as (<- & _ & Hwf). destruct (IH q') as [-> ?]. auto.
Qed.

(** With readings that are late enough, and enough of them, a pass delivers
    everything in flight. *)
Lemma network_pass_all n now q :
  (length (in_flight_ q) ≤ n)%nat → Forall (λ pw, deliver_at pw ≤ now) (in_flight_ q) →
  in_flight_ (network_pass (replicate n now) q) = [] ∧
  inbox_ (network_pass (replicate n now) q) = contents q.
Proof.
  revert q. induction n as [|n IH]; intros q Hn Hf; unfold contents; cbn.
  { destruct (in_flight_ q); [|cbn in Hn; lia]. by rewrite app_nil_r. }
  unfold network_step. destruct (in_flight_ q) as [|pw rest] eqn:E.
  { rewrite E. by rewrite app_nil_r. }
  apply Forall_cons in Hf as [Hpw Hf]. rewrite decide_True by done.
  destruct (IH (mkQP (local_ q) (remote_ q) (inbox_ q ++ [pw_msg pw])
                  (u64 (pending_wr_ q - 1)) rest
                  (cq_ q ++ [mkCompletion (pw_wr_id pw) sizeof_Message true])))
    as [-> ->]; [cbn in *; lia|done|].
  split; [done|]. unfold contents; cbn. by rewrite <- app_assoc.
Qed.

(** The invariant of a run. *)
Definition run_inv (evs : list Event) (r : Run) : Prop :=
  posted evs = drained r ++ contents (qp r) ∧
  posted_wr evs = (wr_id <$> polled r ++ cq_ (qp r)) ++ (pw_wr_id <$> in_flight_ (qp r)) ∧
  Forall (λ c, bytes c = sizeof_Message ∧ success c = true) (polled r ++ cq_ (qp r)) ∧
  qp_wf (qp r).

Lemma step_inv evs r ev r' :
  run_inv evs r → event_wf ev → step r ev r' → run_inv (evs ++ [ev]) r'.
Proof.
  unfold run_inv, posted, posted_wr. intros (Hp & Hw & Hc & Hq) Hev Hs.
  rewrite !bind_app, Hp, Hw. destruct Hs; cbn [mbind list_bind]; rewrite ?app_nil_r.
  - cbn in Hev. pose proof (post_write_wf now (Bytes.message_bytes m) sizeof_Message wr _ Hq).
    rewrite post_write_message in * by done. unfold contents in *.
    cbn [fst qp drained polled inbox_ in_flight_ cq_] in *.
    rewrite !fmap_app. split_and!; try done; by rewrite <- !app_assoc.
  - cbn [qp drained polled]. pose proof (network_step_inv _ _ _ H) as (-> & _ & Hwf).
    split_and!; auto; unfold network_step in H;
      destruct (in_flight_ (qp r)) as [|pw rest]; try done; case_decide; try done;
      injection H as <-; cbn -[u64].
    + rewrite !fmap_app, <- !app_assoc. cbn. done.
    + rewrite app_assoc. apply Forall_app; split; [done|]. by repeat constructor.
  - unfold contents in *. cbn. split_and!; try done. by rewrite <- app_assoc.
  - unfold poll_cq in H. case_decide; [|done]. injection H as <- <-. cbn.
    rewrite <- (take_drop (Z.to_nat (Z.min (i32_cast (Z.of_nat (length (cq_ (qp r))))) n))
                  (cq_ (qp r))) in Hw, Hc.
    rewrite <- !app_assoc, take_drop in *. split_and!; done.
Qed.

Lemma steps_inv evs l rem r :
  steps (start l rem) evs r → Forall event_wf evs → run_inv evs r.
Proof.
  intros Hs. remember (start l rem) as r0 eqn:E.
  induction Hs as [r|r evs r' ev r'' Hs IH Hstep]; intros Hev.
  - subst. unfold run_inv, qp_wf. by split_and!.
  - apply Forall_app in Hev as [Hev Hev1]. apply Forall_cons in Hev1 as [Hev1 _].
    eapply step_inv; [by apply IH|exact Hev1|exact Hstep].
Qed.

(** ** Properties *)

(** A queue pair delivers each posted message exactly once, in order.  In
    every run, the messages posted so far are, in the order of the posts, the
    ones drained, then the ones in the inbox, then the ones in flight; the
    completions polled and waiting are those of the delivered writes, in
    order, each of one message's size; and the pending counter is the number
    of writes in flight. *)
Theorem queue_pair_fifo local remote evs r :
  steps (start local remote) evs r → Forall event_wf evs →
  posted evs = drained r ++ inbox_ (qp r) ++ (pw_msg <$> in_flight_ (qp r)) ∧
  posted_wr evs = (wr_id <$> polled r ++ cq_ (qp r)) ++ (pw_wr_id <$> in_flight_ (qp r)) ∧
  Forall (λ c, bytes c = sizeof_Message ∧ success c = true) (polled r ++ cq_ (qp r)) ∧
  pending_wr_ (qp r) = u64 (Z.of_nat (length (in_flight_ (qp r)))).
Proof. intros Hs Hev. exact (steps_inv _ _ _ _ Hs Hev). Qed.

(** [flush] ends once the wire has had its latency.  A pass of the network
    thread whose clock is past every delivery time, with at least as many
    iterations as there are writes in flight, empties the wire into the inbox
    in order and brings the pending counter to zero, which is the condition
    that ends the loop of [flush]. *)
Theorem queue_pair_flush_terminates q now n :
  qp_wf q → Forall (λ pw, deliver_at pw ≤ now) (in_flight_ q) →
  (length (in_flight_ q) ≤ n)%nat →
  let q' := network_pass (replicate n now) q in
  in_flight_ q' = [] ∧ inbox_ q' = inbox_ q ++ (pw_msg <$> in_flight_ q) ∧
  flush_done q' = true.
Proof.
  intros Hwf Hf Hn. cbn zeta. destruct (network_pass_all n now q Hn Hf) as [Hnil Hbox].
  split_and!; [done|done|]. destruct (network_pass_inv (replicate n now) q) as [_ Hwf'].
  unfold flush_done, qp_wf in *. specialize (Hwf' Hwf). rewrite Hwf', Hnil. done.
Qed.

(** [post_write] bounds the copy.  A request longer than a message is
    refused and changes nothing; a whole message arrives on the wire as it was
    in memory, through its 64 bytes. *)
Theorem post_write_copies now m src len wr q :
  message_wf m →
  (sizeof_Message < len → post_write now src len wr q = (q, false)) ∧
  post_write now (Bytes.message_bytes m) sizeof_Message wr q =
    (mkQP (local_ q) (remote_ q) (inbox_ q) (u64 (pending_wr_ q + 1))
       (in_flight_ q ++ [mkPending wr m (now + RDMA_LATENCY_NS)]) (cq_ q), true).
Proof.
  intros Hm. split; [|by apply post_write_message].
  intros Hlen. unfold post_write. by rewrite decide_True.
Qed.

(** ** The theorems at a concrete queue pair *)

Definition sample_message (i : Z) : Message :=
  mkMessage i 7 ORDER_FILL 3 (mk_fill 150000000 600 i).

Lemma sample_message_wf i : in_u64 i → message_wf (sample_message i).
Proof.
  intros. unfold message_wf, payload_wf, sample_message, mk_fill. cbn -[u64].
  split_and!; try apply u64_range; try done; unfold in_u64; lia.
Qed.

Definition sample_pair : QueuePair :=
  mkQP 0 1 [sample_message 1] 2
    [mkPending 5 (sample_message 2) 2100; mkPending 6 (sample_message 3) 2200] [].

Lemma queue_pair_fifo_witness :
  let evs := [Post 0 (sample_message 1) 0; Post 5 (sample_message 2) 1; Deliver 2001; Drain] in
  ∃ r, steps (start 0 1) evs r ∧
       posted evs = drained r ++ inbox_ (qp r) ++ (pw_msg <$> in_flight_ (qp r)) ∧
       drained r = [sample_message 1].
Proof.
  cbn zeta.
  pose proof (steps_snoc _ _ _ _ _ (steps_nil (start 0 1))
                (step_post _ 0 (sample_message 1) 0)) as H1.
  pose proof (steps_snoc _ _ _ _ _ H1 (step_post _ 5 (sample_message 2) 1)) as H2.
  pose proof (steps_snoc _ _ _ (Deliver 2001) _ H2
                ltac:(eapply step_deliver; reflexivity)) as H3.
  pose proof (steps_snoc _ _ _ _ _ H3 (step_drain _)) as H4.
  eexists. split; [exact H4|split; [|reflexivity]].
  refine (proj1 (queue_pair_fifo _ _ _ _ H4 _)).
  repeat constructor; apply sample_message_wf; unfold in_u64; lia.
Defined.

Lemma queue_pair_flush_terminates_witness :
  flush_done (network_pass (replicate 2 3000) sample_pair) = true.
Proof.
  refine (proj2 (proj2 (queue_pair_flush_terminates sample_pair 3000 2 _ _ _))).
  - reflexivity.
  - repeat constructor; vm_compute; discriminate.
  - vm_compute; reflexivity.
Defined.

Lemma post_write_copies_witness :
  post_write 0 (Bytes.message_bytes (sample_message 4)) sizeof_Message 7 sample_pair =
    (mkQP 0 1 [sample_message 1] 3
       (in_flight_ sample_pair ++ [mkPending 7 (sample_message 4) 2000]) [], true).
Proof.
  exact (proj2 (post_write_copies 0 (sample_message 4) [] 0 7 sample_pair
                  (sample_message_wf 4 ltac:(unfold in_u64; lia)))).
Defined.

End QP.

Module Transport.
Import QP.

Record RdmaTransport := mkTransport {
  local_id_ : WorkerId;
  worker_count_ : Z;
  qps_ : list (option QueuePair);
  bytes_sent_ : Z;
  rdma_ops_ : Z;
}.

(** One queue pair per remote worker. *)
Definition new (local_id : WorkerId) (worker_count : Z) : RdmaTransport :=
  mkTransport local_id worker_count
    ((λ i : nat, if decide (Z.of_nat i = local_id) then None
                 else Some (QP.new local_id (Z.of_nat i)))
       <$> seq 0 (Z.to_nat worker_count))
    0 0.

(** [qps_[i]], the test [!qps_[i]] included. *)
Definition qp_at (t : RdmaTransport) (i : WorkerId) : option QueuePair :=
  mjoin (qps_ t !! Z.to_nat i).

Definition set_qp (i : WorkerId) (q : QueuePair) (t : RdmaTransport) : RdmaTransport :=
  mkTransport (local_id_ t) (worker_count_ t) (<[Z.to_nat i := Some q]> (qps_ t))
    (bytes_sent_ t) (rdma_ops_ t).

(** [dst >= worker_count_ || dst == local_id_ || !qps_[dst]] is false. *)
Definition connected (t : RdmaTransport) (dst : WorkerId) : option QueuePair :=
  if decide (worker_count_ t ≤ dst ∨ dst = local_id_ t) then None else qp_at t dst.

Definition send (now : Z) (dst : WorkerId) (msg : Message) (t : RdmaTransport)
    : RdmaTransport * bool :=
  match connected t dst with
  | None => (t, false)
  | Some q =>
      let wr := rdma_ops_ t in
      let t := mkTransport (local_id_ t) (worker_count_ t) (qps_ t) (bytes_sent_ t)
                 (u64 (rdma_ops_ t + 1)) in
      let '(q, ok) := post_write now (Bytes.message_bytes msg) sizeof_Message wr q in
      let t := set_qp dst q t in
      let t := if ok : bool
               then mkTransport (local_id_ t) (worker_count_ t) (qps_ t)
                      (u64 (bytes_sent_ t + sizeof_Message)) (rdma_ops_ t)
               else t in
      (t, ok)
  end.

(** The loop of [send_batch]; [clock] gives each message its reading. *)
Fixpoint send_loop (clock : nat → Z) (dst : WorkerId) (msgs : list Message)
    (t : RdmaTransport) (ok : bool) : RdmaTransport * bool :=
  match msgs with
  | [] => (t, ok)
  | m :: msgs =>
      let '(t, ok') := send (clock O) dst m t in
      send_loop (λ i, clock (S i)) dst msgs t (ok && ok')
  end.

Definition send_batch (clock : nat → Z) (dst : WorkerId) (msgs : list Message)
    (t : RdmaTransport) : RdmaTransport * bool :=
  match connected t dst with
  | None => (t, false)
  | Some _ => send_loop clock dst msgs t true
  end.

Definition receive_from (src : WorkerId) (t : RdmaTransport)
    : RdmaTransport * list Message :=
  match connected t src with
  | None => (t, [])
  | Some q => let '(q, msgs) := drain_received q in (set_qp src q t, msgs)
  end.

(** [receive_all]: the indices [i], [i + 1], .. of the loop. *)
Fixpoint receive_loop (ids : list nat) (t : RdmaTransport) (all : list Message)
    : RdmaTransport * list Message :=
  match ids with
  | [] => (t, all)
  | i :: ids =>
      let i := Z.of_nat i in
      if decide (i = local_id_ t) then receive_loop ids t all
      else match qp_at t i with
           | None => receive_loop ids t all
           | Some q => let '(q, msgs) := drain_received q in
                       receive_loop ids (set_qp i q t) (all ++ msgs)
           end
  end.

Definition receive_all (t : RdmaTransport) : RdmaTransport * list Message :=
  receive_loop (seq 0 (Z.to_nat (worker_count_ t))) t [].

(** [poll_completions]: the loop over [qps_], with [poll_cq]'s default bound. *)
Fixpoint poll_loop (qs : list (option QueuePair)) : option (list (option QueuePair) * Z) :=
  match qs with
  | [] => Some ([], 0)
  | None :: qs => '(qs, n) ← poll_loop qs; Some (None :: qs, n)
  | Some q :: qs =>
      '(q, cs) ← poll_cq 64 q;
      '(qs, n) ← poll_loop qs;
      Some (Some q :: qs, Z.of_nat (length cs) + n)
  end.

Definition poll_completions (t : RdmaTransport) : option (RdmaTransport * Z) :=
  '(qs, n) ← poll_loop (qps_ t);
  Some (mkTransport (local_id_ t) (worker_count_ t) qs (bytes_sent_ t) (rdma_ops_ t), u64 n).

(** The network threads of the transport run: each entry is a pass of the
    thread of one queue pair with its clock readings. *)
Definition network_run (passes : list (nat * list Z)) (t : RdmaTransport) : RdmaTransport :=
  foldl (λ t p,
           match qps_ t !! p.1 with
           | Some (Some q) => set_qp (Z.of_nat p.1) (network_pass p.2 q) t
           | _ => t
           end) t passes.

(** ** Lemmas *)

(** One slot per worker, empty exactly for the local one. *)
Definition transport_wf (t : RdmaTransport) : Prop :=
  length (qps_ t) = Z.to_nat (worker_count_ t) ∧
  ∀ i o, qps_ t !! i = Some o → (o = None ↔ Z.of_nat i = local_id_ t).

(** Every message the transport holds satisfies [P]. *)
Definition transport_all (P : Message → Prop) (t : RdmaTransport) : Prop :=
  ∀ i q, qps_ t !! i = Some (Some q) → Forall P (contents q).

Lemma transport_all_and P Q t :
  transport_all P t → transport_all Q t → transport_all (λ m, P m ∧ Q m) t.
Proof. intros HP HQ i q Hq. apply Forall_and; split; [by eapply HP|by eapply HQ]. Qed.

(** What no operation changes. *)
Definition same_wiring (t t' : RdmaTransport) : Prop :=
  local_id_ t' = local_id_ t ∧ worker_count_ t' = worker_count_ t ∧
  length (qps_ t') = length (qps_ t) ∧
  ∀ i : nat, is_Some (mjoin (qps_ t' !! i)) ↔ is_Some (mjoin (qps_ t !! i)).

#[export] Instance same_wiring_preorder : PreOrder same_wiring.
Proof.
  split.
  - intros t. by split_and!.
  - intros t1 t2 t3 (?&?&?&W1) (?&?&?&W2). split_and!; try congruence.
    intros i. by rewrite W2, W1.
Qed.

Lemma qp_at_Some t i q : qp_at t i = Some q ↔ qps_ t !! Z.to_nat i = Some (Some q).
Proof. unfold qp_at. destruct (qps_ t !! Z.to_nat i) as [[]|]; cbn; naive_solver. Qed.

Lemma connected_Some t dst q :
  connected t dst = Some q ↔ dst < worker_count_ t ∧ dst ≠ local_id_ t ∧ qp_at t dst = Some q.
Proof. unfold connected. case_decide; [split; [done|lia]|]. intuition lia. Qed.

Lemma transport_new_wf l n : transport_wf (new l n).
Proof.
  split; [cbn; by rewrite length_fmap, length_seq|].
  intros i o. cbn. rewrite list_lookup_fmap. intros (j & Hj & ->)%fmap_Some.
  apply lookup_seq in Hj as [-> _]. cbn [Nat.add]. by case_decide.
Qed.

Lemma transport_new_all P l n : transport_all P (new l n).
Proof.
  intros i q. cbn. rewrite list_lookup_fmap. intros (j & Hj & Hq)%fmap_Some.
  case_decide; simplify_eq. by constructor.
Qed.

Lemma set_qp_wiring i q0 q t :
  qps_ t !! Z.to_nat i = Some (Some q0) → same_wiring t (set_qp i q t).
Proof.
  intros Hi. split_and!; try done; cbn; [by rewrite length_insert|].
  intros j. destruct (decide (Z.to_nat i = j)) as [<-|Hne].
  - rewrite list_lookup_insert_eq by (by eapply lookup_lt_Some). rewrite Hi. done.
  - by rewrite list_lookup_insert_ne.
Qed.

Lemma set_qp_all P i q t :
  transport_all P t → Forall P (contents q) → transport_all P (set_qp i q t).
Proof.
  intros Ht Hq j q'. cbn. intros Hj.
  apply list_lookup_insert_Some in Hj as [(_ & ? & _)|(_ & Hj)]; [naive_solver|by eapply Ht].
Qed.

(** *** Sending *)

(** The state after one message went out through the queue pair [q]. *)
Lemma send_spec now dst m t q :
  connected t dst = Some q → message_wf m →
  ∃ q', send now dst m t =
    (mkTransport (local_id_ t) (worker_count_ t) (<[Z.to_nat dst := Some q']> (qps_ t))
       (u64 (bytes_sent_ t + sizeof_Message)) (u64 (rdma_ops_ t + 1)), true) ∧
    inbox_ q' = inbox_ q ∧
    in_flight_ q' = in_flight_ q ++ [mkPending (rdma_ops_ t) m (now + RDMA_LATENCY_NS)].
Proof.
  intros Hc Hm. unfold send. rewrite Hc, post_write_message by done. eexists. by split_and!.
Qed.

(** The loop of [send_batch]: every message is posted, in order, to the queue
    pair of the destination, and no other queue pair is touched. *)
Lemma send_loop_spec clock dst msgs t q ok now :
  connected t dst = Some q → Forall message_wf msgs →
  (∀ i, (i < length msgs)%nat → clock i + RDMA_LATENCY_NS ≤ now) →
  ∃ q' t', send_loop clock dst msgs t ok = (t', ok) ∧
    connected t' dst = Some q' ∧ inbox_ q' = inbox_ q ∧
    contents q' = contents q ++ msgs ∧
    length (in_flight_ q') = (length (in_flight_ q) + length msgs)%nat ∧
    (Forall (λ pw, deliver_at pw ≤ now) (in_flight_ q) →
     Forall (λ pw, deliver_at pw ≤ now) (in_flight_ q')) ∧
    same_wiring t t' ∧
    (∀ i, i ≠ Z.to_nat dst → qps_ t' !! i = qps_ t !! i) ∧
    u64 (bytes_sent_ t') = u64 (bytes_sent_ t + sizeof_Message * Z.of_nat (length msgs)) ∧
    u64 (rdma_ops_ t') = u64 (rdma_ops_ t + Z.of_nat (length msgs)).
Proof.
  revert clock t q. induction msgs as [|m msgs IH]; intros clock t q Hc Hwf Hclock.
  { exists q, t. cbn. rewrite app_nil_r, !Z.add_0_r. by split_and!. }
  apply Forall_cons in Hwf as [Hm Hms].
  destruct (send_spec (clock O) dst m t q Hc Hm) as (q1 & Hsend & Hin1 & Hfl1).
  pose proof Hc as (Hlt & Hne & Hq%qp_at_Some)%connected_Some.
  set (t1 := mkTransport _ _ _ _ _) in Hsend.
  assert (connected t1 dst = Some q1) as Hc1.
  { apply connected_Some. split_and!; try done. apply qp_at_Some. cbn.
    apply list_lookup_insert_eq. by eapply lookup_lt_Some. }
  destruct (IH (λ i, clock (S i)) t1 q1 Hc1 Hms) as
    (q' & t' & Hloop & Hc' & Hin & Hcont & Hlen & Hdel & Hw & Hoth & Hb & Ho).
  { intros i Hi. apply Hclock. cbn. lia. }
  exists q', t'. cbn [send_loop]. rewrite Hsend, andb_true_r. split_and!; try done.
  - congruence.
  - rewrite Hcont. unfold contents. rewrite Hin1, Hfl1, fmap_app, <- !app_assoc. done.
  - rewrite Hlen, Hfl1, length_app. cbn. lia.
  - intros Hf. apply Hdel. rewrite Hfl1. apply Forall_app. split; [done|].
    repeat constructor. cbn. apply (Hclock O). cbn. lia.
  - etrans; [|exact Hw]. by apply (set_qp_wiring dst q q1 t).
  - intros i Hi. rewrite Hoth by done. cbn. by rewrite list_lookup_insert_ne.
  - rewrite Hb. cbn [t1 bytes_sent_ length]. unfold u64. rewrite Zplus_mod_idemp_l.
    f_equal. lia.
  - rewrite Ho. cbn [t1 rdma_ops_ length]. unfold u64. rewrite Zplus_mod_idemp_l.
    f_equal. lia.
Qed.

Lemma send_batch_effect clock dst msgs t :
  Forall message_wf msgs →
  match connected t dst with
  | None => send_batch clock dst msgs t = (t, false)
  | Some q =>
      ∃ t' q', send_batch clock dst msgs t = (t', true) ∧
        connected t' dst = Some q' ∧ contents q' = contents q ++ msgs ∧
        (∀ i, i ≠ Z.to_nat dst → qps_ t' !! i = qps_ t !! i) ∧
        u64 (bytes_sent_ t') = u64 (bytes_sent_ t + sizeof_Message * Z.of_nat (length msgs)) ∧
        u64 (rdma_ops_ t') = u64 (rdma_ops_ t + Z.of_nat (length msgs))
  end.
Proof.
  intros Hm. unfold send_batch. destruct (connected t dst) as [q|] eqn:Hc; [|done].
  destruct (send_loop_spec clock dst msgs t q true
              (foldr Z.max 0 ((λ i, clock i + RDMA_LATENCY_NS) <$> seq 0 (length msgs))) Hc Hm)
    as (q' & t' & ? & ? & _ & ? & _ & _ & _ & ? & ? & ?); [|by exists t', q'].
  intros i Hi. assert (i ∈ seq 0 (length msgs)) as Hin by (apply elem_of_seq; lia).
  revert Hin. generalize (seq 0 (length msgs)) as l. clear.
  induction l as [|j l IH]; intros Hin; [by apply elem_of_nil in Hin|].
  cbn. apply elem_of_cons in Hin as [->|Hin]; [lia|]. specialize (IH Hin). lia.
Qed.

Lemma send_wiring now dst m t : same_wiring t (send now dst m t).1.
Proof.
  unfold send. destruct (connected t dst) as [q|] eqn:Hc; [|done].
  apply connected_Some in Hc as (_ & _ & Hq%qp_at_Some).
  destruct (post_write _ _ _ _ _) as [q' ok].
  destruct ok; exact (set_qp_wiring dst q q' t Hq).
Qed.

Lemma send_all P now dst m t :
  P m → message_wf m → transport_all P t → transport_all P (send now dst m t).1.
Proof.
  intros HP Hm Ht. destruct (connected t dst) as [q|] eqn:Hc; [|by unfold send; rewrite Hc].
  destruct (send_spec now dst m t q Hc Hm) as (q' & -> & Hin & Hfl).
  apply connected_Some in Hc as (_ & _ & Hq%qp_at_Some).
  apply (set_qp_all P dst q' t Ht). unfold contents. rewrite Hin, Hfl, fmap_app, app_assoc.
  apply Forall_app; split; [by apply (Ht _ _ Hq)|by constructor].
Qed.

Lemma send_batch_wiring clock dst msgs t : same_wiring t (send_batch clock dst msgs t).1.
Proof.
  unfold send_batch. destruct (connected t dst); [|done]. generalize true as ok.
  revert clock t. induction msgs as [|m msgs IH]; intros clock t ok; [done|]. cbn [send_loop].
  pose proof (send_wiring (clock O) dst m t) as Hw.
  destruct (send _ _ _ _) as [t1 ok1]. etrans; [exact Hw|apply IH].
Qed.

Lemma send_batch_all P clock dst msgs t :
  Forall P msgs → Forall message_wf msgs → transport_all P t →
  transport_all P (send_batch clock dst msgs t).1.
Proof.
  unfold send_batch. destruct (connected t dst); [|done]. generalize true as ok.
  intros ok HP Hm. revert clock t ok HP.
  induction Hm as [|m msgs Hm _ IH]; intros clock t ok HP Ht; [done|]. cbn [send_loop].
  apply Forall_cons in HP as [HPm HP].
  pose proof (send_all P (clock O) dst m t HPm Hm Ht) as Hs.
  destruct (send _ _ _ _) as [t1 ok1]. by apply IH.
Qed.

(** *** Receiving *)

Lemma receive_loop_wiring ids t all : same_wiring t (receive_loop ids t all).1.
Proof.
  revert t all. induction ids as [|i ids IH]; intros t all; [done|]. cbn [receive_loop].
  case_decide; [apply IH|]. destruct (qp_at t (Z.of_nat i)) as [q|] eqn:Hq; [|apply IH].
  cbn. etrans; [|apply IH]. by eapply set_qp_wiring, qp_at_Some.
Qed.

Lemma receive_all_wiring t : same_wiring t (receive_all t).1.
Proof. apply receive_loop_wiring. Qed.

Lemma receive_loop_all P ids t all :
  transport_all P t → Forall P all →
  transport_all P (receive_loop ids t all).1 ∧ Forall P (receive_loop ids t all).2.
Proof.
  revert t all. induction ids as [|i ids IH]; intros t all Ht Hall; [done|].
  cbn [receive_loop]. case_decide; [by apply IH|].
  destruct (qp_at t (Z.of_nat i)) as [q|] eqn:Hq; [|by apply IH]. cbn.
  apply qp_at_Some, Ht, Forall_app in Hq as [Hin Hfl].
  apply IH; [|by apply Forall_app]. by apply set_qp_all.
Qed.

Lemma receive_all_all P t :
  transport_all P t →
  transport_all P (receive_all t).1 ∧ Forall P (receive_all t).2.
Proof. intros. by apply receive_loop_all. Qed.

Lemma network_run_wiring passes t : same_wiring t (network_run passes t).
Proof.
  revert t. induction passes as [|[i clock] passes IH]; intros t; cbn; [done|].
  destruct (qps_ t !! i) as [[q|]|] eqn:Hq; try apply IH.
  etrans; [|apply IH]. apply (set_qp_wiring _ q). by rewrite Nat2Z.id.
Qed.

Lemma transport_network_run_all P passes t : transport_all P t → transport_all P (network_run passes t).
Proof.
  revert t. induction passes as [|[i clock] passes IH]; intros t Ht; cbn; [done|].
  apply IH. destruct (qps_ t !! i) as [[q|]|] eqn:Hq; try done.
  apply set_qp_all; [done|]. destruct (network_pass_inv clock q) as [-> _]. by eapply Ht.
Qed.

(** A transport without remote workers never delivers anything. *)
Lemma receive_all_alone t :
  transport_wf t → worker_count_ t = 1 → local_id_ t = 0 → receive_all t = (t, []).
Proof.
  intros [Hlen Hslots] Hn Hl. unfold receive_all. rewrite Hn.
  change (seq 0 (Z.to_nat 1)) with [O]. cbn [receive_loop]. by rewrite decide_True.
Qed.

Lemma network_run_alone passes t :
  transport_wf t → worker_count_ t = 1 → local_id_ t = 0 → network_run passes t = t.
Proof.
  intros [Hlen Hslots] Hn Hl. induction passes as [|[i clock] passes IH]; cbn; [done|].
  destruct (qps_ t !! i) as [[q|]|] eqn:Hq; [|done..].
  assert (i = O) as ->.
  { apply lookup_lt_Some in Hq. rewrite Hlen, Hn in Hq. lia. }
  apply Hslots in Hq. rewrite Hl in Hq. by destruct Hq as [_ Hq]; specialize (Hq eq_refl).
Qed.

(** ** Properties *)

(** Sending to a remote worker.  [send_batch] to a connected worker
    succeeds, appends the messages in order to the queue pair of that worker
    and to no other, and accounts one operation and 64 bytes for each; to the
    local worker or an unknown one it fails and changes nothing. *)
Theorem send_batch_spec clock dst msgs t :
  Forall message_wf msgs →
  match connected t dst with
  | None => send_batch clock dst msgs t = (t, false)
  | Some q =>
      ∃ t' q', send_batch clock dst msgs t = (t', true) ∧
        connected t' dst = Some q' ∧ contents q' = contents q ++ msgs ∧
        (∀ i, i ≠ Z.to_nat dst → qps_ t' !! i = qps_ t !! i) ∧
        u64 (bytes_sent_ t') = u64 (bytes_sent_ t + sizeof_Message * Z.of_nat (length msgs)) ∧
        u64 (rdma_ops_ t') = u64 (rdma_ops_ t + Z.of_nat (length msgs))
  end.
Proof.
  exact (send_batch_effect clock dst msgs t).
Qed.

(** C34: The transport is a loop-back.  A batch sent to a remote worker comes
    back, once its latency has passed, from [receive_from] of that worker on
    the *sending* transport, after whatever was there: the network thread puts
    it into the sender's own queue pair. *)
Theorem transport_loops_back clock dst msgs t q now n :
  connected t dst = Some q → Forall message_wf msgs →
  Forall (λ pw, deliver_at pw ≤ now) (in_flight_ q) →
  (∀ i, (i < length msgs)%nat → clock i + RDMA_LATENCY_NS ≤ now) →
  (length (in_flight_ q) + length msgs ≤ n)%nat →
  let t1 := (send_batch clock dst msgs t).1 in
  let t2 := network_run [(Z.to_nat dst, replicate n now)] t1 in
  (receive_from dst t2).2 = contents q ++ msgs.
Proof.
  intros Hc Hm Hfl Hclock Hn. cbn zeta.
  destruct (send_loop_spec clock dst msgs t q true now Hc Hm Hclock)
    as (q' & t' & Hs & Hc' & _ & Hcont & Hlen & Hdel & _ & _ & _ & _).
  unfold send_batch. rewrite Hc, Hs. cbn [fst].
  apply connected_Some in Hc' as (Hlt & Hne & Hq%qp_at_Some).
  cbn [network_run foldl fst snd]. rewrite Hq.
  destruct (network_pass_all n now q') as [_ Hall]; [lia|auto|].
  set (t2 := set_qp _ _ _).
  assert (connected t2 dst = Some (network_pass (replicate n now) q')) as Hc2.
  { apply connected_Some. split_and!; try done. apply qp_at_Some. cbn.
    rewrite Nat2Z.id. apply list_lookup_insert_eq. by eapply lookup_lt_Some. }
  unfold receive_from. rewrite Hc2. cbn. by rewrite Hall, Hcont.
Qed.

(** ** The theorems at a concrete transport *)

(** Worker 0 of three. *)
Definition sample_transport : RdmaTransport := new 0 3.
Definition sample_batch : list Message := [sample_message 1; sample_message 2].

Lemma sample_batch_wf : Forall message_wf sample_batch.
Proof. repeat constructor; apply sample_message_wf; unfold in_u64; lia. Qed.

Lemma send_batch_spec_witness :
  ∃ t' q', send_batch (λ _, 10) 2 sample_batch sample_transport = (t', true) ∧
           contents q' = sample_batch ∧ connected t' 2 = Some q'.
Proof.
  destruct (send_batch_spec (λ _, 10) 2 sample_batch sample_transport sample_batch_wf)
    as (t' & q' & H1 & H2 & H3 & _).
  exists t', q'. split; [exact H1|split; [exact H3|exact H2]].
Defined.

Lemma transport_loops_back_witness :
  let t1 := (send_batch (λ _, 10) 2 sample_batch sample_transport).1 in
  (receive_from 2 (network_run [(2%nat, replicate 2 5000)] t1)).2 = sample_batch.
Proof.
  refine (transport_loops_back (λ _, 10) 2 sample_batch sample_transport (QP.new 0 2) 5000 2
            eq_refl sample_batch_wf _ _ _).
  - constructor.
  - intros i _. vm_compute. discriminate.
  - vm_compute. reflexivity.
Defined.

End Transport.
