(* ===== verification/NetworkThread.v ===== *)
(** The network thread of a queue pair: [QueuePair] of [src/rdma_transport.hpp] and
    [src/rdma_transport.cpp], critical section by critical section.

    [RdmaTransport.QP] takes an iteration of [network_loop], and a [post_write], for
    one step.  Here they are the accesses they consist of: the critical sections of
    [flight_mu_], [mu_] and [cq_mu_], the atomic counter, and the tests of [stop_].
    The thread and the owner of the queue pair interleave between them.  The
    condition variable only delays the thread, for at most a millisecond: a wait
    returns at any time.  The owner is one thread, the worker's main thread: it makes
    the calls one after the other, and [~QueuePair] last.

    The theorems are that the fine steps refine those of [QP], where the completions
    lag behind; that [flush] waits for what was posted, and returns; and that the
    join in the destructor returns. *)
From S2P Require Import Prelude Types RdmaTransport.
Local Open Scope Z_scope.

Module Net.
Import QP.

(** ** The accesses *)

(** [post_write], whole messages: the section of [flight_mu_].. *)
Definition push_flight (now : Z) (m : Message) (wr : Z) (q : QueuePair) : QueuePair :=
  let msg := Bytes.message_of_bytes
               (Bytes.memcpy (Bytes.message_bytes message_zero) (Bytes.message_bytes m)
                  (Z.to_nat sizeof_Message)) in
  mkQP (local_ q) (remote_ q) (inbox_ q) (pending_wr_ q)
    (in_flight_ q ++ [mkPending wr msg (now + RDMA_LATENCY_NS)]) (cq_ q).

(** ..and the count after it. *)
Definition count_post (q : QueuePair) : QueuePair :=
  mkQP (local_ q) (remote_ q) (inbox_ q) (u64 (pending_wr_ q + 1)) (in_flight_ q) (cq_ q).

(** [network_loop]: the test and the pop, with [flight_mu_] held; [None]: the inner
    loop ends.. *)
Definition take_write (now : Z) (q : QueuePair) : option (PendingWrite * QueuePair) :=
  match in_flight_ q with
  | pw :: rest =>
      if decide (deliver_at pw ≤ now) then
        Some (pw, mkQP (local_ q) (remote_ q) (inbox_ q) (pending_wr_ q) rest (cq_ q))
      else None
  | [] => None
  end.

(** ..the section of [mu_].. *)
Definition receive (pw : PendingWrite) (q : QueuePair) : QueuePair :=
  mkQP (local_ q) (remote_ q) (inbox_ q ++ [pw_msg pw]) (pending_wr_ q) (in_flight_ q) (cq_ q).

(** ..the section of [cq_mu_].. *)
Definition completion (pw : PendingWrite) : Completion :=
  mkCompletion (pw_wr_id pw) sizeof_Message true.
Definition complete (pw : PendingWrite) (q : QueuePair) : QueuePair :=
  mkQP (local_ q) (remote_ q) (inbox_ q) (pending_wr_ q) (in_flight_ q)
    (cq_ q ++ [completion pw]).

(** ..and the count. *)
Definition uncount (q : QueuePair) : QueuePair :=
  mkQP (local_ q) (remote_ q) (inbox_ q) (u64 (pending_wr_ q - 1)) (in_flight_ q) (cq_ q).

(** One after the other they are the steps of [QP]. *)
Lemma post_write_accesses now m wr q :
  post_write now (Bytes.message_bytes m) sizeof_Message wr q =
    (count_post (push_flight now m wr q), true).
Proof. reflexivity. Qed.

Lemma network_step_accesses now q :
  network_step now q =
    '(pw, q) ← take_write now q; Some (uncount (complete pw (receive pw q))).
Proof. unfold network_step, take_write. destruct (in_flight_ q); [done|]. by case_decide. Qed.

(** ** The threads *)

(** Where the network thread is. *)
Inductive NetPC :=
  | Testing                        (* at the test of [stop_] *)
  | Waiting                        (* in [wait_for] *)
  | Taken (pw : PendingWrite)      (* popped, [flight_mu_] released *)
  | Received (pw : PendingWrite)   (* in the inbox *)
  | Completed                      (* completed, not yet uncounted *)
  | Locking                        (* at [lk.lock()] *)
  | Exited.

(** Where the owner is. *)
Inductive OwnerPC :=
  | Idle       (* between two calls, or in the loop of [flush] *)
  | Posting    (* inside [post_write], pushed and not counted *)
  | Joining    (* in the destructor, [stop_] is set *)
  | Joined.

(** The queue pair with what its owner has got out of it, and the threads. *)
Record State := mkState { run : Run; stop_ : bool; net : NetPC; owner : OwnerPC }.

(** The constructor starts the thread. *)
Definition init (local remote : WorkerId) : State :=
  mkState (QP.start local remote) false Testing Idle.

Definition set_qp (q : QueuePair) (r : Run) : Run := mkRun q (drained r) (polled r).

(** What can happen: the accesses of the owner, and one of the network thread, with
    the reading of the clock if it takes one. *)
Inductive Access :=
  | Push (now : Z) (m : Message) (wr : Z)
  | CountPost
  | DrainReceived
  | PollCq (max_completions : Z)
  | SetStop
  | Join
  | Network (now : Z).

(** Back in the inner loop, with [flight_mu_] held. *)
Definition loop_test (now : Z) (st : State) : State :=
  match take_write now (qp (run st)) with
  | Some (pw, q) => mkState (set_qp q (run st)) (stop_ st) (Taken pw) (owner st)
  | None => mkState (run st) (stop_ st) Testing (owner st)
  end.

(** [network_loop] *)
Definition network_access (now : Z) (st : State) : option State :=
  let q := qp (run st) in
  let goto pc q := Some (mkState (set_qp q (run st)) (stop_ st) pc (owner st)) in
  match net st with
  | Testing => goto (if stop_ st then Exited else Waiting) q
  | Waiting | Locking => Some (loop_test now st)
  | Taken pw => goto (Received pw) (receive pw q)
  | Received pw => goto Completed (complete pw q)
  | Completed => goto Locking (uncount q)
  | Exited => None
  end.

Definition access (st : State) (a : Access) : option State :=
  let r := run st in
  match a, owner st with
  | Push now m wr, Idle =>
      Some (mkState (set_qp (push_flight now m wr (qp r)) r) (stop_ st) (net st) Posting)
  | CountPost, Posting => Some (mkState (set_qp (count_post (qp r)) r) (stop_ st) (net st) Idle)
  | DrainReceived, Idle =>
      let '(q, ms) := drain_received (qp r) in
      Some (mkState (mkRun q (drained r ++ ms) (polled r)) (stop_ st) (net st) Idle)
  | PollCq n, Idle =>
      '(q, cs) ← poll_cq n (qp r);
      Some (mkState (mkRun q (drained r) (polled r ++ cs)) (stop_ st) (net st) Idle)
  | SetStop, Idle => Some (mkState r true (net st) Joining)
  | Join, Joining =>
      match net st with Exited => Some (mkState r (stop_ st) Exited Joined) | _ => None end
  | Network now, _ => network_access now st
  | _, _ => None
  end.

Definition accesses (st : State) (l : list Access) : option State := foldM access st l.

(** ** The refinement *)

(** The steps of [QP] that an access stands for: a write is delivered when its
    message gets into the inbox. *)
Definition event (st : State) (a : Access) : list Event :=
  match a with
  | Push now m wr => [Post now m wr]
  | DrainReceived => [Drain]
  | Network _ => match net st with Taken pw => [Deliver (deliver_at pw)] | _ => [] end
  | _ => []
  end.

Fixpoint events (st : State) (l : list Access) : list Event :=
  match l with
  | [] => []
  | a :: l =>
      event st a ++ match access st a with Some st => events st l | None => [] end
  end.

(** The write that is on its way from the wire to the inbox, and the one received
    whose completion is not there yet. *)
Definition taken (st : State) : list PendingWrite :=
  match net st with Taken pw => [pw] | _ => [] end.
Definition lagging (st : State) : list Completion :=
  match net st with Received pw => [completion pw] | _ => [] end.

(** The writes the counter still counts though they have left the wire, and those it
    does not count yet. *)
Definition leaving (st : State) : Z :=
  match net st with Taken _ | Received _ | Completed => 1 | _ => 0 end.
Definition posting (st : State) : Z := match owner st with Posting => 1 | _ => 0 end.

(** The state of a queue pair, as the steps of [QP] have it. *)
Record refines (st : State) (r : Run) : Prop := {
  rf_inbox : inbox_ (qp r) = inbox_ (qp (run st));
  rf_drained : drained r = drained (run st);
  rf_flight : in_flight_ (qp r) = taken st ++ in_flight_ (qp (run st));
  rf_cq : polled r ++ cq_ (qp r) = (polled (run st) ++ cq_ (qp (run st))) ++ lagging st;
  rf_pending : pending_wr_ (qp (run st)) =
    u64 (Z.of_nat (length (in_flight_ (qp (run st)))) + leaving st - posting st);
}.

(** [stop_] is set by the destructor only, the thread ends only after that, and is
    joined only when it has ended. *)
Definition threads_ok (st : State) : Prop :=
  stop_ st = match owner st with Joining | Joined => true | _ => false end ∧
  (net st = Exited → stop_ st = true) ∧ (owner st = Joined → net st = Exited).

Lemma init_refines local remote : refines (init local remote) (QP.start local remote).
Proof. by constructor. Qed.

(** The counter goes up and down by one. *)
Lemma u64_succ z : u64 (u64 z + 1) = u64 (z + 1).
Proof. unfold u64. apply Zplus_mod_idemp_l. Qed.
Lemma u64_pred z : u64 (u64 z - 1) = u64 (z - 1).
Proof. unfold u64. apply Zminus_mod_idemp_l. Qed.

Lemma take_write_Some now q pw q' :
  take_write now q = Some (pw, q') →
  in_flight_ q = pw :: in_flight_ q' ∧ inbox_ q' = inbox_ q ∧ cq_ q' = cq_ q ∧
  pending_wr_ q' = pending_wr_ q ∧ deliver_at pw ≤ now.
Proof.
  unfold take_write. destruct (in_flight_ q) as [|pw0 rest] eqn:E; [done|].
  case_decide; [|done]. by intros [= <- <-].
Qed.

(** The test of the inner loop, which the thread makes when no write is leaving. *)
Lemma loop_test_refines now st r :
  refines st r → net st = Waiting ∨ net st = Locking → refines (loop_test now st) r.
Proof.
  intros [Hi Hd Hf Hc Hp] Hnet.
  assert (taken st = [] ∧ lagging st = [] ∧ leaving st = 0) as (Et & El & Ev).
  { unfold taken, lagging, leaving. by destruct Hnet as [-> | ->]. }
  rewrite Et in Hf. rewrite El in Hc. rewrite Ev in Hp. unfold loop_test.
  destruct (take_write now (qp (run st))) as [[pw q]|] eqn:E.
  - apply take_write_Some in E as (E1 & E2 & E3 & E4 & _). constructor; cbn; try done.
    + by rewrite E2.
    + by rewrite Hf, E1.
    + by rewrite E3.
    + rewrite E4, Hp, E1. cbn [length]. unfold posting. cbn [owner]. f_equal. lia.
  - by constructor.
Qed.

(** An access of the network thread. *)
Lemma network_refines now r0 evs st r st' :
  steps r0 evs r → refines st r → network_access now st = Some st' →
  ∃ r', steps r0 (evs ++ event st (Network now)) r' ∧ refines st' r'.
Proof.
  intros Hr Hst Ha. pose proof Hst as [Hi Hd Hf Hc Hp].
  unfold network_access in Ha. unfold event, taken, lagging, leaving in *.
  destruct (net st) as [| |pw|pw| | |] eqn:En; try done; rewrite ?app_nil_r in *.
  - injection Ha as <-. exists r. split; [done|].
    destruct (stop_ st); by constructor; cbn; rewrite ?app_nil_r.
  - injection Ha as <-. exists r. split; [done|]. apply loop_test_refines; auto.
  - injection Ha as <-. cbn [app] in Hf.
    eexists. split.
    { eapply steps_snoc; [exact Hr|]. apply step_deliver. unfold network_step. rewrite Hf.
      by rewrite decide_True. }
    constructor; cbn; try done; try congruence. by rewrite app_assoc, Hc.
  - injection Ha as <-. exists r. split; [done|]. constructor; cbn; rewrite ?app_nil_r; try done.
    by rewrite app_assoc.
  - injection Ha as <-. exists r. split; [done|]. constructor; cbn; rewrite ?app_nil_r; try done.
    rewrite Hp, u64_pred. f_equal. unfold posting. cbn [owner]. lia.
  - injection Ha as <-. exists r. split; [done|]. apply loop_test_refines; auto.
Qed.

(** An access of anyone. *)
Lemma access_refines r0 evs st r a st' :
  steps r0 evs r → refines st r → access st a = Some st' →
  ∃ r', steps r0 (evs ++ event st a) r' ∧ refines st' r'.
Proof.
  intros Hr Hst Ha. destruct a; cbn [access] in Ha;
    [..|by eapply network_refines]; pose proof Hst as [Hi Hd Hf Hc Hp];
    destruct (owner st) eqn:Eo; try done; unfold posting in Hp; rewrite Eo in Hp.
  - injection Ha as <-. eexists. split; [eapply steps_snoc; [exact Hr|apply step_post]|].
    rewrite post_write_accesses. constructor; cbn; try done.
    + by rewrite Hf, <- app_assoc.
    + rewrite Hp, length_app. cbn [length]. unfold leaving. cbn [net]. f_equal. lia.
  - injection Ha as <-. exists r. cbn [event]. rewrite app_nil_r. split; [done|].
    constructor; cbn; try done.
    rewrite Hp, u64_succ. unfold leaving, posting. cbn [net owner]. f_equal. lia.
  - injection Ha as <-. eexists. split; [eapply steps_snoc; [exact Hr|apply step_drain]|].
    constructor; cbn; try done. congruence.
  - apply bind_Some in Ha as ([q cs] & Hq & [= <-]). exists r. cbn [event]. rewrite app_nil_r.
    split; [done|]. unfold poll_cq in Hq. case_decide; [|done]. injection Hq as <- <-.
    constructor; cbn; try done.
    rewrite Hc. unfold lagging. cbn [net]. by rewrite <- !app_assoc, (app_assoc (take _ _)), take_drop.
  - injection Ha as <-. exists r. cbn [event]. rewrite app_nil_r. split; [done|].
    by constructor.
  - destruct (net st) eqn:En; try done. injection Ha as <-. exists r. cbn [event].
    rewrite app_nil_r. split; [done|].
    unfold taken, lagging, leaving in *. rewrite En in *. by constructor.
Qed.

Lemma accesses_refine r0 evs st r l st' :
  steps r0 evs r → refines st r → accesses st l = Some st' →
  ∃ r', steps r0 (evs ++ events st l) r' ∧ refines st' r'.
Proof.
  unfold accesses. revert evs st r. induction l as [|a l IH]; intros evs st r Hr Hst Hl.
  { injection Hl as <-. exists r. cbn [events]. by rewrite app_nil_r. }
  cbn [foldM] in Hl. apply bind_Some in Hl as (st1 & Ha & Hl). cbn [events]. rewrite Ha.
  destruct (access_refines _ _ _ _ _ _ Hr Hst Ha) as (r1 & Hr1 & Hst1).
  rewrite app_assoc. by apply (IH _ _ r1).
Qed.

Lemma network_ok now st st' :
  threads_ok st → network_access now st = Some st' → threads_ok st'.
Proof.
  unfold threads_ok, network_access, loop_test. intros (Hs & He & Hj) Ha.
  destruct (net st) eqn:En; try done;
    try (destruct (take_write _ _) as [[]|]); injection Ha as <-; cbn;
    (split_and!; [exact Hs|try done|by intros ?%Hj]).
  by destruct (stop_ st).
Qed.

Lemma access_ok st a st' : threads_ok st → access st a = Some st' → threads_ok st'.
Proof.
  intros Hok Ha. destruct a; cbn [access] in Ha; [..|by eapply network_ok];
    destruct Hok as (Hs & He & Hj); unfold threads_ok; destruct (owner st) eqn:Eo; try done;
    try (injection Ha as <-; cbn; by split_and!).
  - apply bind_Some in Ha as ([q cs] & _ & [= <-]). by cbn.
  - destruct (net st) eqn:En; try done. injection Ha as <-. cbn. by split_and!.
Qed.

Lemma init_ok local remote : threads_ok (init local remote).
Proof. done. Qed.

Lemma accesses_ok st l st' : threads_ok st → accesses st l = Some st' → threads_ok st'.
Proof. intros Hok. apply foldM_inv; [|done]. intros ? a ? _. apply access_ok. Qed.

(** ** What was posted *)

Definition pushed (l : list Access) : list Message :=
  l ≫= λ a, match a with Push _ m _ => [m] | _ => [] end.
Definition pushed_wr (l : list Access) : list Z :=
  l ≫= λ a, match a with Push _ _ wr => [wr] | _ => [] end.
Definition access_wf (a : Access) : Prop :=
  match a with Push _ m _ => message_wf m | _ => True end.

Lemma event_posted st a :
  posted (event st a) = pushed [a] ∧ posted_wr (event st a) = pushed_wr [a] ∧
  (access_wf a → Forall event_wf (event st a)).
Proof.
  unfold event. destruct a; [|..|destruct (net st)];
    (split_and!; [done..|intros; by rewrite ?Forall_singleton, ?Forall_nil]).
Qed.

Lemma events_posted st l st' :
  accesses st l = Some st' →
  posted (events st l) = pushed l ∧ posted_wr (events st l) = pushed_wr l ∧
  (Forall access_wf l → Forall event_wf (events st l)).
Proof.
  unfold accesses. revert st. induction l as [|a l IH]; intros st; cbn [foldM events]; [done|].
  intros (st1 & Ha & Hl)%bind_Some. rewrite Ha. apply IH in Hl as (Hp & Hw & Hwf).
  destruct (event_posted st a) as (Hp1 & Hw1 & Hwf1). unfold posted, posted_wr in *.
  rewrite !bind_app, Hp, Hw, Hp1, Hw1. unfold pushed, pushed_wr. rewrite <- !bind_app.
  split_and!; [done..|]. intros [H1 H2]%Forall_cons. apply Forall_app. auto.
Qed.

(** Every posted message is somewhere, once, in order; so is its completion, which
    appears after the message. *)
Lemma reachable_contents local remote l st :
  accesses (init local remote) l = Some st → Forall access_wf l →
  pushed l = drained (run st) ++ inbox_ (qp (run st)) ++
    (pw_msg <$> taken st ++ in_flight_ (qp (run st))) ∧
  pushed_wr l = (wr_id <$> (polled (run st) ++ cq_ (qp (run st))) ++ lagging st) ++
    (pw_wr_id <$> taken st ++ in_flight_ (qp (run st))) ∧
  pending_wr_ (qp (run st)) =
    u64 (Z.of_nat (length (in_flight_ (qp (run st)))) + leaving st - posting st).
Proof.
  intros Hl Hwf.
  destruct (accesses_refine _ _ _ _ _ _ (steps_nil _) (init_refines local remote) Hl)
    as (r & Hr & [Hi Hd Hf Hc Hp]).
  destruct (events_posted _ _ _ Hl) as (E1 & E2 & Hev). cbn [app] in Hr.
  destruct (steps_inv _ _ _ _ Hr (Hev Hwf)) as (H1 & H2 & _). unfold contents in H1.
  rewrite <- E1, <- E2, <- Hc, <- Hf, <- Hd, <- Hi. by split_and!.
Qed.

(** *** The way of the network thread *)

(** Accesses until the wire is empty, when all writes in flight are due.. *)
Definition to_idle (st : State) : nat :=
  let n := length (in_flight_ (qp (run st))) in
  4 * n + match net st with
          | Taken _ => 3 | Received _ => 2 | Completed | Testing => 1 | _ => 0
          end.

(** ..and, once [stop_] is set, until the thread ends. *)
Definition to_exit (st : State) : nat :=
  match net st with Exited => 0 | Testing => 1 | _ => S (to_idle st + 1) end.

(** Every write in flight is due. *)
Definition due (now : Z) (st : State) : Prop :=
  Forall (λ pw, deliver_at pw ≤ now) (in_flight_ (qp (run st))).

Lemma network_step_to_idle now st :
  net st ≠ Exited → stop_ st = false → due now st →
  in_flight_ (qp (run st)) = [] ∧ leaving st = 0 ∨
  ∃ st', network_access now st = Some st' ∧ to_idle st = S (to_idle st') ∧
    net st' ≠ Exited ∧ stop_ st' = false ∧ due now st' ∧ owner st' = owner st.
Proof.
  destruct st as [[q dr po] b pc ow]. unfold due, leaving, to_idle, network_access, loop_test, take_write.
  cbn [run stop_ net owner qp drained polled]. intros Hne -> Hdue.
  destruct (in_flight_ q) as [|pw rest] eqn:E; [|apply Forall_cons in Hdue as [Hpw Hdue]].
  - destruct pc; try done; try (by left); right; eexists; (split; [reflexivity|]);
      cbn; rewrite ?E; by split_and!.
  - right. destruct pc; try done; rewrite ?decide_True by done; eexists; (split; [reflexivity|]);
      cbn; rewrite ?E; (split_and!; [try (cbn; lia)|done|done|try done; by constructor|done]).
Qed.

Lemma network_to_idle now n st :
  (to_idle st ≤ n)%nat → net st ≠ Exited → stop_ st = false → due now st →
  ∃ k st', (k ≤ n)%nat ∧ accesses st (replicate k (Network now)) = Some st' ∧
    in_flight_ (qp (run st')) = [] ∧ leaving st' = 0 ∧ owner st' = owner st.
Proof.
  revert st. induction n as [|n IH]; intros st Hn Hne Hs Hdue;
    destruct (network_step_to_idle now st Hne Hs Hdue) as [[? ?]|(st1 & Ha & Hm & Hrest)];
    try (exists O, st; split_and!; [lia|done..]); try lia.
  destruct Hrest as (Hne1 & Hs1 & Hdue1 & Ho1).
  destruct (IH st1) as (k & st' & Hk & Hrun & ? & ? & Ho); [lia|done..|].
  exists (S k), st'. split_and!; [lia| |done|done|congruence].
  unfold accesses in *. cbn [replicate foldM access]. by rewrite Ha.
Qed.

(** In the destructor every access gets nearer to the end. *)
Lemma closing_step st a st' :
  threads_ok st → owner st = Joining ∨ owner st = Joined → access st a = Some st' →
  (owner st' = Joining ∨ owner st' = Joined) ∧
  (to_exit st' + match owner st' with Joining => 1 | _ => 0 end <
   to_exit st + match owner st with Joining => 1 | _ => 0 end)%nat.
Proof.
  intros (Hs & He & Hj) Ho Ha. destruct st as [[q dr po] b pc ow]. cbn [stop_ net owner] in *.
  destruct a; cbn [access owner run net] in Ha; try (by destruct Ho; subst ow);
    [destruct Ho; subst ow; destruct pc; try done; injection Ha as <-; cbn; by auto|].
  assert (b = true) as -> by (by destruct Ho; subst ow).
  unfold network_access, loop_test, take_write in Ha. cbn [net qp run] in Ha.
  destruct pc as [| |pw|pw| | |]; try done;
    try (destruct (in_flight_ q) as [|pw rest] eqn:E; [|case_decide]);
    injection Ha as <-; unfold to_exit, to_idle; cbn [owner net run qp set_qp stop_];
    (split; [done|]); cbn -[Nat.mul]; rewrite ?E; cbn [length]; destruct ow; lia.
Qed.

Lemma closing_run st l st' :
  threads_ok st → owner st = Joining ∨ owner st = Joined → accesses st l = Some st' →
  pushed l = [] ∧ Forall access_wf l ∧ (owner st' = Joining ∨ owner st' = Joined) ∧
  (length l + to_exit st' + match owner st' with Joining => 1 | _ => 0 end ≤
   to_exit st + match owner st with Joining => 1 | _ => 0 end)%nat.
Proof.
  unfold accesses. revert st. induction l as [|a l IH]; intros st Hok Ho Hl.
  { injection Hl as <-. split_and!; [done|constructor|done|cbn; lia]. }
  cbn [foldM] in Hl. apply bind_Some in Hl as (st1 & Ha & Hl).
  destruct (closing_step _ _ _ Hok Ho Ha) as [Ho1 Hlt].
  destruct (IH st1) as (Hp & Hwf & Ho' & Hlen); [by eapply access_ok|done|done|].
  assert (pushed [a] = [] ∧ access_wf a) as [Ep Ew].
  { destruct a; try done. cbn [access] in Ha. by destruct Ho as [E|E]; rewrite E in Ha. }
  split_and!; [|by constructor|done|cbn [length]; lia].
  unfold pushed in *. cbn [mbind list_bind] in *. rewrite app_nil_r in Ep. by rewrite Ep, Hp.
Qed.

(** ** Properties *)

(** C31: The accesses of the two threads refine the steps of the queue pair.
    However the owner and the network thread interleave, what they do is a run of
    [QP]: the owner has drained the same messages, the inbox is the same, the wire is
    the same but for the write the thread has in its hands, and the completions are
    the same but for the last, which may lag behind its message.  So everything
    posted is delivered once and in order; the counter is the writes in flight, plus
    one while a write is leaving and less one while a write is not counted yet. *)
Theorem network_thread_refines local remote l st :
  accesses (init local remote) l = Some st → Forall access_wf l →
  (∃ r, steps (QP.start local remote) (events (init local remote) l) r ∧ refines st r) ∧
  pushed l = drained (run st) ++ inbox_ (qp (run st)) ++
    (pw_msg <$> taken st ++ in_flight_ (qp (run st))) ∧
  pushed_wr l = (wr_id <$> (polled (run st) ++ cq_ (qp (run st))) ++ lagging st) ++
    (pw_wr_id <$> taken st ++ in_flight_ (qp (run st))) ∧
  pending_wr_ (qp (run st)) =
    u64 (Z.of_nat (length (in_flight_ (qp (run st)))) + leaving st - posting st).
Proof.
  intros Hl Hwf. split; [|by apply (reachable_contents _ _ _ _ Hl)].
  exact (accesses_refine _ _ _ _ _ _ (steps_nil _) (init_refines local remote) Hl).
Qed.

(** C32: [flush] waits for what was posted, and returns.  Whenever its condition
    holds between two calls of the owner, every posted message has been drained or
    is in the inbox and every completion is there; and once the writes in flight are
    due, the network thread makes the condition hold with at most four accesses for
    each of them and three more. *)
Theorem flush_waits local remote l st now :
  accesses (init local remote) l = Some st → Forall access_wf l → owner st = Idle →
  Z.of_nat (length (in_flight_ (qp (run st)))) + 1 < 2 ^ 64 →
  (flush_done (qp (run st)) = true →
     pushed l = drained (run st) ++ inbox_ (qp (run st)) ∧
     pushed_wr l = wr_id <$> polled (run st) ++ cq_ (qp (run st))) ∧
  (due now st →
     ∃ k st', (k ≤ 4 * length (in_flight_ (qp (run st))) + 3)%nat ∧
       accesses st (replicate k (Network now)) = Some st' ∧ flush_done (qp (run st')) = true).
Proof.
  intros Hl Hwf Ho Hmax. destruct (accesses_ok _ _ _ (init_ok local remote) Hl) as (Hs & He & _).
  rewrite Ho in Hs. split.
  - destruct (reachable_contents _ _ _ _ Hl Hwf) as (Hp & Hw & Hc). intros Hdone.
    unfold flush_done in Hdone. apply bool_decide_eq_true in Hdone. rewrite Hc in Hdone.
    unfold posting in Hdone. rewrite Ho, Z.sub_0_r, u64_small in Hdone
      by (unfold in_u64, leaving; destruct (net st); lia).
    unfold leaving, taken, lagging in *.
    destruct (in_flight_ (qp (run st))); [|cbn in Hdone; destruct (net st); lia].
    destruct (net st); try (cbn in Hdone; lia); rewrite !app_nil_r in *; done.
  - intros Hdue. destruct (network_to_idle now (to_idle st) st)
      as (k & st' & Hk & Hrun & Hf & Hv & Ho'); [done|by intros ?%He; congruence|done|done|].
    exists k, st'. split_and!; [unfold to_idle in Hk; destruct (net st); lia|done|].
    assert (accesses (init local remote) (l ++ replicate k (Network now)) = Some st') as Hl'
      by (unfold accesses in *; by rewrite foldM_app, Hl).
    destruct (reachable_contents _ _ _ _ Hl') as (_ & _ & Hc).
    { apply Forall_app. split; [done|]. by apply Forall_replicate. }
    unfold flush_done, posting in *. by rewrite Hc, Hf, Hv, Ho', Ho.
Qed.

(** C33: The destructor of a queue pair returns.  Once [stop_] is set nothing is
    posted, the threads make at most four accesses for each write in flight and six
    more, whatever the order, and when none is possible the network thread has ended
    and is joined.  The writes that were not due by then are lost. *)
Theorem queue_pair_stops local remote l st l' st' :
  accesses (init local remote) l = Some st → Forall access_wf l → owner st = Joining →
  accesses st l' = Some st' →
  pushed l' = [] ∧
  (length l' ≤ 4 * length (in_flight_ (qp (run st))) + 6)%nat ∧
  ((∀ a, access st' a = None) →
   owner st' = Joined ∧ net st' = Exited ∧
   pushed l = drained (run st') ++ inbox_ (qp (run st')) ++
     (pw_msg <$> in_flight_ (qp (run st')))).
Proof.
  intros Hl Hwf Ho Hl'. pose proof (accesses_ok _ _ _ (init_ok local remote) Hl) as Hok.
  destruct (closing_run st l' st' Hok (or_introl Ho) Hl') as (Hnil & Hwf' & Ho' & Hlen).
  split_and!; [done|rewrite Ho in Hlen; unfold to_exit, to_idle in Hlen;
                     destruct (net st), (owner st'); lia|].
  intros Hstuck. pose proof (Hstuck (Network 0)) as Hnet. pose proof (Hstuck Join) as Hjoin.
  cbn [access] in Hnet, Hjoin.
  assert (net st' = Exited) as He by (unfold network_access in Hnet; by destruct (net st')).
  rewrite He in Hjoin. split_and!; [by destruct Ho' as [E|]; [rewrite E in Hjoin|]|done|].
  assert (accesses (init local remote) (l ++ l') = Some st') as Hall
    by (unfold accesses in *; by rewrite foldM_app, Hl).
  destruct (reachable_contents _ _ _ _ Hall) as (Hp & _ & _); [by apply Forall_app|].
  unfold pushed, taken in *. rewrite He, bind_app in Hp. rewrite Hnil, app_nil_r in Hp. done.
Qed.

(** ** The theorems on concrete runs *)

(** Two messages are posted; the first is drained before its completion is there. *)
Definition sample_accesses : list Access :=
  [Network 0; Push 0 (sample_message 1) 0; CountPost; Push 5 (sample_message 2) 1;
   Network 2001; CountPost; Network 0; DrainReceived; PollCq 64].
Definition sample_state : State :=
  default (init 0 1) (accesses (init 0 1) sample_accesses).

Lemma sample_run : accesses (init 0 1) sample_accesses = Some sample_state.
Proof. vm_compute. reflexivity. Qed.

Lemma sample_accesses_wf : Forall access_wf sample_accesses.
Proof. repeat constructor; apply sample_message_wf; unfold in_u64; lia. Qed.

(** The owner has the first message and no completion, which [QP] never shows. *)
Example completion_lags :
  drained (run sample_state) = [sample_message 1] ∧ polled (run sample_state) = [] ∧
  cq_ (qp (run sample_state)) = [] ∧ lagging sample_state = [mkCompletion 0 64 true].
Proof. vm_compute. done. Qed.

(** The thread can uncount a write that is not counted yet: the counter wraps around
    until [post_write] is over. *)
Example pending_wraps :
  (λ st, pending_wr_ (qp (run st))) <$>
    accesses (init 0 1) [Network 0; Push 0 (sample_message 1) 0; Network 2000; Network 0;
                         Network 0; Network 0] = Some (2 ^ 64 - 1).
Proof. vm_compute. done. Qed.

Lemma network_thread_refines_witness :
  (∃ r, steps (QP.start 0 1) [Post 0 (sample_message 1) 0; Post 5 (sample_message 2) 1;
                              Deliver 2000; Drain] r ∧ refines sample_state r) ∧
  pushed sample_accesses = [sample_message 1; sample_message 2].
Proof.
  split; [|reflexivity].
  exact (proj1 (network_thread_refines 0 1 _ _ sample_run sample_accesses_wf)).
Defined.

Lemma flush_waits_witness :
  ∃ k st', (k ≤ 7)%nat ∧ accesses sample_state (replicate k (Network 3000)) = Some st' ∧
    flush_done (qp (run st')) = true.
Proof.
  refine (proj2 (flush_waits 0 1 _ _ 3000 sample_run sample_accesses_wf _ _) _).
  - vm_compute. reflexivity.
  - vm_compute. reflexivity.
  - repeat constructor. vm_compute. discriminate.
Defined.

(** The destructor: the second message, not due yet, is lost. *)
Definition closing : list Access := [Network 0; Network 0; Network 2001; Network 0; Join].
Definition closing_state : State := default sample_state (access sample_state SetStop).
Definition closed_state : State := default closing_state (accesses closing_state closing).

Lemma queue_pair_stops_witness :
  (length closing ≤ 10)%nat ∧ owner closed_state = Joined ∧
  in_flight_ (qp (run closed_state)) = [mkPending 1 (sample_message 2) 2005].
Proof.
  assert (accesses (init 0 1) (sample_accesses ++ [SetStop]) = Some closing_state) as H1
    by (vm_compute; reflexivity).
  assert (accesses closing_state closing = Some closed_state) as H2 by (vm_compute; reflexivity).
  destruct (queue_pair_stops 0 1 _ _ closing closed_state H1) as (_ & Hlen & Hend).
  - apply Forall_app. split; [exact sample_accesses_wf|repeat constructor].
  - vm_compute. reflexivity.
  - exact H2.
  - split; [exact Hlen|]. split; [|vm_compute; reflexivity].
    refine (proj1 (Hend _)). intros []; vm_compute; reflexivity.
Defined.

End Net.
