(* ===== verification/PartitionMap.v ===== *)
(** The partition map: class [PartitionMap] of [src/message_bus.hpp].

    The [shared_mutex] makes every call one atomic step; the state is the worker
    count and the migration overrides.  [owner_of] divides by the worker count:
    with no workers it is undefined, [None]. *)
From S2P Require Import Prelude Types.
Local Open Scope Z_scope.

Module PMap.

Record PartitionMap := mkPMap {
  worker_count_ : Z;
  overrides_ : gmap Z WorkerId;
}.

Definition new (worker_count : Z) : PartitionMap := mkPMap worker_count ∅.

Definition owner_of (v : VertexId) (pm : PartitionMap) : option WorkerId :=
  match overrides_ pm !! v with
  | Some w => Some w
  | None => if decide (worker_count_ pm = 0) then None
            else Some (u32 (v `mod` worker_count_ pm))
  end.

Definition migrate (v : VertexId) (new_owner : WorkerId) (pm : PartitionMap)
    : PartitionMap :=
  mkPMap (worker_count_ pm) (<[v := new_owner]> (overrides_ pm)).

(** Every owner is a worker. *)
Definition pmap_wf (pm : PartitionMap) : Prop :=
  0 < worker_count_ pm < 2 ^ 32 ∧
  map_Forall (λ _ w, 0 ≤ w < worker_count_ pm) (overrides_ pm).

Lemma pmap_new_wf n : 0 < n < 2 ^ 32 → pmap_wf (new n).
Proof. intros. split; [done|]. apply map_Forall_empty. Qed.

Lemma owner_of_in_range v pm :
  pmap_wf pm → ∃ w, owner_of v pm = Some w ∧ 0 ≤ w < worker_count_ pm.
Proof.
  intros [Hn Hov]. unfold owner_of. destruct (overrides_ pm !! v) as [w|] eqn:E.
  { exists w. split; [done|]. by apply (Hov v). }
  rewrite decide_False by lia. eexists; split; [done|].
  pose proof (Z.mod_pos_bound v (worker_count_ pm) ltac:(lia)).
  rewrite u32_small; [done|unfold in_u32; lia].
Qed.

(** Without overrides the owner is the residue. *)
Lemma owner_of_new v n : 0 < n < 2 ^ 32 → owner_of v (new n) = Some (v `mod` n).
Proof.
  intros Hn. unfold owner_of. cbn -[u32]. rewrite lookup_empty, decide_False by lia.
  pose proof (Z.mod_pos_bound v n ltac:(lia)).
  by rewrite u32_small by (unfold in_u32; lia).
Qed.

Lemma owner_of_migrate v w v' pm :
  owner_of v' (migrate v w pm) = if decide (v' = v) then Some w else owner_of v' pm.
Proof.
  unfold owner_of, migrate. cbn. rewrite lookup_insert. repeat case_decide; congruence.
Qed.

Lemma migrate_wf v w pm : pmap_wf pm → 0 ≤ w < worker_count_ pm → pmap_wf (migrate v w pm).
Proof. intros [Hn Hov] Hw. split; [done|]. cbn. by apply map_Forall_insert_2. Qed.

(** ** Properties *)

(** [migrate] moves one vertex and only that one.  After it the vertex has
    the new owner, every other vertex keeps its own, a later migration of the
    same vertex wins, and if the new owner is a worker then every vertex still
    has an owner among the workers. *)
Theorem migrate_owner_of v w pm :
  pmap_wf pm → 0 ≤ w < worker_count_ pm →
  (∀ v', owner_of v' (migrate v w pm) =
     if decide (v' = v) then Some w else owner_of v' pm) ∧
  (∀ w', migrate v w' (migrate v w pm) = migrate v w' pm) ∧
  pmap_wf (migrate v w pm).
Proof.
  intros Hwf Hw. split_and!.
  - intros v'. apply owner_of_migrate.
  - intros w'. unfold migrate. cbn. by rewrite insert_insert_eq.
  - by apply migrate_wf.
Qed.

Lemma migrate_owner_of_witness :
  owner_of 9 (migrate 9 2 (new 4)) = Some 2 ∧ owner_of 10 (migrate 9 2 (new 4)) = Some 2.
Proof.
  assert (pmap_wf (new 4)) as Hwf by (apply pmap_new_wf; lia).
  destruct (migrate_owner_of 9 2 (new 4) Hwf ltac:(cbn; lia)) as [H _].
  split; rewrite H; reflexivity.
Defined.

End PMap.
