(* ===== verification/MessageBus.v ===== *)
(** The message bus of a worker: class [MessageBus] of [src/message_bus.hpp] and
    [src/message_bus.cpp] (its static barrier is in the file [Barrier]).

    The two mutexes make the accesses to the outboxes and to the inbox atomic,
    and each bus is used by its own worker only, so the operations are state
    transformers.  The partition map, which the bus shares, is an argument. *)
From S2P Require Import Prelude Types RdmaTransport PartitionMap.
Local Open Scope Z_scope.

Module Bus.
Import Transport.

Record MessageBus := mkBus {
  local_id_ : WorkerId;
  worker_count_ : Z;
  use_rdma_ : bool;
  transport_ : option RdmaTransport;
  outboxes_ : list (list Message);
  inbox_ : list Message;
  msgs_sent_ : Z;
  msgs_received_ : Z;
}.

Definition no_boxes (n : Z) : list (list Message) := replicate (Z.to_nat n) [].

Definition new (local_id : WorkerId) (worker_count : Z) (use_rdma : bool) : MessageBus :=
  mkBus local_id worker_count use_rdma
    (if use_rdma then Some (Transport.new local_id worker_count) else None)
    (no_boxes worker_count) [] 0 0.

Definition set_outboxes (bs : list (list Message)) (b : MessageBus) : MessageBus :=
  mkBus (local_id_ b) (worker_count_ b) (use_rdma_ b) (transport_ b) bs (inbox_ b)
    (msgs_sent_ b) (msgs_received_ b).
Definition set_inbox (ms : list Message) (b : MessageBus) : MessageBus :=
  mkBus (local_id_ b) (worker_count_ b) (use_rdma_ b) (transport_ b) (outboxes_ b) ms
    (msgs_sent_ b) (msgs_received_ b).
Definition set_transport (t : option RdmaTransport) (b : MessageBus) : MessageBus :=
  mkBus (local_id_ b) (worker_count_ b) (use_rdma_ b) t (outboxes_ b) (inbox_ b)
    (msgs_sent_ b) (msgs_received_ b).
Definition count_sent (n : Z) (b : MessageBus) : MessageBus :=
  mkBus (local_id_ b) (worker_count_ b) (use_rdma_ b) (transport_ b) (outboxes_ b) (inbox_ b)
    (u64 (msgs_sent_ b + n)) (msgs_received_ b).
Definition count_received (n : Z) (b : MessageBus) : MessageBus :=
  mkBus (local_id_ b) (worker_count_ b) (use_rdma_ b) (transport_ b) (outboxes_ b) (inbox_ b)
    (msgs_sent_ b) (u64 (msgs_received_ b + n)).

(** [outboxes_[dst_worker].push_back(msg)]; an index out of range is
    undefined. *)
Definition enqueue (pm : PMap.PartitionMap) (b : MessageBus) (msg : Message)
    : option MessageBus :=
  dst_worker ← PMap.owner_of (msg_dst msg) pm;
  box ← outboxes_ b !! Z.to_nat dst_worker;
  Some (set_outboxes (<[Z.to_nat dst_worker := box ++ [msg]]> (outboxes_ b)) b).

Definition enqueue_batch (pm : PMap.PartitionMap) (msgs : list Message) (b : MessageBus)
    : option MessageBus :=
  foldM (enqueue pm) b msgs.

(** The body of the loop of [flush]; [clock w i] is the clock reading of the
    [i]-th message posted to worker [w]. *)
Definition flush_box (clock : nat → nat → Z) (boxes : list (list Message))
    (b : MessageBus) (w : nat) : option MessageBus :=
  box ← boxes !! w;
  if decide (box = []) then Some b
  else
    let b := count_sent (Z.of_nat (length box)) b in
    if decide (Z.of_nat w = local_id_ b) then Some (set_inbox (inbox_ b ++ box) b)
    else match use_rdma_ b, transport_ b with
         | true, Some t =>
             Some (set_transport
                     (Some (send_batch (clock w) (Z.of_nat w) box t).1) b)
         | _, _ => Some b
         end.

Definition flush (clock : nat → nat → Z) (b : MessageBus) : option MessageBus :=
  foldM (flush_box clock (outboxes_ b)) (set_outboxes (no_boxes (worker_count_ b)) b)
    (seq 0 (Z.to_nat (worker_count_ b))).

Definition drain_inbox (b : MessageBus) : MessageBus * list Message :=
  let b := match use_rdma_ b, transport_ b with
           | true, Some t =>
               let '(t, remote) := receive_all t in
               set_inbox (inbox_ b ++ remote) (set_transport (Some t) b)
           | _, _ => b
           end in
  let b := count_received (Z.of_nat (length (inbox_ b))) b in
  (set_inbox [] b, inbox_ b).

(** The network threads of the bus's transport run. *)
Definition network_run (passes : list (nat * list Z)) (b : MessageBus) : MessageBus :=
  set_transport (Transport.network_run passes <$> transport_ b) b.

(** ** Lemmas *)

Definition bus_wf (b : MessageBus) : Prop :=
  0 ≤ local_id_ b < worker_count_ b ∧
  length (outboxes_ b) = Z.to_nat (worker_count_ b) ∧
  match transport_ b with
  | Some t => use_rdma_ b = true ∧ transport_wf t ∧
              Transport.local_id_ t = local_id_ b ∧
              Transport.worker_count_ t = worker_count_ b
  | None => use_rdma_ b = false
  end ∧
  in_u64 (msgs_sent_ b) ∧ in_u64 (msgs_received_ b).

(** What no operation changes. *)
Definition same_bus (b b' : MessageBus) : Prop :=
  local_id_ b' = local_id_ b ∧ worker_count_ b' = worker_count_ b ∧
  use_rdma_ b' = use_rdma_ b.

Lemma no_boxes_length n : length (no_boxes n) = Z.to_nat n.
Proof. apply length_replicate. Qed.

Lemma bus_new_wf i n r : 0 ≤ i < n → bus_wf (new i n r).
Proof.
  intros Hi. split; [done|]. split; [apply no_boxes_length|].
  split; [|by split_and!]. destruct r; [|done]. cbn.
  split_and!; try done. apply Transport.transport_new_wf.
Qed.

Lemma wiring_wf t t' :
  same_wiring t t' → transport_wf t → transport_wf t'.
Proof.
  intros (Hl & Hn & Hlen & Hslots) [H1 H2]. split; [congruence|].
  intros i o Hi. specialize (Hslots i). rewrite Hi in Hslots. rewrite Hl.
  destruct (qps_ t !! i) as [o'|] eqn:E.
  - rewrite <- (H2 i o' E). change (is_Some o ↔ is_Some o') in Hslots.
    by rewrite !eq_None_not_Some, Hslots.
  - apply lookup_lt_Some in Hi. apply lookup_ge_None in E. lia.
Qed.

(** The messages of a batch for worker [w]. *)
Definition for_worker (pm : PMap.PartitionMap) (w : nat) (msgs : list Message) : list Message :=
  filter (λ m, Z.to_nat <$> PMap.owner_of (msg_dst m) pm = Some w) msgs.

Lemma enqueue_batch_spec pm msgs b :
  PMap.pmap_wf pm → PMap.worker_count_ pm = worker_count_ b →
  length (outboxes_ b) = Z.to_nat (worker_count_ b) →
  ∃ boxes, enqueue_batch pm msgs b = Some (set_outboxes boxes b) ∧
    length boxes = length (outboxes_ b) ∧
    ∀ w box, outboxes_ b !! w = Some box → boxes !! w = Some (box ++ for_worker pm w msgs).
Proof.
  intros Hpm Hn. revert b Hn. induction msgs as [|m msgs IH]; intros b Hn Hlen.
  { exists (outboxes_ b). split_and!; [by destruct b|done|].
    intros. cbn. by rewrite app_nil_r. }
  destruct (PMap.owner_of_in_range (msg_dst m) pm Hpm) as (o & Ho & Hr).
  destruct (lookup_lt_is_Some_2 (outboxes_ b) (Z.to_nat o)) as [box0 Hbox0]; [lia|].
  set (b1 := set_outboxes (<[Z.to_nat o := box0 ++ [m]]> (outboxes_ b)) b).
  assert (enqueue pm b m = Some b1) as Hm.
  { unfold enqueue. rewrite Ho. cbn. by rewrite Hbox0. }
  destruct (IH b1) as (boxes & Henq & Hlb & Hb); [done|cbn; by rewrite length_insert|].
  exists boxes. unfold enqueue_batch in *. cbn [foldM]. rewrite Hm. cbn [mbind option_bind].
  rewrite Henq. cbn in Hlb, Hb.
  rewrite length_insert in Hlb. split_and!; [done|done|].
  intros w box Hw. unfold for_worker.
  destruct (decide (Z.to_nat o = w)) as [<-|Hne].
  - rewrite filter_cons_True by (cbn; by rewrite Ho). rewrite Hw in Hbox0. injection Hbox0 as <-.
    rewrite (Hb _ (box ++ [m])); [by rewrite <- app_assoc|].
    apply list_lookup_insert_eq. by eapply lookup_lt_Some.
  - rewrite filter_cons_False by (cbn; rewrite Ho; cbn; congruence).
    apply Hb. by rewrite list_lookup_insert_ne.
Qed.

(** *** [flush] *)

(** The boxes of the workers below [n], posted to the transport. *)
Definition post_boxes (clock : nat → nat → Z) (boxes : list (list Message)) (n : nat)
    (t : RdmaTransport) : RdmaTransport :=
  foldl (λ t w, (send_batch (clock w) (Z.of_nat w) (boxes !!! w) t).1) t (seq 0 n).

(** The box of the local worker, once the loop has passed it. *)
Definition local_box (b : MessageBus) (boxes : list (list Message)) (n : nat) : list Message :=
  if decide (Z.to_nat (local_id_ b) < n)%nat then boxes !!! Z.to_nat (local_id_ b) else [].

(** The bus after [flush] has handled the boxes of the workers below [n]. *)
Definition flushed (clock : nat → nat → Z) (boxes : list (list Message)) (n : nat)
    (b : MessageBus) : MessageBus :=
  mkBus (local_id_ b) (worker_count_ b) (use_rdma_ b)
    (post_boxes clock boxes n <$> transport_ b) (no_boxes (worker_count_ b))
    (inbox_ b ++ local_box b boxes n)
    (u64 (msgs_sent_ b + Z.of_nat (length (concat (take n boxes))))) (msgs_received_ b).

Lemma post_boxes_S clock boxes n t :
  post_boxes clock boxes (S n) t =
    (send_batch (clock n) (Z.of_nat n) (boxes !!! n) (post_boxes clock boxes n t)).1.
Proof. unfold post_boxes. by rewrite seq_S, foldl_app. Qed.

Lemma post_boxes_wiring clock boxes n t : same_wiring t (post_boxes clock boxes n t).
Proof.
  induction n as [|n IH]; [done|]. rewrite post_boxes_S.
  etrans; [exact IH|apply send_batch_wiring].
Qed.

Lemma send_batch_local clock dst msgs t :
  dst = Transport.local_id_ t → send_batch clock dst msgs t = (t, false).
Proof. intros ->. unfold send_batch, connected. by rewrite decide_True by tauto. Qed.

Lemma send_batch_nil clock dst t : (send_batch clock dst [] t).1 = t.
Proof. unfold send_batch. by destruct (connected t dst). Qed.

Lemma count_sent_next n (boxes : list (list Message)) box sent :
  boxes !! n = Some box →
  u64 (sent + Z.of_nat (length (concat (take (S n) boxes)))) =
  u64 (u64 (sent + Z.of_nat (length (concat (take n boxes)))) + Z.of_nat (length box)).
Proof.
  intros Hbox. rewrite (take_S_r _ _ _ Hbox), concat_app, length_app. cbn [concat].
  rewrite app_nil_r. unfold u64. rewrite Zplus_mod_idemp_l. f_equal. lia.
Qed.

Lemma flush_box_next clock boxes n b box :
  bus_wf b → boxes !! n = Some box →
  flush_box clock boxes (flushed clock boxes n b) n = Some (flushed clock boxes (S n) b).
Proof.
  intros ((Hloc0 & _) & _ & Htr & _) Hbox.
  pose proof (list_lookup_total_correct _ _ _ Hbox) as Htot.
  unfold flush_box. rewrite Hbox. cbn [mbind option_bind]. unfold flushed.
  rewrite (count_sent_next _ _ _ (msgs_sent_ b) Hbox).
  assert (Z.of_nat n = local_id_ b → local_box b boxes (S n) = box ∧ local_box b boxes n = [])
    as Hl1.
  { unfold local_box. intros <-. rewrite Nat2Z.id, decide_True, decide_False by lia. done. }
  assert (Z.of_nat n ≠ local_id_ b → local_box b boxes (S n) = local_box b boxes n) as Hl2.
  { unfold local_box. intros Hne. repeat case_decide; try done; lia. }
  assert (Z.of_nat n = local_id_ b ∨ box = [] →
          post_boxes clock boxes (S n) <$> transport_ b =
          post_boxes clock boxes n <$> transport_ b) as Hskip.
  { destruct (transport_ b) as [t|]; [|done]. cbn [fmap option_fmap option_map].
    intros Hor. f_equal.
    rewrite post_boxes_S, Htot. destruct Htr as (_ & _ & Hid & _).
    destruct (post_boxes_wiring clock boxes n t) as [Hid' _].
    destruct Hor as [Heq| ->]; [rewrite send_batch_local by congruence; done|].
    apply send_batch_nil. }
  case_decide as Hnil.
  { rewrite Hskip by auto. rewrite Hnil in *. cbn [length]. change (Z.of_nat 0) with 0. rewrite Z.add_0_r, (u64_small (u64 _)) by apply u64_range.
    do 2 f_equal.
    destruct (decide (Z.of_nat n = local_id_ b)) as [E|E]; [|by rewrite Hl2].
    destruct (Hl1 E) as [-> ->]. done. }
  cbn -[u64 post_boxes]. case_decide as E.
  - rewrite Hskip by auto. destruct (Hl1 E) as [-> ->]. unfold set_inbox; cbn -[u64 post_boxes].
    by rewrite app_nil_r.
  - rewrite Hl2 by done. destruct (transport_ b) as [t|]; cbn -[u64 post_boxes].
    + destruct Htr as (-> & _). rewrite <- Htot, <- post_boxes_S. done.
    + by rewrite Htr.
Qed.

Lemma flushed_0 clock boxes b :
  bus_wf b → flushed clock boxes 0 b = set_outboxes (no_boxes (worker_count_ b)) b.
Proof.
  intros (_ & _ & _ & Hs & _). unfold flushed, set_outboxes, local_box, post_boxes.
  rewrite decide_False by lia. cbn [take concat length seq foldl].
  change (Z.of_nat 0) with 0. rewrite app_nil_r, Z.add_0_r, u64_small by done. f_equal. by destruct (transport_ b).
Qed.

(** [flush] in closed form: it is always defined. *)
Lemma flush_eq clock b :
  bus_wf b →
  flush clock b = Some (flushed clock (outboxes_ b) (Z.to_nat (worker_count_ b)) b).
Proof.
  intros Hwf. unfold flush. rewrite <- (flushed_0 clock (outboxes_ b)) by done.
  assert (∀ n, (n ≤ Z.to_nat (worker_count_ b))%nat →
    foldM (flush_box clock (outboxes_ b)) (flushed clock (outboxes_ b) 0 b) (seq 0 n) =
    Some (flushed clock (outboxes_ b) n b)) as H; [|by apply H].
  induction n as [|n IH]; intros Hn; [done|].
  rewrite seq_S, foldM_app, IH by lia. cbn [mbind option_bind foldM Nat.add].
  destruct (lookup_lt_is_Some_2 (outboxes_ b) n) as [box Hbox].
  { destruct Hwf as (_ & -> & _). lia. }
  by rewrite (flush_box_next _ _ _ _ _ Hwf Hbox).
Qed.

Lemma local_box_all b n :
  bus_wf b → n = Z.to_nat (worker_count_ b) →
  local_box b (outboxes_ b) n = outboxes_ b !!! Z.to_nat (local_id_ b).
Proof. intros (? & _) ->. unfold local_box. by rewrite decide_True by lia. Qed.

(** What the transport's queue pairs hold after the loop. *)
Lemma post_boxes_contents clock boxes n t :
  transport_wf t → Forall (Forall message_wf) boxes → (n ≤ length boxes)%nat →
  Z.of_nat n ≤ Transport.worker_count_ t →
  ∀ w q, qps_ t !! w = Some (Some q) →
    ∃ q', qps_ (post_boxes clock boxes n t) !! w = Some (Some q') ∧
      QP.contents q' = QP.contents q ++ if decide (w < n)%nat then boxes !!! w else [].
Proof.
  intros Hwf Hm. induction n as [|n IH]; intros Hn Hwc w q Hq.
  { exists q. by rewrite app_nil_r. }
  destruct (IH ltac:(lia) ltac:(lia) w q Hq) as (q1 & Hq1 & Hc1).
  rewrite post_boxes_S. set (t1 := post_boxes clock boxes n t) in *.
  destruct (post_boxes_wiring clock boxes n t) as (Hid & Hcount & _). fold t1 in Hid, Hcount.
  destruct (lookup_lt_is_Some_2 boxes n Hn) as [box Hbox].
  rewrite (list_lookup_total_correct _ _ _ Hbox).
  assert (Forall message_wf box) as Hmb by (rewrite Forall_lookup in Hm; by eapply Hm).
  pose proof (send_batch_effect (clock n) (Z.of_nat n) box t1 Hmb) as Heff.
  destruct (connected t1 (Z.of_nat n)) as [qn|] eqn:Hcn.
  - apply connected_Some in Hcn as (_ & _ & Hqn%qp_at_Some). rewrite Nat2Z.id in *.
    destruct Heff as (t' & q' & -> & (_ & _ & Hq'%qp_at_Some)%connected_Some & Hc' & Hoth & _).
    rewrite Nat2Z.id in *. cbn [fst]. destruct (decide (w = n)) as [->|Hne].
    + exists q'. split; [done|]. simplify_eq.
      rewrite Hc', Hc1, decide_False, app_nil_r, decide_True by lia.
      by rewrite (list_lookup_total_correct _ _ _ Hbox).
    + exists q1. split; [by rewrite Hoth|]. rewrite Hc1. repeat case_decide; try done; lia.
  - rewrite Heff. exists q1. split; [done|]. rewrite Hc1.
    destruct (decide (w = n)) as [->|Hne]; [|repeat case_decide; try done; lia].
    exfalso. unfold connected in Hcn. case_decide as Hor.
    + destruct Hwf as [Hlen Hslots]. pose proof (Hslots _ _ Hq) as [_ Hs].
      destruct Hor as [Hge|Heq]; [lia|]. rewrite Hid in Heq. by specialize (Hs Heq).
    + unfold qp_at in Hcn. rewrite Nat2Z.id, Hq1 in Hcn. done.
Qed.

(** *** Well-formedness is kept *)

Lemma transport_change_wf b t t' :
  transport_ b = Some t → same_wiring t t' → bus_wf b → bus_wf (set_transport (Some t') b).
Proof.
  intros Ht Hw (Hl & Ho & Htr & Hs). rewrite Ht in Htr. destruct Htr as (Hu & Htw & Hid & Hc).
  pose proof Hw as (Hid' & Hc' & _). unfold bus_wf. cbn.
  split_and!; try done; try tauto; try congruence; try apply Hl; try apply Hs.
  by eapply wiring_wf.
Qed.

Lemma flushed_wf clock n b : bus_wf b → bus_wf (flushed clock (outboxes_ b) n b).
Proof.
  intros (Hl & Ho & Htr & Hs & Hr). unfold flushed, bus_wf. cbn -[u64 post_boxes].
  split; [done|]. split; [apply no_boxes_length|].
  split; [|split; [apply u64_range|done]].
  destruct (transport_ b) as [t|]; [|done]. cbn -[post_boxes].
  destruct Htr as (Hu & Htw & Hid & Hc).
  pose proof (post_boxes_wiring clock (outboxes_ b) n t) as Hw.
  pose proof Hw as (? & ? & _). split_and!; try congruence. by eapply wiring_wf.
Qed.

Lemma network_run_wf passes b : bus_wf b → bus_wf (network_run passes b).
Proof.
  intros Hwf. unfold network_run. destruct (transport_ b) as [t|] eqn:E; cbn.
  - apply (transport_change_wf b t); [done|apply network_run_wiring|done].
  - unfold set_transport. by rewrite <- E; destruct b.
Qed.

(** [drain_inbox] in closed form. *)
Lemma drain_inbox_eq b :
  bus_wf b →
  drain_inbox b =
    let remote := match transport_ b with Some t => (receive_all t).2 | None => [] end in
    (mkBus (local_id_ b) (worker_count_ b) (use_rdma_ b)
       ((λ t, (receive_all t).1) <$> transport_ b) (outboxes_ b) []
       (msgs_sent_ b)
       (u64 (msgs_received_ b + Z.of_nat (length (inbox_ b ++ remote)))),
     inbox_ b ++ remote).
Proof.
  intros (_ & _ & Htr & _). unfold drain_inbox. destruct b as [i n r tr bs inb ms mr].
  cbn [transport_ use_rdma_] in *. destruct tr as [t|].
  - destruct Htr as (-> & _). cbn [fmap option_fmap option_map].
    by destruct (receive_all t) as [t' remote].
  - subst r. cbn -[u64]. by rewrite app_nil_r.
Qed.

Lemma drain_inbox_wf b : bus_wf b → bus_wf (drain_inbox b).1.
Proof.
  intros Hwf. rewrite drain_inbox_eq by done. destruct Hwf as (Hl & Ho & Htr & Hs & Hr).
  unfold bus_wf. cbn -[u64].
  split; [done|]. split; [done|]. split; [|split; [done|apply u64_range]].
  destruct (transport_ b) as [t|]; [|done]. cbn. destruct Htr as (Hu & Htw & Hid & Hc).
  pose proof (receive_all_wiring t) as Hw. pose proof Hw as (? & ? & _).
  split_and!; try congruence. by eapply wiring_wf.
Qed.

(** *** What the bus holds *)

(** Every message on the bus satisfies [P]. *)
Definition bus_all (P : Message → Prop) (b : MessageBus) : Prop :=
  Forall P (inbox_ b) ∧ Forall (Forall P) (outboxes_ b) ∧
  (∀ t, transport_ b = Some t → transport_all P t).

Lemma bus_all_and P Q b : bus_all P b → bus_all Q b → bus_all (λ m, P m ∧ Q m) b.
Proof.
  intros (Hi & Ho & Ht) (Hi' & Ho' & Ht'). split_and!; [by apply Forall_and| |].
  - rewrite Forall_forall in Ho, Ho'. apply Forall_forall. intros box Hbox.
    apply Forall_and. auto.
  - intros t Hb. apply transport_all_and; auto.
Qed.

Lemma bus_new_all P i n r : bus_all P (new i n r).
Proof.
  split_and!; cbn; [done|by apply Forall_replicate|].
  intros t Ht. destruct r; simplify_eq. apply Transport.transport_new_all.
Qed.

Lemma bus_network_run_all P passes b : bus_all P b → bus_all P (network_run passes b).
Proof.
  intros (Hi & Ho & Ht). split_and!; try done. intros t. cbn.
  destruct (transport_ b) as [t0|]; cbn; intros; simplify_eq.
  apply Transport.transport_network_run_all. by apply Ht.
Qed.

Lemma drain_inbox_all P b :
  bus_wf b → bus_all P b → bus_all P (drain_inbox b).1 ∧ Forall P (drain_inbox b).2.
Proof.
  intros Hwf (Hi & Ho & Ht). rewrite drain_inbox_eq by done. cbn zeta. split.
  - split_and!; try done. intros t. cbn. destruct (transport_ b) as [t0|]; cbn; [|done].
    intros [= <-]. by apply receive_all_all, Ht.
  - cbn. apply Forall_app. split; [done|]. destruct (transport_ b) as [t0|]; [|done].
    by apply receive_all_all, Ht.
Qed.

Lemma enqueue_all P pm msgs b b' :
  Forall P msgs → bus_all P b → enqueue_batch pm msgs b = Some b' → bus_all P b'.
Proof.
  intros Hm Hb. unfold enqueue_batch. apply foldM_inv; [|done].
  intros b1 m b2 Hin (Hi & Ho & Ht) H. unfold enqueue in H. simplify_bind.
  split_and!; try done. cbn. apply Forall_insert; [done|].
  rewrite Forall_forall in Hm. apply Forall_app; split; [|by repeat constructor; apply Hm].
  rewrite Forall_lookup in Ho. by eapply Ho.
Qed.

Lemma post_boxes_all P clock boxes n t :
  Forall (Forall (λ m, P m ∧ message_wf m)) boxes → (n ≤ length boxes)%nat →
  transport_all P t → transport_all P (post_boxes clock boxes n t).
Proof.
  intros Hb. induction n as [|n IH]; intros Hn Ht; [done|]. rewrite post_boxes_S.
  destruct (lookup_lt_is_Some_2 boxes n Hn) as [box Hbox].
  rewrite (list_lookup_total_correct _ _ _ Hbox).
  rewrite Forall_lookup in Hb. apply Hb, Forall_and in Hbox as [HP Hm].
  apply send_batch_all; try done. apply IH; [lia|done].
Qed.

Lemma flushed_all P clock b :
  bus_wf b → bus_all (λ m, P m ∧ message_wf m) b → bus_all P b →
  bus_all P (flushed clock (outboxes_ b) (Z.to_nat (worker_count_ b)) b).
Proof.
  intros Hwf (_ & Hom & _) (Hi & Ho & Ht). split_and!.
  - cbn. apply Forall_app; split; [done|]. rewrite local_box_all by done.
    destruct Hwf as (? & Hlen & _).
    destruct (lookup_lt_is_Some_2 (outboxes_ b) (Z.to_nat (local_id_ b))) as [box Hbox]; [lia|].
    rewrite (list_lookup_total_correct _ _ _ Hbox). rewrite Forall_lookup in Ho. by eapply Ho.
  - cbn. by apply Forall_replicate.
  - intros t. cbn. destruct (transport_ b) as [t0|]; cbn -[post_boxes]; [|done].
    intros [= <-]. apply post_boxes_all; [done| |by apply Ht].
    destruct Hwf as (_ & -> & _). done.
Qed.

(** ** Properties *)

(** [enqueue_batch] routes by owner.  On a partition map whose owners are
    workers, enqueueing a batch is defined and appends to the outbox of each
    worker exactly the messages of the batch whose destination it owns, in
    the batch's order; nothing else of the bus changes. *)
Theorem enqueue_batch_routes pm msgs b :
  PMap.pmap_wf pm → PMap.worker_count_ pm = worker_count_ b → bus_wf b →
  ∃ boxes, enqueue_batch pm msgs b = Some (set_outboxes boxes b) ∧
    length boxes = Z.to_nat (worker_count_ b) ∧
    ∀ w box, outboxes_ b !! w = Some box → boxes !! w = Some (box ++ for_worker pm w msgs).
Proof.
  intros Hpm Hn (_ & Hlen & _).
  destruct (enqueue_batch_spec pm msgs b Hpm Hn Hlen) as (boxes & ? & Hl & ?).
  exists boxes. split_and!; try done. congruence.
Qed.

(** What [flush] does.  It is always defined; it empties every outbox,
    appends the local worker's box to the inbox, counts the messages of every
    box as sent, and, when RDMA is simulated, appends the box of each remote
    worker to the queue pair of that worker in the sender's transport. *)
Theorem flush_spec clock b :
  bus_wf b → Forall (Forall message_wf) (outboxes_ b) →
  ∃ b', flush clock b = Some b' ∧ bus_wf b' ∧
    outboxes_ b' = no_boxes (worker_count_ b) ∧
    inbox_ b' = inbox_ b ++ outboxes_ b !!! Z.to_nat (local_id_ b) ∧
    msgs_sent_ b' = u64 (msgs_sent_ b + Z.of_nat (length (concat (outboxes_ b)))) ∧
    ∀ t, transport_ b = Some t → ∃ t', transport_ b' = Some t' ∧
      ∀ w q, qps_ t !! w = Some (Some q) →
        ∃ q', qps_ t' !! w = Some (Some q') ∧
              QP.contents q' = QP.contents q ++ outboxes_ b !!! w.
Proof.
  intros Hwf Hm. eexists. split; [by apply flush_eq|]. split; [by apply flushed_wf|].
  pose proof Hwf as (Hl & Hlen & Htr & _). split_and!; [done| | |].
  - cbn. by rewrite local_box_all.
  - cbn -[u64]. by rewrite take_ge by lia.
  - intros t Ht. cbn -[post_boxes]. rewrite Ht in *. destruct Htr as (_ & Htw & _ & Hc).
    eexists; split; [done|]. intros w q Hq.
    destruct (post_boxes_contents clock (outboxes_ b) (Z.to_nat (worker_count_ b)) t
                Htw Hm ltac:(lia) ltac:(lia) w q Hq) as (q' & Hq' & Hcont).
    exists q'. split; [done|]. rewrite Hcont.
    apply lookup_lt_Some in Hq. destruct Htw as [Hlt _]. by rewrite decide_True by lia.
Qed.

(** Without RDMA the remote messages are dropped.  When the simulation is
    disabled, [flush] counts every message of every box as sent, but the only
    messages that are still anywhere on the bus afterwards are those that were
    in the inbox and those of the local worker's own box. *)
Theorem flush_without_rdma_drops clock b :
  bus_wf b → use_rdma_ b = false →
  ∃ b', flush clock b = Some b' ∧
    msgs_sent_ b' = u64 (msgs_sent_ b + Z.of_nat (length (concat (outboxes_ b)))) ∧
    inbox_ b' = inbox_ b ++ outboxes_ b !!! Z.to_nat (local_id_ b) ∧
    concat (outboxes_ b') = [] ∧ transport_ b' = None.
Proof.
  intros Hwf Hr. eexists. split; [by apply flush_eq|].
  pose proof Hwf as (Hl & Hlen & Htr & _). split_and!.
  - cbn -[u64]. by rewrite take_ge by lia.
  - cbn. by rewrite local_box_all.
  - cbn. unfold no_boxes. generalize (Z.to_nat (worker_count_ b)) as n.
    induction n as [|n IH]; [done|exact IH].
  - cbn. destruct (transport_ b); [|done]. destruct Htr as [? _]. congruence.
Qed.

(** [drain_inbox] hands out everything once.  It returns the local inbox
    followed by what the transport received, leaves the inbox empty, and a
    second call returns nothing. *)
Theorem drain_inbox_spec b :
  bus_wf b →
  let remote := match transport_ b with Some t => (receive_all t).2 | None => [] end in
  (drain_inbox b).2 = inbox_ b ++ remote ∧ inbox_ (drain_inbox b).1 = [] ∧
  msgs_received_ (drain_inbox b).1 =
    u64 (msgs_received_ b + Z.of_nat (length (inbox_ b ++ remote))) ∧
  bus_wf (drain_inbox b).1.
Proof.
  intros Hwf. pose proof (drain_inbox_wf b Hwf) as Hwf'.
  rewrite drain_inbox_eq in * by done. by split_and!.
Qed.

(** ** The theorems at a concrete bus *)

(** Worker 1 of three, with one message for itself and two for worker 0. *)
Definition sample_message (dst : Z) : Message :=
  mkMessage 4 dst ORDER_FILL 3 (mk_fill 150000000 600 1).
Definition sample_bus (rdma : bool) : MessageBus :=
  set_outboxes [[sample_message 3; sample_message 6]; [sample_message 7]; []] (new 1 3 rdma).

Lemma sample_bus_wf rdma : bus_wf (sample_bus rdma).
Proof.
  destruct (bus_new_wf 1 3 rdma ltac:(lia)) as (Hl & _ & H).
  split; [exact Hl|]. split; [reflexivity|exact H].
Qed.

Lemma sample_bus_messages rdma : Forall (Forall message_wf) (outboxes_ (sample_bus rdma)).
Proof.
  repeat constructor; cbn -[u64]; try apply u64_range; unfold in_u64; lia.
Qed.

Lemma enqueue_batch_routes_witness :
  ∃ boxes, enqueue_batch (PMap.new 3) [sample_message 5; sample_message 6] (sample_bus true)
             = Some (set_outboxes boxes (sample_bus true)) ∧
           boxes !! 2%nat = Some [sample_message 5].
Proof.
  destruct (enqueue_batch_routes (PMap.new 3) [sample_message 5; sample_message 6]
              (sample_bus true) (PMap.pmap_new_wf 3 ltac:(lia)) eq_refl (sample_bus_wf true))
    as (boxes & H1 & _ & H3).
  exists boxes. split; [exact H1|]. exact (H3 2%nat [] eq_refl).
Defined.

Lemma flush_spec_witness :
  ∃ b', flush (λ _ _, 0) (sample_bus true) = Some b' ∧
        inbox_ b' = [sample_message 7] ∧ msgs_sent_ b' = 3.
Proof.
  destruct (flush_spec (λ _ _, 0) (sample_bus true) (sample_bus_wf true)
              (sample_bus_messages true)) as (b' & H1 & _ & _ & H4 & H5 & _).
  exists b'. split; [exact H1|split; [exact H4|exact H5]].
Defined.

Lemma flush_without_rdma_drops_witness :
  ∃ b', flush (λ _ _, 0) (sample_bus false) = Some b' ∧
        msgs_sent_ b' = 3 ∧ inbox_ b' = [sample_message 7].
Proof.
  destruct (flush_without_rdma_drops (λ _ _, 0) (sample_bus false) (sample_bus_wf false) eq_refl)
    as (b' & H1 & H2 & H3 & _).
  exists b'. split; [exact H1|split; [exact H2|exact H3]].
Defined.

Lemma drain_inbox_spec_witness :
  (drain_inbox (set_inbox [sample_message 7] (sample_bus true))).2 = [sample_message 7].
Proof.
  exact (proj1 (drain_inbox_spec (set_inbox [sample_message 7] (sample_bus true))
                  (sample_bus_wf true))).
Defined.

End Bus.
