(* ===== verification/Barrier.v ===== *)
(** The superstep barrier: [MessageBus::barrier_sync] of [src/message_bus.cpp]
    with its two static atomics.

    Every worker thread runs [barrier_sync(step, total_workers)] once per
    superstep.  The code is modelled at the granularity of its atomic accesses:
    a step of the system is one access of one thread, so [steps] ranges over
    every interleaving.  The number of calls a thread has returned from is kept
    as a ghost component. *)
From S2P Require Import Prelude.
Local Open Scope Z_scope.

Module Barrier.

(** Where a thread is in [barrier_sync]. *)
Inductive PC :=
  | Outside                (* not in the call *)
  | Loaded (epoch : Z)     (* has loaded [barrier_epoch_] *)
  | Resetting              (* arrived last: about to store 0 *)
  | Publishing             (* about to increment [barrier_epoch_] *)
  | Spinning (epoch : Z).  (* in the [while] loop *)

Record Thread := mkThread { pc : PC; rounds : nat }.

Record State := mkState {
  barrier_counter_ : Z;
  barrier_epoch_ : Z;
  threads : list Thread;
}.

(** [n] workers that have not synchronised yet. *)
Definition init (n : nat) : State := mkState 0 0 (replicate n (mkThread Outside 0)).

Definition goto (i : nat) (p : PC) (r : nat) (c e : Z) (s : State) : State :=
  mkState c e (<[i := mkThread p r]> (threads s)).

(** [total_workers] *)
Definition total (s : State) : Z := Z.of_nat (length (threads s)).

(** One atomic access of thread [i]; [None]: the thread is outside, or it
    spins and the loop condition holds. *)
Definition advance (i : nat) (s : State) : option State :=
  let c := barrier_counter_ s in
  let e := barrier_epoch_ s in
  t ← threads s !! i;
  match pc t with
  | Outside => None
  | Loaded epoch =>
      let arrived := u64 (c + 1) in
      Some (goto i (if decide (arrived = total s) then Resetting else Spinning epoch)
              (rounds t) (u64 (c + 1)) e s)
  | Resetting => Some (goto i Publishing (rounds t) 0 e s)
  | Publishing => Some (goto i Outside (S (rounds t)) c (u32 (e + 1)) s)
  | Spinning epoch =>
      if decide (e = epoch) then None
      else Some (goto i Outside (S (rounds t)) c e s)
  end.

(** Thread [i] calls [barrier_sync]: the first access is the load of the
    epoch. *)
Definition enter (i : nat) (s : State) : option State :=
  t ← threads s !! i;
  match pc t with
  | Outside =>
      Some (goto i (Loaded (barrier_epoch_ s)) (rounds t) (barrier_counter_ s)
              (barrier_epoch_ s) s)
  | _ => None
  end.

Inductive step (s : State) : State → Prop :=
  | step_enter i s' : enter i s = Some s' → step s s'
  | step_advance i s' : advance i s = Some s' → step s s'.

(** A thread that finds the epoch unchanged yields: the state is the same. *)
Inductive reachable (n : nat) : State → Prop :=
  | reachable_init : reachable n (init n)
  | reachable_step s s' : reachable n s → step s s' → reachable n s'.

(** ** The invariant *)

(** [E] barriers have been published. *)
Definition thread_ok (E : nat) (t : Thread) : Prop :=
  match pc t with
  | Outside | Resetting | Publishing => rounds t = E
  | Loaded e => rounds t = E ∧ e = u32 (Z.of_nat E)
  | Spinning e =>
      (rounds t = E ∧ e = u32 (Z.of_nat E)) ∨
      (S (rounds t) = E ∧ e = u32 (Z.of_nat (rounds t)))
  end.

(** The thread has arrived at barrier [E] and waits there. *)
Definition waiting (E : nat) (t : Thread) : bool :=
  match pc t with
  | Spinning _ => bool_decide (rounds t = E)
  | _ => false
  end.

Definition leading (t : Thread) : bool :=
  match pc t with Resetting | Publishing => true | _ => false end.

(** Either nobody is the last to arrive and the counter counts the waiting, or
    one thread is and all the others wait. *)
Definition counter_ok (E : nat) (s : State) : Prop :=
  (Forall (λ t, leading t = false) (threads s) ∧
   barrier_counter_ s = Z.of_nat (count (waiting E) (threads s)) ∧
   (count (waiting E) (threads s) < length (threads s))%nat) ∨
  (∃ i t, threads s !! i = Some t ∧ leading t = true ∧
     (pc t = Resetting ∧ barrier_counter_ s = total s ∨
      pc t = Publishing ∧ barrier_counter_ s = 0) ∧
     ∀ j t', j ≠ i → threads s !! j = Some t' → waiting E t' = true).

Definition inv (E : nat) (s : State) : Prop :=
  barrier_epoch_ s = u32 (Z.of_nat E) ∧ Forall (thread_ok E) (threads s) ∧ counter_ok E s.

Lemma barrier_init_inv n : (0 < n)%nat → inv 0 (init n).
Proof.
  intros Hn. assert (∀ k, count (waiting 0) (replicate k (mkThread Outside 0)) = O) as Hc.
  { induction k as [|k IH]; [done|]. cbn [replicate]. by rewrite count_cons, IH. }
  split; [done|]. split; [by apply Forall_replicate|]. left. cbn.
  split; [by apply Forall_replicate|]. rewrite Hc, length_replicate. split; [done|lia].
Qed.

Lemma epochs_differ r : u32 (Z.of_nat (S r)) ≠ u32 (Z.of_nat r).
Proof.
  unfold u32. intros H.
  assert ((Z.of_nat (S r) - Z.of_nat r) `mod` 2 ^ 32 = 0) as H0.
  { rewrite Zminus_mod, H, Z.sub_diag. done. }
  replace (Z.of_nat (S r) - Z.of_nat r) with 1 in H0 by lia. done.
Qed.

Lemma epoch_next E : u32 (u32 (Z.of_nat E) + 1) = u32 (Z.of_nat (S E)).
Proof. unfold u32. rewrite Zplus_mod_idemp_l. f_equal. lia. Qed.

Lemma no_leader_lookup E s i t :
  counter_ok E s → threads s !! i = Some t → waiting E t = false → leading t = false →
  Forall (λ t, leading t = false) (threads s) ∧
  barrier_counter_ s = Z.of_nat (count (waiting E) (threads s)) ∧
  (count (waiting E) (threads s) < length (threads s))%nat.
Proof.
  intros [?|(j & t' & Hj & Hl & _ & Hw)] Hi Hwt Hlt; [done|].
  destruct (decide (i = j)) as [->|Hne]; [congruence|].
  rewrite (Hw i t Hne Hi) in Hwt. done.
Qed.

(** A thread that does not wait moves to another place where it does not. *)
Lemma counter_ok_idle E s i t t' e :
  counter_ok E s → threads s !! i = Some t → waiting E t = false → leading t = false →
  waiting E t' = false → leading t' = false →
  counter_ok E (mkState (barrier_counter_ s) e (<[i := t']> (threads s))).
Proof.
  intros Hc Hi Hw Hl Hw' Hl'. destruct (no_leader_lookup E s i t) as (HF & Hcnt & Hlt); try done.
  left. cbn. pose proof (count_insert (waiting E) _ _ t' _ Hi) as Hci.
  rewrite Hw, Hw' in Hci. cbn in Hci. rewrite length_insert.
  split; [by apply Forall_insert|]. rewrite Hcnt. split; [f_equal; lia|lia].
Qed.

Lemma enter_inv E s i s' : inv E s → enter i s = Some s' → inv E s'.
Proof.
  intros (He & HF & Hc) H. unfold enter in H. apply bind_Some in H as ([p r] & Hi & H).
  cbn in H. destruct p; try done. injection H as <-.
  assert (thread_ok E (mkThread Outside r)) as Hok by (rewrite Forall_lookup in HF; by eapply HF).
  cbn in Hok. subst r. split; [done|]. split.
  - apply Forall_insert; [done|]. by split.
  - by eapply counter_ok_idle.
Qed.

(** The thread that arrives. *)
Lemma counter_ok_arrive E s i e r :
  total s < 2 ^ 64 → counter_ok E s → threads s !! i = Some (mkThread (Loaded e) r) → r = E →
  let c := u64 (barrier_counter_ s + 1) in
  let p := if decide (c = total s) then Resetting else Spinning e in
  counter_ok E (mkState c (barrier_epoch_ s) (<[i := mkThread p r]> (threads s))).
Proof.
  intros Htot Hc Hi ->. cbn zeta.
  destruct (no_leader_lookup E s i _ Hc Hi eq_refl eq_refl) as (HF & Hcnt & Hlt).
  unfold total in *. rewrite u64_small by (unfold in_u64; lia).
  pose proof (count_insert (waiting E) _ _ (mkThread (Spinning e) E) _ Hi) as Hci.
  cbn [waiting pc rounds] in Hci. rewrite bool_decide_true in Hci by done. cbn in Hci.
  case_decide as Hlast.
  - right. exists i, (mkThread Resetting E). cbn [threads barrier_counter_].
    assert (Forall (λ t, waiting E t = true) (<[i := mkThread (Spinning e) E]> (threads s))) as Hall.
    { apply count_all. rewrite length_insert. lia. }
    pose proof (lookup_lt_Some _ _ _ Hi). split_and!; try done.
    + by apply list_lookup_insert_eq.
    + left. unfold total. cbn. by rewrite length_insert.
    + intros j t' Hne Hj. rewrite list_lookup_insert_ne in Hj by done.
      rewrite Forall_lookup in Hall. apply (Hall j). by rewrite list_lookup_insert_ne.
  - left. cbn [threads barrier_counter_]. rewrite length_insert.
    split; [by apply Forall_insert|]. split; [lia|lia].
Qed.

(** The thread that is leading is the one that the invariant names. *)
Lemma leader_unique E s i t :
  counter_ok E s → threads s !! i = Some t → leading t = true →
  (pc t = Resetting ∧ barrier_counter_ s = total s ∨
   pc t = Publishing ∧ barrier_counter_ s = 0) ∧
  ∀ j t', j ≠ i → threads s !! j = Some t' → waiting E t' = true.
Proof.
  intros [(HF & _)|(j & t' & Hj & Hl & Hp & Hw)] Hi Hlt.
  - rewrite Forall_lookup in HF. rewrite (HF i t Hi) in Hlt. done.
  - destruct (decide (i = j)) as [->|Hne]; [by simplify_eq|].
    pose proof (Hw i t Hne Hi) as Hwt. unfold waiting, leading in *. by destruct (pc t).
Qed.

Lemma reset_inv E s i r :
  inv E s → threads s !! i = Some (mkThread Resetting r) →
  inv E (goto i Publishing r 0 (barrier_epoch_ s) s).
Proof.
  intros (He & HF & Hc) Hi. destruct (leader_unique E s i _ Hc Hi eq_refl) as [_ Hw].
  rewrite Forall_lookup in HF. pose proof (HF i _ Hi) as Hok. cbn in Hok. subst r.
  split; [done|]. split; [apply Forall_insert; [by apply Forall_lookup|done]|].
  right. exists i, (mkThread Publishing E). cbn [threads goto barrier_counter_].
  split_and!; auto.
  - apply list_lookup_insert_eq. by eapply lookup_lt_Some.
  - intros j t' Hne Hj. rewrite list_lookup_insert_ne in Hj by done. by eapply Hw.
Qed.

(** Publishing releases every other thread. *)
Lemma publish_inv E s i r :
  inv E s → threads s !! i = Some (mkThread Publishing r) →
  inv (S E) (goto i Outside (S r) (barrier_counter_ s) (u32 (barrier_epoch_ s + 1)) s).
Proof.
  intros (He & HF & Hc) Hi. destruct (leader_unique E s i _ Hc Hi eq_refl) as [Hp Hw].
  rewrite Forall_lookup in HF. pose proof (HF i _ Hi) as Hok. cbn in Hok. subst r.
  destruct Hp as [[? _]|[_ Hcount]]; [done|]. set (ts := <[i := mkThread Outside (S E)]> (threads s)).
  assert (∀ t, t ∈ ts → thread_ok (S E) t ∧ waiting (S E) t = false ∧ leading t = false) as Hts.
  { intros t (j & Hj)%list_elem_of_lookup. unfold ts in Hj.
    apply list_lookup_insert_Some in Hj as [(_ & <- & _)|(Hne & Hj)]; [done|].
    pose proof (HF j t Hj) as Hok. pose proof (Hw j t ltac:(done) Hj) as Hwt.
    unfold thread_ok, waiting, leading in *. destruct (pc t); try done.
    apply bool_decide_eq_true in Hwt. rewrite Hwt in *.
    split_and!; [|apply bool_decide_eq_false; lia|done].
    destruct Hok as [[_ ->]|[? _]]; [auto|lia]. }
  split; [cbn -[u32]; by rewrite He, epoch_next|].
  split; [apply Forall_forall; intros t Ht; by apply Hts|].
  left. unfold goto. cbn [threads barrier_counter_]. fold ts.
  assert (count (waiting (S E)) ts = O) as Hcnt.
  { clear -Hts. induction ts as [|t ts IH]; [done|]. rewrite count_cons.
    rewrite (proj1 (proj2 (Hts t (list_elem_of_here _ _)))), IH; [done|].
    intros t' Ht'. apply Hts. by apply list_elem_of_further. }
  rewrite Hcnt, Hcount. split; [apply Forall_forall; intros t Ht; by apply Hts|].
  split; [done|]. unfold ts. rewrite length_insert. apply lookup_lt_Some in Hi. lia.
Qed.

Lemma advance_inv E s i s' :
  total s < 2 ^ 64 → inv E s → advance i s = Some s' → inv E s' ∨ inv (S E) s'.
Proof.
  intros Htot Hinv H. pose proof Hinv as (He & HF & Hc).
  unfold advance in H. apply bind_Some in H as ([p r] & Hi & H). cbn [pc rounds] in H.
  rewrite Forall_lookup in HF. pose proof (HF i _ Hi) as Hok.
  destruct p as [|e| | |e]; try done.
  - left. injection H as <-. destruct Hok as [Hr Hepoch]. cbn in Hr. split; [done|]. split.
    + apply Forall_insert; [by apply Forall_lookup|]. case_decide; [done|]. by left.
    + by apply counter_ok_arrive.
  - left. injection H as <-. by apply reset_inv.
  - right. injection H as <-. by apply publish_inv.
  - left. case_decide as Hepoch; [done|]. injection H as <-.
    destruct Hok as [[_ ->]|[Hr _]]; [done|]. cbn in Hr.
    split; [done|]. split; [apply Forall_insert; [by apply Forall_lookup|done]|].
    eapply counter_ok_idle; try done. cbn. apply bool_decide_eq_false. lia.
Qed.

Lemma step_length s s' : step s s' → length (threads s') = length (threads s).
Proof.
  intros [i s1 H|i s1 H]; [unfold enter in H|unfold advance in H];
    apply bind_Some in H as ([p r] & _ & H); cbn [pc] in H; destruct p; try done;
    try (case_decide; [done|]); injection H as <-; apply length_insert.
Qed.

Lemma barrier_reachable_inv n s :
  (0 < n)%nat → Z.of_nat n < 2 ^ 64 → reachable n s →
  length (threads s) = n ∧ ∃ E, inv E s.
Proof.
  intros Hn Hmax Hr. induction Hr as [|s s' Hr [Hlen (E & HE)] Hs].
  - split; [apply length_replicate|]. exists O. by apply barrier_init_inv.
  - split; [by rewrite (step_length _ _ Hs)|]. destruct Hs as [i s' H|i s' H].
    + exists E. by eapply enter_inv.
    + destruct (advance_inv E s i s') as [?|?]; eauto. unfold total. lia.
Qed.

(** ** Termination of a round *)

(** [m] accesses of threads inside the call. *)
Inductive advances : nat → State → State → Prop :=
  | advances_0 s : advances 0 s s
  | advances_S m s s' s'' i :
      advances m s s' → advance i s' = Some s'' → advances (S m) s s''.

(** How many accesses a thread has left, its spinning aside. *)
Definition rank (t : Thread) : nat :=
  match pc t with
  | Outside => 0 | Spinning _ => 1 | Publishing => 2 | Resetting => 3 | Loaded _ => 4
  end.
Definition measure (ts : list Thread) : nat := sum_list_with rank ts.

Lemma measure_insert ts i t t' :
  ts !! i = Some t → (measure (<[i := t']> ts) + rank t = measure ts + rank t')%nat.
Proof.
  unfold measure. revert i. induction ts as [|t0 ts IH]; intros [|i] Hi; try done; cbn in Hi.
  - injection Hi as ->. cbn [insert list_insert sum_list_with]. lia.
  - specialize (IH i Hi). change (<[S i:=t']> (t0 :: ts)) with (t0 :: <[i:=t']> ts).
    cbn [sum_list_with]. lia.
Qed.

Lemma advance_measure i s s' :
  advance i s = Some s' → (measure (threads s') < measure (threads s))%nat.
Proof.
  intros H. unfold advance in H. apply bind_Some in H as ([p r] & Hi & H). cbn [pc rounds] in H.
  destruct p; try done; try case_decide; try done; injection H as <-;
    match goal with |- context [goto i ?p ?r] =>
      pose proof (measure_insert _ _ _ (mkThread p r) Hi) end;
    unfold goto; cbn [threads]; unfold rank in *; cbn [pc] in *; try case_decide; lia.
Qed.

(** The threads during the round [k]: still in the call, or back from it. *)
Definition in_round (k : nat) (t : Thread) : Prop :=
  (rounds t = k ∧ pc t ≠ Outside) ∨ t = mkThread Outside (S k).

Lemma advance_in_round k i s s' :
  Forall (in_round k) (threads s) → advance i s = Some s' → Forall (in_round k) (threads s').
Proof.
  intros HF H. unfold advance in H. apply bind_Some in H as ([p r] & Hi & H).
  pose proof HF as HF'. rewrite Forall_lookup in HF'. pose proof (HF' i _ Hi) as Hr.
  cbn [pc rounds] in H.
  destruct p; try done; try case_decide; try done; injection H as <-;
    destruct Hr as [[Hr _]|Hr]; try done; cbn in Hr; subst r;
    (apply Forall_insert; [done|]); unfold in_round; cbn; auto.
Qed.

Lemma measure_bound ts : (measure ts ≤ 4 * length ts)%nat.
Proof.
  unfold measure. induction ts as [|[p r] ts IH]; cbn [sum_list_with length]; [lia|].
  assert (rank (mkThread p r) ≤ 4)%nat by (destruct p; cbn; lia). lia.
Qed.

(** A state of the round in which nobody can move is its end. *)
Lemma round_stuck k E s :
  inv E s → Forall (in_round k) (threads s) → (∀ i, advance i s = None) →
  Forall (λ t, t = mkThread Outside (S k)) (threads s).
Proof.
  intros (He & HF & Hc) Hround Hstuck. rewrite Forall_lookup in *.
  assert (∀ i t, threads s !! i = Some t → t = mkThread Outside (S k) ∨
            (∃ e, t = mkThread (Spinning e) k) ∧ k = E) as Hts.
  { intros i [p r] Hi. destruct (Hround i _ Hi) as [[Hr Hp]|Ht]; [|by left].
    cbn in Hr, Hp. subst r. right. pose proof (Hstuck i) as Hs. pose proof (HF i _ Hi) as Hok.
    unfold advance in Hs. rewrite Hi in Hs. cbn in Hs. destruct p as [|e| | |e]; try done.
    case_decide as Heq; [|done]. cbn in Hok. destruct Hok as [[-> _]|[HkE ->]]; [by eauto|].
    exfalso. apply (epochs_differ k). congruence. }
  intros i t Hi. destruct (Hts i t Hi) as [?|[[e ->] ->]]; [done|]. exfalso.
  assert (∀ j t', threads s !! j = Some t' → waiting E t' = true ∧ leading t' = false) as Hall.
  { intros j t' Hj. destruct (Hts j t' Hj) as [-> |[[e' ->] _]].
    - pose proof (HF j _ Hj) as Hok. cbn in Hok. lia.
    - cbn. by rewrite bool_decide_true. }
  destruct Hc as [(_ & _ & Hlt)|(j & t' & Hj & Hl & _)].
  - assert (count (waiting E) (threads s) = length (threads s)) as Hn; [|lia].
    apply count_all, Forall_lookup. intros j t' Hj. by apply (Hall j).
  - destruct (Hall j t' Hj) as [_ Hl']. congruence.
Qed.

Lemma advances_reachable n m s s' : reachable n s → advances m s s' → reachable n s'.
Proof.
  intros Hr Ha. induction Ha as [|m s s' s'' i Ha IH Hi]; [done|].
  eapply reachable_step; [by apply IH|by eapply step_advance].
Qed.

(** ** Properties *)

(** C17: The barrier is safe.  In every interleaving, once some worker has
    returned from its [k+1]-th call of [barrier_sync], every other worker has
    returned from its own [k+1]-th call or has arrived at it and is about to
    find the epoch changed: no worker runs ahead of one that has not arrived. *)
Theorem barrier_safe n s i j ti tj k :
  (0 < n)%nat → Z.of_nat n < 2 ^ 64 → reachable n s →
  threads s !! i = Some ti → threads s !! j = Some tj → (S k ≤ rounds ti)%nat →
  (S k ≤ rounds tj)%nat ∨
  (rounds tj = k ∧ ∃ e, pc tj = Spinning e ∧ e ≠ barrier_epoch_ s).
Proof.
  intros Hn Hmax Hr Hi Hj Hk.
  destruct (barrier_reachable_inv n s Hn Hmax Hr) as (_ & E & He & HF & _).
  rewrite Forall_lookup in HF. pose proof (HF i ti Hi) as Hoki. pose proof (HF j tj Hj) as Hokj.
  assert (rounds ti ≤ E)%nat as HiE.
  { unfold thread_ok in Hoki. destruct (pc ti); try lia; intuition lia. }
  unfold thread_ok in Hokj. destruct (pc tj) as [|e| | |e] eqn:Hp; try (left; lia).
  destruct Hokj as [[? _]|[HS He']]; [left; lia|].
  destruct (decide (S k ≤ rounds tj)%nat); [by left|right]. split; [lia|].
  exists e. split; [done|]. rewrite He', He, <- HS. intros H. by eapply epochs_differ.
Qed.

(** C18: The barrier lets everybody through.  From a reachable state in which
    all [n] workers are in their [k+1]-th call, whatever the interleaving, at
    most [4 n] accesses that are not mere spinning are made, and when no such
    access is left every worker has returned from that call. *)
Theorem barrier_completes n s k :
  (0 < n)%nat → Z.of_nat n < 2 ^ 64 → reachable n s →
  (∀ t, t ∈ threads s → pc t ≠ Outside ∧ rounds t = k) →
  ∀ m s', advances m s s' →
    (m ≤ 4 * n)%nat ∧
    ((∀ i, advance i s' = None) → Forall (λ t, t = mkThread Outside (S k)) (threads s')).
Proof.
  intros Hn Hmax Hr Hall m s' Ha.
  destruct (barrier_reachable_inv n s Hn Hmax Hr) as [Hlen _].
  assert (m + measure (threads s') ≤ measure (threads s) ∧
          Forall (in_round k) (threads s'))%nat as [Hm Hround].
  { clear Hr Hlen. induction Ha as [s|m s s' s'' i Ha IH Hi].
    - split; [lia|]. apply Forall_forall. intros t Ht. destruct (Hall t Ht). by left.
    - destruct (IH Hall) as [IHm IHr]. pose proof (advance_measure _ _ _ Hi).
      split; [lia|by eapply advance_in_round]. }
  pose proof (measure_bound (threads s)). split; [lia|]. intros Hstuck.
  destruct (barrier_reachable_inv n s' Hn Hmax (advances_reachable _ _ _ _ Hr Ha)) as (_ & E & HE).
  by eapply round_stuck.
Qed.

(** ** The theorems on a concrete run of two workers *)

Definition run (l : list (bool * nat)) (s : State) : option State :=
  foldM (λ s '(b, i), if (b : bool) then enter i s else advance i s) s l.

Lemma run_reachable n l s s' : reachable n s → run l s = Some s' → reachable n s'.
Proof.
  intros Hr. unfold run. apply foldM_inv; [|done].
  intros s1 [[] i] s2 _ H1 H2; eapply reachable_step; eauto;
    [by eapply step_enter|by eapply step_advance].
Qed.

(** Both workers enter; worker 1 arrives last, resets and publishes. *)
Definition published : State :=
  mkState 0 1 [mkThread (Spinning 0) 0; mkThread Outside 1].

Lemma published_reachable : reachable 2 published.
Proof.
  apply (run_reachable 2
    [(true, 0%nat); (true, 1%nat); (false, 0%nat); (false, 1%nat); (false, 1%nat); (false, 1%nat)]
    (init 2)); [constructor|reflexivity].
Qed.

Lemma barrier_safe_witness : ∃ e, pc (mkThread (Spinning 0) 0) = Spinning e ∧ e ≠ 1.
Proof.
  destruct (barrier_safe 2 published 1 0 (mkThread Outside 1) (mkThread (Spinning 0) 0) 0
              ltac:(lia) ltac:(lia) published_reachable eq_refl eq_refl ltac:(cbn; lia))
    as [H|[_ H]]; [cbn in H; lia|exact H].
Defined.

(** Both workers have loaded the epoch. *)
Definition both_loaded : State :=
  mkState 0 0 [mkThread (Loaded 0) 0; mkThread (Loaded 0) 0].

Lemma both_loaded_reachable : reachable 2 both_loaded.
Proof.
  apply (run_reachable 2 [(true, 0%nat); (true, 1%nat)] (init 2)); [constructor|reflexivity].
Qed.

(** Both have passed. *)
Definition both_passed : State :=
  mkState 0 1 [mkThread Outside 1; mkThread Outside 1].

Lemma both_advance : advances 5 both_loaded both_passed.
Proof.
  assert (∀ l s s', foldM (λ s i, advance i s) s l = Some s' → advances (length l) s s') as H.
  { induction l as [|i l IH] using rev_ind; intros s s'; [intros [= <-]; constructor|].
    rewrite foldM_app, length_app, Nat.add_comm.
    intros (s1 & H1 & (s2 & H2 & [= <-])%bind_Some)%bind_Some. econstructor; eauto. }
  by apply (H [0; 1; 1; 1; 0]%nat).
Qed.

Lemma barrier_completes_witness :
  (5 ≤ 4 * 2)%nat ∧ Forall (λ t, t = mkThread Outside 1) (threads both_passed).
Proof.
  destruct (barrier_completes 2 both_loaded 0 ltac:(lia) ltac:(lia) both_loaded_reachable)
    with (m := 5%nat) (s' := both_passed) as [Hm Hend].
  - intros t [->|[->|[]%elem_of_nil]%elem_of_cons]%elem_of_cons; split; done.
  - exact both_advance.
  - split; [exact Hm|]. apply Hend. by intros [|[|i]].
Defined.

End Barrier.
