(* ===== verification/NumaScheduler.v ===== *)
(** The task scheduler: [src/numa_scheduler.hpp], [src/numa_scheduler.cpp].

    Module [Sched] holds the scheduler's state and, one definition each, the
    atomic accesses its operations are made of.  Module [Pool] composes them
    into the threads of the program: the callers of [submit], whose push and
    count are two separate accesses, and the worker threads, as a step relation
    over every interleaving.  Condition variables only delay threads and are
    left out; a task's [fn] is represented by its identity and the duration the
    thread measured. *)
From S2P Require Import Prelude Float64.
Local Open Scope Z_scope.

Module Sched.

(** [struct Task], without [fn].  Durations are in microseconds. *)
Record Task := mkTask {
  task_id : Z;
  preferred_numa_node : Z;
  expected_duration : Z;
}.

#[export] Instance Task_eq_dec : EqDecision Task.
Proof. solve_decision. Defined.

Record LatencyRecord := mkRecord {
  rec_task_id : Z;
  rec_numa_node : Z;
  rec_actual : Z;
  rec_expected : Z;
  rec_is_spike : bool;
}.

Record NumaQueue := mkQueue { tasks : list Task; active_tasks : Z }.

Record Scheduler := mkScheduler {
  numa_nodes_ : Z;
  threads_per_node_ : Z;
  queues_ : list NumaQueue;
  total_submitted_ : Z;
  total_completed_ : Z;
  spike_count_ : Z;
  migrate_count_ : Z;
  spikes_ : list LatencyRecord;
}.

Definition new (numa_nodes threads_per_node : Z) : Scheduler :=
  mkScheduler numa_nodes threads_per_node (replicate (Z.to_nat numa_nodes) (mkQueue [] 0))
    0 0 0 0 [].

Definition set_queue (n : nat) (q : NumaQueue) (s : Scheduler) : Scheduler :=
  mkScheduler (numa_nodes_ s) (threads_per_node_ s) (<[n := q]> (queues_ s))
    (total_submitted_ s) (total_completed_ s) (spike_count_ s) (migrate_count_ s) (spikes_ s).

(** [t.preferred_numa_node % numa_nodes_] *)
Definition node_of (t : Task) (s : Scheduler) : option nat :=
  if decide (numa_nodes_ s = 0) then None
  else Some (Z.to_nat (preferred_numa_node t `mod` numa_nodes_ s)).

(** [submit]: the critical section that pushes the task.. *)
Definition submit_push (t : Task) (s : Scheduler) : option Scheduler :=
  node ← node_of t s;
  q ← queues_ s !! node;
  Some (set_queue node (mkQueue (tasks q ++ [t]) (u64 (active_tasks q + 1))) s).

(** ..and the increment of [total_submitted_] after it. *)
Definition submit_count (s : Scheduler) : Scheduler :=
  mkScheduler (numa_nodes_ s) (threads_per_node_ s) (queues_ s)
    (u64 (total_submitted_ s + 1)) (total_completed_ s) (spike_count_ s) (migrate_count_ s)
    (spikes_ s).

(** [worker_thread]: the critical section that takes the task.. *)
Definition pop_task (node : nat) (s : Scheduler) : option (Scheduler * Task) :=
  q ← queues_ s !! node;
  match tasks q with
  | [] => None
  | t :: rest => Some (set_queue node (mkQueue rest (active_tasks q)) s, t)
  end.

Definition SPIKE_THRESHOLD : F64.float := F64.of_Z 3.

(** The comparison is made in [double]. *)
Definition is_spike (actual expected : Z) : bool :=
  F64.lt (F64.mul (F64.of_Z expected) SPIKE_THRESHOLD) (F64.of_Z actual).

(** ..the record of a spike.. *)
Definition record_spike (node : nat) (t : Task) (actual : Z) (s : Scheduler) : Scheduler :=
  if is_spike actual (expected_duration t) then
    let spikes := spikes_ s ++ [mkRecord (task_id t) (Z.of_nat node) actual
                                  (expected_duration t) true] in
    let spikes := if decide (1000 < length spikes)%nat then drop 1 spikes else spikes in
    mkScheduler (numa_nodes_ s) (threads_per_node_ s) (queues_ s)
      (total_submitted_ s) (total_completed_ s) (u64 (spike_count_ s + 1)) (migrate_count_ s)
      spikes
  else s.

(** ..the decrement of the load of the queue.. *)
Definition finish_active (node : nat) (s : Scheduler) : option Scheduler :=
  q ← queues_ s !! node;
  Some (set_queue node (mkQueue (tasks q) (u64 (active_tasks q - 1))) s).

(** ..and the increment of [total_completed_]. *)
Definition finish_count (s : Scheduler) : Scheduler :=
  mkScheduler (numa_nodes_ s) (threads_per_node_ s) (queues_ s)
    (total_submitted_ s) (u64 (total_completed_ s + 1)) (spike_count_ s) (migrate_count_ s)
    (spikes_ s).

(** The condition on which the loop of [wait_all] ends. *)
Definition wait_all_done (s : Scheduler) : bool :=
  bool_decide (total_submitted_ s ≤ total_completed_ s).

(** The loop of [least_loaded_node] from index [i]. *)
Fixpoint least_loop (qs : list NumaQueue) (i best min_load : Z) : Z :=
  match qs with
  | [] => best
  | q :: qs =>
      if decide (active_tasks q < min_load)
      then least_loop qs (i + 1) i (active_tasks q)
      else least_loop qs (i + 1) best min_load
  end.

(** [queues_[0]] of a scheduler without nodes is undefined. *)
Definition least_loaded_node (s : Scheduler) : option Z :=
  match queues_ s with
  | [] => None
  | q :: qs => Some (least_loop qs 1 0 (active_tasks q))
  end.

Definition migrate_vertex (current_numa_node : Z) (s : Scheduler) : option (Scheduler * Z) :=
  new_node ← least_loaded_node s;
  Some (if decide (new_node = current_numa_node) then (s, current_numa_node)
        else (mkScheduler (numa_nodes_ s) (threads_per_node_ s) (queues_ s)
                (total_submitted_ s) (total_completed_ s) (spike_count_ s)
                (u64 (migrate_count_ s + 1)) (spikes_ s), new_node)).

(** ** Lemmas *)

Definition sched_wf (s : Scheduler) : Prop :=
  0 < numa_nodes_ s ∧ length (queues_ s) = Z.to_nat (numa_nodes_ s).

Lemma node_of_lookup t s :
  sched_wf s → ∃ node q, node_of t s = Some node ∧ queues_ s !! node = Some q.
Proof.
  intros [Hn Hlen]. unfold node_of. rewrite decide_False by lia.
  pose proof (Z.mod_pos_bound (preferred_numa_node t) (numa_nodes_ s) Hn).
  destruct (lookup_lt_is_Some_2 (queues_ s)
              (Z.to_nat (preferred_numa_node t `mod` numa_nodes_ s))) as [q Hq]; [lia|eauto].
Qed.

Lemma least_loop_spec qs i best min_load :
  let r := least_loop qs i best min_load in
  (r = best ∧ Forall (λ q, min_load ≤ active_tasks q) qs) ∨
  (∃ k q, r = i + Z.of_nat k ∧ qs !! k = Some q ∧ active_tasks q < min_load ∧
     Forall (λ q', active_tasks q ≤ active_tasks q') qs ∧
     ∀ j q', (j < k)%nat → qs !! j = Some q' → active_tasks q < active_tasks q').
Proof.
  cbn zeta. revert i best min_load.
  induction qs as [|q qs IH]; intros i best min_load; cbn [least_loop]; [by left|].
  case_decide as Hlt.
  - right. destruct (IH (i + 1) i (active_tasks q)) as [[-> HF]|(k & q' & -> & Hk & Hl & HF & Hj)].
    + exists O, q. split_and!; [lia|done|done|by constructor|]. intros j q'. lia.
    + exists (S k), q'. split_and!; [lia|done|lia|constructor; [lia|done]|].
      intros [|j] q1 Hlt1 Hq1; cbn in Hq1; [by simplify_eq|]. apply (Hj j); [lia|done].
  - destruct (IH (i + 1) best min_load) as [[-> HF]|(k & q' & -> & Hk & Hl & HF & Hj)].
    + left. split; [done|]. constructor; [lia|done].
    + right. exists (S k), q'. split_and!; [lia|done|lia|constructor; [lia|done]|].
      intros [|j] q1 Hlt1 Hq1; cbn in Hq1; [by simplify_eq; lia|]. apply (Hj j); [lia|done].
Qed.

(** ** Properties *)

(** [least_loaded_node] is the first node of least load.  With at least
    one node it returns the index of a queue whose load is at most every
    other's, and strictly below that of every queue before it. *)
Theorem least_loaded_node_min s :
  queues_ s ≠ [] →
  ∃ k q, least_loaded_node s = Some (Z.of_nat k) ∧ queues_ s !! k = Some q ∧
    (∀ j q', queues_ s !! j = Some q' → active_tasks q ≤ active_tasks q') ∧
    (∀ j q', (j < k)%nat → queues_ s !! j = Some q' → active_tasks q < active_tasks q').
Proof.
  unfold least_loaded_node. destruct (queues_ s) as [|q0 qs]; [done|]. intros _.
  destruct (least_loop_spec qs 1 0 (active_tasks q0)) as [[-> HF]|(k & q & -> & Hk & Hl & HF & Hj)].
  - exists O, q0. rewrite Forall_lookup in HF. split_and!; [done|done| |lia].
    intros [|j] q' Hj; cbn in Hj; [by simplify_eq|]. by apply (HF j).
  - exists (S k), q. rewrite Forall_lookup in HF. split_and!; [f_equal; lia|done| |].
    + intros [|j] q' Hq'; cbn in Hq'; [simplify_eq; lia|]. by apply (HF j).
    + intros [|j] q' Hlt Hq'; cbn in Hq'; [by simplify_eq|]. apply (Hj j); [lia|done].
Qed.

(** The spike records of a list of measured runs, oldest first. *)
Definition spike_records (l : list (nat * Task * Z)) : list LatencyRecord :=
  l ≫= λ '(node, t, actual),
    if is_spike actual (expected_duration t)
    then [mkRecord (task_id t) (Z.of_nat node) actual (expected_duration t) true] else [].

Definition record_all (l : list (nat * Task * Z)) (s : Scheduler) : Scheduler :=
  foldl (λ s '(node, t, actual), record_spike node t actual s) s l.

(** The spike history is the last thousand spikes.  After any sequence of
    runs on a fresh scheduler, a run is recorded exactly when it took more
    than three times its expected duration, the history holds the latest 1000
    records in order, and the counter counts all of them. *)
Theorem spike_history_window l nodes tpn :
  let s := record_all l (new nodes tpn) in
  let all := spike_records l in
  spikes_ s = drop (length all - 1000) all ∧
  spike_count_ s = u64 (Z.of_nat (length all)).
Proof.
  cbn zeta. induction l as [|[[node t] actual] l IH] using rev_ind; [done|].
  unfold record_all, spike_records in *. rewrite foldl_app, bind_app.
  cbn [foldl mbind list_bind]. rewrite app_nil_r.
  set (s := foldl _ _ l) in *. set (all := mbind _ l) in *. destruct IH as [IH1 IH2].
  unfold record_spike. destruct (is_spike actual (expected_duration t)); cycle 1.
  { by rewrite app_nil_r. }
  set (r := mkRecord _ _ _ _ _). cbn [spikes_ spike_count_]. rewrite IH1, IH2.
  rewrite !length_app, length_drop. cbn [length]. split.
  - case_decide.
    + rewrite <- drop_app_le, drop_drop by lia. f_equal. lia.
    + rewrite <- drop_app_le by lia. f_equal. lia.
  - unfold u64. rewrite Zplus_mod_idemp_l. f_equal. lia.
Qed.

(** Node 1 is the first of the two least loaded of three. *)
Lemma least_loaded_node_min_witness :
  let s := mkScheduler 3 1 [mkQueue [] 5; mkQueue [] 2; mkQueue [] 2] 0 0 0 0 [] in
  ∃ k q, least_loaded_node s = Some (Z.of_nat k) ∧ queues_ s !! k = Some q ∧ k = 1%nat.
Proof.
  cbn zeta.
  destruct (least_loaded_node_min
    (mkScheduler 3 1 [mkQueue [] 5; mkQueue [] 2; mkQueue [] 2] 0 0 0 0 [])) as (k & q & H1 & H2 & _);
    [discriminate|].
  exists k, q. split; [exact H1|split; [exact H2|]].
  injection H1 as H1. lia.
Defined.

End Sched.

Module Pool.
Import Sched.

(** How far a worker thread is with its task. *)
Inductive Stage :=
  | Taken      (* popped *)
  | Ran        (* [fn] returned, spike recorded *)
  | Unloaded.  (* [active_tasks] decremented *)

Record Busy := mkBusy { b_node : nat; b_task : Task; b_stage : Stage }.

(** The scheduler with its threads: the tasks pushed whose [submit] has not
    counted them yet, the busy worker threads, and, as ghosts, every task
    completed and every task pushed so far. *)
Record State := mkState {
  sched : Scheduler;
  counting : list Task;
  busy : list Busy;
  completed : list Task;
  pushed : list Task;
}.

Definition init (nodes tpn : Z) : State := mkState (Sched.new nodes tpn) [] [] [] [].

(** The accesses of the callers of [submit]. *)
Inductive submit_step (st : State) : State → Prop :=
  | step_push t sc :
      submit_push t (sched st) = Some sc →
      submit_step st (mkState sc (counting st ++ [t]) (busy st) (completed st) (pushed st ++ [t]))
  | step_count t l1 l2 :
      counting st = l1 ++ t :: l2 →
      submit_step st (mkState (submit_count (sched st)) (l1 ++ l2) (busy st) (completed st)
                        (pushed st)).

Definition at_node (n : nat) (b : Busy) : bool := bool_decide (b_node b = n).

(** The accesses of the worker threads: [threads_per_node_] of them per node. *)
Inductive work_step (st : State) : State → Prop :=
  | step_take n sc t :
      Z.of_nat (count (at_node n) (busy st)) < threads_per_node_ (sched st) →
      pop_task n (sched st) = Some (sc, t) →
      work_step st (mkState sc (counting st) (busy st ++ [mkBusy n t Taken]) (completed st)
                      (pushed st))
  | step_run l1 n t l2 actual :
      busy st = l1 ++ mkBusy n t Taken :: l2 →
      work_step st (mkState (record_spike n t actual (sched st)) (counting st)
                      (l1 ++ mkBusy n t Ran :: l2) (completed st) (pushed st))
  | step_unload l1 n t l2 sc :
      busy st = l1 ++ mkBusy n t Ran :: l2 →
      finish_active n (sched st) = Some sc →
      work_step st (mkState sc (counting st) (l1 ++ mkBusy n t Unloaded :: l2) (completed st)
                      (pushed st))
  | step_complete l1 n t l2 :
      busy st = l1 ++ mkBusy n t Unloaded :: l2 →
      work_step st (mkState (finish_count (sched st)) (counting st) (l1 ++ l2)
                      (completed st ++ [t]) (pushed st)).

Inductive reachable (nodes tpn : Z) : State → Prop :=
  | reachable_init : reachable nodes tpn (init nodes tpn)
  | reachable_submit st st' :
      reachable nodes tpn st → submit_step st st' → reachable nodes tpn st'
  | reachable_work st st' :
      reachable nodes tpn st → work_step st st' → reachable nodes tpn st'.

(** Work steps only: what happens while [wait_all] spins. *)
Inductive works : nat → State → State → Prop :=
  | works_0 st : works 0 st st
  | works_S m st st' st'' : works m st st' → work_step st' st'' → works (S m) st st''.

(** ** The invariant *)

Definition queued (sc : Scheduler) : list Task := concat (tasks <$> queues_ sc).

(** A busy thread still counted in the load of its node. *)
Definition loads (n : nat) (b : Busy) : bool :=
  bool_decide (b_node b = n) && match b_stage b with Unloaded => false | _ => true end.

Definition inv (nodes tpn : Z) (st : State) : Prop :=
  let sc := sched st in
  numa_nodes_ sc = nodes ∧ threads_per_node_ sc = tpn ∧ sched_wf sc ∧
  pushed st ≡ₚ queued sc ++ (b_task <$> busy st) ++ completed st ∧
  total_submitted_ sc = u64 (Z.of_nat (length (pushed st)) - Z.of_nat (length (counting st))) ∧
  total_completed_ sc = u64 (Z.of_nat (length (completed st))) ∧
  (length (counting st) ≤ length (pushed st))%nat ∧
  Forall (λ b, is_Some (queues_ sc !! b_node b)) (busy st) ∧
  ∀ n q, queues_ sc !! n = Some q →
    active_tasks q = u64 (Z.of_nat (length (tasks q) + count (loads n) (busy st))).

Lemma queued_insert sc n q q' :
  queues_ sc !! n = Some q →
  ∃ l1 l2, queued sc = l1 ++ tasks q ++ l2 ∧ queued (set_queue n q' sc) = l1 ++ tasks q' ++ l2.
Proof.
  unfold queued. cbn. generalize (queues_ sc) as qs. clear sc.
  intros qs Hn. exists (concat (tasks <$> take n qs)), (concat (tasks <$> drop (S n) qs)).
  pose proof (lookup_lt_Some _ _ _ Hn).
  rewrite (insert_take_drop _ _ _ H). rewrite <- (take_drop_middle _ _ _ Hn) at 1.
  rewrite !fmap_app, !concat_app. done.
Qed.

Lemma set_queue_wf n q sc : sched_wf sc → sched_wf (set_queue n q sc).
Proof. intros [??]. split; [done|]. cbn. by rewrite length_insert. Qed.

Lemma set_queue_lookup_is_Some n q sc m :
  is_Some (queues_ sc !! m) → is_Some (queues_ (set_queue n q sc) !! m).
Proof. intros ?%lookup_lt_is_Some. apply lookup_lt_is_Some. cbn. by rewrite length_insert. Qed.

(** The loads after one queue and the busy threads changed. *)
Lemma active_update sc n q q' bs bs' :
  queues_ sc !! n = Some q →
  (∀ m q0, queues_ sc !! m = Some q0 →
     active_tasks q0 = u64 (Z.of_nat (length (tasks q0) + count (loads m) bs))) →
  (∀ m, m ≠ n → count (loads m) bs' = count (loads m) bs) →
  active_tasks q' = u64 (Z.of_nat (length (tasks q') + count (loads n) bs')) →
  ∀ m q0, queues_ (set_queue n q' sc) !! m = Some q0 →
    active_tasks q0 = u64 (Z.of_nat (length (tasks q0) + count (loads m) bs')).
Proof.
  intros Hn Hact Hother Hq' m q0 Hm. cbn in Hm.
  apply list_lookup_insert_Some in Hm as [(<- & <- & _)|(Hne & Hm)]; [done|].
  rewrite Hother by done. by apply Hact.
Qed.

Lemma push_inv nodes tpn st t sc :
  inv nodes tpn st → submit_push t (sched st) = Some sc →
  inv nodes tpn (mkState sc (counting st ++ [t]) (busy st) (completed st) (pushed st ++ [t])).
Proof.
  intros (Hn & Ht & Hwf & Hperm & Hs & Hc & Hle & Hb & Hact) H. unfold submit_push in H.
  apply bind_Some in H as (n & _ & H). apply bind_Some in H as (q & Hq & [= <-]).
  set (q' := mkQueue _ _). unfold inv. cbn [sched counting busy completed pushed].
  destruct (queued_insert (sched st) n q q' Hq) as (l1 & l2 & E1 & E2).
  split_and!; try done.
  - by apply set_queue_wf.
  - rewrite E2, Hperm, E1. unfold q'. cbn [tasks]. solve_Permutation.
  - cbn -[u64]. rewrite Hs. f_equal. rewrite !length_app. cbn. lia.
  - rewrite !length_app. cbn. lia.
  - eapply Forall_impl; [exact Hb|]. intros b. apply set_queue_lookup_is_Some.
  - apply (active_update _ _ q q' (busy st)); try done.
    unfold q'. cbn -[u64]. rewrite (Hact _ _ Hq), u64_add_idemp, length_app. f_equal. cbn. lia.
Qed.

Lemma count_inv nodes tpn st t l1 l2 :
  inv nodes tpn st → counting st = l1 ++ t :: l2 →
  inv nodes tpn (mkState (submit_count (sched st)) (l1 ++ l2) (busy st) (completed st) (pushed st)).
Proof.
  intros (Hn & Ht & Hwf & Hperm & Hs & Hc & Hle & Hb & Hact) E. unfold inv.
  cbn [sched counting busy completed pushed].
  rewrite E, length_app in Hs, Hle. cbn [length] in Hs, Hle. split_and!; try done.
  - cbn -[u64]. rewrite Hs, u64_add_idemp, length_app. f_equal. lia.
  - rewrite length_app. lia.
Qed.

Lemma take_inv nodes tpn st n sc t :
  inv nodes tpn st → pop_task n (sched st) = Some (sc, t) →
  inv nodes tpn (mkState sc (counting st) (busy st ++ [mkBusy n t Taken]) (completed st) (pushed st)).
Proof.
  intros (Hn & Ht & Hwf & Hperm & Hs & Hc & Hle & Hb & Hact) H. unfold pop_task in H.
  apply bind_Some in H as (q & Hq & H). destruct (tasks q) as [|t0 rest] eqn:Et; [done|].
  injection H as <- <-. set (q' := mkQueue _ _). unfold inv.
  cbn [sched counting busy completed pushed].
  destruct (queued_insert (sched st) n q q' Hq) as (l1 & l2 & E1 & E2).
  split_and!; try done.
  - by apply set_queue_wf.
  - rewrite Hperm, E1, E2, Et, fmap_app. unfold q'. cbn. solve_Permutation.
  - apply Forall_app. split.
    + eapply Forall_impl; [exact Hb|]. intros b. apply set_queue_lookup_is_Some.
    + repeat constructor. apply set_queue_lookup_is_Some. by eexists.
  - apply (active_update _ _ q q' (busy st)); try done.
    + intros m Hne. rewrite count_app, count_cons. unfold loads at 2. cbn.
      rewrite bool_decide_false by done. cbn. unfold count at 2. cbn. lia.
    + unfold q'. cbn -[u64 loads]. rewrite (Hact _ _ Hq), Et, count_app, count_cons.
      unfold loads at 3. cbn -[u64]. rewrite bool_decide_true by done. cbn -[u64].
      unfold count at 3. cbn -[u64]. f_equal. lia.
Qed.

(** A stage change of one busy thread. *)
Lemma busy_replace nodes tpn st l1 n t s s' l2 :
  busy st = l1 ++ mkBusy n t s :: l2 → inv nodes tpn st →
  (b_task <$> l1 ++ mkBusy n t s' :: l2) = (b_task <$> busy st) ∧
  (∃ q, queues_ (sched st) !! n = Some q) ∧
  Forall (λ b, is_Some (queues_ (sched st) !! b_node b)) (l1 ++ mkBusy n t s' :: l2).
Proof.
  intros E (_&_&_&_&_&_&_&Hb&_). rewrite E in *. rewrite !fmap_app. split; [done|].
  apply Forall_app in Hb as [H1 H2]. apply Forall_cons in H2 as [[q Hq] H2].
  split; [by exists q|]. apply Forall_app. split; [done|]. constructor; [by exists q|done].
Qed.

Lemma count_replace (p : Busy → bool) l1 b b' l2 :
  (count p (l1 ++ b' :: l2) + Nat.b2n (p b) = count p (l1 ++ b :: l2) + Nat.b2n (p b'))%nat.
Proof. rewrite !count_app, !count_cons. lia. Qed.

Lemma record_spike_queues n t a sc :
  queues_ (record_spike n t a sc) = queues_ sc ∧ numa_nodes_ (record_spike n t a sc) = numa_nodes_ sc ∧
  threads_per_node_ (record_spike n t a sc) = threads_per_node_ sc ∧
  total_submitted_ (record_spike n t a sc) = total_submitted_ sc ∧
  total_completed_ (record_spike n t a sc) = total_completed_ sc.
Proof. unfold record_spike. by destruct (is_spike _ _). Qed.

Lemma run_inv nodes tpn st l1 n t l2 a :
  inv nodes tpn st → busy st = l1 ++ mkBusy n t Taken :: l2 →
  inv nodes tpn (mkState (record_spike n t a (sched st)) (counting st)
                   (l1 ++ mkBusy n t Ran :: l2) (completed st) (pushed st)).
Proof.
  intros Hinv E. destruct (busy_replace _ _ _ _ _ _ _ Ran _ E Hinv) as (Htask & _ & Hb').
  destruct Hinv as (Hn & Ht & Hwf & Hperm & Hs & Hc & Hle & Hb & Hact).
  destruct (record_spike_queues n t a (sched st)) as (E1 & E2 & E3 & E4 & E5).
  unfold inv. cbn [sched counting busy completed pushed].
  unfold queued, sched_wf in *. rewrite E1, E2, E3, E4, E5, Htask. split_and!; try done; try apply Hwf.
  intros m q Hq. rewrite (Hact m q Hq), E.
  pose proof (count_replace (loads m) l1 (mkBusy n t Taken) (mkBusy n t Ran) l2).
  unfold loads in H at 2 4. cbn in H. do 3 f_equal. lia.
Qed.

Lemma unload_inv nodes tpn st l1 n t l2 sc :
  inv nodes tpn st → busy st = l1 ++ mkBusy n t Ran :: l2 →
  finish_active n (sched st) = Some sc →
  inv nodes tpn (mkState sc (counting st) (l1 ++ mkBusy n t Unloaded :: l2) (completed st)
                   (pushed st)).
Proof.
  intros Hinv E H. destruct (busy_replace _ _ _ _ _ _ _ Unloaded _ E Hinv) as (Htask & _ & Hb').
  destruct Hinv as (Hn & Ht & Hwf & Hperm & Hs & Hc & Hle & Hb & Hact).
  unfold finish_active in H. apply bind_Some in H as (q & Hq & [= <-]).
  set (q' := mkQueue _ _). unfold inv. cbn [sched counting busy completed pushed].
  destruct (queued_insert (sched st) n q q' Hq) as (k1 & k2 & E1 & E2).
  split_and!; try done.
  - by apply set_queue_wf.
  - by rewrite E2, Htask, Hperm, E1.
  - eapply Forall_impl; [exact Hb'|]. intros b. apply set_queue_lookup_is_Some.
  - assert (∀ m, (count (loads m) (l1 ++ mkBusy n t Unloaded :: l2) + Nat.b2n (bool_decide (n = m))
                  = count (loads m) (busy st))%nat) as Hcnt.
    { intros m. pose proof (count_replace (loads m) l1 (mkBusy n t Ran) (mkBusy n t Unloaded) l2) as H.
      rewrite E. unfold loads in H at 2 4. cbn in H. rewrite andb_true_r, andb_false_r in H.
      cbn in H. lia. }
    apply (active_update _ _ q q' (busy st)); try done.
    + intros m Hne. rewrite <- Hcnt, bool_decide_false by done. cbn. lia.
    + unfold q'. cbn -[u64]. rewrite (Hact _ _ Hq), u64_sub_idemp, <- Hcnt.
      rewrite bool_decide_true by done. cbn -[u64]. f_equal. lia.
Qed.

Lemma complete_inv nodes tpn st l1 n t l2 :
  inv nodes tpn st → busy st = l1 ++ mkBusy n t Unloaded :: l2 →
  inv nodes tpn (mkState (finish_count (sched st)) (counting st) (l1 ++ l2)
                   (completed st ++ [t]) (pushed st)).
Proof.
  intros (Hn & Ht & Hwf & Hperm & Hs & Hc & Hle & Hb & Hact) E. unfold inv.
  cbn [sched counting busy completed pushed]. split_and!; try done.
  - rewrite Hperm, E, !fmap_app. cbn. unfold queued. cbn. solve_Permutation.
  - cbn -[u64]. rewrite Hc, u64_add_idemp, length_app. f_equal. cbn. lia.
  - rewrite E in Hb. apply Forall_app in Hb as [H1 H2]. apply Forall_cons in H2 as [_ H2].
    by apply Forall_app.
  - intros m q Hq. rewrite (Hact m q Hq), E. rewrite !count_app, count_cons.
    unfold loads at 2. cbn. rewrite andb_false_r. done.
Qed.

Lemma submit_step_inv nodes tpn st st' : inv nodes tpn st → submit_step st st' → inv nodes tpn st'.
Proof. intros Hinv []; eauto using push_inv, count_inv. Qed.

Lemma work_step_inv nodes tpn st st' : inv nodes tpn st → work_step st st' → inv nodes tpn st'.
Proof. intros Hinv []; eauto using take_inv, run_inv, unload_inv, complete_inv. Qed.

Lemma pool_init_inv nodes tpn : 0 < nodes → inv nodes tpn (init nodes tpn).
Proof.
  intros Hn. unfold inv. cbn. split_and!; try done.
  - split; [done|]. cbn. by rewrite length_replicate.
  - unfold queued. cbn. rewrite fmap_replicate. cbn. rewrite app_nil_r.
    induction (Z.to_nat nodes) as [|k IH]; [done|exact IH].
  - intros n q Hq. apply lookup_replicate in Hq as [-> _]. done.
Qed.

Lemma pool_reachable_inv nodes tpn st : 0 < nodes → reachable nodes tpn st → inv nodes tpn st.
Proof.
  intros Hn Hr. induction Hr; eauto using pool_init_inv, submit_step_inv, work_step_inv.
Qed.

(** ** Termination *)

Definition rank (b : Busy) : nat :=
  match b_stage b with Taken => 3 | Ran => 2 | Unloaded => 1 end.

(** How many accesses the worker threads have left. *)
Definition measure (st : State) : nat :=
  4 * length (queued (sched st)) + sum_list_with rank (busy st).

Lemma pop_task_queued n sc sc' t :
  pop_task n sc = Some (sc', t) → length (queued sc) = S (length (queued sc')).
Proof.
  unfold pop_task. intros H. apply bind_Some in H as (q & Hq & H).
  destruct (tasks q) as [|t0 rest] eqn:Et; [done|]. injection H as <- <-.
  destruct (queued_insert sc n q (mkQueue rest (active_tasks q)) Hq) as (l1 & l2 & -> & ->).
  rewrite !length_app, Et. cbn. lia.
Qed.

Lemma finish_active_queued n sc sc' : finish_active n sc = Some sc' → queued sc' = queued sc.
Proof.
  unfold finish_active. intros H. apply bind_Some in H as (q & Hq & [= <-]).
  by destruct (queued_insert sc n q (mkQueue (tasks q) (u64 (active_tasks q - 1))) Hq)
    as (l1 & l2 & -> & ->).
Qed.

Lemma work_step_measure st st' : work_step st st' → (measure st' < measure st)%nat.
Proof.
  unfold measure. intros [n sc t _ H|l1 n t l2 a H|l1 n t l2 sc H Hf|l1 n t l2 H];
    cbn [sched busy]; try rewrite H; rewrite ?sum_list_with_app;
    cbn [sum_list_with rank b_stage].
  - apply pop_task_queued in H. lia.
  - destruct (record_spike_queues n t a (sched st)) as [E _]. unfold queued. rewrite E. lia.
  - rewrite (finish_active_queued _ _ _ Hf). lia.
  - unfold queued. cbn [finish_count queues_]. lia.
Qed.

Lemma rank_bound bs : (sum_list_with rank bs ≤ 3 * length bs)%nat.
Proof.
  induction bs as [|[n t s] bs IH]; cbn [sum_list_with length]; [lia|].
  assert (rank (mkBusy n t s) ≤ 3)%nat by (destruct s; cbn; lia). lia.
Qed.

Lemma inv_lengths nodes tpn st :
  inv nodes tpn st →
  length (pushed st) =
    (length (queued (sched st)) + length (busy st) + length (completed st))%nat.
Proof.
  intros (_&_&_&Hperm&_). rewrite Hperm, !length_app, length_fmap. lia.
Qed.

(** When no worker thread can move, there is no work. *)
Lemma work_stuck nodes tpn st :
  0 < tpn → inv nodes tpn st → (∀ st', ¬ work_step st st') →
  busy st = [] ∧ queued (sched st) = [].
Proof.
  intros Htpn (Hn & Ht & Hwf & Hperm & Hs & Hc & Hle & Hb & Hact) Hstuck.
  assert (busy st = []) as Hbusy.
  { destruct (busy st) as [|[n t s] l2] eqn:E; [done|]. exfalso. destruct s.
    - eapply Hstuck, (step_run st [] n t l2 0 E).
    - apply Forall_cons in Hb as [[q Hq] _]. cbn in Hq.
      eapply Hstuck, (step_unload st [] n t l2 _ E). unfold finish_active. rewrite Hq. reflexivity.
    - eapply Hstuck, (step_complete st [] n t l2 E). }
  split; [done|]. unfold queued.
  assert (∀ n q, queues_ (sched st) !! n = Some q → tasks q = []) as Hq.
  { intros n q Hq. destruct (tasks q) as [|t rest] eqn:Et; [done|]. exfalso.
    eapply Hstuck, (step_take st n _ t); [by rewrite Hbusy, Ht|].
    unfold pop_task. rewrite Hq. cbn. rewrite Et. reflexivity. }
  revert Hq. generalize (queues_ (sched st)) as qs. clear.
  induction qs as [|q qs IH]; intros Hq; [done|]. cbn. rewrite (Hq O q eq_refl). cbn.
  apply IH. intros n. apply (Hq (S n)).
Qed.

Lemma works_inv nodes tpn m st st' :
  inv nodes tpn st → works m st st' →
  inv nodes tpn st' ∧ (m + measure st' ≤ measure st)%nat ∧
  counting st' = counting st ∧ pushed st' = pushed st.
Proof.
  intros Hinv Hw. induction Hw as [st|m st st' st'' Hw IH Hs]; [by split_and!; [|lia|..]|].
  destruct (IH Hinv) as (Hinv' & Hm & <- & <-).
  pose proof (work_step_measure _ _ Hs). split_and!; [by eapply work_step_inv|lia|..];
    by destruct Hs.
Qed.

(** *** When [wait_all] ends *)

(** With every task counted, the exit condition of [wait_all] means that no work
    is left.. *)
Lemma done_idle nodes tpn st :
  inv nodes tpn st → Z.of_nat (length (pushed st)) < 2 ^ 64 → counting st = [] →
  wait_all_done (sched st) = true →
  busy st = [] ∧ queued (sched st) = [] ∧ pushed st ≡ₚ completed st.
Proof.
  intros Hinv Hmax Hcnt Hdone. pose proof (inv_lengths _ _ _ Hinv) as Hlen.
  destruct Hinv as (_ & _ & _ & Hperm & Hs & Hc & _).
  unfold wait_all_done in Hdone. apply bool_decide_eq_true in Hdone.
  rewrite Hcnt in Hs. cbn [length] in Hs.
  rewrite u64_small in Hs by (unfold in_u64; lia).
  rewrite u64_small in Hc by (unfold in_u64; lia).
  assert (busy st = []) as Hb by (apply nil_length_inv; lia).
  assert (queued (sched st) = []) as Hq by (apply nil_length_inv; lia).
  split_and!; try done. by rewrite Hb, Hq in Hperm.
Qed.

(** ..and when no work is left it holds. *)
Lemma idle_done nodes tpn st :
  inv nodes tpn st → busy st = [] → queued (sched st) = [] →
  pushed st ≡ₚ completed st ∧ (counting st = [] → wait_all_done (sched st) = true).
Proof.
  intros (_ & _ & _ & Hperm & Hs & Hc & _) Hb Hq.
  rewrite Hb, Hq in Hperm. cbn in Hperm. split; [done|]. intros Hnil.
  unfold wait_all_done. apply bool_decide_eq_true. rewrite Hs, Hc, Hnil.
  apply Permutation_length in Hperm. rewrite Hperm. cbn [length]. by rewrite Z.sub_0_r.
Qed.

(** ** Properties *)

(** C19: The scheduler loses no task and runs none twice.  In every
    interleaving the tasks pushed are, as a multiset, those in the queues,
    those being run and those completed; and the load of each node is the
    number of its tasks that are queued or not finished. *)
Theorem scheduler_conserves_tasks nodes tpn st :
  0 < nodes → reachable nodes tpn st →
  pushed st ≡ₚ queued (sched st) ++ (b_task <$> busy st) ++ completed st ∧
  ∀ n q, queues_ (sched st) !! n = Some q →
    active_tasks q = u64 (Z.of_nat (length (tasks q) + count (loads n) (busy st))).
Proof.
  intros Hn Hr. destruct (pool_reachable_inv _ _ _ Hn Hr) as (_&_&_&?&_&_&_&_&?). done.
Qed.

(** [wait_all] waits for every task when no [submit] is under way.  If the
    exit condition of [wait_all] holds while every pushed task has been
    counted, then the queues are empty, no thread is busy, and every task
    pushed has completed. *)
Theorem wait_all_waits nodes tpn st :
  0 < nodes → reachable nodes tpn st → Z.of_nat (length (pushed st)) < 2 ^ 64 →
  counting st = [] → wait_all_done (sched st) = true →
  busy st = [] ∧ queued (sched st) = [] ∧ pushed st ≡ₚ completed st.
Proof.
  intros Hn Hr. apply (done_idle nodes tpn), (pool_reachable_inv _ _ _ Hn Hr).
Qed.

(** [wait_all] ends.  With at least one thread per node, whatever the
    interleaving, the worker threads make at most four accesses per task
    pushed, and when none is left every pushed task has completed and, if all
    were counted, the exit condition of [wait_all] holds. *)
Theorem wait_all_terminates nodes tpn st m st' :
  0 < nodes → 0 < tpn → reachable nodes tpn st → works m st st' →
  (m ≤ 4 * length (pushed st))%nat ∧
  ((∀ st'', ¬ work_step st' st'') →
   pushed st ≡ₚ completed st' ∧ (counting st = [] → wait_all_done (sched st') = true)).
Proof.
  intros Hn Htpn Hr Hw. pose proof (pool_reachable_inv _ _ _ Hn Hr) as Hinv.
  destruct (works_inv _ _ _ _ _ Hinv Hw) as (Hinv' & Hm & Hcnt & Hpush).
  pose proof (inv_lengths _ _ _ Hinv). pose proof (rank_bound (busy st)). split.
  { unfold measure in Hm at 2. lia. }
  intros Hstuck. destruct (work_stuck _ _ _ Htpn Hinv' Hstuck) as [Hb Hq].
  rewrite <- Hcnt, <- Hpush. by apply (idle_done nodes tpn).
Qed.

(** A task of one caller, for node 0, and of another, for node 1. *)
Definition task_x : Task := mkTask 0 0 50.
Definition task_y : Task := mkTask 1 1 50.

(** [wait_all] can return early when two callers submit.  On a scheduler
    with two nodes of one thread there is a reachable state in which the exit
    condition of [wait_all] holds although [submit] of the task [x] has
    returned and [x] is still in its queue: a task [y] that its caller has
    pushed but not counted yet has completed and stands in for [x]. *)
Theorem wait_all_race :
  ∃ st, reachable 2 1 st ∧ wait_all_done (sched st) = true ∧
    task_x ∈ pushed st ∧ task_x ∉ counting st ∧
    task_x ∈ queued (sched st) ∧ task_x ∉ completed st.
Proof.
  pose proof (reachable_init 2 1) as H.
  eapply reachable_submit in H; [|eapply (step_push _ task_x); reflexivity].
  eapply reachable_submit in H; [|eapply (step_count _ task_x [] []); reflexivity].
  eapply reachable_submit in H; [|eapply (step_push _ task_y); reflexivity].
  eapply reachable_work in H; [|eapply (step_take _ 1); reflexivity].
  eapply reachable_work in H; [|eapply (step_run _ [] 1 task_y [] 10); reflexivity].
  eapply reachable_work in H; [|eapply (step_unload _ [] 1 task_y []); reflexivity].
  eapply reachable_work in H; [|eapply (step_complete _ [] 1 task_y []); reflexivity].
  eexists. split; [exact H|]. split_and!; cbn; try reflexivity; set_solver.
Qed.

(** ** The theorems on a concrete run *)

Definition one_pushed : State :=
  mkState (mkScheduler 2 1 [mkQueue [task_x] 1; mkQueue [] 0] 1 0 0 0 []) [] [] [] [task_x].

Lemma one_pushed_reachable : reachable 2 1 one_pushed.
Proof.
  pose proof (reachable_init 2 1) as H.
  eapply reachable_submit in H; [|eapply (step_push _ task_x); reflexivity].
  eapply reachable_submit in H; [|eapply (step_count _ task_x [] []); reflexivity].
  exact H.
Qed.

Definition one_completed : State :=
  mkState (mkScheduler 2 1 [mkQueue [] 0; mkQueue [] 0] 1 1 0 0 []) [] [] [task_x] [task_x].

Lemma one_completed_works : works 4 one_pushed one_completed.
Proof.
  pose proof (works_0 one_pushed) as H.
  eapply works_S in H; [|eapply (step_take _ 0); reflexivity].
  eapply works_S in H; [|eapply (step_run _ [] 0 task_x [] 10); reflexivity].
  eapply works_S in H; [|eapply (step_unload _ [] 0 task_x []); reflexivity].
  eapply works_S in H; [|eapply (step_complete _ [] 0 task_x []); reflexivity].
  exact H.
Qed.

Lemma works_reachable nodes tpn m st st' :
  reachable nodes tpn st → works m st st' → reachable nodes tpn st'.
Proof. intros Hr Hw. induction Hw; [done|]. eapply reachable_work; [by apply IHHw|done]. Qed.

Lemma scheduler_conserves_tasks_witness : pushed one_pushed ≡ₚ [task_x].
Proof. exact (proj1 (scheduler_conserves_tasks 2 1 one_pushed ltac:(lia) one_pushed_reachable)). Defined.

Lemma wait_all_waits_witness : pushed one_completed ≡ₚ completed one_completed.
Proof.
  refine (proj2 (proj2 (wait_all_waits 2 1 one_completed ltac:(lia)
    (works_reachable _ _ _ _ _ one_pushed_reachable one_completed_works) _ eq_refl eq_refl))).
  cbn. lia.
Defined.

Lemma wait_all_terminates_witness : (4 ≤ 4 * length (pushed one_pushed))%nat.
Proof.
  exact (proj1 (wait_all_terminates 2 1 one_pushed 4 one_completed ltac:(lia) ltac:(lia)
                  one_pushed_reachable one_completed_works)).
Defined.

End Pool.
