(* ===== verification/SchedulerStop.v ===== *)
(** Starting and stopping the task scheduler: [NumaScheduler::start] and [stop], and
    the loop of [worker_thread] around the accesses of [NumaScheduler]
    ([src/numa_scheduler.cpp]).

    A thread tests [running_], waits in its queue's critical section until there
    is a task, five milliseconds have passed or the scheduler stops, takes a task
    or goes back to the test, and runs the task.  [stop] clears [running_], wakes
    all threads and joins them: it returns when every thread has left its loop. *)
From S2P Require Import Prelude NumaScheduler.
Local Open Scope Z_scope.

Module Stop.
Import Sched.

(** Where a thread is in its loop. *)
Inductive PC :=
  | Checking                  (* [while (running_)] *)
  | Waiting                   (* in [wait_for] *)
  | Holding (t : Task)        (* popped *)
  | Exited.

#[export] Instance PC_eq_dec : EqDecision PC.
Proof. solve_decision. Defined.

(** The threads with their nodes; [ran] lists the tasks whose [fn] returned. *)
Record State := mkState {
  running : bool;
  sched : Scheduler;
  threads : list (nat * PC);
  ran : list Task;
}.

(** [start] *)
Definition start (sc : Scheduler) : State :=
  mkState true sc
    (seq 0 (Z.to_nat (numa_nodes_ sc)) ≫= λ node,
       replicate (Z.to_nat (threads_per_node_ sc)) (node, Checking))
    [].

(** The first line of [stop]. *)
Definition stop_request (st : State) : State :=
  mkState false (sched st) (threads st) (ran st).

(** The joins of [stop] return. *)
Definition joined (st : State) : Prop := Forall (λ th, th.2 = Exited) (threads st).

#[export] Instance joined_dec st : Decision (joined st).
Proof. unfold joined. apply _. Defined.

Definition goto (i : nat) (th : nat * PC) (st : State) : State :=
  mkState (running st) (sched st) (<[i := th]> (threads st)) (ran st).

(** One step of thread [i]; [actual] is the duration it measures, if it does. *)
Definition advance (st : State) (ia : nat * Z) : option State :=
  let '(i, actual) := ia in
  '(n, pc) ← threads st !! i;
  match pc with
  | Checking => Some (goto i (n, if running st then Waiting else Exited) st)
  | Waiting =>
      q ← queues_ (sched st) !! n;
      match tasks q with
      | [] => Some (goto i (n, Checking) st)
      | _ =>
          '(sc, t) ← pop_task n (sched st);
          Some (goto i (n, Holding t) (mkState (running st) sc (threads st) (ran st)))
      end
  | Holding t =>
      sc ← finish_active n (record_spike n t actual (sched st));
      Some (goto i (n, Checking) (mkState (running st) (finish_count sc) (threads st)
                                    (ran st ++ [t])))
  | Exited => None
  end.

(** A sequence of steps of the threads. *)
Definition advances (ias : list (nat * Z)) (st : State) : option State :=
  foldM advance st ias.

(** ** Lemmas *)

(** Every thread has a queue. *)
Definition threads_ok (st : State) : Prop :=
  Forall (λ th, (th.1 < length (queues_ (sched st)))%nat) (threads st).

(** The steps a thread makes after [running_] is cleared, at most. *)
Definition budget (th : nat * PC) : nat :=
  match th.2 with Waiting => 3 | Holding _ => 2 | Checking => 1 | Exited => 0 end.
(** The tasks it runs after that, at most. *)
Definition may_run (th : nat * PC) : nat :=
  match th.2 with Waiting | Holding _ => 1 | _ => 0 end.
Definition holds (th : nat * PC) : nat := match th.2 with Holding _ => 1 | _ => 0 end.

Definition sum_threads (f : nat * PC → nat) (st : State) : nat :=
  sum_list_with f (threads st).

Lemma sum_goto f i th th' st :
  threads st !! i = Some th →
  (sum_threads f (goto i th' st) + f th = sum_threads f st + f th')%nat.
Proof.
  exact (sum_list_insert f (threads st) i th' th).
Qed.

Lemma queues_record_spike n t actual sc :
  queues_ (record_spike n t actual sc) = queues_ sc.
Proof. unfold record_spike. by destruct (is_spike _ _). Qed.

(** What steps of the threads do to the accounts: no task appears or disappears,
    and once the scheduler stops the threads use up their steps and their tasks. *)
Definition accounts (st st' : State) : Prop :=
  threads_ok st' ∧ running st' = running st ∧ length (threads st') = length (threads st) ∧
  (length (Pool.queued (sched st')) + sum_threads holds st' + length (ran st') =
   length (Pool.queued (sched st)) + sum_threads holds st + length (ran st))%nat ∧
  (running st = false →
     (sum_threads may_run st' + length (ran st') ≤ sum_threads may_run st + length (ran st))%nat).

(** The step of a thread that goes from [pc] to [pc'] while the rest of the state
    becomes that of [st1]. *)
Lemma goto_effect st st1 i n pc pc' :
  threads_ok st → threads st !! i = Some (n, pc) →
  threads st1 = threads st → running st1 = running st →
  length (queues_ (sched st1)) = length (queues_ (sched st)) →
  (length (Pool.queued (sched st1)) + holds (n, pc') + length (ran st1) =
   length (Pool.queued (sched st)) + holds (n, pc) + length (ran st))%nat →
  (running st = false → (budget (n, pc') < budget (n, pc))%nat ∧
     (may_run (n, pc') + length (ran st1) ≤ may_run (n, pc) + length (ran st))%nat) →
  accounts st (goto i (n, pc') st1) ∧
  (running st = false → (sum_threads budget (goto i (n, pc') st1) < sum_threads budget st)%nat).
Proof.
  intros Hok Hi Ht Hr Hq Hsum Hstop.
  assert (∀ f, sum_threads f (goto i (n, pc') st1) + f (n, pc) =
    sum_threads f st + f (n, pc'))%nat as Hgoto.
  { intros f. unfold sum_threads at 2. rewrite <- Ht. apply sum_goto. by rewrite Ht. }
  pose proof (Hgoto holds). pose proof (Hgoto budget). pose proof (Hgoto may_run).
  split; [split_and!|].
  - unfold threads_ok in *. cbn [goto sched threads]. rewrite Hq, Ht.
    apply Forall_insert; [exact Hok|].
    rewrite Forall_lookup in Hok. exact (Hok i (n, pc) Hi).
  - exact Hr.
  - cbn [goto threads]. by rewrite length_insert, Ht.
  - cbn [goto sched ran] in *. lia.
  - intros Hf. destruct (Hstop Hf). cbn [goto ran] in *. lia.
  - intros Hf. destruct (Hstop Hf). lia.
Qed.

Lemma advance_effect st i actual st' :
  threads_ok st → advance st (i, actual) = Some st' →
  accounts st st' ∧ (running st = false → (sum_threads budget st' < sum_threads budget st)%nat).
Proof.
  intros Hok. unfold advance. intros H. apply bind_Some in H as ([n pc] & Hi & H).
  destruct pc as [| |t|]; [| | |done].
  - injection H as <-. eapply goto_effect; try done; [by destruct (running st)|].
    intros ->. cbn. lia.
  - apply bind_Some in H as (q & Hq & H). destruct (tasks q) as [|t ts] eqn:Et.
    + injection H as <-. eapply goto_effect; try done. intros _. cbn. lia.
    + unfold pop_task in H. rewrite Hq in H. cbn [mbind option_bind] in H. rewrite Et in H.
      cbn [mbind option_bind] in H. injection H as <-.
      destruct (Pool.queued_insert (sched st) n q (mkQueue ts (active_tasks q)) Hq)
        as (l1 & l2 & E1 & E2). rewrite Et in E1.
      eapply goto_effect; try done; [cbn; by rewrite length_insert| |cbn; lia].
      cbn [sched ran holds snd]. rewrite E1, E2, !length_app. cbn. lia.
  - apply bind_Some in H as (sc & Hsc & [= <-]). unfold finish_active in Hsc.
    apply bind_Some in Hsc as (q & Hq & [= <-]).
    set (sc1 := record_spike n t actual (sched st)) in *.
    assert (queues_ sc1 = queues_ (sched st)) as Hqs by apply queues_record_spike.
    destruct (Pool.queued_insert sc1 n q (mkQueue (tasks q) (u64 (active_tasks q - 1))) Hq)
      as (l1 & l2 & E1 & E2).
    assert (Pool.queued (sched st) = l1 ++ tasks q ++ l2) as E0
      by (rewrite <- E1; unfold Pool.queued; by rewrite Hqs).
    eapply goto_effect; try done; [cbn -[sc1]; by rewrite length_insert, Hqs| |].
    + cbn [sched ran holds snd]. change (Pool.queued (finish_count ?sc)) with (Pool.queued sc).
      rewrite E0, E2, (length_app (ran st)). cbn. lia.
    + intros _. cbn [ran budget may_run snd]. rewrite length_app. cbn. lia.
Qed.

(** A thread that has not left its loop can make a step. *)
Lemma thread_advance_total st i actual th :
  threads_ok st → threads st !! i = Some th → th.2 ≠ Exited → is_Some (advance st (i, actual)).
Proof.
  intros Hok Hi Hpc. destruct th as [n pc]. unfold advance. rewrite Hi. cbn [mbind option_bind].
  unfold threads_ok in Hok. rewrite Forall_lookup in Hok. specialize (Hok i (n, pc) Hi).
  destruct (lookup_lt_is_Some_2 (queues_ (sched st)) n Hok) as [q Hq].
  destruct pc as [| |t|]; [by eexists| | |done].
  - rewrite Hq. cbn [mbind option_bind]. destruct (tasks q) as [|t ts] eqn:Et; [by eexists|].
    unfold pop_task. rewrite Hq. cbn [mbind option_bind]. rewrite Et. by eexists.
  - unfold finish_active. rewrite queues_record_spike, Hq. by eexists.
Qed.

Lemma advances_effect ias st st' :
  threads_ok st → advances ias st = Some st' →
  accounts st st' ∧
  (running st = false → (length ias + sum_threads budget st' ≤ sum_threads budget st)%nat).
Proof.
  unfold advances. revert st. induction ias as [|[i actual] ias IH]; intros st Hok; cbn [foldM].
  { intros [= <-]. by split. }
  intros H. apply bind_Some in H as (st1 & H1 & H).
  destruct (advance_effect st i actual st1 Hok H1) as [(Hok1 & Hr1 & Hl1 & Ha1 & Hb1) Hc1].
  destruct (IH st1 Hok1 H) as [(Hok2 & Hr2 & Hl2 & Ha2 & Hb2) Hc2]. rewrite Hr1 in *.
  split; [split_and!; try done; try congruence|];
    intros Hr; specialize (Hb1 Hr); specialize (Hb2 Hr); specialize (Hc1 Hr);
    specialize (Hc2 Hr); cbn [length]; lia.
Qed.

Lemma sum_threads_le f b st :
  (∀ th, f th ≤ b)%nat → (sum_threads f st ≤ b * length (threads st))%nat.
Proof.
  intros Hf. unfold sum_threads. induction (threads st) as [|th l IH]; cbn; [lia|].
  specialize (Hf th). lia.
Qed.

(** All threads of a fresh scheduler have a queue. *)
Lemma start_ok sc : sched_wf sc → threads_ok (start sc).
Proof.
  intros [_ Hlen]. unfold threads_ok, start. cbn [threads sched]. rewrite Hlen.
  rewrite Forall_bind. apply Forall_forall. intros n Hn%elem_of_seq.
  apply Forall_replicate. cbn. lia.
Qed.

(** Threads that are not all out of their loops can still make a step. *)
Lemma not_joined st : ¬ joined st → ∃ i th, threads st !! i = Some th ∧ th.2 ≠ Exited.
Proof.
  unfold joined. intros Hn. apply not_Forall_Exists in Hn; [|intros th; apply _].
  apply Exists_exists in Hn as (th & Hin & Hpc).
  apply list_elem_of_lookup in Hin as [i Hi]. by exists i, th.
Qed.

Lemma stop_joins m st :
  (sum_threads budget st ≤ m)%nat → running st = false → threads_ok st →
  ∃ ias st', advances ias st = Some st' ∧ joined st'.
Proof.
  revert st. induction m as [|m IH]; intros st Hm Hr Hok;
    (destruct (decide (joined st)) as [Hj|Hj]; [by exists [], st|]);
    destruct (not_joined st Hj) as (i & th & Hi & Hpc);
    destruct (thread_advance_total st i 0 th Hok Hi Hpc) as [st1 H1];
    destruct (advance_effect st i 0 st1 Hok H1) as [(Hok1 & Hr1 & _) Hb];
    specialize (Hb Hr); [lia|].
  destruct (IH st1) as (ias & st' & Has & Hj'); [lia|congruence|done|].
  exists ((i, 0) :: ias), st'. split; [|done]. unfold advances in *. cbn [foldM].
  by rewrite H1.
Qed.

(** ** Properties *)

(** C20: [stop] returns, and may lose tasks.  After [running_] is cleared the
    threads make at most three steps each, whatever the order, a thread that has
    not left its loop can always make one, and so all threads leave their loops
    and the joins return.  Meanwhile each thread runs at most one more task; every
    other task stays in its queue and never runs. *)
Theorem scheduler_stops st :
  running st = false → threads_ok st →
  (∃ ias st', advances ias st = Some st' ∧ joined st') ∧
  ∀ ias st', advances ias st = Some st' →
    (length ias ≤ 3 * length (threads st))%nat ∧
    (length (ran st') ≤ length (ran st) + length (threads st))%nat ∧
    (∀ i th actual, threads st' !! i = Some th → th.2 ≠ Exited →
       is_Some (advance st' (i, actual))) ∧
    (joined st' → length (Pool.queued (sched st')) + length (ran st') =
       length (Pool.queued (sched st)) + sum_threads holds st + length (ran st))%nat.
Proof.
  intros Hr Hok. split; [by eapply stop_joins|]. intros ias st' Hrun.
  destruct (advances_effect ias st st' Hok Hrun) as [(Hok' & _ & _ & Ha & Hb2) Hb1].
  specialize (Hb1 Hr). specialize (Hb2 Hr).
  assert (sum_threads budget st ≤ 3 * length (threads st))%nat
    by (apply sum_threads_le; intros [n []]; cbn; lia).
  assert (sum_threads may_run st ≤ 1 * length (threads st))%nat
    by (apply sum_threads_le; intros [n []]; cbn; lia).
  split_and!; [lia|lia| |].
  - intros i th actual Hi Hpc. by eapply thread_advance_total.
  - intros Hj. assert (sum_threads holds st' = O) as Hz; [|lia].
    unfold sum_threads. unfold joined in Hj.
    induction Hj as [|[n pc] l Hpc _ IH]; [done|]. cbn in Hpc. subst pc. exact IH.
Qed.

(** One node with one thread, that waits when the scheduler stops, and two tasks
    in the queue: one of them is lost. *)
Definition sample : State :=
  stop_request (mkState true
    (mkScheduler 1 1 [mkQueue [mkTask 1 0 50; mkTask 2 0 50] 2] 2 0 0 0 []) [(0%nat, Waiting)] []).

Lemma sample_ok : threads_ok sample.
Proof. repeat constructor. Qed.

Lemma scheduler_stops_witness :
  ∃ ias st', advances ias sample = Some st' ∧ joined st' ∧
    (1 ≤ length (Pool.queued (sched st')))%nat.
Proof.
  destruct (scheduler_stops sample eq_refl sample_ok) as [(ias & st' & Hrun & Hj) Hall].
  exists ias, st'. destruct (Hall ias st' Hrun) as (_ & Hran & _ & Hq). specialize (Hq Hj).
  split; [exact Hrun|split; [exact Hj|]]. cbn in Hran, Hq. lia.
Defined.

End Stop.
