(* ===== verification/Heartbeat.v ===== *)
(** The failure detector: [src/heartbeat.hpp], [src/heartbeat.cpp].

    The detector's mutex makes every operation and every pass of the monitor
    thread one atomic step; [Hb.event] lists them and [Hb.run] is any sequence
    of them, from the detector the constructor makes.  The constructor leaves both
    callbacks empty; [SetFailureCb] and [SetRecoveryCb] are the calls that set them
    (the coordinator's constructor makes the first).  Clock readings are arguments, in nanoseconds.

    [double] arithmetic is that of [Float64].  [std::erfc] and [std::log10],
    whose accuracy C++ leaves open, are the class [MathLib]. *)
From Stdlib Require Import SpecFloat.
From S2P Require Import Prelude Types Float64.
Local Open Scope Z_scope.

(** [std::erfc] and [std::log10] on [double]. *)
Class MathLib := { erfc : F64.float → F64.float; log10 : F64.float → F64.float }.

Module Hb.
Section Hb.
Context `{MathLib}.
Import F64.

Inductive NodeState := ALIVE | SUSPECTED | FAILED | RECOVERED.

#[global] Instance NodeState_eq_dec : EqDecision NodeState.
Proof. solve_decision. Defined.

Record HeartbeatRecord := mkRecord {
  worker_id : WorkerId;
  last_seen : Z;
  state : NodeState;
  phi : float;
  beat_count : Z;
  intervals : list float;
}.

Definition WINDOW : nat := 16.

(** [failure_cb_] and [recovery_cb_] are empty or not; what they are called
    with is part of the result of the operations. *)
Record HeartbeatDetector := mkDetector {
  local_id_ : WorkerId;
  worker_count_ : Z;
  interval_ms_ : Z;
  timeout_ms_ : Z;
  phi_threshold_ : float;
  records_ : gmap Z HeartbeatRecord;
  failure_cb_ : bool;
  recovery_cb_ : bool;
}.

Inductive Callback := OnFailure (w : WorkerId) | OnRecovery (w : WorkerId).

Definition set_records (m : gmap Z HeartbeatRecord) (hb : HeartbeatDetector)
    : HeartbeatDetector :=
  mkDetector (local_id_ hb) (worker_count_ hb) (interval_ms_ hb) (timeout_ms_ hb)
    (phi_threshold_ hb) m (failure_cb_ hb) (recovery_cb_ hb).

(** The record the constructor makes for worker [i] at time [now]. *)
Definition new_record (interval_ms i now : Z) : HeartbeatRecord :=
  mkRecord i now ALIVE (of_Z 0) 0 (replicate 8 (of_Z interval_ms)).

(** The loop of the constructor over the workers below [k]. *)
Definition initial_records (local_id interval_ms : Z) (clock : Z → Z) (k : nat)
    : gmap Z HeartbeatRecord :=
  foldl (λ m i, let i := Z.of_nat i in
                if decide (i = local_id) then m
                else <[i := new_record interval_ms i (clock i)]> m) ∅ (seq 0 k).

(** The constructor; [clock i] is the reading for worker [i]. *)
Definition new (local_id worker_count interval_ms timeout_ms : Z) (phi_threshold : float)
    (clock : Z → Z) : HeartbeatDetector :=
  mkDetector local_id worker_count interval_ms timeout_ms phi_threshold
    (initial_records local_id interval_ms clock (Z.to_nat worker_count))
    false false.

Definition on_failure (hb : HeartbeatDetector) : HeartbeatDetector :=
  mkDetector (local_id_ hb) (worker_count_ hb) (interval_ms_ hb) (timeout_ms_ hb)
    (phi_threshold_ hb) (records_ hb) true (recovery_cb_ hb).
Definition on_recovery (hb : HeartbeatDetector) : HeartbeatDetector :=
  mkDetector (local_id_ hb) (worker_count_ hb) (interval_ms_ hb) (timeout_ms_ hb)
    (phi_threshold_ hb) (records_ hb) (failure_cb_ hb) true.

(** The rolling window: [push_back], then [erase(begin())] when too long. *)
Definition push_interval (x : float) (l : list float) : list float :=
  let l := l ++ [x] in
  if decide (WINDOW < length l)%nat then drop 1 l else l.

Definition beat_record (now : Z) (rec : HeartbeatRecord) : HeartbeatRecord :=
  mkRecord (worker_id rec) now ALIVE (of_Z 0) (u64 (beat_count rec + 1))
    (if decide (0 < beat_count rec)
     then push_interval (millis (now - last_seen rec)) (intervals rec)
     else intervals rec).

Definition receive_heartbeat (from : WorkerId) (now : Z) (hb : HeartbeatDetector)
    : HeartbeatDetector * list Callback :=
  match records_ hb !! from with
  | None => (hb, [])
  | Some rec =>
      (set_records (<[from := beat_record now rec]> (records_ hb)) hb,
       if decide ((state rec = FAILED ∨ state rec = SUSPECTED) ∧ recovery_cb_ hb = true)
       then [OnRecovery from] else [])
  end.

(** The number of nanoseconds [inject_failure] subtracts. *)
Definition injected_delay (hb : HeartbeatDetector) : Z :=
  u32 (timeout_ms_ hb * 10) * 1000000.

Definition inject_failure (w : WorkerId) (hb : HeartbeatDetector) : HeartbeatDetector :=
  match records_ hb !! w with
  | None => hb
  | Some rec =>
      set_records (<[w := mkRecord (worker_id rec) (last_seen rec - injected_delay hb)
                            (state rec) (phi rec) (beat_count rec) (intervals rec)]>
                     (records_ hb)) hb
  end.

Definition state_of (w : WorkerId) (hb : HeartbeatDetector) : NodeState :=
  match records_ hb !! w with None => ALIVE | Some rec => state rec end.
Definition phi_of (w : WorkerId) (hb : HeartbeatDetector) : float :=
  match records_ hb !! w with None => of_Z 0 | Some rec => phi rec end.
Definition is_alive (w : WorkerId) (hb : HeartbeatDetector) : bool :=
  bool_decide (state_of w hb = ALIVE).

(** [order] is the iteration order of the unordered map. *)
Definition failed_workers (order : list WorkerId) (hb : HeartbeatDetector) : list WorkerId :=
  filter (λ w, state <$> records_ hb !! w = Some FAILED) order.

(** *** [compute_phi] *)

Definition mean_of (l : list float) : float :=
  div (foldl add (of_Z 0) l) (of_Z (Z.of_nat (length l))).
Definition variance_of (l : list float) : float :=
  let mean := mean_of l in
  div (foldl (λ var v, add var (mul (sub v mean) (sub v mean))) (of_Z 0) l)
    (of_Z (Z.of_nat (length l))).
Definition sigma_of (l : list float) : float := sqrt (add (variance_of l) c1e_9).

Definition compute_phi (now : Z) (rec : HeartbeatRecord) : float :=
  match intervals rec with
  | [] => of_Z 0
  | l =>
      let elapsed := millis (now - last_seen rec) in
      let y := div (sub elapsed (mean_of l)) (sigma_of l) in
      let cdf := mul half (erfc (div (neg y) (sqrt (of_Z 2)))) in
      neg (log10 (max (sub (of_Z 1) cdf) c1e_15))
  end.

(** *** [check_worker] *)

Definition with_verdict (s : NodeState) (p : float) (rec : HeartbeatRecord) : HeartbeatRecord :=
  mkRecord (worker_id rec) (last_seen rec) s p (beat_count rec) (intervals rec).

(** The guard of the failure branch. *)
Definition suspect (hb : HeartbeatDetector) (p ms_since : float) : bool :=
  le (phi_threshold_ hb) p || lt (of_Z (timeout_ms_ hb)) ms_since.

(** [now] is the reading in [compute_phi], [now'] the one in [check_worker]. *)
Definition check_worker (hb : HeartbeatDetector) (now now' : Z) (rec : HeartbeatRecord)
    : HeartbeatRecord * list Callback :=
  if decide (state rec = FAILED) then (rec, [])
  else
    let p := compute_phi now rec in
    let ms_since := millis (now' - last_seen rec) in
    let prev := state rec in
    if suspect hb p ms_since then
      (with_verdict FAILED p rec,
       if decide (prev ≠ FAILED ∧ failure_cb_ hb = true)
       then [OnFailure (worker_id rec)] else [])
    else if le (mul (phi_threshold_ hb) half) p then (with_verdict SUSPECTED p rec, [])
    else (with_verdict ALIVE p rec, []).

(** One round of [monitor_loop] over the records, in the map's order. *)
Fixpoint monitor_pass (order : list WorkerId) (clock : WorkerId → Z * Z)
    (hb : HeartbeatDetector) : HeartbeatDetector * list Callback :=
  match order with
  | [] => (hb, [])
  | w :: order =>
      match records_ hb !! w with
      | None => monitor_pass order clock hb
      | Some rec =>
          let '(rec, cbs) := check_worker hb (clock w).1 (clock w).2 rec in
          let '(hb, cbs') := monitor_pass order clock (set_records (<[w := rec]> (records_ hb)) hb) in
          (hb, cbs ++ cbs')
      end
  end.

(** ** Runs of the detector *)

Inductive Event :=
  | Beat (from : WorkerId) (now : Z)
  | Inject (w : WorkerId)
  | SetFailureCb
  | SetRecoveryCb
  | Monitor (order : list WorkerId) (clock : WorkerId → Z * Z).

Definition event (ev : Event) (hb : HeartbeatDetector) : HeartbeatDetector * list Callback :=
  match ev with
  | Beat from now => receive_heartbeat from now hb
  | Inject w => (inject_failure w hb, [])
  | SetFailureCb => (on_failure hb, [])
  | SetRecoveryCb => (on_recovery hb, [])
  | Monitor order clock => monitor_pass order clock hb
  end.

Fixpoint run (evs : list Event) (hb : HeartbeatDetector) : HeartbeatDetector * list Callback :=
  match evs with
  | [] => (hb, [])
  | ev :: evs =>
      let '(hb, cbs) := event ev hb in
      let '(hb, cbs') := run evs hb in
      (hb, cbs ++ cbs')
  end.

(** ** Lemmas *)

(** Each record is filed under its worker and its window is filled but not
    overfull. *)
Definition record_wf (w : WorkerId) (rec : HeartbeatRecord) : Prop :=
  worker_id rec = w ∧ (8 ≤ length (intervals rec) ≤ WINDOW)%nat ∧ state rec ≠ RECOVERED.

(** The monitored workers are all but the local one. *)
Definition hb_wf (hb : HeartbeatDetector) : Prop :=
  map_Forall record_wf (records_ hb) ∧
  ∀ w, is_Some (records_ hb !! w) ↔ 0 ≤ w < worker_count_ hb ∧ w ≠ local_id_ hb.

(** What the operations never change; a callback that is set stays set. *)
Definition same_config (hb hb' : HeartbeatDetector) : Prop :=
  local_id_ hb' = local_id_ hb ∧ worker_count_ hb' = worker_count_ hb ∧
  interval_ms_ hb' = interval_ms_ hb ∧ timeout_ms_ hb' = timeout_ms_ hb ∧
  phi_threshold_ hb' = phi_threshold_ hb ∧
  (failure_cb_ hb = true → failure_cb_ hb' = true).

#[global] Instance same_config_preorder : PreOrder same_config.
Proof.
  split; [by intros hb; split_and!|]. intros a b c (?&?&?&?&?&?) (?&?&?&?&?&?).
  split_and!; try congruence. auto.
Qed.

Lemma hb_new_wf l n i t p clock : hb_wf (new l n i t p clock).
Proof.
  unfold hb_wf, new. cbn [records_ worker_count_ local_id_].
  assert (∀ k, map_Forall record_wf (initial_records l i clock k) ∧
    ∀ w, is_Some (initial_records l i clock k !! w) ↔ 0 ≤ w < Z.of_nat k ∧ w ≠ l) as Hk.
  { unfold initial_records. induction k as [|k [IH1 IH2]].
    { split; [apply map_Forall_empty|]. intros w. cbn. rewrite lookup_empty.
      split; [by intros [? [=]]|lia]. }
    rewrite seq_S, foldl_app. cbn [foldl Nat.add]. set (m := foldl _ _ _) in *.
    case_decide as Hl.
    - split; [done|]. intros w. rewrite IH2. lia.
    - split; [apply map_Forall_insert_2; [split_and!; cbn; unfold WINDOW; try done; lia|done]|].
      intros w. rewrite lookup_insert_is_Some, IH2.
      destruct (decide (Z.of_nat k = w)); [|lia]. split; [lia|]. by left. }
  destruct (Hk (Z.to_nat n)) as [H1 H2]. split; [done|]. intros w. rewrite H2. lia.
Qed.

Lemma push_interval_length x l :
  (8 ≤ length l ≤ WINDOW)%nat → (8 ≤ length (push_interval x l) ≤ WINDOW)%nat.
Proof.
  unfold push_interval, WINDOW. intros ?. rewrite length_app. cbn [length].
  case_decide; rewrite ?length_drop, ?length_app; cbn [length]; lia.
Qed.

Lemma beat_record_wf w now rec : record_wf w rec → record_wf w (beat_record now rec).
Proof.
  intros (? & ? & ?). split; [done|]. split; [|done]. cbn.
  case_decide; [by apply push_interval_length|done].
Qed.

Lemma check_worker_wf w hb now now' rec :
  record_wf w rec → record_wf w (check_worker hb now now' rec).1.
Proof.
  intros (? & ? & ?). unfold check_worker.
  case_decide; [done|]. destruct (suspect _ _ _); [by split; [|split]|].
  destruct (le _ _); by (split; [|split]).
Qed.

Lemma set_record_wf w rec rec' hb :
  hb_wf hb → records_ hb !! w = Some rec → record_wf w rec' →
  hb_wf (set_records (<[w := rec']> (records_ hb)) hb).
Proof.
  intros [H1 H2] Hw Hrec. split; cbn; [by apply map_Forall_insert_2|].
  intros w'. rewrite lookup_insert_is_Some, <- H2.
  destruct (decide (w = w')) as [<-|]; [|tauto]. rewrite Hw. split; [eauto|by left].
Qed.

Lemma receive_wf from now hb : hb_wf hb → hb_wf (receive_heartbeat from now hb).1.
Proof.
  intros Hwf. unfold receive_heartbeat. destruct (records_ hb !! from) as [rec|] eqn:E; [|done].
  cbn. eapply set_record_wf; [done|done|]. apply beat_record_wf. by apply Hwf in E.
Qed.

Lemma inject_wf w hb : hb_wf hb → hb_wf (inject_failure w hb).
Proof.
  intros Hwf. unfold inject_failure. destruct (records_ hb !! w) as [rec|] eqn:E; [|done].
  eapply set_record_wf; [done|done|]. by apply Hwf in E.
Qed.

Lemma monitor_wf order clock hb :
  hb_wf hb → hb_wf (monitor_pass order clock hb).1 ∧ same_config hb (monitor_pass order clock hb).1.
Proof.
  revert hb. induction order as [|w order IH]; intros hb Hwf; cbn; [done|].
  destruct (records_ hb !! w) as [rec|] eqn:E; [|by apply IH].
  pose proof (check_worker_wf w hb (clock w).1 (clock w).2 rec) as Hc.
  destruct (check_worker _ _ _ _) as [rec' cbs]. cbn in Hc.
  specialize (IH (set_records (<[w := rec']> (records_ hb)) hb)).
  destruct (monitor_pass _ _ _) as [hb' cbs']. apply IH.
  eapply set_record_wf; [done|done|]. apply Hc. by apply Hwf in E.
Qed.

Lemma event_wf ev hb : hb_wf hb → hb_wf (event ev hb).1 ∧ same_config hb (event ev hb).1.
Proof.
  intros Hwf. destruct ev as [from now|w| | |order clock]; cbn.
  - split; [by apply receive_wf|]. unfold receive_heartbeat. by destruct (records_ hb !! from).
  - split; [by apply inject_wf|]. unfold inject_failure. by destruct (records_ hb !! w).
  - done.
  - done.
  - by apply monitor_wf.
Qed.

Lemma run_wf evs hb : hb_wf hb → hb_wf (run evs hb).1 ∧ same_config hb (run evs hb).1.
Proof.
  revert hb. induction evs as [|ev evs IH]; intros hb Hwf; cbn; [done|].
  destruct (event_wf ev hb Hwf) as [Hwf1 Hs1]. destruct (event ev hb) as [hb1 cbs].
  destruct (IH hb1 Hwf1) as [Hwf2 Hs2]. destruct (run evs hb1) as [hb2 cbs'].
  split; [done|by etrans].
Qed.

(** No callback for a worker without a record. *)
Lemma local_monitor_no_failure l order clock hb :
  hb_wf hb → local_id_ hb = l → OnFailure l ∉ (monitor_pass order clock hb).2.
Proof.
  revert hb. induction order as [|w order IH]; intros hb Hwf Hl; cbn; [set_solver|].
  destruct (records_ hb !! w) as [rec|] eqn:E; [|by apply IH].
  pose proof Hwf as [H1 H2]. destruct (H1 _ _ E) as [Hid _].
  destruct (proj1 (H2 w) ltac:(by rewrite E)) as [_ Hne].
  pose proof (check_worker_wf w hb (clock w).1 (clock w).2 rec (H1 _ _ E)) as Hrec.
  assert (OnFailure l ∉ (check_worker hb (clock w).1 (clock w).2 rec).2) as Hno.
  { unfold check_worker. repeat case_decide; repeat case_match; cbn; set_solver. }
  destruct (check_worker _ _ _ _) as [rec' cbs]. cbn [fst snd] in *.
  specialize (IH _ (set_record_wf _ _ rec' _ Hwf E Hrec) Hl).
  destruct (monitor_pass _ _ _) as [hb' cbs']. cbn [snd] in *. set_solver.
Qed.

Lemma local_event_no_failure l ev hb :
  hb_wf hb → local_id_ hb = l → OnFailure l ∉ (event ev hb).2.
Proof.
  intros Hwf Hl. destruct ev as [from now|w| | |order clock]; cbn.
  - unfold receive_heartbeat. repeat case_match; cbn; set_solver.
  - set_solver.
  - set_solver.
  - set_solver.
  - by apply local_monitor_no_failure.
Qed.

(** *** Failures and heartbeats *)

Definition failure_of (w : WorkerId) (c : Callback) : bool :=
  match c with OnFailure w' => bool_decide (w' = w) | _ => false end.
Definition beat_of (w : WorkerId) (ev : Event) : bool :=
  match ev with Beat w' _ => bool_decide (w' = w) | _ => false end.
Definition failures (w : WorkerId) (cbs : list Callback) : nat := count (failure_of w) cbs.
Definition beats (w : WorkerId) (evs : list Event) : nat := count (beat_of w) evs.

(** One failure is in reserve while the worker is not marked FAILED. *)
Definition reserve (w : WorkerId) (hb : HeartbeatDetector) : nat :=
  if decide (state_of w hb = FAILED) then 0 else 1.

Lemma state_of_insert w w' rec hb :
  state_of w (set_records (<[w' := rec]> (records_ hb)) hb) =
    if decide (w' = w) then state rec else state_of w hb.
Proof. unfold state_of. cbn. rewrite lookup_insert. by case_decide. Qed.

Lemma check_worker_failures w hb now now' rec :
  (failures w (check_worker hb now now' rec).2 +
     (if decide (worker_id rec = w ∧ state (check_worker hb now now' rec).1 ≠ FAILED) then 1 else 0)
   ≤ if decide (worker_id rec = w ∧ state rec ≠ FAILED) then 1 else 0)%nat.
Proof.
  unfold check_worker. destruct (decide (state rec = FAILED)) as [E|E].
  { unfold failures. cbn [fst snd]. rewrite count_nil. lia. }
  destruct (suspect _ _ _); [|destruct (le _ _)]; cbn [fst snd state with_verdict].
  - rewrite (decide_False (P := _ ∧ FAILED ≠ FAILED)) by tauto. unfold failures.
    case_decide; rewrite ?count_cons, count_nil; cbn [failure_of]; [|lia].
    case_bool_decide; cbn; [rewrite decide_True by done|]; lia.
  - unfold failures. rewrite count_nil. repeat case_decide; try lia; tauto.
  - unfold failures. rewrite count_nil. repeat case_decide; try lia; tauto.
Qed.

Lemma monitor_failures w order clock hb :
  hb_wf hb →
  (failures w (monitor_pass order clock hb).2 + reserve w (monitor_pass order clock hb).1
   ≤ reserve w hb)%nat.
Proof.
  revert hb. induction order as [|w0 order IH]; intros hb Hwf; cbn; [unfold failures; rewrite count_nil; lia|].
  destruct (records_ hb !! w0) as [rec|] eqn:E; [|by apply IH].
  pose proof (check_worker_failures w hb (clock w0).1 (clock w0).2 rec) as Hf.
  pose proof (check_worker_wf w0 hb (clock w0).1 (clock w0).2 rec) as Hrec.
  pose proof (proj1 Hwf _ _ E) as Hwfr. specialize (Hrec Hwfr). destruct Hwfr as [Hid _].
  destruct (check_worker _ _ _ _) as [rec' cbs]. cbn [fst snd] in *.
  specialize (IH _ (set_record_wf _ _ rec' _ Hwf E Hrec)).
  destruct (monitor_pass _ _ _) as [hb' cbs']. cbn [fst snd] in *.
  unfold failures in *. rewrite count_app.
  etrans; [|]. 2: { instantiate (1 := (count (failure_of w) cbs +
    reserve w (set_records (<[w0 := rec']> (records_ hb)) hb))%nat).
    unfold reserve. rewrite state_of_insert. rewrite Hid in Hf.
    assert (state_of w0 hb = state rec) as Hs by (unfold state_of; by rewrite E).
    destruct (decide (w0 = w)) as [->|Hne].
    - rewrite Hs. repeat case_decide; try tauto; lia.
    - repeat case_decide; try tauto; lia. }
  lia.
Qed.

Lemma event_failures w ev hb :
  hb_wf hb →
  (failures w (event ev hb).2 + reserve w (event ev hb).1
   ≤ reserve w hb + Nat.b2n (beat_of w ev))%nat.
Proof.
  intros Hwf. destruct ev as [from now|w0| | |order clock]; cbn [event beat_of].
  - unfold receive_heartbeat. destruct (records_ hb !! from) as [rec|] eqn:E; cbn [fst snd].
    2: { unfold failures. rewrite count_nil. lia. }
    assert (failures w (if decide ((state rec = FAILED ∨ state rec = SUSPECTED) ∧
              recovery_cb_ hb = true) then [OnRecovery from] else []) = O) as ->
      by (by case_decide).
    unfold reserve. rewrite state_of_insert. cbn [beat_record state].
    case_bool_decide as Hw; [|rewrite (decide_False (P := from = w)) by done; cbn; lia].
    cbn. repeat case_decide; try done; lia.
  - cbn [fst snd]. assert (state_of w (inject_failure w0 hb) = state_of w hb) as Hs.
    { unfold inject_failure. destruct (records_ hb !! w0) as [rec|] eqn:E; [|done].
      rewrite state_of_insert. cbn. case_decide as Hw; [|done]. subst.
      unfold state_of. by rewrite E. }
    unfold reserve, failures. rewrite Hs, count_nil. cbn. lia.
  - exact (Nat.le_add_r (reserve w hb) _).
  - exact (Nat.le_add_r (reserve w hb) _).
  - pose proof (monitor_failures w order clock hb Hwf). cbn. lia.
Qed.

Lemma run_failures w evs hb :
  hb_wf hb →
  (failures w (run evs hb).2 + reserve w (run evs hb).1 ≤ reserve w hb + beats w evs)%nat.
Proof.
  revert hb. induction evs as [|ev evs IH]; intros hb Hwf; cbn;
    [unfold failures; rewrite count_nil; lia|].
  pose proof (event_failures w ev hb Hwf) as He. destruct (event_wf ev hb Hwf) as [Hwf1 _].
  destruct (event ev hb) as [hb1 cbs]. specialize (IH hb1 Hwf1).
  destruct (run evs hb1) as [hb2 cbs']. cbn [fst snd] in *.
  unfold failures in *. rewrite count_app.
  unfold beats. rewrite count_cons. unfold failures, beats in *. lia.
Qed.

(** *** Every failure is reported *)

(** The constructor's records are ALIVE. *)
Lemma initial_records_alive l i clock k w rec :
  initial_records l i clock k !! w = Some rec → state rec = ALIVE.
Proof.
  unfold initial_records. revert w rec. induction k as [|k IH]; intros w rec; [done|].
  rewrite seq_S, foldl_app. cbn [foldl Nat.add]. case_decide as Hl; [apply IH|].
  rewrite lookup_insert. case_decide; [|apply IH]. by intros [= <-].
Qed.

(** What a worker that turned FAILED owes: one report. *)
Definition owed (w : WorkerId) (hb hb' : HeartbeatDetector) : nat := reserve w hb - reserve w hb'.

Lemma check_worker_reports hb now now' rec :
  failure_cb_ hb = true → state rec ≠ FAILED →
  state (check_worker hb now now' rec).1 = FAILED →
  (check_worker hb now now' rec).2 = [OnFailure (worker_id rec)].
Proof.
  intros Hcb Hs. unfold check_worker. rewrite decide_False by done.
  destruct (suspect _ _ _); [|by destruct (le _ _)]. cbn [fst snd].
  by rewrite decide_True.
Qed.

Lemma monitor_reports w order clock hb :
  hb_wf hb → failure_cb_ hb = true →
  (owed w hb (monitor_pass order clock hb).1 ≤ failures w (monitor_pass order clock hb).2)%nat.
Proof.
  revert hb. induction order as [|w0 order IH]; intros hb Hwf Hcb; cbn [monitor_pass fst snd];
    [unfold owed; lia|].
  destruct (records_ hb !! w0) as [rec|] eqn:E; [|by apply IH].
  pose proof (check_worker_reports hb (clock w0).1 (clock w0).2 rec Hcb) as Hf.
  pose proof (check_worker_wf w0 hb (clock w0).1 (clock w0).2 rec) as Hrec.
  pose proof (proj1 Hwf _ _ E) as Hwfr. specialize (Hrec Hwfr). destruct Hwfr as [Hid _].
  destruct (check_worker _ _ _ _) as [rec' cbs]. cbn [fst snd] in *.
  specialize (IH _ (set_record_wf _ _ rec' _ Hwf E Hrec) Hcb).
  destruct (monitor_pass _ _ _) as [hb' cbs']. cbn [fst snd] in *.
  unfold failures in *. rewrite count_app.
  assert (owed w hb (set_records (<[w0 := rec']> (records_ hb)) hb) ≤ count (failure_of w) cbs)%nat
    as Hhd; [|unfold owed in *; lia].
  unfold owed, reserve. rewrite state_of_insert. destruct (decide (w0 = w)) as [->|]; [|lia].
  assert (state_of w hb = state rec) as -> by (unfold state_of; by rewrite E).
  destruct (decide (state rec = FAILED)) as [|Hs]; [lia|].
  destruct (decide (state rec' = FAILED)) as [Hs'|]; [|lia].
  rewrite (Hf Hs Hs'), count_cons, count_nil. cbn. rewrite bool_decide_true by done. done.
Qed.

Lemma event_reports w ev hb :
  hb_wf hb → failure_cb_ hb = true →
  (owed w hb (event ev hb).1 ≤ failures w (event ev hb).2)%nat.
Proof.
  intros Hwf Hcb. destruct ev as [from now|w0| | |order clock]; cbn [event fst snd].
  - unfold receive_heartbeat. destruct (records_ hb !! from) as [rec|] eqn:E; cbn [fst snd];
      [|unfold owed; lia].
    unfold owed, reserve. rewrite state_of_insert. cbn [beat_record state].
    repeat case_decide; try done; lia.
  - unfold inject_failure. destruct (records_ hb !! w0) as [rec|] eqn:E; [|unfold owed; lia].
    unfold owed, reserve. rewrite state_of_insert. cbn [state].
    assert (w0 = w → state_of w hb = state rec) as Hs
      by (intros <-; unfold state_of; by rewrite E).
    destruct (decide (w0 = w)) as [Hw|Hw]; [rewrite (Hs Hw)|]; lia.
  - exact (Nat.eq_le_incl _ _ (Nat.sub_diag (reserve w hb))).
  - exact (Nat.eq_le_incl _ _ (Nat.sub_diag (reserve w hb))).
  - by apply monitor_reports.
Qed.

Lemma run_reports w evs hb :
  hb_wf hb → failure_cb_ hb = true →
  (owed w hb (run evs hb).1 ≤ failures w (run evs hb).2)%nat.
Proof.
  revert hb. induction evs as [|ev evs IH]; intros hb Hwf Hcb; cbn [run fst snd];
    [unfold owed; lia|].
  pose proof (event_reports w ev hb Hwf Hcb) as He.
  destruct (event_wf ev hb Hwf) as [Hwf1 (_ & _ & _ & _ & _ & Hcb1)].
  destruct (event ev hb) as [hb1 cbs]. specialize (IH hb1 Hwf1 (Hcb1 Hcb)).
  destruct (run evs hb1) as [hb2 cbs']. cbn [fst snd] in *.
  unfold failures in *. rewrite count_app. unfold owed in *. lia.
Qed.

(** ** Properties *)

(** C39: The detector's invariant.  After any sequence of heartbeats, injected
    failures and monitor passes, the records are those of all workers but the
    local one, each filed under its own worker with a window of 8 to 16
    intervals (so the mean is never a division by zero and the empty-window
    branch of [compute_phi] is dead), and no record is ever RECOVERED. *)
Theorem detector_invariant l n i t p clock evs w :
  let hb := (run evs (new l n i t p clock)).1 in
  (is_Some (records_ hb !! w) ↔ 0 ≤ w < n ∧ w ≠ l) ∧
  ∀ rec, records_ hb !! w = Some rec →
    worker_id rec = w ∧ (8 ≤ length (intervals rec) ≤ 16)%nat ∧ state rec ≠ RECOVERED.
Proof.
  cbn zeta. destruct (run_wf evs (new l n i t p clock) (hb_new_wf l n i t p clock))
    as [[H1 H2] (Hl & Hn & _)].
  rewrite H2, Hl, Hn. split; [done|]. intros rec Hrec. exact (H1 w rec Hrec).
Qed.

(** The local worker is never suspected.  The detector keeps no record of
    its own worker, so that worker is reported ALIVE and no failure callback
    is ever made for it, whatever happens. *)
Theorem local_worker_never_fails l n i t p clock evs :
  let hb := new l n i t p clock in
  state_of l (run evs hb).1 = ALIVE ∧ OnFailure l ∉ (run evs hb).2.
Proof.
  cbn zeta. assert (∀ evs hb, hb_wf hb → local_id_ hb = l →
    state_of l (run evs hb).1 = ALIVE ∧ OnFailure l ∉ (run evs hb).2) as Hrun.
  { clear. induction evs as [|ev evs IH]; intros hb Hwf Hl; cbn.
    { split; [|set_solver]. unfold state_of. destruct (records_ hb !! l) as [rec|] eqn:E; [|done].
      destruct Hwf as [_ H2]. destruct (proj1 (H2 l) ltac:(by rewrite E)) as [_ ?]. done. }
    destruct (event_wf ev hb Hwf) as [Hwf1 (Hl1 & _)].
    pose proof (local_event_no_failure l ev hb Hwf Hl) as Hev.
    destruct (event ev hb) as [hb1 cbs]. cbn [fst snd] in *.
    destruct (IH hb1 Hwf1 ltac:(congruence)) as [IH1 IH2].
    destruct (run evs hb1) as [hb2 cbs']. split; [done|]. cbn [snd] in *. set_solver. }
  apply Hrun; [apply hb_new_wf|done].
Qed.

(** C40: One failure report per silence, and none forgotten.  In every run from a
    fresh detector, whenever the callback is set, the failure callback is made for a
    worker at most once more often than a heartbeat arrived from it: without a
    heartbeat in between, a worker is reported FAILED at most once.  And where the
    callback is set before anything else happens, as the coordinator does, a worker
    that is FAILED at the end has been reported. *)
Theorem failure_reported_once l n i t p clock evs w :
  (failures w (run evs (new l n i t p clock)).2 ≤ 1 + beats w evs)%nat ∧
  ∀ evs', evs = SetFailureCb :: evs' →
    state_of w (run evs (new l n i t p clock)).1 = FAILED →
    (1 ≤ failures w (run evs (new l n i t p clock)).2)%nat.
Proof.
  pose proof (hb_new_wf l n i t p clock) as Hwf. split.
  - pose proof (run_failures w evs (new l n i t p clock) Hwf) as H1.
    assert (reserve w (new l n i t p clock) ≤ 1)%nat by (unfold reserve; case_decide; lia). lia.
  - intros evs' ->. cbn [run event fst snd].
    set (hb := on_failure (new l n i t p clock)).
    pose proof (run_reports w evs' hb Hwf eq_refl) as Hr.
    destruct (run evs' hb) as [hb' cbs]. cbn [fst snd app] in *. intros Hf.
    assert (reserve w hb = 1%nat) as Hr1.
    { unfold reserve. rewrite decide_False; [done|]. unfold state_of. intros Hs.
      destruct (records_ hb !! w) as [rec|] eqn:E; [|done].
      apply (initial_records_alive l i clock) in E. congruence. }
    unfold owed in Hr. rewrite Hr1 in Hr. unfold reserve in Hr. rewrite Hf in Hr.
    rewrite decide_True in Hr by done. lia.
Qed.

(** A heartbeat undoes an injected failure.  For a monitored worker, in
    whatever state, a heartbeat after [inject_failure] makes the worker ALIVE
    with suspicion 0 and last seen now; all that is left of the injection is
    the interval it added to the window. *)
Theorem heartbeat_undoes_injection w now hb rec :
  records_ hb !! w = Some rec →
  let hb' := (receive_heartbeat w now (inject_failure w hb)).1 in
  ∃ rec', records_ hb' !! w = Some rec' ∧
    state_of w hb' = ALIVE ∧ is_alive w hb' = true ∧ phi rec' = of_Z 0 ∧ last_seen rec' = now ∧
    intervals rec' =
      (if decide (0 < beat_count rec)
       then push_interval (millis (now - last_seen rec + injected_delay hb)) (intervals rec)
       else intervals rec).
Proof.
  intros Hrec. cbn zeta. unfold inject_failure. rewrite Hrec.
  unfold receive_heartbeat. cbn [set_records records_]. rewrite lookup_insert_eq.
  cbn [fst set_records records_]. eexists. split; [apply lookup_insert_eq|].
  unfold is_alive, state_of. cbn [set_records records_]. rewrite lookup_insert_eq.
  split_and!; try done. cbn. case_decide; [|done]. do 2 f_equal. lia.
Qed.

(** The suspicion level is capped.  Where the logarithm is monotone and
    -15 at 1e-15, [compute_phi] is never above 15 unless the estimate of the
    tail of the distribution is not a number. *)
Theorem phi_capped now rec :
  (∀ x, le c1e_15 x = true → le (neg (of_Z 15)) (log10 x) = true) →
  intervals rec ≠ [] →
  is_nan (sub (of_Z 1) (mul half (erfc (div (neg (div
    (sub (millis (now - last_seen rec)) (mean_of (intervals rec)))
    (sigma_of (intervals rec)))) (sqrt (of_Z 2)))))) = false →
  le (compute_phi now rec) (of_Z 15) = true.
Proof.
  intros Hlog Hne Hnan. unfold compute_phi. destruct (intervals rec) as [|x l]; [done|].
  cbn zeta. pose proof (max_ge _ c1e_15 Hnan eq_refl) as Hmax. apply Hlog in Hmax.
  by apply le_neg in Hmax.
Qed.

(** The argument of [erfc] for a window of eight intervals of 500 ms and 501 ms
    of silence. *)
Definition fresh_argument : float :=
  div (neg (div (sub (millis 501000000) (mean_of (replicate 8 (of_Z 500))))
              (sigma_of (replicate 8 (of_Z 500))))) (sqrt (of_Z 2)).

Lemma fresh_argument_small : le fresh_argument (neg (of_Z 6)) = true.
Proof. vm_compute. reflexivity. Qed.

(** A fresh detector has no tolerance.  With the default interval (500 ms)
    and threshold (8), where [erfc] is 2 to double precision below -6 and the
    logarithm is -15 at 1e-15, the seeded window has so small a deviation that
    a worker silent for 501 ms is FAILED with suspicion 15, whatever the
    configured timeout. *)
Theorem fresh_detector_trips hb w now' :
  (∀ x, le x (neg (of_Z 6)) = true → erfc x = of_Z 2) →
  log10 c1e_15 = neg (of_Z 15) → phi_threshold_ hb = of_Z 8 →
  let r := check_worker hb 501000000 now' (new_record 500 w 0) in
  state r.1 = FAILED ∧ phi r.1 = of_Z 15 ∧
  (failure_cb_ hb = true → r.2 = [OnFailure w]).
Proof.
  intros Herfc Hlog Hthr. cbn zeta.
  assert (compute_phi 501000000 (new_record 500 w 0) = of_Z 15) as Hphi.
  { change (compute_phi 501000000 (new_record 500 w 0)) with
      (neg (log10 (max (sub (of_Z 1) (mul half (erfc fresh_argument))) c1e_15))).
    rewrite (Herfc _ fresh_argument_small).
    assert (max (sub (of_Z 1) (mul half (of_Z 2))) c1e_15 = c1e_15) as -> by reflexivity.
    by rewrite Hlog. }
  unfold check_worker. rewrite decide_False by done. rewrite Hphi. unfold suspect.
  rewrite Hthr. change (le (of_Z 8) (of_Z 15)) with true. cbn [orb fst snd].
  split_and!; try done. intros Hcb. by rewrite decide_True.
Qed.

(** [inject_failure] multiplies the timeout by ten in 32 bits. *)
Lemma injected_delay_wraps :
  ∃ hb, timeout_ms_ hb = 429496730 ∧ injected_delay hb = 4 * 1000000.
Proof.
  exists (mkDetector 0 4 500 429496730 (of_Z 8) ∅ false false). by split.
Qed.

End Hb.

(** ** The theorems at a concrete detector *)

Section Samples.
Import F64.

(** A coarse [erfc] and [log10] with the properties the theorems ask for. *)
#[local] Instance step_math : MathLib :=
  {| erfc x := if lt x (of_Z 0) then of_Z 2 else of_Z 0;
     log10 x := if le x c1e_15 then neg (of_Z 15) else of_Z 0 |}.

(** The coordinator's detector for four workers. *)
Definition sample_detector : HeartbeatDetector :=
  on_failure (new 0 4 500 2000 (of_Z 8) (λ _, 0)).

(** A run of it: the callback is set, worker 1 is silent for 501 ms and is reported,
    a second pass does not report it again, and after a heartbeat and another
    silence it is reported once more. *)
Definition sample_events : list Event :=
  [SetFailureCb; Monitor [1] (λ _, (501000000, 501000001));
   Monitor [1] (λ _, (502000000, 502000001)); Beat 1 600000000;
   Monitor [1] (λ _, (1200000000, 1200000001))].

Definition sample_run : HeartbeatDetector * list Callback :=
  run sample_events (new 0 4 500 2000 (of_Z 8) (λ _, 0)).

Lemma failure_reported_once_witness :
  sample_run.2 = [OnFailure 1; OnFailure 1] ∧ state_of 1 sample_run.1 = FAILED ∧
  (1 ≤ failures 1 sample_run.2)%nat.
Proof.
  assert (state_of 1 sample_run.1 = FAILED) as Hf by (vm_compute; reflexivity).
  split; [vm_compute; reflexivity|]. split; [exact Hf|].
  exact (proj2 (failure_reported_once 0 4 500 2000 (of_Z 8) (λ _, 0) sample_events 1) _ eq_refl Hf).
Defined.

Lemma heartbeat_undoes_injection_witness :
  ∃ rec', records_ (receive_heartbeat 1 7000000 (inject_failure 1 sample_detector)).1 !! 1
            = Some rec' ∧ state rec' = ALIVE ∧ last_seen rec' = 7000000.
Proof.
  destruct (heartbeat_undoes_injection 1 7000000 sample_detector (new_record 500 1 0) eq_refl)
    as (rec' & H1 & H2 & _ & _ & H3 & _).
  exists rec'. split; [exact H1|split; [|exact H3]].
  unfold state_of in H2. rewrite H1 in H2. exact H2.
Defined.

Lemma step_math_log10 x : le c1e_15 x = true → le (neg (of_Z 15)) (log10 x) = true.
Proof. intros _. cbn. destruct (le x c1e_15); vm_compute; reflexivity. Qed.

Lemma phi_capped_witness :
  le (compute_phi 501000000 (new_record 500 1 0)) (of_Z 15) = true.
Proof.
  refine (phi_capped 501000000 (new_record 500 1 0) step_math_log10 _ _).
  - discriminate.
  - vm_compute. reflexivity.
Defined.

Lemma step_math_erfc x : le x (neg (of_Z 6)) = true → erfc x = of_Z 2.
Proof.
  intros Hx. change (erfc x) with (if lt x (of_Z 0) then of_Z 2 else of_Z 0).
  assert (lt x (of_Z 0) = true) as ->; [|done].
  assert (neg (of_Z 6) = S754_finite true 6755399441055744 (-50)) as E by (vm_compute; reflexivity).
  rewrite E in Hx. change (of_Z 0) with (S754_zero false).
  by destruct x as [[]|[]| |[] m e].
Qed.

Lemma fresh_detector_trips_witness :
  (check_worker sample_detector 501000000 501000001 (new_record 500 1 0)).2 = [OnFailure 1].
Proof.
  exact (proj2 (proj2 (fresh_detector_trips sample_detector 1 501000001 step_math_erfc
                         eq_refl eq_refl)) eq_refl).
Defined.

End Samples.
End Hb.
