(* ===== verification/WorkerNode.v ===== *)
(** A worker: [src/worker_node.hpp], [src/worker_node.cpp].

    The worker is generic in the vertex classes: its theorems hold for every
    [D] with a [compute] that honours [VertexLaws].

    What the code leaves open is an argument: [env_order] is the iteration order
    of the unordered map of vertices, [env_exec] the order in which the
    scheduler's threads run the tasks, [env_passes] what the network threads did
    before the worker drained its bus, [env_clock] the clock readings of the
    sends.  [run_superstep] runs the tasks between [submit_bulk] and [wait_all]
    one after the other: a task touches its own vertex and its own mailbox only,
    and the theorems show that the order is irrelevant.  The tasks on the threads of
    the scheduler are the subject of [ParallelStep], the barrier that of [Barrier],
    the throughput that of [Report]. *)
From S2P Require Import Prelude Types Vertex PartitionMap RdmaTransport MessageBus NumaScheduler.
Local Open Scope Z_scope.

Module Worker.
Section Worker.
Context {D : Type} `{HI : VertexImpl D}.

Record WorkerNode := mkWorker {
  id_ : WorkerId;
  numa_nodes_ : Z;                              (* [config_.numa_nodes] *)
  bus_ : Bus.MessageBus;
  vertices_ : gmap Z (Vertex * D);
  vertex_inbox_ : gmap Z (list Message);
  stats_ : WorkerStats;
}.

Definition set_bus (b : Bus.MessageBus) (w : WorkerNode) : WorkerNode :=
  mkWorker (id_ w) (numa_nodes_ w) b (vertices_ w) (vertex_inbox_ w) (stats_ w).
Definition set_vertices (m : gmap Z (Vertex * D)) (w : WorkerNode) : WorkerNode :=
  mkWorker (id_ w) (numa_nodes_ w) (bus_ w) m (vertex_inbox_ w) (stats_ w).
Definition set_inbox (m : gmap Z (list Message)) (w : WorkerNode) : WorkerNode :=
  mkWorker (id_ w) (numa_nodes_ w) (bus_ w) (vertices_ w) m (stats_ w).
Definition set_stats (s : WorkerStats) (w : WorkerNode) : WorkerNode :=
  mkWorker (id_ w) (numa_nodes_ w) (bus_ w) (vertices_ w) (vertex_inbox_ w) s.

Definition new (id numa_nodes : Z) (bus : Bus.MessageBus) : WorkerNode :=
  mkWorker id numa_nodes bus ∅ ∅ stats_zero.

(** The counters' [fetch_add]. *)
Definition add_processed (n : Z) (s : WorkerStats) : WorkerStats :=
  mkStats (u64 (vertices_processed s + n)) (messages_sent s) (messages_received s)
    (bytes_transferred s) (supersteps_completed s) (latency_spike_count s)
    (migrations_performed s) (rdma_ops s).
Definition add_sent (n : Z) (s : WorkerStats) : WorkerStats :=
  mkStats (vertices_processed s) (u64 (messages_sent s + n)) (messages_received s)
    (bytes_transferred s) (supersteps_completed s) (latency_spike_count s)
    (migrations_performed s) (rdma_ops s).
Definition add_received (n : Z) (s : WorkerStats) : WorkerStats :=
  mkStats (vertices_processed s) (messages_sent s) (u64 (messages_received s + n))
    (bytes_transferred s) (supersteps_completed s) (latency_spike_count s)
    (migrations_performed s) (rdma_ops s).
Definition add_superstep (s : WorkerStats) : WorkerStats :=
  mkStats (vertices_processed s) (messages_sent s) (messages_received s)
    (bytes_transferred s) (u64 (supersteps_completed s + 1)) (latency_spike_count s)
    (migrations_performed s) (rdma_ops s).
Definition add_migration (s : WorkerStats) : WorkerStats :=
  mkStats (vertices_processed s) (messages_sent s) (messages_received s)
    (bytes_transferred s) (supersteps_completed s) (latency_spike_count s)
    (u64 (migrations_performed s + 1)) (rdma_ops s).

Definition add_vertex (vd : Vertex * D) (w : WorkerNode) : WorkerNode :=
  set_vertices (<[Vertex.id_ vd.1 := vd]> (vertices_ w)) w.

(** [absorb_partition]: one migrated vertex, then the loop. *)
Definition absorb_one (pw : PMap.PartitionMap * WorkerNode) (vd : Vertex * D)
    : PMap.PartitionMap * WorkerNode :=
  let '(pm, w) := pw in
  let v := set_owner (id_ w) vd.1 in
  (PMap.migrate (Vertex.id_ v) (id_ w) pm,
   set_stats (add_migration (stats_ w))
     (set_vertices (<[Vertex.id_ v := (v, vd.2)]> (vertices_ w)) w)).

Definition absorb_partition (migrated : list (Vertex * D)) (pm : PMap.PartitionMap)
    (w : WorkerNode) : PMap.PartitionMap * WorkerNode :=
  foldl absorb_one (pm, w) migrated.

Definition vertex_count (w : WorkerNode) : nat := size (vertices_ w).

(** *** [dispatch_messages] *)

(** [vertex_inbox_[msg.dst].push_back(msg)] *)
Definition deliver (m : gmap Z (list Message)) (msg : Message) : gmap Z (list Message) :=
  <[msg_dst msg := default [] (m !! msg_dst msg) ++ [msg]]> m.

Definition dispatch_messages (msgs : list Message) (w : WorkerNode) : WorkerNode :=
  set_stats (add_received (Z.of_nat (length msgs)) (stats_ w))
    (set_inbox (foldl deliver (vertex_inbox_ w) msgs) w).

(** *** The tasks of a superstep *)

(** The body of the loop over the vertices: the vertex is skipped, or woken up
    if it was halted and given a task.  [vid % config_.numa_nodes] is
    undefined without NUMA nodes. *)
Definition select_one (wt : WorkerNode * list Sched.Task) (vid : VertexId)
    : option (WorkerNode * list Sched.Task) :=
  let '(w, tasks) := wt in
  '(v, d) ← vertices_ w !! vid;
  if decide (halted_ v = true ∧ vertex_inbox_ w !! vid = None) then Some (w, tasks)
  else if decide (numa_nodes_ w = 0) then None
  else
    let w := if halted_ v
             then set_vertices (<[vid := (wake_up v, d)]> (vertices_ w)) w else w in
    Some (w, tasks ++ [Sched.mkTask vid (u32 (vid `mod` numa_nodes_ w)) 50]).

Definition select_tasks (order : list VertexId) (w : WorkerNode)
    : option (WorkerNode * list Sched.Task) :=
  foldM select_one (w, []) order.

Definition task_ids (tasks : list Sched.Task) : list VertexId := Sched.task_id <$> tasks.

(** The task's [fn]. *)
Definition run_task (step : Superstep) (w : WorkerNode) (vid : VertexId)
    : option WorkerNode :=
  '(v, d) ← vertices_ w !! vid;
  let local_inbox := default [] (vertex_inbox_ w !! vid) in
  '(v, d) ← compute v d local_inbox step;
  Some (mkWorker (id_ w) (numa_nodes_ w) (bus_ w) (<[vid := (v, d)]> (vertices_ w))
          (delete vid (vertex_inbox_ w)) (add_processed 1 (stats_ w))).

(** *** [collect_and_route_outbox] *)

Definition collect_one (pm : PMap.PartitionMap) (w : WorkerNode) (vid : VertexId)
    : option WorkerNode :=
  '(v, d) ← vertices_ w !! vid;
  if decide (outbox_ v = []) then Some w
  else
    let w := set_stats (add_sent (Z.of_nat (length (outbox_ v))) (stats_ w)) w in
    b ← Bus.enqueue_batch pm (outbox_ v) (bus_ w);
    Some (set_vertices (<[vid := (clear_outbox v, d)]> (vertices_ w)) (set_bus b w)).

Definition collect_and_route_outbox (pm : PMap.PartitionMap) (order : list VertexId)
    (w : WorkerNode) : option WorkerNode :=
  foldM (collect_one pm) w order.

(** The loop that counts the vertices that are not halted. *)
Definition count_active (w : WorkerNode) : Z :=
  u64 (Z.of_nat (count (λ vd : Vertex * D, negb (halted_ vd.1))
                   (snd <$> map_to_list (vertices_ w)))).

(** *** [run_superstep] *)

Record StepEnv := mkEnv {
  env_order : list VertexId;
  env_exec : list VertexId;
  env_passes : list (nat * list Z);
  env_clock : nat → nat → Z;
}.

(** Draining the bus and dispatching to the mailboxes. *)
Definition receive_phase (env : StepEnv) (w : WorkerNode) : WorkerNode :=
  let '(b, inbox) := Bus.drain_inbox (Bus.network_run (env_passes env) (bus_ w)) in
  dispatch_messages inbox (set_bus b w).

(** From the selection of the tasks to [wait_all]. *)
Definition compute_phase (env : StepEnv) (step : Superstep) (w : WorkerNode)
    : option WorkerNode :=
  '(w, tasks) ← select_tasks (env_order env) w;
  foldM (run_task step) w
    (filter (λ vid, vid ∈ task_ids tasks) (env_exec env)).

(** Collecting the outboxes and flushing the bus. *)
Definition route_phase (pm : PMap.PartitionMap) (env : StepEnv) (w : WorkerNode)
    : option WorkerNode :=
  w ← collect_and_route_outbox pm (env_order env) w;
  b ← Bus.flush (env_clock env) (bus_ w);
  Some (set_bus b w).

Definition run_superstep (pm : PMap.PartitionMap) (env : StepEnv) (step : Superstep)
    (w : WorkerNode) : option (WorkerNode * Z) :=
  w ← compute_phase env step (receive_phase env w);
  w ← route_phase pm env w;
  let w := set_stats (add_superstep (stats_ w)) w in
  Some (w, count_active w).

(** ** Mailboxes *)

(** The mail of a vertex. *)
Definition mail (m : gmap Z (list Message)) (vid : VertexId) : list Message :=
  default [] (m !! vid).

(** The messages of a batch for a vertex. *)
Definition for_vertex (vid : VertexId) (msgs : list Message) : list Message :=
  filter (λ m, msg_dst m = vid) msgs.

(** A mailbox exists only with mail in it. *)
Definition boxes_ok (m : gmap Z (list Message)) : Prop :=
  map_Forall (λ _ ms, ms ≠ []) m.

Lemma mail_None m vid : boxes_ok m → m !! vid = None ↔ mail m vid = [].
Proof.
  intros Hm. unfold mail. destruct (m !! vid) as [ms|] eqn:E; cbn; [|done].
  split; [done|]. intros ->. by apply Hm in E.
Qed.

Lemma deliver_lookup m msg vid :
  deliver m msg !! vid =
    if decide (msg_dst msg = vid) then Some (mail m vid ++ [msg]) else m !! vid.
Proof. unfold deliver. rewrite lookup_insert. case_decide as E; [|done]. by rewrite E. Qed.

Lemma deliver_ok m msg : boxes_ok m → boxes_ok (deliver m msg).
Proof. intros Hm. apply map_Forall_insert_2; [by destruct (default [] _)|done]. Qed.

Lemma deliver_all_mail msgs m vid :
  mail (foldl deliver m msgs) vid = mail m vid ++ for_vertex vid msgs.
Proof.
  revert m. induction msgs as [|msg msgs IH]; intros m; cbn [foldl].
  { by rewrite app_nil_r. }
  rewrite IH. unfold for_vertex, mail at 1. rewrite deliver_lookup. case_decide as E.
  - rewrite filter_cons_True by done. cbn. by rewrite <- app_assoc.
  - by rewrite filter_cons_False.
Qed.

Lemma deliver_all_ok msgs m : boxes_ok m → boxes_ok (foldl deliver m msgs).
Proof. revert m. induction msgs as [|msg msgs IH]; intros m Hm; [done|]. by apply IH, deliver_ok. Qed.

(** Every message of the mailboxes satisfies [P]. *)
Definition boxes_all (P : Message → Prop) (m : gmap Z (list Message)) : Prop :=
  map_Forall (λ _ ms, Forall P ms) m.

Lemma boxes_all_mail P m vid : boxes_all P m → Forall P (mail m vid).
Proof.
  intros Hm. unfold mail. destruct (m !! vid) as [ms|] eqn:E; [|by constructor].
  by apply (Hm vid).
Qed.

Lemma deliver_all_all P msgs m :
  Forall P msgs → boxes_all P m → boxes_all P (foldl deliver m msgs).
Proof.
  intros Hp. revert m. induction Hp as [|msg msgs Hmsg _ IH]; intros m Hm; [done|].
  apply IH. apply map_Forall_insert_2; [|done].
  apply Forall_app; split; [by apply (boxes_all_mail P m (msg_dst msg))|by repeat constructor].
Qed.

(** ** Selecting the tasks *)

(** The vertex gets a task: it is not halted, or it has mail. *)
Definition runs (w : WorkerNode) (vid : VertexId) : Prop :=
  match vertices_ w !! vid with
  | Some (v, _) => ¬ (halted_ v = true ∧ vertex_inbox_ w !! vid = None)
  | None => False
  end.
#[global] Instance runs_dec w vid : Decision (runs w vid).
Proof. unfold runs. destruct (vertices_ w !! vid) as [[]|]; apply _. Defined.

(** [w'] is [w] but for its vertices. *)
Definition same_but_vertices (w w' : WorkerNode) : Prop :=
  id_ w' = id_ w ∧ numa_nodes_ w' = numa_nodes_ w ∧ bus_ w' = bus_ w ∧
  vertex_inbox_ w' = vertex_inbox_ w ∧ stats_ w' = stats_ w.

Lemma wake_up_awake v : halted_ v = false → wake_up v = v.
Proof. destruct v; cbn. by intros ->. Qed.

Lemma clear_empty v : outbox_ v = [] → clear_outbox v = v.
Proof. destruct v; cbn. by intros ->. Qed.

Lemma select_spec order w :
  NoDup order → (∀ vid, vid ∈ order → is_Some (vertices_ w !! vid)) → numa_nodes_ w ≠ 0 →
  ∃ w' tasks, select_tasks order w = Some (w', tasks) ∧
    task_ids tasks = filter (runs w) order ∧ same_but_vertices w w' ∧
    ∀ vid, vertices_ w' !! vid =
      if decide (vid ∈ filter (runs w) order)
      then (λ vd, (wake_up vd.1, vd.2)) <$> vertices_ w !! vid else vertices_ w !! vid.
Proof.
  intros Hnd Hin Hnuma. unfold select_tasks.
  induction order as [|x order IH] using rev_ind.
  { exists w, []. by split_and!. }
  apply NoDup_app in Hnd as (Hnd & Hx & _).
  destruct IH as (w1 & tasks & H1 & Ht & (Hid & Hn & Hb & Hi & Hs) & Hv);
    [done|intros; apply Hin; set_solver|].
  rewrite foldM_app, H1. cbn [mbind option_bind foldM].
  destruct (Hin x ltac:(set_solver)) as [[v d] Hvd].
  assert (x ∉ order) as Hxo by (intros Hxo; apply (Hx x Hxo); set_solver).
  assert (vertices_ w1 !! x = Some (v, d)) as Hvd1.
  { rewrite Hv, decide_False; [done|]. intros [_ ?]%list_elem_of_filter. done. }
  unfold select_one. rewrite Hvd1. cbn [mbind option_bind]. rewrite filter_app, Hi.
  case_decide as Hskip.
  - exists w1, tasks. rewrite filter_cons_False by (unfold runs; rewrite Hvd; tauto).
    cbn [filter list_filter]. rewrite app_nil_r. by split_and!.
  - rewrite Hn, decide_False by done.
    rewrite filter_cons_True by (unfold runs; by rewrite Hvd). cbn [mbind option_bind].
    set (w2 := if halted_ v then _ else w1).
    assert (vertices_ w2 = <[x := (wake_up v, d)]> (vertices_ w1) ∧ same_but_vertices w w2)
      as [Hw2 Hsame].
    { unfold w2. destruct (halted_ v) eqn:E; [done|]. split; [|done].
      rewrite wake_up_awake by done. by rewrite insert_id. }
    exists w2, (tasks ++ [Sched.mkTask x (u32 (x `mod` numa_nodes_ w)) 50]).
    split_and!; [by rewrite (proj1 (proj2 Hsame))| |done|].
    { unfold task_ids in *. by rewrite fmap_app, Ht. }
    intros vid. rewrite Hw2, lookup_insert. case_decide as Hx'.
    + subst vid. rewrite Hvd, decide_True; [done|]. apply elem_of_app. right.
      by apply list_elem_of_singleton.
    + rewrite Hv. apply decide_ext. rewrite elem_of_app, list_elem_of_singleton. intuition congruence.
Qed.

(** ** Running the tasks *)

(** Tasks of different vertices commute: each works on its own vertex and its
    own mailbox. *)
Lemma run_task_commute step w x y :
  x ≠ y →
  run_task step w x ≫= (λ w, run_task step w y) = run_task step w y ≫= (λ w, run_task step w x).
Proof.
  intros Hne. unfold run_task.
  destruct (vertices_ w !! x) as [[vx dx]|] eqn:Ex, (vertices_ w !! y) as [[vy dy]|] eqn:Ey;
    cbn [mbind option_bind]; try done.
  - destruct (compute vx dx _ step) as [[vx' dx']|] eqn:Cx,
             (compute vy dy _ step) as [[vy' dy']|] eqn:Cy; cbn [mbind option_bind];
      cbn [vertices_ vertex_inbox_ id_ numa_nodes_ bus_ stats_];
      rewrite ?lookup_insert_ne, ?lookup_delete_ne, ?Ex, ?Ey by done;
      cbn [mbind option_bind]; rewrite ?Cx, ?Cy; cbn [mbind option_bind]; try done.
    by rewrite insert_insert_ne, delete_delete by done.
  - destruct (compute vx dx _ step) as [[vx' dx']|] eqn:Cx; cbn [mbind option_bind]; [|done].
    cbn [vertices_]. by rewrite lookup_insert_ne, Ey.
  - destruct (compute vy dy _ step) as [[vy' dy']|] eqn:Cy; cbn [mbind option_bind]; [|done].
    cbn [vertices_]. by rewrite lookup_insert_ne, Ex.
Qed.

(** The counters are 64-bit words. *)
Definition stats_wf (s : WorkerStats) : Prop :=
  in_u64 (vertices_processed s) ∧ in_u64 (messages_sent s) ∧
  in_u64 (messages_received s) ∧ in_u64 (supersteps_completed s).

Lemma stats_zero_wf : stats_wf stats_zero.
Proof. by split_and!. Qed.

Lemma add_processed_wf n s : stats_wf s → stats_wf (add_processed n s).
Proof. intros (?&?&?&?). split_and!; try done. apply u64_range. Qed.
Lemma add_sent_wf n s : stats_wf s → stats_wf (add_sent n s).
Proof. intros (?&?&?&?). split_and!; try done. apply u64_range. Qed.
Lemma add_received_wf n s : stats_wf s → stats_wf (add_received n s).
Proof. intros (?&?&?&?). split_and!; try done. apply u64_range. Qed.
Lemma add_superstep_wf s : stats_wf s → stats_wf (add_superstep s).
Proof. intros (?&?&?&?). split_and!; try done. apply u64_range. Qed.

Lemma add_processed_add a b s :
  add_processed a (add_processed b s) = add_processed (b + a) s.
Proof. unfold add_processed. cbn -[u64]. rewrite u64_add_idemp, Z.add_assoc. done. Qed.
Lemma add_sent_add a b s : add_sent a (add_sent b s) = add_sent (b + a) s.
Proof. unfold add_sent. cbn -[u64]. rewrite u64_add_idemp, Z.add_assoc. done. Qed.
Lemma add_processed_0 s : stats_wf s → add_processed 0 s = s.
Proof.
  intros (?&_). unfold add_processed. rewrite Z.add_0_r, u64_small by done. by destruct s.
Qed.
Lemma add_sent_0 s : stats_wf s → add_sent 0 s = s.
Proof.
  intros (_&?&_). unfold add_sent. rewrite Z.add_0_r, u64_small by done. by destruct s.
Qed.

(** What a run of the tasks does to each vertex. *)
Lemma run_tasks_spec step ts w w' :
  NoDup ts → stats_wf (stats_ w) → foldM (run_task step) w ts = Some w' →
  id_ w' = id_ w ∧ numa_nodes_ w' = numa_nodes_ w ∧ bus_ w' = bus_ w ∧
  stats_ w' = add_processed (Z.of_nat (length ts)) (stats_ w) ∧
  ∀ vid,
    if decide (vid ∈ ts)
    then ∃ vd, vertices_ w !! vid = Some vd ∧ vertex_inbox_ w' !! vid = None ∧
           is_Some (vertices_ w' !! vid) ∧
           vertices_ w' !! vid = compute vd.1 vd.2 (mail (vertex_inbox_ w) vid) step
    else vertices_ w' !! vid = vertices_ w !! vid ∧
         vertex_inbox_ w' !! vid = vertex_inbox_ w !! vid.
Proof.
  revert w. induction ts as [|x ts IH]; intros w Hnd Hst; cbn [foldM].
  { intros [= ->]. split_and!; try done. by rewrite add_processed_0. }
  intros H. apply bind_Some in H as (w1 & Hx & H). apply NoDup_cons in Hnd as [Hnx Hnd].
  unfold run_task in Hx. destruct (vertices_ w !! x) as [[v d]|] eqn:Ex; [|done].
  cbn [mbind option_bind] in Hx.
  destruct (compute v d _ step) as [[v' d']|] eqn:Cx; [|done]. cbn in Hx. injection Hx as <-.
  pose proof (λ Hwf, IH _ Hnd Hwf H) as IH'.
  destruct (IH' (add_processed_wf 1 _ Hst)) as (Hid & Hn & Hb & Hs & Hv).
  cbn [id_ numa_nodes_ bus_ stats_] in Hid, Hn, Hb, Hs.
  split_and!; try done.
  { rewrite Hs, add_processed_add. f_equal. cbn [length]. lia. }
  intros vid. specialize (Hv vid). cbn [vertices_ vertex_inbox_] in Hv.
  destruct (decide (vid = x)) as [->|Hne].
  - rewrite decide_True by apply list_elem_of_here. rewrite decide_False in Hv by done.
    rewrite lookup_insert_eq, lookup_delete_eq in Hv. destruct Hv as [Hv Hi].
    exists (v, d). split_and!; [done|done|by rewrite Hv|]. rewrite Hv. cbn. by rewrite <- Cx.
  - rewrite lookup_insert_ne in Hv by done. unfold mail in Hv.
    rewrite lookup_delete_ne in Hv by done.
    replace (decide (vid ∈ x :: ts)) with (decide (vid ∈ x :: ts)) by done.
    destruct (decide (vid ∈ ts)) as [Hin|Hnin].
    + rewrite decide_True by (by apply list_elem_of_further). exact Hv.
    + rewrite decide_False by (by intros [?|?]%elem_of_cons). exact Hv.
Qed.

(** The tasks are defined when each vertex's [compute] is. *)
Lemma run_tasks_total step ts w :
  NoDup ts →
  (∀ vid, vid ∈ ts → ∃ vd, vertices_ w !! vid = Some vd ∧
     is_Some (compute vd.1 vd.2 (mail (vertex_inbox_ w) vid) step)) →
  is_Some (foldM (run_task step) w ts).
Proof.
  revert w. induction ts as [|x ts IH]; intros w Hnd Hall; [by eexists|].
  apply NoDup_cons in Hnd as [Hnx Hnd]. cbn [foldM].
  destruct (Hall x ltac:(apply list_elem_of_here)) as ([v d] & Hvd & [[v' d'] Hc]).
  assert (run_task step w x = Some (mkWorker (id_ w) (numa_nodes_ w) (bus_ w)
    (<[x := (v', d')]> (vertices_ w)) (delete x (vertex_inbox_ w))
    (add_processed 1 (stats_ w)))) as Hx.
  { unfold run_task. rewrite Hvd. cbn [mbind option_bind]. unfold mail in Hc. cbn in Hc.
    by rewrite Hc. }
  rewrite Hx. cbn [mbind option_bind]. apply IH; [done|].
  intros vid Hin. assert (x ≠ vid) as Hne by (by intros ->).
  destruct (Hall vid) as (vd & Hvd' & Hc'); [by apply list_elem_of_further|].
  exists vd. cbn [vertices_ vertex_inbox_]. rewrite lookup_insert_ne by done.
  unfold mail in *. by rewrite lookup_delete_ne.
Qed.

(** ** Collecting the outboxes *)

(** The outboxes in the order of the loop. *)
Definition outboxes (m : gmap Z (Vertex * D)) (order : list VertexId) : list Message :=
  order ≫= λ vid, match m !! vid with Some vd => outbox_ vd.1 | None => [] end.

Lemma collect_spec pm order w :
  PMap.pmap_wf pm → PMap.worker_count_ pm = Bus.worker_count_ (bus_ w) →
  length (Bus.outboxes_ (bus_ w)) = Z.to_nat (Bus.worker_count_ (bus_ w)) →
  stats_wf (stats_ w) →
  NoDup order → (∀ vid, vid ∈ order → is_Some (vertices_ w !! vid)) →
  ∃ w', collect_and_route_outbox pm order w = Some w' ∧
    id_ w' = id_ w ∧ numa_nodes_ w' = numa_nodes_ w ∧ vertex_inbox_ w' = vertex_inbox_ w ∧
    Bus.enqueue_batch pm (outboxes (vertices_ w) order) (bus_ w) = Some (bus_ w') ∧
    stats_ w' = add_sent (Z.of_nat (length (outboxes (vertices_ w) order))) (stats_ w) ∧
    ∀ vid, vertices_ w' !! vid =
      if decide (vid ∈ order) then (λ vd, (clear_outbox vd.1, vd.2)) <$> vertices_ w !! vid
      else vertices_ w !! vid.
Proof.
  intros Hpm Hcount Hlen Hst Hnd Hin.
  induction order as [|x order IH] using rev_ind.
  { exists w. split_and!; try done. by rewrite add_sent_0. }
  apply NoDup_app in Hnd as (Hnd & Hx & _).
  assert (x ∉ order) as Hxo by (intros Hxo; apply (Hx x Hxo); by apply list_elem_of_singleton).
  destruct IH as (w1 & H1 & Hid & Hn & Hi & Hb & Hs & Hv); [done| |].
  { intros. apply Hin. apply elem_of_app. by left. }
  unfold collect_and_route_outbox in *. rewrite foldM_app, H1. cbn [mbind option_bind foldM].
  destruct (Hin x) as [[v d] Hvd]; [apply elem_of_app; right; by apply list_elem_of_singleton|].
  assert (vertices_ w1 !! x = Some (v, d)) as Hvd1 by (by rewrite Hv, decide_False).
  assert (outboxes (vertices_ w) (order ++ [x]) = outboxes (vertices_ w) order ++ outbox_ v)
    as Hout.
  { unfold outboxes. rewrite bind_app. cbn. by rewrite Hvd, app_nil_r. }
  destruct (Bus.enqueue_batch_spec pm (outboxes (vertices_ w) order) (bus_ w) Hpm Hcount Hlen)
    as (boxes & Hb' & Hl' & _). rewrite Hb in Hb'. injection Hb' as Hb'.
  destruct (Bus.enqueue_batch_spec pm (outbox_ v) (bus_ w1)) as (boxes2 & Hb2 & _);
    [done|by rewrite Hb'|rewrite Hb'; cbn; congruence|].
  unfold Bus.enqueue_batch in Hb, Hb2. rewrite Hout. unfold Bus.enqueue_batch.
  rewrite foldM_app, Hb. cbn [mbind option_bind]. unfold collect_one. rewrite Hvd1.
  cbn [mbind option_bind].
  assert (∀ m : gmap Z (Vertex * D), m = <[x := (clear_outbox v, d)]> (vertices_ w1) →
    ∀ vid, m !! vid = if decide (vid ∈ order ++ [x])
      then (λ vd, (clear_outbox vd.1, vd.2)) <$> vertices_ w !! vid
      else vertices_ w !! vid) as Hfinal.
  { intros m -> vid. rewrite lookup_insert. case_decide as Hx'.
    - subst vid. rewrite Hvd, decide_True; [done|]. apply elem_of_app. right.
      by apply list_elem_of_singleton.
    - rewrite Hv. apply decide_ext. rewrite elem_of_app, list_elem_of_singleton. intuition congruence. }
  case_decide as Hnil.
  - exists w1. rewrite Hnil, app_nil_r. split_and!; try done.
    apply Hfinal. rewrite clear_empty by done. by rewrite insert_id.
  - cbn [bus_ set_stats]. unfold Bus.enqueue_batch. rewrite Hb2. cbn [mbind option_bind].
    eexists. split; [done|]. split_and!; try done.
    + cbn [stats_ set_vertices set_bus set_stats]. rewrite Hs, add_sent_add, length_app.
      f_equal. lia.
    + by apply Hfinal.
Qed.

End Worker.
Arguments WorkerNode D : clear implicits.
End Worker.
