(* ===== verification/Superstep.v ===== *)
(** What a superstep of a worker does: the invariant of [WorkerNode] and the
    theorems about [run_superstep], [add_vertex] and [absorb_partition]
    ([src/worker_node.cpp]).

    A superstep is described vertex by vertex by [next_vertex], Pregel's rule for
    one vertex: it is skipped when it is halted and has no mail, and otherwise
    woken up and computed on its mail. *)
From S2P Require Import Prelude Types Vertex PartitionMap RdmaTransport MessageBus NumaScheduler WorkerNode VenueVertex PriceLevelVertex OrderBook.
Local Open Scope Z_scope.

Module Superstep.
Import Worker.
Section Superstep.
Context {D : Type} `{HI : VertexImpl D, HL : !VertexLaws D}.
Implicit Types (w : WorkerNode D) (vd : Vertex * D).

(** One vertex in one superstep. *)
Definition next_vertex (step : Superstep) (ms : list Message) (vd : Vertex * D)
    : option (Vertex * D) :=
  if decide (halted_ vd.1 = true ∧ ms = []) then Some vd
  else compute (wake_up vd.1) vd.2 ms step.

(** *** The invariant *)

Definition vertex_ok (vid : VertexId) (vd : Vertex * D) : Prop :=
  Vertex.id_ vd.1 = vid ∧ vertex_wf vd.1 ∧ outbox_ vd.1 = [] ∧ data_ok vd.2.

Definition worker_wf (pm : PMap.PartitionMap) (w : WorkerNode D) : Prop :=
  PMap.pmap_wf pm ∧ PMap.worker_count_ pm = Bus.worker_count_ (bus_ w) ∧
  Bus.bus_wf (bus_ w) ∧ Bus.local_id_ (bus_ w) = id_ w ∧
  Bus.outboxes_ (bus_ w) = Bus.no_boxes (Bus.worker_count_ (bus_ w)) ∧
  numa_nodes_ w ≠ 0 ∧ stats_wf (stats_ w) ∧
  map_Forall vertex_ok (vertices_ w) ∧ boxes_ok (vertex_inbox_ w) ∧
  boxes_all message_wf (vertex_inbox_ w) ∧ Bus.bus_all message_wf (bus_ w).

(** The environment enumerates the worker's vertices. *)
Definition env_wf (env : StepEnv) (w : WorkerNode D) : Prop :=
  env_order env ≡ₚ elements (dom (vertices_ w)) ∧
  env_exec env ≡ₚ elements (dom (vertices_ w)).

(** Every message the worker holds satisfies [P]. *)
Definition worker_all (P : Message → Prop) (w : WorkerNode D) : Prop :=
  boxes_all P (vertex_inbox_ w) ∧ Bus.bus_all P (bus_ w).

(** What the bus hands over at the start of the superstep. *)
Definition arrived (env : StepEnv) (w : WorkerNode D) : list Message :=
  (Bus.drain_inbox (Bus.network_run (env_passes env) (bus_ w))).2.

(** The mail of a vertex in the superstep. *)
Definition received (env : StepEnv) (w : WorkerNode D) (vid : VertexId) : list Message :=
  mail (vertex_inbox_ w) vid ++ for_vertex vid (arrived env w).

(** The vertices after their computations, before the outboxes are emptied. *)
Definition computed (env : StepEnv) (step : Superstep) (w : WorkerNode D) (vid : VertexId)
    : option (Vertex * D) :=
  vertices_ w !! vid ≫= next_vertex step (received env w vid).

(** What the vertices send, in the order the outboxes are collected. *)
Definition sent (env : StepEnv) (step : Superstep) (w : WorkerNode D) : list Message :=
  env_order env ≫= λ vid,
    match computed env step w vid with Some vd => outbox_ vd.1 | None => [] end.

(** Every computation of the superstep is defined. *)
Definition computes (env : StepEnv) (step : Superstep) (w : WorkerNode D) : Prop :=
  ∀ vid, is_Some (vertices_ w !! vid) → is_Some (computed env step w vid).

Definition cleared (vd : Vertex * D) : Vertex * D := (clear_outbox vd.1, vd.2).

(** *** One vertex *)

Lemma next_vertex_ok step ms vid vd vd' :
  vertex_ok vid vd → in_u64 step → Forall message_wf ms →
  next_vertex step ms vd = Some vd' →
  vertex_ok vid (cleared vd') ∧ edges_ vd'.1 = edges_ vd.1 ∧
  Forall (along_edge vd.1) (outbox_ vd'.1) ∧ Forall message_wf (outbox_ vd'.1).
Proof.
  intros (Hid & Hwf & Hout & Hok) Hst Hms. unfold next_vertex. case_decide as Hh.
  { intros [= <-]. unfold vertex_ok; cbn. rewrite Hout. by split_and!. }
  destruct vd' as [v' d']. intros Hc.
  assert (vertex_wf (wake_up vd.1)) as Hwf' by done.
  destruct (compute_law _ _ _ _ _ _ Hwf' Hok Hms Hst Hc) as (Hok' & ms' & Hs & Ha & Hm).
  pose proof (sends_wf _ _ _ Hs Hwf') as Hwf2.
  destruct Hs as (Hid' & _ & _ & He & Ho). cbn in Hid', He, Ho. rewrite Hout in Ho. cbn in Ho.
  unfold vertex_ok; cbn. rewrite Ho. split_and!; try done. by rewrite Hid'.
Qed.

Lemma env_order_in env w vid :
  env_wf env w → vid ∈ env_order env ↔ is_Some (vertices_ w !! vid).
Proof. intros [-> _]. by rewrite elem_of_elements, elem_of_dom. Qed.
Lemma env_exec_in env w vid :
  env_wf env w → vid ∈ env_exec env ↔ is_Some (vertices_ w !! vid).
Proof. intros [_ ->]. by rewrite elem_of_elements, elem_of_dom. Qed.
Lemma env_order_NoDup env w : env_wf env w → NoDup (env_order env).
Proof. intros [-> _]. apply NoDup_elements. Qed.
Lemma env_exec_NoDup env w : env_wf env w → NoDup (env_exec env).
Proof. intros [_ ->]. apply NoDup_elements. Qed.

(** *** The phases *)

Lemma receive_phase_spec pm env w :
  worker_wf pm w →
  let w' := receive_phase env w in
  worker_wf pm w' ∧ id_ w' = id_ w ∧ vertices_ w' = vertices_ w ∧
  (∀ vid, mail (vertex_inbox_ w') vid = received env w vid) ∧
  Bus.inbox_ (bus_ w') = [] ∧
  stats_ w' = add_received (Z.of_nat (length (arrived env w))) (stats_ w) ∧
  ∀ P, worker_all P w → worker_all P w'.
Proof.
  intros (Hpm & Hc & Hb & Hid & Ho & Hn & Hst & Hv & Hbo & Hba & Hbus). cbn zeta.
  unfold receive_phase, received, arrived.
  pose proof (Bus.network_run_wf (env_passes env) _ Hb) as Hb1.
  assert (∀ P, Bus.bus_all P (bus_ w) →
    Bus.bus_all P (Bus.drain_inbox (Bus.network_run (env_passes env) (bus_ w))).1 ∧
    Forall P (Bus.drain_inbox (Bus.network_run (env_passes env) (bus_ w))).2) as Hall.
  { intros P HP. by apply Bus.drain_inbox_all, Bus.bus_network_run_all. }
  pose proof (Bus.drain_inbox_wf _ Hb1) as Hb2.
  rewrite Bus.drain_inbox_eq in * by done. cbn zeta in *.
  cbn [fst snd] in *. set (b2 := Bus.mkBus _ _ _ _ _ _ _ _) in *.
  set (msgs := Bus.inbox_ _ ++ _) in *.
  destruct (Hall _ Hbus) as [Hm1 Hm2].
  assert (∀ P, worker_all P w → worker_all P (dispatch_messages msgs (set_bus b2 w))) as HP.
  { intros P [HP1 HP2]. destruct (Hall _ HP2) as [HP3 HP4].
    split; [|done]. by apply deliver_all_all. }
  split_and!; try done; cbn.
  - split_and!; try done.
    + by apply add_received_wf.
    + by apply deliver_all_ok.
    + by apply deliver_all_all.
  - intros vid. by rewrite deliver_all_mail.
Qed.

(** A vertex gets a task exactly when [next_vertex] computes it. *)
Lemma runs_next step w vid vd :
  boxes_ok (vertex_inbox_ w) → vertices_ w !! vid = Some vd →
  next_vertex step (mail (vertex_inbox_ w) vid) vd =
    if decide (runs w vid)
    then compute (wake_up vd.1) vd.2 (mail (vertex_inbox_ w) vid) step else Some vd.
Proof.
  intros Hbo Hvd. pose proof (mail_None (vertex_inbox_ w) vid Hbo).
  assert (runs w vid ↔ ¬ (halted_ vd.1 = true ∧ mail (vertex_inbox_ w) vid = [])) as Hr.
  { unfold runs. rewrite Hvd. destruct vd. cbn. tauto. }
  unfold next_vertex. repeat case_decide; tauto.
Qed.

Lemma runs_Some w vid : runs w vid → is_Some (vertices_ w !! vid).
Proof. unfold runs. destruct (vertices_ w !! vid); done. Qed.

(** The tasks that a worker selects are those of the vertices that run. *)
Lemma tasks_selected pm env w :
  worker_wf pm w → env_wf env w →
  ∃ w1 tasks, select_tasks (env_order env) w = Some (w1, tasks) ∧ same_but_vertices w w1 ∧
    NoDup (task_ids tasks) ∧ (∀ vid, vid ∈ task_ids tasks ↔ runs w vid) ∧
    (∀ vid, vertices_ w1 !! vid = if decide (runs w vid)
       then (λ vd, (wake_up vd.1, vd.2)) <$> vertices_ w !! vid else vertices_ w !! vid) ∧
    filter (λ vid, vid ∈ task_ids tasks) (env_exec env) = filter (runs w) (env_exec env) ∧
    NoDup (filter (runs w) (env_exec env)) ∧
    (∀ vid, vid ∈ filter (runs w) (env_exec env) ↔ runs w vid).
Proof.
  intros (_ & _ & _ & _ & _ & Hn & _) Henv.
  destruct (select_spec (env_order env) w) as (w1 & tasks & Hsel & Ht & Hsame & Hv1);
    [by eapply env_order_NoDup|intros; by apply (env_order_in env w)|done|].
  assert (∀ vid, vid ∈ task_ids tasks ↔ runs w vid) as Htask.
  { intros vid. rewrite Ht, list_elem_of_filter, (env_order_in env w) by done.
    pose proof (runs_Some w vid). tauto. }
  exists w1, tasks. split_and!; try done.
  - rewrite Ht. by eapply NoDup_filter, env_order_NoDup.
  - intros vid. rewrite Hv1. rewrite Ht in Htask. apply decide_ext, Htask.
  - by apply list_filter_iff.
  - by eapply NoDup_filter, env_exec_NoDup.
  - intros vid. rewrite list_elem_of_filter, (env_exec_in env w) by done.
    pose proof (runs_Some w vid). tauto.
Qed.

Lemma compute_phase_spec pm env step w :
  worker_wf pm w → env_wf env w →
  (∀ vid vd, vertices_ w !! vid = Some vd →
     is_Some (next_vertex step (mail (vertex_inbox_ w) vid) vd)) →
  ∃ w', compute_phase env step w = Some w' ∧
    id_ w' = id_ w ∧ numa_nodes_ w' = numa_nodes_ w ∧ bus_ w' = bus_ w ∧
    stats_ w' = add_processed (Z.of_nat (length (filter (runs w) (env_exec env)))) (stats_ w) ∧
    (∀ vid, vertex_inbox_ w' !! vid =
       if decide (is_Some (vertices_ w !! vid)) then None else vertex_inbox_ w !! vid) ∧
    ∀ vid, vertices_ w' !! vid =
      vertices_ w !! vid ≫= next_vertex step (mail (vertex_inbox_ w) vid).
Proof.
  intros Hwf Henv Hdef.
  destruct (tasks_selected pm env w Hwf Henv) as (w1 & tasks & Hsel &
    (Hid & Hn1 & Hb1 & Hi1 & Hs1) & _ & _ & Hv & Hfilter & Hnd & Hts).
  destruct Hwf as (_ & _ & _ & _ & _ & _ & Hst & _ & Hbo & _).
  unfold compute_phase. rewrite Hsel. cbn [mbind option_bind]. rewrite Hfilter.
  set (ts := filter (runs w) (env_exec env)) in *.
  destruct (run_tasks_total step ts w1 Hnd) as [w2 Hrun].
  { intros vid Hin. apply Hts in Hin. destruct (runs_Some _ _ Hin) as [vd Hvd].
    exists (wake_up vd.1, vd.2). rewrite Hv, decide_True, Hvd by done. split; [done|].
    rewrite Hi1. specialize (Hdef _ _ Hvd).
    by rewrite runs_next, decide_True in Hdef. }
  exists w2. split; [done|].
  destruct (run_tasks_spec step ts w1 w2 Hnd ltac:(by rewrite Hs1) Hrun)
    as (Hid2 & Hn2 & Hb2 & Hs2 & Hv2).
  split_and!; [congruence..| |].
  - intros vid. specialize (Hv2 vid). case_decide as Hin.
    + destruct Hv2 as (_ & _ & -> & _). apply Hts, runs_Some in Hin. by rewrite decide_True.
    + destruct Hv2 as [_ ->]. rewrite Hi1. case_decide as Hdom; [|done].
      rewrite Hts in Hin. unfold runs in Hin. destruct Hdom as [[v d] Hvd].
      rewrite Hvd in Hin. destruct (vertex_inbox_ w !! vid); [|done].
      exfalso. apply Hin. by intros [].
  - intros vid. specialize (Hv2 vid). case_decide as Hin.
    + destruct Hv2 as (vd & Hvd & _ & _ & ->). apply Hts in Hin.
      rewrite Hv, decide_True in Hvd by done. rewrite Hi1.
      destruct (vertices_ w !! vid) as [vd0|] eqn:E; [|done]. cbn in Hvd. injection Hvd as <-.
      cbn. by rewrite runs_next, decide_True.
    + destruct Hv2 as [-> _]. rewrite Hts in Hin. rewrite Hv, decide_False by done.
      destruct (vertices_ w !! vid) as [vd0|] eqn:E; [|done]. cbn.
      by rewrite runs_next, decide_False.
Qed.

Lemma route_phase_spec pm env w :
  PMap.pmap_wf pm → PMap.worker_count_ pm = Bus.worker_count_ (bus_ w) →
  Bus.bus_wf (bus_ w) → Bus.bus_all message_wf (bus_ w) →
  Bus.outboxes_ (bus_ w) = Bus.no_boxes (Bus.worker_count_ (bus_ w)) →
  stats_wf (stats_ w) → env_wf env w →
  let ms := outboxes (vertices_ w) (env_order env) in
  Forall message_wf ms →
  ∃ w', route_phase pm env w = Some w' ∧
    id_ w' = id_ w ∧ numa_nodes_ w' = numa_nodes_ w ∧ vertex_inbox_ w' = vertex_inbox_ w ∧
    stats_ w' = add_sent (Z.of_nat (length ms)) (stats_ w) ∧
    (∀ vid, vertices_ w' !! vid = cleared <$> vertices_ w !! vid) ∧
    Bus.bus_wf (bus_ w') ∧ Bus.same_bus (bus_ w) (bus_ w') ∧
    Bus.outboxes_ (bus_ w') = Bus.no_boxes (Bus.worker_count_ (bus_ w')) ∧
    Bus.inbox_ (bus_ w') = Bus.inbox_ (bus_ w) ++
      Bus.for_worker pm (Z.to_nat (Bus.local_id_ (bus_ w))) ms ∧
    ∀ P, Forall P ms → Bus.bus_all P (bus_ w) → Bus.bus_all P (bus_ w').
Proof.
  intros Hpm Hc Hb Hm Ho Hst Henv ms Hms.
  destruct (collect_spec pm (env_order env) w Hpm Hc ltac:(apply Hb) Hst
    (env_order_NoDup _ _ Henv)) as (w1 & Hcol & Hid & Hn & Hi & Henq & Hs & Hv).
  { intros. by apply (env_order_in env w). }
  fold ms in Henq, Hs.
  destruct (Bus.enqueue_batch_spec pm ms (bus_ w) Hpm Hc ltac:(apply Hb))
    as (boxes & Henq' & Hlen & Hbox).
  pose proof Henq' as Heq. rewrite Henq in Heq. injection Heq as Heq.
  assert (∀ P, Forall P ms → Bus.bus_all P (bus_ w) → Bus.bus_all P (bus_ w1)) as HP.
  { intros P H1 H2. by eapply Bus.enqueue_all. }
  assert (Bus.bus_wf (bus_ w1)) as Hb1.
  { rewrite Heq. destruct Hb as (Hb1 & Hb2 & Hb3). split; [done|]. split; [|done].
    cbn. congruence. }
  unfold route_phase. rewrite Hcol. cbn [mbind option_bind].
  rewrite (Bus.flush_eq _ _ Hb1). cbn [mbind option_bind].
  eexists. split; [done|]. cbn [id_ numa_nodes_ vertex_inbox_ stats_ vertices_ bus_ set_bus].
  split_and!; try done.
  - intros vid. rewrite Hv. case_decide as Hin; [done|].
    rewrite (env_order_in env w) in Hin by done.
    destruct (vertices_ w !! vid); [exfalso; apply Hin; by eexists|done].
  - by apply Bus.flushed_wf.
  - by rewrite Heq.
  - cbn. rewrite Bus.local_box_all by done. rewrite Heq. cbn. f_equal.
    apply list_lookup_total_correct.
    apply (Hbox _ []). rewrite Ho. unfold Bus.no_boxes.
    apply lookup_replicate. split; [done|]. destruct Hb as ((?&?) & _). lia.
  - intros P H1 H2. apply Bus.flushed_all; [done| |by apply HP].
    apply Bus.bus_all_and; by apply HP.
Qed.

Lemma count_active_eq w w' :
  vertices_ w' = vertices_ w → count_active w' = count_active w.
Proof. unfold count_active. by intros ->. Qed.

Lemma received_wf pm env w vid : worker_wf pm w → Forall message_wf (received env w vid).
Proof.
  intros Hwf. destruct (receive_phase_spec pm env w Hwf) as (Hwf1 & _ & _ & <- & _).
  apply boxes_all_mail, Hwf1.
Qed.

Lemma computed_ok pm env step w vid vd' :
  worker_wf pm w → in_u64 step → computed env step w vid = Some vd' →
  vertex_ok vid (cleared vd') ∧ Forall message_wf (outbox_ vd'.1) ∧
  Forall (λ m, msg_src m = vid) (outbox_ vd'.1).
Proof.
  intros Hwf Hst (vd & Hvd & Hnext)%bind_Some.
  assert (vertex_ok vid vd) as Hok by (by apply Hwf).
  destruct (next_vertex_ok _ _ _ _ _ Hok Hst (received_wf pm env w vid Hwf) Hnext)
    as (? & _ & Ha & ?). split_and!; try done.
  eapply Forall_impl; [exact Ha|]. intros m [-> _]. apply Hok.
Qed.

Lemma sent_all (P : Message → Prop) env step w :
  (∀ vid vd', computed env step w vid = Some vd' → Forall P (outbox_ vd'.1)) →
  Forall P (sent env step w).
Proof.
  intros Hall. unfold sent. apply Forall_bind, Forall_forall. intros vid _. cbn.
  destruct (computed env step w vid) as [vd'|] eqn:E; [|done]. by eapply Hall.
Qed.

(** The computations of a superstep, in terms of the worker at its start. *)
Lemma computed_phase pm env step w :
  worker_wf pm w → env_wf env w → in_u64 step → computes env step w →
  ∃ w', compute_phase env step (receive_phase env w) = Some w' ∧
    id_ w' = id_ w ∧ numa_nodes_ w' = numa_nodes_ w ∧ bus_ w' = bus_ (receive_phase env w) ∧
    stats_ w' = add_processed
      (Z.of_nat (length (filter (runs (receive_phase env w)) (env_exec env))))
      (add_received (Z.of_nat (length (arrived env w))) (stats_ w)) ∧
    (∀ vid, vertex_inbox_ w' !! vid =
       if decide (is_Some (vertices_ w !! vid)) then None
       else vertex_inbox_ (receive_phase env w) !! vid) ∧
    (∀ vid, vertices_ w' !! vid = computed env step w vid) ∧
    env_wf env w' ∧ outboxes (vertices_ w') (env_order env) = sent env step w ∧
    Forall message_wf (sent env step w).
Proof.
  intros Hwf Henv Hst Hdef.
  destruct (receive_phase_spec pm env w Hwf) as (Hwf1 & Hid1 & Hv1 & Hmail & _ & Hs1 & _).
  assert (numa_nodes_ (receive_phase env w) = numa_nodes_ w) as Hn1
    by (unfold receive_phase; by destruct (Bus.drain_inbox _)).
  set (w1 := receive_phase env w) in *.
  assert (env_wf env w1) as Henv1 by (unfold env_wf; by rewrite Hv1).
  destruct (compute_phase_spec pm env step w1 Hwf1 Henv1)
    as (w2 & Hrun & Hid2 & Hn2 & Hb2 & Hs2 & Hi2 & Hv2).
  { intros vid vd Hvd. rewrite Hv1 in Hvd. destruct (Hdef vid) as [vd' H]; [by eexists|].
    unfold computed in H. rewrite Hvd in H. cbn in H. rewrite Hmail. by eexists. }
  assert (∀ vid, vertices_ w2 !! vid = computed env step w vid) as Hv2'.
  { intros vid. rewrite Hv2, Hv1, Hmail. done. }
  exists w2. rewrite Hid2, Hn2, Hs2, Hs1, Hid1, Hn1. split_and!; try done.
  - unfold env_wf. replace (dom (vertices_ w2)) with (dom (vertices_ w)); [exact Henv|].
    apply set_eq. intros vid. rewrite !elem_of_dom, Hv2'. split; [apply Hdef|].
    unfold computed. destruct (vertices_ w !! vid); [by eexists|intros [? ?]; done].
  - unfold outboxes, sent. apply list_bind_ext; [|done]. intros vid. by rewrite Hv2'.
  - apply sent_all. intros vid vd'. by apply (computed_ok pm).
Qed.

(** [run_superstep] in one piece: it is defined, keeps the invariant, and its
    result is given vertex by vertex. *)
Lemma run_superstep_effect pm env step w :
  worker_wf pm w → env_wf env w → in_u64 step → computes env step w →
  ∃ w', run_superstep pm env step w = Some (w', count_active w') ∧
    worker_wf pm w' ∧ id_ w' = id_ w ∧
    (∀ vid, vertices_ w' !! vid = cleared <$> computed env step w vid) ∧
    (∀ vid, mail (vertex_inbox_ w') vid =
       if decide (is_Some (vertices_ w !! vid)) then [] else received env w vid) ∧
    Bus.inbox_ (bus_ w') = Bus.for_worker pm (Z.to_nat (id_ w)) (sent env step w) ∧
    stats_ w' = add_superstep (add_sent (Z.of_nat (length (sent env step w)))
      (add_processed
         (Z.of_nat (length (filter (runs (receive_phase env w)) (env_exec env))))
         (add_received (Z.of_nat (length (arrived env w))) (stats_ w)))) ∧
    ∀ P, Forall P (sent env step w) → worker_all P w → worker_all P w'.
Proof.
  intros Hwf Henv Hst Hdef.
  destruct (receive_phase_spec pm env w Hwf) as (Hwf1 & Hid1 & Hv1 & Hmail & Hin1 & Hs1 & HP1).
  destruct (computed_phase pm env step w Hwf Henv Hst Hdef)
    as (w2 & Hrun & Hid2 & Hn2 & Hb2 & Hs2 & Hi2 & Hv2 & Henv2 & Hsent & Hsw).
  set (w1 := receive_phase env w) in *.
  destruct Hwf1 as (Hpm & Hc & Hbw & Hloc & Hout & Hn & Hst1 & _ & Hbo & Hba & Hbus).
  rewrite <- Hb2 in Hc, Hbw, Hloc, Hout, Hbus.
  destruct (route_phase_spec pm env w2) as (w3 & Hroute & Hid3 & Hn3 & Hi3 & Hs3 & Hv3 &
    Hbw3 & (Hl3 & Hc3 & _) & Hout3 & Hin3 & HP3); try done;
    [by rewrite Hs2; apply add_processed_wf, add_received_wf, Hwf|by rewrite Hsent|].
  rewrite Hsent in *.
  assert (numa_nodes_ w3 ≠ 0) as Hnuma by (rewrite Hn3, Hn2; apply Hwf).
  assert (∀ vid, mail (vertex_inbox_ w3) vid =
       if decide (is_Some (vertices_ w !! vid)) then [] else received env w vid) as Hmail3.
  { intros vid. rewrite Hi3. unfold mail at 1. rewrite Hi2. case_decide; [done|]. apply Hmail. }
  assert (∀ P, boxes_all P (vertex_inbox_ w1) → boxes_all P (vertex_inbox_ w3)) as Hbox3.
  { intros P H vid ms. rewrite Hi3, Hi2. case_decide; [done|]. apply H. }
  eexists. unfold run_superstep. fold w1. rewrite Hrun. cbn [mbind option_bind].
  rewrite Hroute. cbn [mbind option_bind]. split; [done|].
  unfold worker_wf, worker_all. cbn [bus_ id_ numa_nodes_ vertices_ vertex_inbox_ stats_ set_stats].
  split; [|split_and!].
  - split_and!; try done; try congruence.
    + apply add_superstep_wf. rewrite Hs3, Hs2. by apply add_sent_wf, add_processed_wf, add_received_wf, Hwf.
    + intros vid vd Hvd. rewrite Hv3, Hv2 in Hvd.
      apply fmap_Some in Hvd as (vd' & Hvd' & ->). by eapply computed_ok.
    + intros vid ms. rewrite Hi3, Hi2. case_decide; [done|]. apply Hbo.
    + by apply Hbox3.
    + by apply HP3.
  - congruence.
  - intros vid. by rewrite Hv3, Hv2.
  - done.
  - rewrite Hin3, Hloc, Hb2, Hin1, Hid1. done.
  - by rewrite Hs3, Hs2.
  - intros P Hs Hw. apply HP1 in Hw as [Ha Hb]. split; [by apply Hbox3|].
    apply HP3; [done|]. by rewrite Hb2.
Qed.

(** A superstep is defined only if every computation is. *)
Lemma compute_phase_defined pm env step w w' :
  worker_wf pm w → env_wf env w → compute_phase env step w = Some w' →
  ∀ vid vd, vertices_ w !! vid = Some vd →
    is_Some (next_vertex step (mail (vertex_inbox_ w) vid) vd).
Proof.
  intros Hwf Henv Hrun vid vd Hvd.
  destruct (tasks_selected pm env w Hwf Henv) as (w1 & tasks & Hsel &
    (_ & _ & _ & Hi1 & Hs1) & _ & _ & Hv1 & Hfilter & Hnd & Hts).
  destruct Hwf as (_ & _ & _ & _ & _ & _ & Hst & _ & Hbo & _).
  rewrite runs_next by done. case_decide as Hr; [|by eexists].
  unfold compute_phase in Hrun. rewrite Hsel in Hrun. cbn [mbind option_bind] in Hrun.
  rewrite Hfilter in Hrun.
  apply run_tasks_spec in Hrun as (_ & _ & _ & _ & Hv); [|done|by rewrite Hs1].
  specialize (Hv vid). rewrite decide_True in Hv by (by apply Hts).
  destruct Hv as (vd1 & Hvd1 & _ & Hsome & Heq). rewrite Heq, Hi1 in Hsome.
  rewrite Hv1, decide_True, Hvd in Hvd1 by done. by injection Hvd1 as <-.
Qed.

Lemma run_superstep_defined pm env step w r :
  worker_wf pm w → env_wf env w → run_superstep pm env step w = Some r → computes env step w.
Proof.
  intros Hwf Henv Hrun vid [vd Hvd]. unfold computed. rewrite Hvd. cbn.
  destruct (receive_phase_spec pm env w Hwf) as (Hwf1 & _ & Hv1 & Hmail & _).
  rewrite <- Hmail. unfold run_superstep in Hrun.
  apply bind_Some in Hrun as (w2 & Hrun & _).
  eapply (compute_phase_defined pm); [done| |done|by rewrite Hv1].
  unfold env_wf. by rewrite Hv1.
Qed.

(** The vertices of a worker stay the same. *)
Lemma superstep_dom env step w w' :
  computes env step w →
  (∀ vid, vertices_ w' !! vid = cleared <$> computed env step w vid) →
  dom (vertices_ w') = dom (vertices_ w).
Proof.
  intros Hdef Hv. apply set_eq. intros vid.
  rewrite !elem_of_dom, Hv, fmap_is_Some. split; [|apply Hdef].
  unfold computed. intros [? (? & -> & _)%bind_Some]. by eexists.
Qed.

(** Several supersteps. *)
Definition run_supersteps (pm : PMap.PartitionMap) (envs : list (StepEnv * Superstep))
    (w : WorkerNode D) : option (WorkerNode D) :=
  foldM (λ w '(env, step), fst <$> run_superstep pm env step w) w envs.

Definition envs_wf (envs : list (StepEnv * Superstep)) (w : WorkerNode D) : Prop :=
  Forall (λ '(env, step), env_wf env w ∧ in_u64 step) envs.

(** An invariant of the supersteps holds after any number of them. *)
Lemma run_supersteps_inv (P : WorkerNode D → Prop) pm envs w w' :
  (∀ env step w w' n, worker_wf pm w → env_wf env w → in_u64 step → P w →
     run_superstep pm env step w = Some (w', n) → P w') →
  worker_wf pm w → envs_wf envs w → P w → run_supersteps pm envs w = Some w' →
  worker_wf pm w' ∧ dom (vertices_ w') = dom (vertices_ w) ∧ P w'.
Proof.
  intros Hstep. revert w. induction envs as [|[env step] envs IH]; intros w Hwf Henvs HP.
  { cbn. intros [= <-]. done. }
  unfold run_supersteps. cbn [foldM]. intros (w1 & H1 & Hrun)%bind_Some.
  apply fmap_Some in H1 as ([w1' n] & H1 & ->). cbn [fst] in Hrun.
  apply Forall_cons in Henvs as [[Henv Hst] Henvs].
  pose proof (run_superstep_defined _ _ _ _ _ Hwf Henv H1) as Hdef.
  destruct (run_superstep_effect pm env step w Hwf Henv Hst Hdef)
    as (w1'' & H1' & Hwf1 & _ & Hv & _).
  rewrite H1 in H1'. injection H1' as -> _.
  pose proof (superstep_dom _ _ _ _ Hdef Hv) as Hdom.
  destruct (IH w1'') as (? & Hdom' & ?); try done.
  - unfold envs_wf, env_wf. by rewrite Hdom.
  - exact (Hstep env step w w1'' _ Hwf Henv Hst HP H1).
  - split_and!; [done| |done]. congruence.
Qed.

(** *** Active vertices *)

Lemma count_active_size w :
  Z.of_nat (size (vertices_ w)) < 2 ^ 64 →
  count_active w =
    Z.of_nat (size (filter (λ p, halted_ p.2.1 = false) (vertices_ w))).
Proof.
  intros Hsize. unfold count_active.
  assert (∀ m : gmap Z (Vertex * D),
    count (λ vd : Vertex * D, negb (halted_ vd.1)) (snd <$> map_to_list m) =
    size (filter (λ p, halted_ p.2.1 = false) m)) as Heq.
  { induction m as [|i x m Hi IH] using map_ind; [done|].
    rewrite map_to_list_insert by done. cbn [fmap list_fmap snd]. rewrite count_cons.
    change (list_fmap _ _ snd (map_to_list m)) with (snd <$> map_to_list m). rewrite IH.
    destruct (halted_ x.1) eqn:E.
    - rewrite map_filter_insert_False by (cbn; congruence).
      by rewrite delete_id.
    - rewrite map_filter_insert_True by done. rewrite map_size_insert_None; [done|].
      rewrite map_lookup_filter_None. by left. }
  rewrite Heq. apply u64_small. split; [lia|].
  pose proof (map_size_filter (λ p, halted_ p.2.1 = false) (vertices_ w)). lia.
Qed.

Lemma filter_awake_empty (m : gmap Z (Vertex * D)) :
  size (filter (λ p, halted_ p.2.1 = false) m) = O ↔
  map_Forall (λ _ vd, halted_ vd.1 = true) m.
Proof.
  rewrite map_size_empty_iff, map_empty.
  split; intros Hm i; specialize (Hm i); [|apply map_lookup_filter_None_2];
    [intros x Hx|right; intros x Hx; cbn; by rewrite (Hm x Hx)].
  apply map_lookup_filter_None_1 in Hm as [?|Hm]; [congruence|].
  specialize (Hm x Hx). cbn in Hm. by destruct (halted_ x.1).
Qed.

(** *** Invariants of the vertices and of the messages *)

(** Between two supersteps the worker has delivered all its vertices' mail. *)
Definition settled w : Prop :=
  ∀ vid, is_Some (vertices_ w !! vid) → mail (vertex_inbox_ w) vid = [].

Lemma worker_all_and P Q w :
  worker_all P w → worker_all Q w → worker_all (λ m, P m ∧ Q m) w.
Proof.
  intros [HP HP'] [HQ HQ']. split; [|by apply Bus.bus_all_and].
  intros vid ms Hms. apply Forall_and. split; [exact (HP vid ms Hms)|exact (HQ vid ms Hms)].
Qed.

Lemma worker_all_impl P Q w : (∀ m, P m → Q m) → worker_all P w → worker_all Q w.
Proof.
  intros Hi [Hb (Hin & Ho & Ht)]. split; [|split_and!].
  - eapply map_Forall_impl; [exact Hb|]. intros vid ms Hms.
    exact (Forall_impl _ _ _ Hms Hi).
  - exact (Forall_impl _ _ _ Hin Hi).
  - eapply Forall_impl; [exact Ho|]. intros box Hbox. exact (Forall_impl _ _ _ Hbox Hi).
  - intros t Ht' j q Hq. eapply Forall_impl; [exact (Ht t Ht' j q Hq)|done].
Qed.

Lemma received_all pm env w vid P :
  worker_wf pm w → worker_all P w → Forall P (received env w vid).
Proof.
  intros Hwf HP. destruct (receive_phase_spec pm env w Hwf) as (_ & _ & _ & <- & _ & _ & Hall).
  apply boxes_all_mail, (Hall P HP).
Qed.

Lemma received_addressed env w vid :
  settled w → is_Some (vertices_ w !! vid) → Forall (λ m, msg_dst m = vid) (received env w vid).
Proof.
  intros Hs Hvid. unfold received. rewrite Hs by done. apply Forall_forall.
  by intros m [? _]%list_elem_of_filter.
Qed.

(** A superstep is defined and establishes [V'] of the vertices and [P'] of the
    messages when the computation of each vertex does so from [V] and [P]. *)
Lemma superstep_invariant pm env step w (V V' : Vertex * D → Prop) (P P' : Message → Prop) :
  worker_wf pm w → env_wf env w → in_u64 step → settled w →
  map_Forall (λ _ vd, V vd) (vertices_ w) → worker_all P w → (∀ m, P m → P' m) →
  (∀ vid vd ms, vertex_ok vid vd → V vd →
     Forall (λ m, (P m ∧ message_wf m) ∧ msg_dst m = vid) ms →
     ∃ vd', next_vertex step ms vd = Some vd' ∧ V' (cleared vd') ∧ Forall P' (outbox_ vd'.1)) →
  ∃ w', run_superstep pm env step w = Some (w', count_active w') ∧ worker_wf pm w' ∧
    id_ w' = id_ w ∧ dom (vertices_ w') = dom (vertices_ w) ∧ settled w' ∧
    map_Forall (λ _ vd, V' vd) (vertices_ w') ∧ worker_all P' w'.
Proof.
  intros Hwf Henv Hst Hset HV HP Himpl Hstep.
  assert (∀ vid vd, vertices_ w !! vid = Some vd → ∃ vd', computed env step w vid = Some vd' ∧
    V' (cleared vd') ∧ Forall P' (outbox_ vd'.1)) as Hcomp.
  { intros vid vd Hvd. unfold computed. rewrite Hvd. cbn.
    apply (Hstep vid); [by apply Hwf|by apply (HV vid)|].
    assert (worker_all message_wf w) as Hm by (split; apply Hwf).
    apply Forall_and; split.
    - apply (received_all pm); [done|by apply worker_all_and].
    - apply received_addressed; [done|by eexists]. }
  assert (computes env step w) as Hdef.
  { intros vid [vd Hvd]. destruct (Hcomp vid vd Hvd) as (vd' & -> & _). by eexists. }
  destruct (run_superstep_effect pm env step w Hwf Henv Hst Hdef)
    as (w' & Hrun & Hwf' & Hid & Hv & Hm & _ & _ & Hall).
  pose proof (superstep_dom _ _ _ _ Hdef Hv) as Hdom.
  exists w'. split_and!; try done.
  - intros vid Hvid. rewrite Hm, decide_True; [done|].
    by rewrite <- elem_of_dom, <- Hdom, elem_of_dom.
  - intros vid vd' Hvd'. rewrite Hv in Hvd'. apply fmap_Some in Hvd' as (vd1 & Hvd1 & ->).
    unfold computed in Hvd1. apply bind_Some in Hvd1 as (vd & Hvd & Hnext).
    destruct (Hcomp vid vd Hvd) as (vd2 & Hvd2 & ? & _).
    unfold computed in Hvd2. rewrite Hvd in Hvd2. cbn in Hvd2. by simplify_eq.
  - apply Hall; [|by eapply worker_all_impl].
    apply sent_all. intros vid vd' Hvd'. unfold computed in Hvd'.
    apply bind_Some in Hvd' as (vd & Hvd & Hnext).
    destruct (Hcomp vid vd Hvd) as (vd2 & Hvd2 & _ & ?).
    unfold computed in Hvd2. rewrite Hvd in Hvd2. cbn in Hvd2. by simplify_eq.
Qed.

(** ** Properties *)

(** C1: What a superstep does.  If every computation of the superstep is
    defined, so is the superstep; it keeps the worker's invariant and its set
    of vertices, gives each vertex the result of Pregel's rule on the mail it
    received (a halted vertex without mail is left alone, any other is woken
    up and computed, once) with its outbox emptied, leaves no mail to the
    vertices it has, and keeps the mail addressed to vertices it has not.  If
    some computation is undefined, so is the superstep. *)
Theorem superstep_spec pm env step w :
  worker_wf pm w → env_wf env w → in_u64 step →
  (computes env step w →
   ∃ w', run_superstep pm env step w = Some (w', count_active w') ∧ worker_wf pm w' ∧
     dom (vertices_ w') = dom (vertices_ w) ∧
     (∀ vid vd, vertices_ w !! vid = Some vd →
        ∃ vd', next_vertex step (received env w vid) vd = Some vd' ∧
               vertices_ w' !! vid = Some (cleared vd') ∧
               mail (vertex_inbox_ w') vid = []) ∧
     (∀ vid, vertices_ w !! vid = None →
        mail (vertex_inbox_ w') vid = received env w vid)) ∧
  (¬ computes env step w → run_superstep pm env step w = None).
Proof.
  intros Hwf Henv Hst. split.
  - intros Hdef. destruct (run_superstep_effect pm env step w Hwf Henv Hst Hdef)
      as (w' & Hrun & Hwf' & _ & Hv & Hm & _).
    exists w'. split_and!; try done; [by eapply superstep_dom| |].
    + intros vid vd Hvd. destruct (Hdef vid) as [vd' Hvd']; [by eexists|].
      exists vd'. rewrite Hv, Hm, Hvd', decide_True by (by eexists).
      split_and!; try done. unfold computed in Hvd'. by rewrite Hvd in Hvd'.
    + intros vid Hvd. rewrite Hm, Hvd, decide_False; [done|by intros []].
  - intros Hdef. destruct (run_superstep pm env step w) as [r|] eqn:E; [|done].
    exfalso. eapply Hdef, run_superstep_defined; eauto.
Qed.

(** Two environments that differ only in the order the tasks run in. *)
Definition same_but_schedule (es es' : StepEnv * Superstep) : Prop :=
  es'.2 = es.2 ∧ env_order es'.1 = env_order es.1 ∧ env_passes es'.1 = env_passes es.1 ∧
  env_clock es'.1 = env_clock es.1 ∧ NoDup (env_exec es.1) ∧ env_exec es.1 ≡ₚ env_exec es'.1.

Lemma run_superstep_schedule pm env env' step w :
  same_but_schedule (env, step) (env', step) →
  run_superstep pm env step w = run_superstep pm env' step w.
Proof.
  intros (_ & Ho & Hpa & Hc & Hnd & Hp). cbn [fst snd] in *.
  unfold run_superstep, compute_phase, receive_phase, route_phase. rewrite Ho, Hpa, Hc.
  destruct (Bus.drain_inbox _) as [b msgs].
  destruct (select_tasks _ _) as [[w1 tasks]|]; cbn [mbind option_bind]; [|done].
  f_equal. apply foldM_permutation; [apply run_task_commute|by apply NoDup_filter|].
  by apply filter_Permutation.
Qed.

(** C9: The schedule does not matter.  Run a worker for any number of supersteps
    under two environments that differ only in the order in which the scheduler's
    threads run the tasks of each superstep: the two runs end in the same state,
    or both are undefined. *)
Theorem superstep_schedule_independent pm envs envs' w :
  Forall2 same_but_schedule envs envs' →
  run_supersteps pm envs w = run_supersteps pm envs' w.
Proof.
  intros Hall. revert w. induction Hall as [|[env step] [env' step'] envs envs' Hes _ IH];
    intros w; [done|].
  pose proof Hes as [Hst _]. cbn in Hst. subst step'.
  unfold run_supersteps in *. cbn [foldM].
  rewrite (run_superstep_schedule pm env env' step w Hes).
  destruct (run_superstep pm env' step w) as [[w' n]|]; [apply IH|done].
Qed.

(** The returned count is the vote.  A superstep of a worker with fewer
    than 2^64 vertices returns the number of its vertices that are not halted
    afterwards; it is zero exactly when all of them are. *)
Theorem superstep_active pm env step w w' n :
  worker_wf pm w → env_wf env w → in_u64 step → Z.of_nat (size (vertices_ w)) < 2 ^ 64 →
  run_superstep pm env step w = Some (w', n) →
  n = Z.of_nat (size (filter (λ p, halted_ p.2.1 = false) (vertices_ w'))) ∧
  (n = 0 ↔ map_Forall (λ _ vd, halted_ vd.1 = true) (vertices_ w')).
Proof.
  intros Hwf Henv Hst Hsize Hrun.
  pose proof (run_superstep_defined _ _ _ _ _ Hwf Henv Hrun) as Hdef.
  destruct (run_superstep_effect pm env step w Hwf Henv Hst Hdef)
    as (w1 & Hrun' & _ & _ & Hv & _).
  rewrite Hrun in Hrun'. injection Hrun' as <- ->.
  pose proof (superstep_dom _ _ _ _ Hdef Hv) as Hdom.
  rewrite count_active_size.
  - split; [done|]. rewrite <- filter_awake_empty. lia.
  - rewrite <- !size_dom, Hdom, size_dom in *. done.
Qed.

(** C8: Messages between vertices of one worker arrive in the next superstep.
    A vertex of the worker receives in the next superstep, first and in the
    order they were collected, all the messages that the worker's vertices
    sent to it; anything received after those comes from the transport. *)
Theorem local_messages_arrive pm env step w w' n env' vid :
  worker_wf pm w → env_wf env w → in_u64 step →
  run_superstep pm env step w = Some (w', n) →
  is_Some (vertices_ w !! vid) → PMap.owner_of vid pm = Some (id_ w) →
  ∃ late, received env' w' vid = for_vertex vid (sent env step w) ++ for_vertex vid late ∧
    match Bus.transport_ (Bus.network_run (env_passes env') (bus_ w')) with
    | Some t => late = (Transport.receive_all t).2
    | None => late = []
    end.
Proof.
  intros Hwf Henv Hst Hrun Hvid Hown.
  pose proof (run_superstep_defined _ _ _ _ _ Hwf Henv Hrun) as Hdef.
  destruct (run_superstep_effect pm env step w Hwf Henv Hst Hdef)
    as (w1 & Hrun' & Hwf1 & _ & Hv & Hm & Hin & _).
  rewrite Hrun in Hrun'. injection Hrun' as <- _.
  unfold received, arrived. rewrite Hm, decide_True by done.
  rewrite Bus.drain_inbox_eq by (apply Bus.network_run_wf, Hwf1). cbn [app snd].
  exists (match Bus.transport_ (Bus.network_run (env_passes env') (bus_ w')) with
    | Some t => (Transport.receive_all t).2 | None => [] end).
  split; [|by destruct (Bus.transport_ _)].
  unfold for_vertex at 1. rewrite filter_app. f_equal.
  change (Bus.inbox_ (Bus.network_run _ _)) with (Bus.inbox_ (bus_ w')). rewrite Hin.
  unfold Bus.for_worker, for_vertex. rewrite list_filter_filter.
  apply list_filter_iff. intros m. split; [tauto|]. intros <-. by rewrite Hown.
Qed.

(** C4: Nothing crosses between workers.  Start a worker whose mailboxes and bus
    hold only messages sent by its own vertices (a new worker holds none), and
    let it run any number of supersteps: whatever the network threads do, every
    message it then holds, in a mailbox, in its inbox, in an outbox or in its
    transport, was sent by one of its own vertices.  No message of a vertex of
    another worker ever arrives. *)
Theorem foreign_mail_never_arrives pm envs w w' :
  let own m := is_Some (vertices_ w !! msg_src m) in
  worker_wf pm w → envs_wf envs w → worker_all own w →
  run_supersteps pm envs w = Some w' → worker_all own w'.
Proof.
  intros own Hwf Henvs Hall Hrun.
  destruct (run_supersteps_inv
    (λ w', dom (vertices_ w') = dom (vertices_ w) ∧ worker_all own w') pm envs w w')
    as (_ & _ & _ & ?); try done.
  clear w' envs Hwf Henvs Hall Hrun. intros env step w1 w2 n Hwf Henv Hst [Hd Hall] Hrun.
  pose proof (run_superstep_defined _ _ _ _ _ Hwf Henv Hrun) as Hdef.
  destruct (run_superstep_effect pm env step w1 Hwf Henv Hst Hdef)
    as (w2' & Hrun' & _ & _ & Hv & _ & _ & _ & HP).
  rewrite Hrun in Hrun'. injection Hrun' as <- _. split.
  { rewrite <- Hd. by eapply superstep_dom. }
  apply HP; [|done]. apply sent_all. intros vid vd' Hvd'.
  destruct (computed_ok _ _ _ _ _ _ Hwf Hst Hvd') as (_ & _ & Hsrc).
  eapply Forall_impl; [exact Hsrc|]. intros m Hm. unfold own. rewrite Hm.
  rewrite <- elem_of_dom, <- Hd, elem_of_dom. unfold computed in Hvd'.
  apply bind_Some in Hvd' as (vd & -> & _). by eexists.
Qed.

(** The counters of a superstep.  A superstep adds to the worker's counters
    the messages it drained, the tasks it ran, the messages its vertices sent,
    and itself, all modulo 2^64; it never touches the counts of latency spikes,
    migrations and RDMA operations. *)
Theorem superstep_counters pm env step w w' n :
  worker_wf pm w → env_wf env w → in_u64 step →
  run_superstep pm env step w = Some (w', n) →
  stats_ w' = mkStats
    (u64 (vertices_processed (stats_ w) +
          Z.of_nat (length (filter (runs (receive_phase env w)) (env_exec env)))))
    (u64 (messages_sent (stats_ w) + Z.of_nat (length (sent env step w))))
    (u64 (messages_received (stats_ w) + Z.of_nat (length (arrived env w))))
    (bytes_transferred (stats_ w))
    (u64 (supersteps_completed (stats_ w) + 1))
    (latency_spike_count (stats_ w)) (migrations_performed (stats_ w)) (rdma_ops (stats_ w)).
Proof.
  intros Hwf Henv Hst Hrun.
  pose proof (run_superstep_defined _ _ _ _ _ Hwf Henv Hrun) as Hdef.
  destruct (run_superstep_effect pm env step w Hwf Henv Hst Hdef)
    as (w1 & Hrun' & _ & _ & _ & _ & _ & Hs & _).
  rewrite Hrun in Hrun'. injection Hrun' as <- _. done.
Qed.

(** ** Loading a worker *)

Lemma new_worker_wf pm i numa rdma :
  PMap.pmap_wf pm → 0 ≤ i < PMap.worker_count_ pm → numa ≠ 0 →
  worker_wf pm (new i numa (Bus.new i (PMap.worker_count_ pm) rdma)).
Proof.
  intros Hpm Hi Hn. split_and!; try done; try (by apply Bus.bus_new_wf).
  all: by apply Bus.bus_new_all.
Qed.

Lemma add_vertex_wf pm vd w :
  worker_wf pm w → vertex_ok (Vertex.id_ vd.1) vd → worker_wf pm (add_vertex vd w).
Proof.
  intros (?&?&?&?&?&?&?&Hv&?) Hvd. split_and!; try done; try tauto.
  by apply map_Forall_insert_2.
Qed.

Lemma absorb_id migrated pm w pm' w' :
  foldl absorb_one (pm, w) migrated = (pm', w') → id_ w' = id_ w.
Proof.
  revert pm w. induction migrated as [|vd migrated IH]; intros pm w; cbn; [congruence|].
  by intros ->%IH.
Qed.

Lemma absorb_wf pm w vd :
  worker_wf pm w → vertex_ok (Vertex.id_ vd.1) vd →
  worker_wf (PMap.migrate (Vertex.id_ vd.1) (id_ w) pm)
    (set_stats (add_migration (stats_ w))
       (set_vertices (<[Vertex.id_ vd.1 := (set_owner (id_ w) vd.1, vd.2)]> (vertices_ w)) w)).
Proof.
  intros (Hpm&Hc&Hb&Hl&?&?&Hs&Hv&?) Hvd. split_and!; try done; try tauto; try apply Hs.
  - apply PMap.migrate_wf; [done|]. rewrite Hc, <- Hl. apply Hb.
  - by apply map_Forall_insert_2.
Qed.

(** [absorb_partition].  The worker ends up with every migrated vertex, with
    itself as its owner, keeps its other vertices, and the partition map sends
    the migrated vertices, and only those, to it; each migrated vertex is
    counted.  The partition map stays well formed, and so does the worker. *)
Theorem absorb_partition_spec migrated pm w :
  worker_wf pm w → NoDup ((λ vd, Vertex.id_ vd.1) <$> migrated) →
  Forall (λ vd, vertex_ok (Vertex.id_ vd.1) vd) migrated →
  let '(pm', w') := absorb_partition migrated pm w in
  worker_wf pm' w' ∧
  (∀ vd, vd ∈ migrated →
     vertices_ w' !! Vertex.id_ vd.1 = Some (set_owner (id_ w) vd.1, vd.2) ∧
     PMap.owner_of (Vertex.id_ vd.1) pm' = Some (id_ w)) ∧
  (∀ vid, vid ∉ (λ vd, Vertex.id_ vd.1) <$> migrated →
     vertices_ w' !! vid = vertices_ w !! vid ∧
     PMap.owner_of vid pm' = PMap.owner_of vid pm) ∧
  u64 (migrations_performed (stats_ w')) =
    u64 (migrations_performed (stats_ w) + Z.of_nat (length migrated)).
Proof.
  intros Hwf Hnd Hok. unfold absorb_partition.
  induction migrated as [|vd migrated IH] using rev_ind.
  { cbn -[u64]. rewrite Z.add_0_r. split_and!; try done. by intros vd Hin%elem_of_nil. }
  rewrite fmap_app in Hnd. apply NoDup_app in Hnd as (Hnd & Hx & _).
  apply Forall_app in Hok as [Hok Hvd]. apply Forall_cons in Hvd as [Hvd _].
  specialize (IH Hnd Hok). rewrite foldl_app.
  destruct (foldl absorb_one (pm, w) migrated) as [pm1 w1] eqn:E. cbn [foldl absorb_one].
  assert (id_ w1 = id_ w) as Hid by (by eapply absorb_id).
  destruct IH as (Hwf1 & Hin & Hout & Hcnt). rewrite Hid.
  assert (∀ vid, PMap.owner_of vid (PMap.migrate (Vertex.id_ vd.1) (id_ w) pm1) =
    if decide (vid = Vertex.id_ vd.1) then Some (id_ w) else PMap.owner_of vid pm1) as Hown.
  { intros. apply PMap.owner_of_migrate. }
  cbn [vertices_ set_stats set_vertices stats_ set_owner Vertex.id_].
  split_and!.
  - rewrite <- Hid. by apply absorb_wf.
  - intros vd' [Hin'|Hin']%elem_of_app.
    + destruct (Hin _ Hin') as [? ?]. rewrite Hown, lookup_insert.
      assert (Vertex.id_ vd'.1 ≠ Vertex.id_ vd.1) as Hne.
      { intros Heq. apply (Hx (Vertex.id_ vd'.1)); [apply list_elem_of_fmap; eauto|].
        rewrite Heq. cbn. by apply list_elem_of_singleton. }
      by rewrite !decide_False by congruence.
    + apply list_elem_of_singleton in Hin' as ->.
      by rewrite Hown, lookup_insert_eq, decide_True.
  - intros vid Hvid. rewrite fmap_app, elem_of_app in Hvid. cbn in Hvid.
    rewrite list_elem_of_singleton in Hvid.
    rewrite Hown, lookup_insert_ne, decide_False by (intros Heq; apply Hvid; right; congruence).
    apply Hout. tauto.
  - cbn -[u64]. rewrite length_app, <- u64_add_idemp, u64_add_idemp, u64_small by apply u64_range.
    rewrite <- u64_add_idemp, Hcnt, u64_add_idemp. f_equal. cbn. lia.
Qed.

End Superstep.
(** ** The theorems at a concrete worker *)

#[local] Existing Instance Venue.lcg.

(** Worker [i] of [n] with a bid level, vertex 1, and its venue, vertex 3, which
    also quotes to vertex 0. *)
Definition sample_level : Vertex * OBData Z :=
  (mkVertex 1 PRICE_LEVEL 1 false [mkEdge 3 1 2] [],
   PriceLevelV (PriceLevel.new (PriceLevel.mkState 149999900 BID 1000 2 0 true))).
Definition sample_venue : Vertex * OBData Z :=
  (mkVertex 3 VENUE 1 false [mkEdge 1 1 0; mkEdge 0 1 0] [],
   VenueV (Venue.new (Venue.mkState 3 "BATS" 149999900 150000100 500 700 false))).
Definition sample_worker (n i : Z) : WorkerNode (OBData Z) :=
  add_vertex sample_venue (add_vertex sample_level
    (Worker.new i 2 (Bus.new i n true))).
(** One run of the network threads on the queue pair to worker 0. *)
Definition sample_env : StepEnv := mkEnv [3; 1] [1; 3] [(0%nat, [9; 9])] (λ _ _, 0).

Lemma sample_worker_wf n i :
  0 < n < 2 ^ 32 → 0 ≤ i < n → worker_wf (PMap.new n) (sample_worker n i).
Proof.
  intros Hn Hi. unfold sample_worker. repeat apply add_vertex_wf.
  - by apply (new_worker_wf (PMap.new n)); [apply PMap.pmap_new_wf|..].
  - split_and!; cbn; try done; by repeat constructor.
  - split_and!; cbn; try done; by repeat constructor.
Qed.

Lemma sample_env_wf n i : env_wf sample_env (sample_worker n i).
Proof.
  assert (elements (dom (vertices_ (sample_worker n i))) = [3; 1]) as Hdom by reflexivity.
  split; rewrite Hdom; [done|apply perm_swap].
Qed.

(** The result of the superstep at the sample. *)
Definition sample_next (n i : Z) : WorkerNode (OBData Z) :=
  match run_superstep (PMap.new n) sample_env 0 (sample_worker n i) with
  | Some (w, _) => w | None => sample_worker n i end.

Lemma sample_runs n i : (n = 1 ∧ i = 0) ∨ (n = 2 ∧ i = 1) →
  run_superstep (PMap.new n) sample_env 0 (sample_worker n i) = Some (sample_next n i, 2).
Proof. intros [[-> ->]|[-> ->]]; vm_compute; reflexivity. Qed.

Lemma superstep_spec_witness :
  ∃ w', run_superstep (PMap.new 2) sample_env 0 (sample_worker 2 1) = Some (w', 2) ∧
        worker_wf (PMap.new 2) w'.
Proof.
  destruct (superstep_spec (PMap.new 2) sample_env 0 (sample_worker 2 1)) as [Hdef _];
    [by apply sample_worker_wf|apply sample_env_wf|done|].
  destruct Hdef as (w' & Hrun & Hwf & _).
  { eapply run_superstep_defined; [by apply sample_worker_wf|apply sample_env_wf|].
    apply (sample_runs 2 1). auto. }
  exists w'. split; [|exact Hwf]. pose proof (sample_runs 2 1 ltac:(auto)) as Hs.
  rewrite Hrun in Hs. apply Some_inj, pair_equal_spec in Hs as [_ Hn].
  rewrite Hn in Hrun. exact Hrun.
Defined.

Lemma superstep_schedule_independent_witness :
  run_supersteps (PMap.new 2) [(mkEnv [3; 1] [3; 1] [] (λ _ _, 0), 0)] (sample_worker 2 1) =
  run_supersteps (PMap.new 2) [(mkEnv [3; 1] [1; 3] [] (λ _ _, 0), 0)] (sample_worker 2 1).
Proof.
  apply superstep_schedule_independent. constructor; [|constructor].
  split_and!; try done; [|apply perm_swap].
  constructor; [|apply NoDup_singleton]. by intros ?%list_elem_of_singleton.
Defined.

Lemma superstep_active_witness :
  2 = Z.of_nat (size (filter (λ p, halted_ p.2.1 = false) (vertices_ (sample_next 2 1)))).
Proof.
  refine (proj1 (superstep_active (PMap.new 2) sample_env 0 (sample_worker 2 1) _ 2 _ _ _ _ _));
    [by apply sample_worker_wf|apply sample_env_wf|done|done|].
  apply sample_runs. auto.
Defined.

Lemma local_messages_arrive_witness :
  ∃ late, received sample_env (sample_next 2 1) 3 =
    for_vertex 3 (sent sample_env 0 (sample_worker 2 1)) ++ for_vertex 3 late ∧
    length (for_vertex 3 (sent sample_env 0 (sample_worker 2 1))) = 1%nat.
Proof.
  destruct (local_messages_arrive (PMap.new 2) sample_env 0 (sample_worker 2 1)
    (sample_next 2 1) 2 sample_env 3) as (late & Hlate & _);
    [by apply sample_worker_wf|apply sample_env_wf|done|apply sample_runs; auto
    |by eexists|done|].
  exists late. split; [exact Hlate|reflexivity].
Defined.

Lemma foreign_mail_never_arrives_witness :
  worker_all (λ m, is_Some (vertices_ (sample_worker 2 1) !! msg_src m)) (sample_next 2 1).
Proof.
  refine (foreign_mail_never_arrives (PMap.new 2) [(sample_env, 0)] _ _ _ _ _ _).
  - by apply sample_worker_wf.
  - constructor; [|constructor]. split; [apply sample_env_wf|done].
  - split; [done|]. apply Bus.bus_new_all.
  - unfold run_supersteps. cbn [foldM]. rewrite (sample_runs 2 1) by auto. reflexivity.
Defined.

Lemma superstep_counters_witness :
  messages_sent (stats_ (sample_next 2 1)) = 3 ∧
  vertices_processed (stats_ (sample_next 2 1)) = 2.
Proof.
  assert (stats_ (sample_next 2 1) = mkStats 2 3 0 0 1 0 0 0) as ->; [|done].
  refine (superstep_counters (PMap.new 2) sample_env 0 (sample_worker 2 1) _ 2 _ _ _ _);
    [by apply sample_worker_wf|apply sample_env_wf|done|apply sample_runs; auto].
Defined.

Lemma absorb_partition_spec_witness :
  let '(pm, w) := absorb_partition [sample_level] (PMap.new 2) (Worker.new 0 2 (Bus.new 0 2 true)) in
  vertices_ w !! 1 = Some (set_owner 0 sample_level.1, sample_level.2) ∧
  PMap.owner_of 1 pm = Some 0.
Proof.
  pose proof (absorb_partition_spec [sample_level] (PMap.new 2)
    (Worker.new 0 2 (Bus.new 0 2 true))) as Habs.
  destruct (absorb_partition _ _ _) as [pm w].
  destruct Habs as (_ & Hin & _).
  - by apply (new_worker_wf (PMap.new 2)); [apply PMap.pmap_new_wf|..].
  - apply NoDup_singleton.
  - constructor; [|constructor]. split_and!; cbn; try done; by repeat constructor.
  - apply (Hin sample_level). apply list_elem_of_here.
Defined.

End Superstep.
