(* ===== verification/Tasks.v ===== *)
(** The tasks of a superstep in parallel: the [fn] that [WorkerNode::run_superstep]
    ([src/worker_node.cpp]) gives to each task, run by many threads at once.

    [Worker.run_task] is one such task run without interruption.  Here a task is
    its three accesses of shared state: under [inbox_mu_] it moves its mailbox
    out, it computes its own vertex, it increments the counter.  [step] is the
    relation of all interleavings.  The theorem is that every interleaving ends
    where the uninterrupted tasks end, and that none can get stuck. *)
From S2P Require Import Prelude Types Vertex PartitionMap RdmaTransport MessageBus NumaScheduler WorkerNode VenueVertex PriceLevelVertex OrderBook Superstep.
Local Open Scope Z_scope.

Module Tasks.
Import Worker.
Section Tasks.
Context {D : Type} `{HI : VertexImpl D}.
Implicit Types (w : WorkerNode D).

(** How far a task is. *)
Inductive Phase :=
  | Waiting                              (* in a queue of the scheduler *)
  | Fetched (local_inbox : list Message)
  | Computed
  | Finished.

#[global] Instance Phase_eq_dec : EqDecision Phase.
Proof. solve_decision. Defined.

(** The worker, and the tasks of the superstep. *)
Record State := mkState { worker : WorkerNode D; phases : gmap Z Phase }.

Definition start (ts : list VertexId) (w : WorkerNode D) : State :=
  mkState w (list_to_map ((λ vid, (vid, Waiting)) <$> ts)).

(** The critical section under [inbox_mu_]. *)
Definition fetch (vid : VertexId) (w : WorkerNode D) : WorkerNode D * list Message :=
  (set_inbox (delete vid (vertex_inbox_ w)) w, default [] (vertex_inbox_ w !! vid)).

(** [raw->compute(local_inbox, step)] *)
Definition compute_vertex (step : Superstep) (vid : VertexId) (local_inbox : list Message)
    (w : WorkerNode D) : option (WorkerNode D) :=
  '(v, d) ← vertices_ w !! vid;
  vd ← compute v d local_inbox step;
  Some (set_vertices (<[vid := vd]> (vertices_ w)) w).

(** [stats_.vertices_processed.fetch_add(1)] *)
Definition count_processed (w : WorkerNode D) : WorkerNode D :=
  set_stats (add_processed 1 (stats_ w)) w.

(** One access of one task. *)
Definition advance (step : Superstep) (vid : VertexId) (st : State) : option State :=
  ph ← phases st !! vid;
  match ph with
  | Waiting =>
      let '(w, local_inbox) := fetch vid (worker st) in
      Some (mkState w (<[vid := Fetched local_inbox]> (phases st)))
  | Fetched local_inbox =>
      w ← compute_vertex step vid local_inbox (worker st);
      Some (mkState w (<[vid := Computed]> (phases st)))
  | Computed =>
      Some (mkState (count_processed (worker st)) (<[vid := Finished]> (phases st)))
  | Finished => None
  end.

(** An interleaving: whose access comes next. *)
Definition interleave (step : Superstep) (schedule : list VertexId) (st : State)
    : option State :=
  foldM (λ st vid, advance step vid st) st schedule.

Definition all_finished (st : State) : Prop := map_Forall (λ _ ph, ph = Finished) (phases st).

(** ** The invariant *)

Definition finished (m : gmap Z Phase) : nat := size (filter (λ p, p.2 = Finished) m).

(** The vertex and the mailbox of a task, by its phase. *)
Definition task_inv (step : Superstep) (w w' : WorkerNode D) (vid : VertexId)
    (ph : option Phase) : Prop :=
  match ph with
  | None | Some Waiting =>
      vertices_ w' !! vid = vertices_ w !! vid ∧
      vertex_inbox_ w' !! vid = vertex_inbox_ w !! vid
  | Some (Fetched ms) =>
      ms = mail (vertex_inbox_ w) vid ∧ vertices_ w' !! vid = vertices_ w !! vid ∧
      vertex_inbox_ w' !! vid = None
  | Some Computed | Some Finished =>
      vertex_inbox_ w' !! vid = None ∧
      ∃ vd vd', vertices_ w !! vid = Some vd ∧ vertices_ w' !! vid = Some vd' ∧
        compute vd.1 vd.2 (mail (vertex_inbox_ w) vid) step = Some vd'
  end.

Definition inv (step : Superstep) (ts : list VertexId) (w : WorkerNode D) (st : State) : Prop :=
  id_ (worker st) = id_ w ∧ numa_nodes_ (worker st) = numa_nodes_ w ∧
  bus_ (worker st) = bus_ w ∧
  stats_ (worker st) = add_processed (Z.of_nat (finished (phases st))) (stats_ w) ∧
  (∀ vid, is_Some (phases st !! vid) ↔ vid ∈ ts) ∧
  ∀ vid, task_inv step w (worker st) vid (phases st !! vid).

Lemma start_phases ts vid :
  (list_to_map ((λ vid, (vid, Waiting)) <$> ts) : gmap Z Phase) !! vid =
    if decide (vid ∈ ts) then Some Waiting else None.
Proof.
  induction ts as [|x ts IH]; [done|]. cbn [fmap list_fmap list_to_map foldr fst snd uncurry].
  cbn. rewrite lookup_insert, IH. repeat case_decide; try done; exfalso; set_solver.
Qed.

Lemma start_inv step ts w : stats_wf (stats_ w) → inv step ts w (start ts w).
Proof.
  intros Hst. unfold inv, start. cbn [worker phases]. split_and!; try done.
  - assert (finished (list_to_map ((λ vid, (vid, Waiting)) <$> ts)) = O) as ->;
      [|by rewrite add_processed_0].
    apply map_size_empty_iff, map_empty. intros vid.
    apply map_lookup_filter_None. right. intros ph. rewrite start_phases.
    case_decide; [by intros [= <-]|done].
  - intros vid. rewrite start_phases. case_decide; [by split|]. by split; [intros []|].
  - intros vid. rewrite start_phases. by case_decide.
Qed.

Lemma finished_other m vid ph :
  m !! vid ≠ Some Finished → ph ≠ Finished → finished (<[vid := ph]> m) = finished m.
Proof.
  intros Hm Hp. unfold finished. rewrite map_filter_insert_False by done.
  f_equal. apply map_eq. intros i. apply option_eq. intros x.
  rewrite !map_lookup_filter_Some, lookup_delete_Some. cbn. split; [tauto|].
  intros [Hi ->]. split_and!; try done. by intros <-.
Qed.

Lemma finished_one m vid :
  m !! vid ≠ Some Finished → finished (<[vid := Finished]> m) = S (finished m).
Proof.
  intros Hm. unfold finished. rewrite map_filter_insert_True by done.
  apply map_size_insert_None, map_lookup_filter_None. right. cbn. intros x Hx ->. done.
Qed.

Lemma task_inv_frame step w w1 w2 vid ph :
  vertices_ w2 !! vid = vertices_ w1 !! vid → vertex_inbox_ w2 !! vid = vertex_inbox_ w1 !! vid →
  task_inv step w w1 vid ph → task_inv step w w2 vid ph.
Proof. unfold task_inv. intros -> ->. done. Qed.

(** An access keeps the invariant. *)
Lemma task_advance_inv step ts w vid st st' :
  inv step ts w st → advance step vid st = Some st' → inv step ts w st'.
Proof.
  intros (Hid & Hn & Hb & Hs & Hdom & Ht). unfold advance. intros H.
  apply bind_Some in H as (ph & Hph & H).
  assert (∀ ph', ∀ i, is_Some (<[vid := ph']> (phases st) !! i) ↔ i ∈ ts) as Hdom'.
  { intros ph' i. rewrite lookup_insert. case_decide as Hi; [|apply Hdom].
    subst i. rewrite <- Hdom, Hph. by split; eexists. }
  pose proof (Ht vid) as Hvid. rewrite Hph in Hvid.
  assert (∀ w1 ph', task_inv step w w1 vid (Some ph') →
    (∀ i, i ≠ vid → vertices_ w1 !! i = vertices_ (worker st) !! i ∧
                    vertex_inbox_ w1 !! i = vertex_inbox_ (worker st) !! i) →
    ∀ i, task_inv step w w1 i (<[vid := ph']> (phases st) !! i)) as Hframe.
  { intros w1 ph' Hv Hi i. rewrite lookup_insert. case_decide as E; [by subst i|].
    destruct (Hi i) as [? ?]; [done|]. by eapply task_inv_frame. }
  destruct ph as [|ms| |]; cbn [task_inv] in Hvid; [| | |done].
  - injection H as <-. destruct Hvid as [Hv Hm].
    split_and!; cbn [worker phases fetch set_inbox id_ numa_nodes_ bus_ stats_]; try done.
    + rewrite finished_other; [done|by rewrite Hph|done].
    + apply Hframe; cbn.
      * split_and!; [by rewrite Hm|done|by rewrite lookup_delete_eq].
      * intros i Hi. by rewrite lookup_delete_ne.
  - apply bind_Some in H as (w1 & Hw1 & [= <-]). destruct Hvid as (-> & Hv & Hm).
    unfold compute_vertex in Hw1. apply bind_Some in Hw1 as ([v d] & Hvd & Hw1).
    apply bind_Some in Hw1 as (vd & Hc & [= <-]).
    split_and!; cbn [worker phases set_vertices id_ numa_nodes_ bus_ stats_]; try done.
    + rewrite finished_other; [done|by rewrite Hph|done].
    + apply Hframe; cbn.
      * split; [done|]. exists (v, d), vd. rewrite <- Hv, lookup_insert_eq. by split_and!.
      * intros i Hi. by rewrite lookup_insert_ne.
  - injection H as <-. split_and!; cbn [worker phases count_processed set_stats]; try done.
    + cbn. rewrite Hs, finished_one by (by rewrite Hph). rewrite add_processed_add. f_equal. lia.
    + by apply Hframe.
Qed.

Lemma interleave_inv step ts w schedule st st' :
  inv step ts w st → interleave step schedule st = Some st' → inv step ts w st'.
Proof.
  intros Hi. apply foldM_inv; [|done]. intros s vid s' _ Hs Ha. by eapply task_advance_inv.
Qed.

(** *** The end *)

Lemma finished_all m : map_Forall (λ _ ph, ph = Finished) m → finished m = size m.
Proof.
  intros Hm. unfold finished. f_equal. apply map_filter_id. intros i x Hx. by apply (Hm i).
Qed.

Lemma size_phases (m : gmap Z Phase) ts :
  NoDup ts → (∀ vid, is_Some (m !! vid) ↔ vid ∈ ts) → size m = length ts.
Proof.
  intros Hnd Hm. rewrite <- size_dom.
  assert (dom m = list_to_set ts) as ->.
  { apply set_eq. intros vid. by rewrite elem_of_dom, Hm, elem_of_list_to_set. }
  by apply size_list_to_set.
Qed.

(** When all tasks have finished, the worker is the one that running them without
    interruption leaves. *)
Lemma finished_worker step ts w st :
  NoDup ts → stats_wf (stats_ w) → inv step ts w st → all_finished st →
  foldM (run_task step) w ts = Some (worker st).
Proof.
  intros Hnd Hst (Hid & Hn & Hb & Hs & Hdom & Ht) Hfin.
  assert (∀ vid, vid ∈ ts → phases st !! vid = Some Finished) as Hph.
  { intros vid [ph Hph]%Hdom. rewrite Hph. f_equal. by apply (Hfin vid). }
  destruct (run_tasks_total step ts w Hnd) as [w' Hw'].
  { intros vid Hvid. specialize (Ht vid). rewrite Hph in Ht by done.
    destruct Ht as (_ & vd & vd' & Hvd & _ & Hc). exists vd. split; [done|by eexists]. }
  rewrite Hw'. f_equal.
  destruct (run_tasks_spec step ts w w' Hnd Hst Hw') as (Hid' & Hn' & Hb' & Hs' & Hv').
  assert (stats_ w' = stats_ (worker st)) as Hstats.
  { rewrite Hs', Hs, finished_all by done. by rewrite (size_phases _ ts). }
  assert (∀ vid, vertices_ w' !! vid = vertices_ (worker st) !! vid ∧
    vertex_inbox_ w' !! vid = vertex_inbox_ (worker st) !! vid) as Hall.
  { intros vid. specialize (Hv' vid). specialize (Ht vid). case_decide as Hin.
    - rewrite Hph in Ht by done. destruct Ht as (Hm & vd & vd' & Hvd & Hvd' & Hc).
      destruct Hv' as (vd0 & Hvd0 & Hm0 & _ & Hc0). rewrite Hvd in Hvd0. injection Hvd0 as <-.
      rewrite Hc0, Hc, Hvd', Hm, Hm0. done.
    - assert (phases st !! vid = None) as Hnone.
      { apply eq_None_not_Some. by rewrite Hdom. }
      rewrite Hnone in Ht. destruct Ht as [-> ->]. done. }
  destruct w' as [i1 n1 b1 v1 m1 s1], (worker st) as [i2 n2 b2 v2 m2 s2]. cbn in *.
  f_equal; try congruence; apply map_eq; intros vid; apply Hall.
Qed.

(** *** Progress *)

(** The computations of the tasks are defined. *)
Definition defined (step : Superstep) (ts : list VertexId) (w : WorkerNode D) : Prop :=
  ∀ vid, vid ∈ ts → ∃ vd, vertices_ w !! vid = Some vd ∧
    is_Some (compute vd.1 vd.2 (mail (vertex_inbox_ w) vid) step).

(** The accesses a task has left. *)
Definition turns (ph : option Phase) : nat :=
  match ph with
  | Some Waiting => 3 | Some (Fetched _) => 2 | Some Computed => 1 | Some Finished | None => 0
  end.

(** A task with an access left can make it. *)
Lemma task_advance_total step ts w vid st :
  inv step ts w st → defined step ts w → turns (phases st !! vid) ≠ O →
  ∃ st', advance step vid st = Some st' ∧
    ∀ i, turns (phases st' !! i) =
      if decide (i = vid) then pred (turns (phases st !! i)) else turns (phases st !! i).
Proof.
  intros (_ & _ & _ & _ & Hdom & Ht) Hdef Hturn. unfold advance.
  destruct (phases st !! vid) as [ph|] eqn:Hph; [|done]. cbn [mbind option_bind].
  assert (∀ ph' i, pred (turns (Some ph)) = turns (Some ph') →
    turns (<[vid := ph']> (phases st) !! i) =
      if decide (i = vid) then pred (turns (phases st !! i)) else turns (phases st !! i)) as Hnext.
  { intros ph' i Hp. rewrite lookup_insert. destruct (decide (vid = i)) as [<-|Hne].
    - by rewrite decide_True, Hph.
    - by rewrite decide_False. }
  assert (vid ∈ ts) as Hin by (apply Hdom; by eexists).
  specialize (Ht vid). rewrite Hph in Ht. destruct ph as [|ms| |]; [| | |done].
  - eexists. split; [done|]. intros i. by apply Hnext.
  - destruct Ht as (-> & Hv & _). destruct (Hdef vid Hin) as ([v d] & Hvd & [vd' Hc]).
    unfold compute_vertex. rewrite Hv, Hvd. cbn [mbind option_bind]. cbn [fst snd] in Hc.
    rewrite Hc. cbn [mbind option_bind].
    eexists. split; [done|]. intros i. by apply Hnext.
  - eexists. split; [done|]. intros i. by apply Hnext.
Qed.

(** The accesses of a task in a schedule. *)
Definition accesses (vid : VertexId) (schedule : list VertexId) : nat :=
  count (λ i, bool_decide (i = vid)) schedule.

Lemma accesses_NoDup ts vid :
  NoDup ts → accesses vid ts = if decide (vid ∈ ts) then 1%nat else O.
Proof.
  unfold accesses. induction 1 as [|x ts Hx _ IH]; [done|]. rewrite count_cons, IH.
  destruct (decide (x = vid)) as [->|Hne].
  - rewrite bool_decide_true by done. rewrite decide_False by done.
    rewrite decide_True by apply list_elem_of_here. done.
  - rewrite bool_decide_false by done. cbn. apply decide_ext.
    rewrite elem_of_cons. split; [by right|]. by intros [<-|?].
Qed.

(** A schedule that gives every task its remaining turns ends with all tasks
    finished. *)
Lemma interleave_total step ts w schedule st :
  inv step ts w st → defined step ts w →
  (∀ vid, accesses vid schedule = turns (phases st !! vid)) →
  ∃ st', interleave step schedule st = Some st' ∧ all_finished st'.
Proof.
  revert st. induction schedule as [|x schedule IH]; intros st Hinv Hdef Hturns.
  { exists st. split; [done|]. intros vid ph Hph. specialize (Hturns vid). rewrite Hph in Hturns.
    by destruct ph. }
  assert (∀ vid, accesses vid (x :: schedule) =
    if decide (vid = x) then S (accesses vid schedule) else accesses vid schedule) as Hcons.
  { intros vid. unfold accesses. rewrite count_cons. case_decide as Hx.
    - by rewrite bool_decide_true.
    - rewrite bool_decide_false; [done|]. by intros ->. }
  destruct (task_advance_total step ts w x st Hinv Hdef) as (st1 & Hst1 & Hnext).
  { rewrite <- Hturns, Hcons, decide_True by done. done. }
  cbn [interleave foldM]. unfold interleave in *. cbn [foldM]. rewrite Hst1.
  apply IH; [by eapply task_advance_inv|done|]. intros vid. rewrite Hnext, <- Hturns, Hcons.
  by case_decide.
Qed.

(** ** Properties *)

(** C10: the tasks of a superstep run in parallel as they run one after the other.
    Let the computation of every task's vertex be defined.  However the accesses
    of the tasks interleave, once all tasks have finished the worker is the one
    that the tasks leave when they run without interruption, in any order; and
    every schedule that gives each task its three accesses is possible and ends
    with all of them finished. *)
Theorem tasks_parallel step ts w :
  NoDup ts → stats_wf (stats_ w) → defined step ts w →
  (∀ schedule st ts', interleave step schedule (start ts w) = Some st → all_finished st →
     ts' ≡ₚ ts → foldM (run_task step) w ts' = Some (worker st)) ∧
  (∀ schedule, schedule ≡ₚ ts ++ ts ++ ts →
     ∃ st, interleave step schedule (start ts w) = Some st ∧ all_finished st).
Proof.
  intros Hnd Hst Hdef. pose proof (start_inv step ts w Hst) as Hstart. split.
  - intros schedule st ts' Hrun Hfin Hts.
    apply finished_worker; [by rewrite Hts|done| |done].
    destruct (interleave_inv _ _ _ _ _ _ Hstart Hrun) as (?&?&?&?&Hdom&?).
    split_and!; try done. intros vid. by rewrite Hdom, Hts.
  - intros schedule Hsched. apply (interleave_total step ts w); [done|done|].
    intros vid. unfold accesses. rewrite Hsched, !count_app. fold (accesses vid ts).
    rewrite (accesses_NoDup ts vid Hnd). cbn [start phases]. rewrite start_phases.
    by case_decide.
Qed.

End Tasks.
(** ** The theorem at a concrete worker *)

#[local] Existing Instance Venue.lcg.

#[local] Abbreviation sample := (Superstep.sample_worker 2 1).

Lemma sample_defined : defined 0 [1; 3] sample.
Proof.
  intros vid Hin. apply elem_of_cons in Hin as [->|Hin].
  - exists Superstep.sample_level. split; [vm_compute; reflexivity|].
    vm_compute. by eexists.
  - apply list_elem_of_singleton in Hin as ->.
    exists Superstep.sample_venue. split; [vm_compute; reflexivity|].
    vm_compute. by eexists.
Qed.

Lemma sample_nodup : NoDup [1; 3].
Proof. by apply (bool_decide_unpack _). Qed.

Lemma tasks_parallel_witness :
  ∃ st, interleave 0 [1; 3; 3; 1; 3; 1] (start [1; 3] sample) = Some st ∧
    foldM (run_task 0) sample [3; 1] = Some (worker st).
Proof.
  destruct (tasks_parallel 0 [1; 3] sample sample_nodup stats_zero_wf sample_defined)
    as [Hlin Htotal].
  assert ([1; 3; 3; 1; 3; 1] ≡ₚ [1; 3] ++ [1; 3] ++ [1; 3]) as Hperm
    by (by apply (bool_decide_unpack _)).
  destruct (Htotal _ Hperm) as (st & Hst & Hfin).
  exists st. split; [exact Hst|]. apply (Hlin _ _ _ Hst Hfin). apply perm_swap.
Defined.

End Tasks.
