(* ===== verification/ParallelStep.v ===== *)
(** The supersteps of the workers on the threads of the scheduler: how
    [WorkerNode::run_superstep] ([src/worker_node.cpp]) and [NumaScheduler]
    ([src/numa_scheduler.cpp]) work together.

    [Worker.compute_phase] runs the tasks of a superstep one after the other, and
    is what the other theorems about the engine are about.  Here the worker's main
    thread submits its tasks to the scheduler of [Pool], the worker threads take
    them and run them one access of [Tasks] at a time, and the main thread goes
    on when the condition of [wait_all] holds.  [step] is the relation of all
    interleavings up to the return of [wait_all], for any number of workers on one
    scheduler; the vertices, which name the tasks, are distinct among the workers, as
    the partition makes them.  The theorems are that [compute_phase] is what a lone
    worker's superstep computes, that its supersteps end, and what goes wrong with two
    workers.  With several workers a main thread goes on while its tasks may still
    run: [ParallelCollect] adds what it does then. *)
From S2P Require Import Prelude Types Vertex PartitionMap RdmaTransport MessageBus NumaScheduler WorkerNode VenueVertex PriceLevelVertex OrderBook Superstep Tasks.
Local Open Scope Z_scope.

Module Parallel.
Import Worker Superstep.
Section Parallel.
Context {D : Type} `{HI : VertexImpl D, HL : !VertexLaws D}.
Implicit Types (w : WorkerNode D) (p : Pool.State).

(** Where the main thread of a worker is. *)
Inductive Main :=
  | Submitting (todo : list Sched.Task)                     (* in [submit_bulk]; in [wait_all] once all are submitted *)
  | Counting (t : Sched.Task) (todo : list Sched.Task)      (* inside [submit], [t] pushed and not counted *)
  | Returned.                                               (* [wait_all] has returned; [ParallelCollect] goes on *)

(** A worker in its superstep: its vertices and tasks, and its main thread. *)
Record Client := mkClient { tasks : Tasks.State (D := D); main : Main }.

(** A worker that is about to submit the tasks it has selected. *)
Definition enter (ts : list Sched.Task) (w : WorkerNode D) : Client :=
  mkClient (Tasks.start (task_ids ts) w) (Submitting ts).

Record System := mkSystem { pool : Pool.State; clients : list Client }.

(** The [fn] of the task of vertex [vid] has returned. *)
Definition task_over (vid : VertexId) (c : Client) : Prop :=
  Tasks.phases (tasks c) !! vid = None ∨ Tasks.phases (tasks c) !! vid = Some Tasks.Finished.

Definition fn_returned (cs : list Client) (vid : VertexId) : Prop := Forall (task_over vid) cs.

(** A thread goes on to measure and unload its task only when [fn] has returned. *)
Definition fns_returned (cs : list Client) (p : Pool.State) : Prop :=
  Forall (λ b, Pool.b_stage b ≠ Pool.Taken → fn_returned cs (Sched.task_id (Pool.b_task b)))
    (Pool.busy p).

(** [submit]: the push, and the count after it. *)
Definition push (t : Sched.Task) (p : Pool.State) : option Pool.State :=
  sc ← Sched.submit_push t (Pool.sched p);
  Some (Pool.mkState sc (Pool.counting p ++ [t]) (Pool.busy p) (Pool.completed p)
          (Pool.pushed p ++ [t])).

Definition counted (l : list Sched.Task) (p : Pool.State) : Pool.State :=
  Pool.mkState (Sched.submit_count (Pool.sched p)) l (Pool.busy p) (Pool.completed p)
    (Pool.pushed p).

(** One access of one thread. *)
Inductive step (n : Superstep) (s : System) : System → Prop :=
  | step_push i c t todo p :
      clients s !! i = Some c → main c = Submitting (t :: todo) → push t (pool s) = Some p →
      step n s (mkSystem p (<[i := mkClient (tasks c) (Counting t todo)]> (clients s)))
  | step_count i c t todo l1 l2 :
      clients s !! i = Some c → main c = Counting t todo →
      Pool.counting (pool s) = l1 ++ t :: l2 →
      step n s (mkSystem (counted (l1 ++ l2) (pool s))
                  (<[i := mkClient (tasks c) (Submitting todo)]> (clients s)))
  | step_return i c :
      clients s !! i = Some c → main c = Submitting [] →
      Sched.wait_all_done (Pool.sched (pool s)) = true →
      step n s (mkSystem (pool s) (<[i := mkClient (tasks c) Returned]> (clients s)))
  | step_thread p :
      Pool.work_step (pool s) p → fns_returned (clients s) p →
      step n s (mkSystem p (clients s))
  | step_fn i c b ts :
      clients s !! i = Some c → b ∈ Pool.busy (pool s) → Pool.b_stage b = Pool.Taken →
      Tasks.advance n (Sched.task_id (Pool.b_task b)) (tasks c) = Some ts →
      step n s (mkSystem (pool s) (<[i := mkClient ts (main c)]> (clients s))).

Inductive steps (n : Superstep) : nat → System → System → Prop :=
  | steps_0 s : steps n 0 s s
  | steps_S m s s' s'' : steps n m s s' → step n s' s'' → steps n (S m) s s''.

(** No task is queued, run or being submitted. *)
Definition quiet (p : Pool.State) : Prop :=
  Pool.counting p = [] ∧ Pool.busy p = [] ∧ Pool.queued (Pool.sched p) = [].

Definition all_returned (s : System) : Prop := Forall (λ c, main c = Returned) (clients s).


(** ** Lemmas on the accesses of a task *)

Lemma advance_phases n vid (ts ts' : Tasks.State) :
  Tasks.advance n vid ts = Some ts' →
  ∃ ph ph', Tasks.phases ts !! vid = Some ph ∧
    Tasks.phases ts' = <[vid := ph']> (Tasks.phases ts) ∧
    Tasks.turns (Some ph) = S (Tasks.turns (Some ph')).
Proof.
  unfold Tasks.advance. intros (ph & Hph & H)%bind_Some. destruct ph as [|ms| |]; [| | |done].
  - injection H as <-. by eexists _, _.
  - apply bind_Some in H as (w & _ & [= <-]). by eexists _, _.
  - injection H as <-. by eexists _, _.
Qed.

Lemma advance_over n vid c ts main' x :
  Tasks.advance n vid (tasks c) = Some ts → task_over x c → task_over x (mkClient ts main').
Proof.
  unfold task_over. cbn [tasks].
  intros (ph & ph' & Hph & -> & Ht)%advance_phases Hx. rewrite lookup_insert.
  case_decide as E; [subst x|done]. rewrite Hph in Hx. destruct Hx as [?|[= ->]]; done.
Qed.

(** An update of one client by which no task that is over starts again. *)
Lemma fns_returned_update cs i c c' p :
  cs !! i = Some c → (∀ vid, task_over vid c → task_over vid c') →
  fns_returned cs p → fns_returned (<[i := c']> cs) p.
Proof.
  intros Hc Hover Hp. eapply Forall_impl; [exact Hp|]. intros b Hb Hs.
  specialize (Hb Hs). apply Forall_insert; [done|]. apply Hover.
  by apply (Forall_lookup_1 _ _ _ _ Hb Hc).
Qed.

(** What a thread does to the lists of the pool. *)
Lemma work_step_lists p p' :
  Pool.work_step p p' →
  Pool.counting p' = Pool.counting p ∧ Pool.pushed p' = Pool.pushed p ∧
  (Pool.completed p' = Pool.completed p ∨
   ∃ b, b ∈ Pool.busy p ∧ Pool.b_stage b ≠ Pool.Taken ∧
     Pool.completed p' = Pool.completed p ++ [Pool.b_task b]).
Proof.
  intros [? ? ? ? ?|? ? ? ? ? ?|? ? ? ? ? ? ?|l1 m t l2 H]; split_and!; try done; [by left..|].
  right. exists (Pool.mkBusy m t Pool.Unloaded). rewrite H. split_and!; try done. set_solver.
Qed.

(** Only the thread whose task is not over has to wait. *)
Lemma work_step_ready cs p p' :
  fns_returned cs p → Pool.work_step p p' →
  fns_returned cs p' ∨
  ∃ b, b ∈ Pool.busy p ∧ Pool.b_stage b = Pool.Taken ∧
    ¬ fn_returned cs (Sched.task_id (Pool.b_task b)).
Proof.
  unfold fns_returned.
  intros Hp [m sc t _ H|l1 m t l2 a H|l1 m t l2 sc H Hf|l1 m t l2 H]; cbn [Pool.busy];
    try rewrite H in Hp; rewrite ?Forall_app, ?Forall_cons in *; cbn [Pool.b_stage Pool.b_task] in *.
  - left. split_and!; [done|by intros []|done].
  - destruct (decide (fn_returned cs (Sched.task_id t))) as [Hr|Hr].
    + left. by destruct Hp as (? & ? & ?); split_and!.
    + right. exists (Pool.mkBusy m t Pool.Taken). rewrite H. split_and!; try done. set_solver.
  - left. destruct Hp as (? & Ht & ?). split_and!; try done. intros _. by apply Ht.
  - left. destruct Hp as (? & _ & ?). by split.
Qed.


(** ** The invariant *)

Definition pending (m : Main) : list Sched.Task :=
  match m with Submitting todo | Counting _ todo => todo | Returned => [] end.

Definition uncounted (m : Main) : list Sched.Task :=
  match m with Counting t _ => [t] | _ => [] end.

(** The workers that enter a superstep on the pool [p]. *)
Definition entered (p : Pool.State) (starts : list (list Sched.Task * WorkerNode D)) : System :=
  mkSystem p ((λ tw, enter tw.1 tw.2) <$> starts).

(** A worker that has entered with the tasks [tw.1], by the tasks [new] that were
    pushed since. *)
Definition client_inv (n : Superstep) (new : list Sched.Task)
    (tw : list Sched.Task * WorkerNode D) (c : Client) : Prop :=
  Tasks.inv n (task_ids tw.1) tw.2 (tasks c) ∧
  ∀ t, t ∈ tw.1 → t ∈ pending (main c) ∨ t ∈ new.

Record system_inv (nodes tpn : Z) (n : Superstep) (p0 : Pool.State)
    (starts : list (list Sched.Task * WorkerNode D)) (s : System) : Prop := {
  si_pool : Pool.inv nodes tpn (pool s);
  si_counting : Pool.counting (pool s) ≡ₚ clients s ≫= λ c, uncounted (main c);
  si_busy : fns_returned (clients s) (pool s);
  si_done : ∃ new finished,
    Pool.pushed (pool s) = Pool.pushed p0 ++ new ∧
    Pool.completed (pool s) = Pool.completed p0 ++ finished ∧
    Forall (λ t, fn_returned (clients s) (Sched.task_id t)) finished ∧
    Forall2 (client_inv n new) starts (clients s);
}.

Lemma entered_inv nodes tpn n p starts :
  Pool.inv nodes tpn p → quiet p → Forall (λ tw, stats_wf (stats_ tw.2)) starts →
  system_inv nodes tpn n p starts (entered p starts).
Proof.
  intros Hp (Hc & Hb & Hq) Hst. constructor; cbn [pool clients entered]; [done|..].
  - rewrite Hc. clear. by induction starts as [|tw starts IH].
  - unfold fns_returned. by rewrite Hb.
  - exists [], []. rewrite !app_nil_r. split_and!; try done.
    apply Forall2_fmap_r, Forall2_same_length_lookup. split; [done|].
    intros i tw tw' Hi Hi'. simplify_eq. split; [|intros t Ht; by left].
    by apply Tasks.start_inv, (Forall_lookup_1 _ _ _ _ Hst Hi).
Qed.

(** *** The steps *)

Lemma client_inv_more n new new' tw c :
  client_inv n new tw c → client_inv n (new ++ new') tw c.
Proof. intros [? Ht]. split; [done|]. intros t. specialize (Ht t). set_solver. Qed.

Lemma submit_inv p t p' nodes tpn :
  Pool.inv nodes tpn p → push t p = Some p' →
  Pool.inv nodes tpn p' ∧ Pool.busy p' = Pool.busy p ∧ Pool.completed p' = Pool.completed p ∧
  Pool.counting p' = Pool.counting p ++ [t] ∧ Pool.pushed p' = Pool.pushed p ++ [t].
Proof.
  intros Hp (sc & Hsc & [= <-])%bind_Some. split_and!; try done. by apply Pool.push_inv.
Qed.

(** One client goes on: what the other parts of the invariant need. *)
Lemma uncounted_update (cs : list Client) i c c' :
  cs !! i = Some c →
  (uncounted (main c) ++ (<[i := c']> cs ≫= λ c, uncounted (main c))) ≡ₚ
  uncounted (main c') ++ (cs ≫= λ c, uncounted (main c)).
Proof.
  intros Hi. rewrite (insert_take_drop cs i c') by (by eapply lookup_lt_Some).
  rewrite <- (take_drop_middle cs i c Hi) at 3. rewrite !bind_app, !bind_cons.
  solve_Permutation.
Qed.

Lemma over_update cs i c c' l :
  cs !! i = Some c → (∀ vid, task_over vid c → task_over vid c') →
  Forall (λ t, fn_returned cs (Sched.task_id t)) l →
  Forall (λ t, fn_returned (<[i := c']> cs) (Sched.task_id t)) l.
Proof.
  intros Hc Hover Hl. eapply Forall_impl; [exact Hl|]. intros t Ht.
  apply Forall_insert; [done|]. apply Hover. by apply (Forall_lookup_1 _ _ _ _ Ht Hc).
Qed.

(** The part of the invariant about the clients, when one of them goes on. *)
Lemma clients_update n new new' starts cs i c c' :
  Forall2 (client_inv n new) starts cs → cs !! i = Some c →
  (∀ tw, client_inv n new tw c → client_inv n (new ++ new') tw c') →
  Forall2 (client_inv n (new ++ new')) starts (<[i := c']> cs).
Proof.
  intros Hcs Hc Hnext. apply Forall2_same_length_lookup.
  pose proof Hcs as [Hlen Hall]%Forall2_same_length_lookup.
  rewrite length_insert. split; [done|]. intros j tw c1 Htw Hc1.
  apply list_lookup_insert_Some in Hc1 as [(<- & <- & _)|[Hne Hc1]].
  - apply Hnext. by apply (Hall i).
  - apply client_inv_more. by apply (Hall j).
Qed.


Lemma client_step_inv nodes tpn n p0 starts s p i c c' new' :
  system_inv nodes tpn n p0 starts s → clients s !! i = Some c →
  Pool.inv nodes tpn p → Pool.busy p = Pool.busy (pool s) →
  Pool.completed p = Pool.completed (pool s) → Pool.pushed p = Pool.pushed (pool s) ++ new' →
  uncounted (main c) ++ Pool.counting p ≡ₚ uncounted (main c') ++ Pool.counting (pool s) →
  (∀ vid, task_over vid c → task_over vid c') →
  (∀ new tw, client_inv n new tw c → client_inv n (new ++ new') tw c') →
  system_inv nodes tpn n p0 starts (mkSystem p (<[i := c']> (clients s))).
Proof.
  intros [_ Hcnt Hbusy (new & fin & Hpush & Hcomp & Hfin & Hcs)] Hc Hp Eb Ec Ep Hperm Hover Hnext.
  constructor; cbn [pool clients]; [done|..].
  - apply (Permutation_app_inv_l (uncounted (main c))).
    by rewrite Hperm, uncounted_update, <- Hcnt by done.
  - unfold fns_returned. rewrite Eb. by apply (fns_returned_update _ _ c).
  - exists (new ++ new'), fin. rewrite Ec, Ep, Hpush, app_assoc. split_and!; try done.
    + by apply (over_update _ _ c).
    + apply (clients_update _ _ _ _ _ _ c); [done..|]. apply Hnext.
Qed.

Lemma client_inv_same n new tw c c' :
  tasks c' = tasks c → (∀ t, t ∈ pending (main c) → t ∈ pending (main c')) →
  client_inv n new tw c → client_inv n (new ++ []) tw c'.
Proof.
  intros Et Hp [? Ht]. rewrite app_nil_r. split; [by rewrite Et|]. intros t Hin.
  destruct (Ht t Hin); [left; auto|by right].
Qed.

Lemma system_step_inv nodes tpn n p0 starts s s' :
  system_inv nodes tpn n p0 starts s → step n s s' → system_inv nodes tpn n p0 starts s'.
Proof.
  intros Hs [i c t todo p Hc Hm Hp|i c t todo l1 l2 Hc Hm Hl|i c Hc Hm Hd|p Hw Hf|i c b ts Hc Hb Hst Ha].
  - destruct (submit_inv _ _ _ _ _ (si_pool _ _ _ _ _ _ Hs) Hp) as (Hp' & Eb & Ec & En & Eu).
    apply (client_step_inv _ _ _ _ _ s _ _ c _ [t]); try done.
    + rewrite En, Hm. cbn. solve_Permutation.
    + intros new tw [? Ht]. split; [done|]. intros x Hx. cbn [main pending].
      specialize (Ht x Hx). rewrite Hm in Ht. cbn [pending] in Ht. set_solver.
  - pose proof (si_pool _ _ _ _ _ _ Hs) as Hp.
    apply (client_step_inv _ _ _ _ _ s _ _ c _ []); try done.
    + exact (Pool.count_inv _ _ _ t l1 l2 Hp Hl).
    + cbn. by rewrite app_nil_r.
    + rewrite Hm, Hl. cbn. solve_Permutation.
    + intros new tw. apply client_inv_same; [done|]. by rewrite Hm.
  - apply (client_step_inv _ _ _ _ _ s _ _ c _ []); try done.
    + apply Hs.
    + by rewrite app_nil_r.
    + by rewrite Hm.
    + intros new tw. apply client_inv_same; [done|]. by rewrite Hm.
  - destruct Hs as [Hp Hcnt Hbusy (new & fin & Hpush & Hcomp & Hfin & Hcs)].
    destruct (work_step_lists _ _ Hw) as (E1 & E2 & E3).
    constructor; cbn [pool clients]; [by eapply Pool.work_step_inv|by rewrite E1|done|].
    rewrite E2. destruct E3 as [->|(b & Hb & Hst & ->)]; [by exists new, fin|].
    exists new, (fin ++ [Pool.b_task b]). rewrite Hcomp, app_assoc. split_and!; try done.
    apply Forall_app. split; [done|]. apply Forall_singleton.
    unfold fns_returned in Hbusy. rewrite Forall_forall in Hbusy. by apply Hbusy.
  - apply (client_step_inv _ _ _ _ _ s _ _ c _ []); try done.
    + apply Hs.
    + by rewrite app_nil_r.
    + intros vid. by eapply advance_over.
    + intros new tw [Hi Ht]. rewrite app_nil_r. split; [by eapply Tasks.task_advance_inv|exact Ht].
Qed.

Lemma system_steps_inv nodes tpn n p0 starts m s s' :
  system_inv nodes tpn n p0 starts s → steps n m s s' → system_inv nodes tpn n p0 starts s'.
Proof. intros Hs Hm. induction Hm; [done|]. eapply system_step_inv; [by apply IHHm|done]. Qed.


(** *** When [wait_all] returns *)

(** When the pool is quiet again, the tasks of every worker that has submitted all
    of them are over, and have done what they do when they run one after the
    other. *)
Lemma quiet_finished nodes tpn n p0 starts s i ts w c ts' :
  Pool.inv nodes tpn p0 → quiet p0 → system_inv nodes tpn n p0 starts s → quiet (pool s) →
  starts !! i = Some (ts, w) → clients s !! i = Some c → pending (main c) = [] →
  NoDup (task_ids ts) → stats_wf (stats_ w) → ts' ≡ₚ task_ids ts →
  foldM (run_task n) w ts' = Some (Tasks.worker (tasks c)).
Proof.
  intros Hp0 (_ & Hb0 & Hq0) [Hp _ _ (new & fin & Hpush & Hcomp & Hfin & Hcs)] (_ & Hb & Hq)
    Hi Hc Hm Hnd Hst Hts.
  destruct (Pool.idle_done _ _ _ Hp Hb Hq) as [Hall _].
  destruct (Pool.idle_done _ _ _ Hp0 Hb0 Hq0) as [H0 _].
  assert (new ≡ₚ fin) as Hnew.
  { rewrite Hpush, Hcomp, H0 in Hall. by apply Permutation_app_inv_l in Hall. }
  apply Forall2_same_length_lookup in Hcs as [_ Hcs].
  destruct (Hcs i _ _ Hi Hc) as [Hinv Hin]. cbn [fst snd] in Hinv, Hin.
  apply Tasks.finished_worker; [by rewrite Hts|done| |].
  - destruct Hinv as (?&?&?&?&Hdom&?). split_and!; try done. intros vid. by rewrite Hdom, Hts.
  - intros vid ph Hph. destruct Hinv as (_&_&_&_&Hdom&_).
    assert (vid ∈ task_ids ts) as (t & -> & Ht)%list_elem_of_fmap by (apply Hdom; by eexists).
    destruct (Hin t Ht) as [Hp'|Hn]; [rewrite Hm in Hp'; set_solver|].
    rewrite Hnew in Hn. rewrite Forall_forall in Hfin. specialize (Hfin t Hn).
    pose proof (Forall_lookup_1 _ _ _ _ Hfin Hc) as [Hno|Hyes]; congruence.
Qed.

Lemma step_pushed n s s' :
  step n s s' → (length (Pool.pushed (pool s)) ≤ length (Pool.pushed (pool s')))%nat.
Proof.
  intros [i c t todo p _ _ Hp| | |p Hw _|]; cbn [pool counted Pool.pushed]; try lia.
  - apply bind_Some in Hp as (sc & _ & [= <-]). cbn. rewrite length_app. lia.
  - destruct (work_step_lists _ _ Hw) as (_ & -> & _). done.
Qed.

(** A quiet pool has no thread at work. *)
Lemma quiet_stuck p p' : quiet p → ¬ Pool.work_step p p'.
Proof.
  intros (_ & Hb & Hq) Hw%Pool.work_step_measure. unfold Pool.measure in Hw at 2.
  rewrite Hb, Hq in Hw. cbn in Hw. lia.
Qed.

(** Once every [wait_all] has returned, the pool is quiet: the last of them to return
    did so with every task counted. *)
Lemma returned_quiet_step nodes tpn n p0 starts s s' :
  system_inv nodes tpn n p0 starts s → step n s s' →
  Z.of_nat (length (Pool.pushed (pool s'))) < 2 ^ 64 →
  (all_returned s → quiet (pool s)) → all_returned s' → quiet (pool s').
Proof.
  intros Hs Hstep Hmax Hlast.
  assert (∀ i c c', clients s !! i = Some c → all_returned (mkSystem (pool s') (<[i := c']> (clients s))) →
    main c' = Returned) as Hone.
  { intros i c c' Hc Hret. eapply (Forall_lookup_1 _ _ i _ Hret). cbn [clients].
    apply list_lookup_insert_eq. by eapply lookup_lt_Some. }
  destruct Hstep as [i c t todo p Hc _ _|i c t todo l1 l2 Hc _ _|i c Hc Hm Hd|p Hw _|i c b r Hc Hb _ _];
    intros Hret; cbn [pool] in *.
  - by apply (Hone _ _ _ Hc) in Hret.
  - by apply (Hone _ _ _ Hc) in Hret.
  - assert (Pool.counting (pool s) = []) as Hcnt.
    { apply Permutation_nil_r. rewrite (si_counting _ _ _ _ _ _ Hs).
      rewrite (elem_of_nil_inv (clients s ≫= _)); [done|]. intros t (c1 & Ht & Hin)%list_elem_of_bind.
      apply list_elem_of_lookup in Hin as [j Hj]. destruct (decide (i = j)) as [<-|Hne].
      { rewrite Hc in Hj. injection Hj as <-. rewrite Hm in Ht. set_solver. }
      rewrite (Forall_lookup_1 _ _ j c1 Hret) in Ht; [set_solver|]. cbn [clients].
      by rewrite list_lookup_insert_ne. }
    by destruct (Pool.done_idle _ _ _ (si_pool _ _ _ _ _ _ Hs) Hmax Hcnt Hd) as (? & ? & _).
  - by destruct (quiet_stuck _ _ (Hlast Hret) Hw).
  - assert (all_returned s) as Hs0.
    { apply Forall_lookup. intros j c1 Hj. destruct (decide (i = j)) as [<-|Hne].
      { rewrite Hc in Hj. injection Hj as <-. by apply (Hone _ _ _ Hc) in Hret. }
      apply (Forall_lookup_1 _ _ j c1 Hret). cbn [clients]. by rewrite list_lookup_insert_ne. }
    destruct (Hlast Hs0) as (_ & Hb0 & _). rewrite Hb0 in Hb. set_solver.
Qed.

Lemma returned_quiet nodes tpn n p0 starts m s :
  Pool.inv nodes tpn p0 → quiet p0 → Forall (λ tw, stats_wf (stats_ tw.2)) starts →
  steps n m (entered p0 starts) s → Z.of_nat (length (Pool.pushed (pool s))) < 2 ^ 64 →
  all_returned s → quiet (pool s).
Proof.
  intros Hp0 Hq0 Hst Hm. pose proof (entered_inv nodes tpn n _ _ Hp0 Hq0 Hst) as H0.
  remember (entered p0 starts) as s0 eqn:E0.
  induction Hm as [s|m s s' s'' Hm IH Hstep]; intros Hmax; [by subst s|].
  pose proof (step_pushed _ _ _ Hstep). specialize (IH E0 H0 ltac:(lia)).
  pose proof (system_steps_inv _ _ _ _ _ _ _ _ H0 Hm) as Hs. by eapply returned_quiet_step.
Qed.

(** A set of tasks of a worker without duplicates. *)
Definition start_ok (tw : list Sched.Task * WorkerNode D) : Prop :=
  NoDup (task_ids tw.1) ∧ stats_wf (stats_ tw.2).

(** Every worker whose tasks are over is as after running them one after the other. *)
Lemma returned_finished nodes tpn n p0 starts s :
  Pool.inv nodes tpn p0 → quiet p0 → system_inv nodes tpn n p0 starts s → quiet (pool s) →
  Forall start_ok starts → all_returned s →
  Forall2 (λ tw c, ∀ l, l ≡ₚ task_ids tw.1 →
             foldM (run_task n) tw.2 l = Some (Tasks.worker (tasks c))) starts (clients s).
Proof.
  intros Hp Hq Hs Hq' Hall Hret.
  destruct (si_done _ _ _ _ _ _ Hs) as (new & _ & _ & _ & _ & Hcs).
  apply Forall2_same_length_lookup in Hcs as [Hlen _].
  apply Forall2_same_length_lookup. split; [done|]. intros i [ts w] c Hi Hc l Hl.
  destruct (Forall_lookup_1 _ _ _ _ Hall Hi) as (Hnd & Hst).
  eapply (quiet_finished nodes tpn n p0 starts s i ts w c); try done.
  by rewrite (Forall_lookup_1 _ _ _ _ Hret Hc).
Qed.

(** A lone worker whose [wait_all] has returned: its tasks are done, and the pool
    is quiet. *)
Definition lone_done (n : Superstep) (ts : list Sched.Task) (w : WorkerNode D) (s : System)
    : Prop :=
  ∀ c, clients s = [c] → main c = Returned →
    quiet (pool s) ∧
    ∀ ts', ts' ≡ₚ task_ids ts → foldM (run_task n) w ts' = Some (Tasks.worker (tasks c)).

Lemma lone_client nodes tpn n p0 tw s :
  system_inv nodes tpn n p0 [tw] s → ∃ c, clients s = [c].
Proof.
  intros [_ _ _ (? & ? & _ & _ & _ & Hcs)]. inversion Hcs as [|? c ? l _ Hl]; subst.
  inversion Hl. by exists c.
Qed.

Lemma lone_steps nodes tpn n p0 ts w m s :
  Pool.inv nodes tpn p0 → quiet p0 → NoDup (task_ids ts) → stats_wf (stats_ w) →
  steps n m (entered p0 [(ts, w)]) s → Z.of_nat (length (Pool.pushed (pool s))) < 2 ^ 64 →
  lone_done n ts w s.
Proof.
  intros Hp0 Hq0 Hnd Hst Hm Hmax c Hc Hret.
  assert (Forall (λ tw : list Sched.Task * WorkerNode D, stats_wf (stats_ tw.2)) [(ts, w)]) as Hst'
    by (by apply Forall_singleton).
  assert (all_returned s) as Hall by (unfold all_returned; rewrite Hc; by apply Forall_singleton).
  pose proof (returned_quiet _ _ _ _ _ _ _ Hp0 Hq0 Hst' Hm Hmax Hall) as Hq. split; [done|].
  pose proof (system_steps_inv _ _ _ _ _ _ _ _ (entered_inv nodes tpn n _ _ Hp0 Hq0 Hst') Hm) as Hs.
  pose proof (returned_finished _ _ _ _ _ _ Hp0 Hq0 Hs Hq
    ltac:(by apply Forall_singleton) Hall) as Hfin.
  rewrite Hc in Hfin. by apply Forall2_cons in Hfin as [Hfin _].
Qed.


(** ** Termination *)

(** The accesses that the tasks of a worker have left. *)
Definition turns_left (m : gmap Z Tasks.Phase) : nat :=
  sum_list_with (λ vp : Z * Tasks.Phase, Tasks.turns (Some vp.2)) (map_to_list m).

#[local] Instance turns_left_perm :
  Proper ((≡ₚ) ==> (=)) (sum_list_with (λ vp : Z * Tasks.Phase, Tasks.turns (Some vp.2))).
Proof. intros l l' Hl. induction Hl; cbn [sum_list_with]; lia. Qed.

Lemma turns_left_insert m vid ph :
  m !! vid = None → turns_left (<[vid := ph]> m) = (Tasks.turns (Some ph) + turns_left m)%nat.
Proof. intros Hm. unfold turns_left. by rewrite map_to_list_insert. Qed.

Lemma turns_left_update m vid ph ph' :
  m !! vid = Some ph →
  (turns_left (<[vid := ph']> m) + Tasks.turns (Some ph) =
   turns_left m + Tasks.turns (Some ph'))%nat.
Proof.
  intros Hm. rewrite <- (insert_delete_id m vid ph Hm) at 2. rewrite <- insert_delete_eq.
  rewrite !turns_left_insert by apply lookup_delete_eq. lia.
Qed.

Lemma turns_left_start l :
  (turns_left (list_to_map ((λ vid : VertexId, (vid, Tasks.Waiting)) <$> l)) ≤ 3 * length l)%nat.
Proof.
  induction l as [|vid l IH]; [cbn; unfold turns_left; rewrite map_to_list_empty; cbn; lia|].
  set (m := list_to_map ((λ vid : VertexId, (vid, Tasks.Waiting)) <$> l)) in *.
  change (turns_left (<[vid := Tasks.Waiting]> m) ≤ 3 * S (length l))%nat.
  destruct (m !! vid) as [ph|] eqn:Hm.
  - pose proof (turns_left_update m vid ph Tasks.Waiting Hm) as H.
    change (Tasks.turns (Some Tasks.Waiting)) with 3%nat in H. lia.
  - rewrite turns_left_insert by done. cbn [Tasks.turns]. lia.
Qed.

(** The accesses that the main thread of a worker has left, with the four that a
    thread makes for each task it has not pushed yet. *)
Definition main_left (m : Main) : nat :=
  match m with
  | Submitting todo => 6 * length todo + 1
  | Counting _ todo => 6 * length todo + 2
  | Returned => 0
  end.

Definition client_left (c : Client) : nat :=
  main_left (main c) + turns_left (Tasks.phases (tasks c)).

Definition accesses_left (s : System) : nat :=
  Pool.measure (pool s) + sum_list_with client_left (clients s).

Lemma push_measure t p p' :
  push t p = Some p' → Pool.measure p' = (4 + Pool.measure p)%nat.
Proof.
  intros (sc & (nd & _ & (q & Hq & [= <-])%bind_Some)%bind_Some & [= <-])%bind_Some.
  unfold Pool.measure. cbn [Pool.sched Pool.busy].
  destruct (Pool.queued_insert (Pool.sched p) nd q
    (Sched.mkQueue (Sched.tasks q ++ [t]) (u64 (Sched.active_tasks q + 1))) Hq)
    as (l1 & l2 & -> & ->).
  cbn [Sched.tasks]. rewrite !length_app. cbn [length]. lia.
Qed.

Lemma step_left n s s' : step n s s' → (accesses_left s' < accesses_left s)%nat.
Proof.
  unfold accesses_left. intros [i c t todo p Hc Hm Hp|i c t todo l1 l2 Hc Hm _|i c Hc Hm _|p Hw _|i c b r Hc _ _ Ha];
    cbn [pool clients].
  - rewrite (push_measure _ _ _ Hp).
    pose proof (sum_list_insert client_left _ _ (mkClient (tasks c) (Counting t todo)) _ Hc) as H.
    unfold client_left at 2 4 in H. rewrite Hm in H. cbn [main tasks main_left length] in H. lia.
  - change (Pool.measure (counted _ _)) with (Pool.measure (pool s)).
    pose proof (sum_list_insert client_left _ _ (mkClient (tasks c) (Submitting todo)) _ Hc) as H.
    unfold client_left at 2 4 in H. rewrite Hm in H. cbn [main tasks main_left length] in H. lia.
  - pose proof (sum_list_insert client_left _ _ (mkClient (tasks c) Returned) _ Hc) as H.
    unfold client_left at 2 4 in H. rewrite Hm in H. cbn [main tasks main_left length] in H. lia.
  - apply Pool.work_step_measure in Hw. lia.
  - pose proof (sum_list_insert client_left _ _ (mkClient r (main c)) _ Hc) as H.
    apply advance_phases in Ha as (ph & ph' & Hph & Er & Ht).
    pose proof (turns_left_update _ _ _ ph' Hph) as Hl.
    unfold client_left at 2 4 in H. cbn [main tasks] in H. rewrite Er, Ht in *. lia.
Qed.


(** *** Progress *)

Section Progress.
Context (nodes tpn : Z) (n : Superstep) (p0 : Pool.State).
Context (starts : list (list Sched.Task * WorkerNode D)).
Context (Hdef : Forall (λ tw, Tasks.defined n (task_ids tw.1) tw.2) starts).

(** While a thread of the pool can work, some access is possible: the thread's,
    or one of the [fn] that the thread waits for. *)
Lemma work_progress s p :
  system_inv nodes tpn n p0 starts s → Pool.work_step (pool s) p → ∃ s', step n s s'.
Proof.
  intros [_ _ Hbusy (new & _ & _ & _ & _ & Hcs)] Hw.
  destruct (work_step_ready _ _ _ Hbusy Hw) as [Hr|(b & Hb & Hst & Hr)].
  { eexists. by apply step_thread. }
  apply not_Forall_Exists, Exists_exists in Hr as (c & [i Hc]%list_elem_of_lookup & Hover);
    [|intros ?; apply _].
  destruct (Forall2_lookup_r _ _ _ _ _ Hcs Hc) as ([ts w] & Htw & Hinv & _).
  set (vid := Sched.task_id (Pool.b_task b)) in *.
  destruct (Tasks.task_advance_total n (task_ids ts) w vid (tasks c)) as (r & Hr & _).
  - exact Hinv.
  - exact (Forall_lookup_1 _ _ _ _ Hdef Htw).
  - cbn in Hover. unfold task_over in Hover.
    destruct (Tasks.phases (tasks c) !! vid) as [[| | |]|]; [done..| |]; destruct Hover; auto.
  - eexists. by eapply step_fn.
Qed.

Lemma push_total p t : Pool.inv nodes tpn p → is_Some (push t p).
Proof.
  intros (_ & _ & Hwf & _). unfold push, Sched.submit_push.
  destruct (Sched.node_of_lookup t _ Hwf) as (nd & q & -> & Hq). cbn [mbind option_bind].
  rewrite Hq. by eexists.
Qed.

(** A system that cannot go on has no worker in [submit].. *)
Lemma stuck_submitted s c :
  system_inv nodes tpn n p0 starts s → (∀ s', ¬ step n s s') → c ∈ clients s →
  main c = Submitting [] ∨ main c = Returned.
Proof.
  intros Hs Hstuck Hc. pose proof Hc as [i Hi]%list_elem_of_lookup.
  destruct (main c) as [[|t todo]|t todo|] eqn:Hm; [by left| | |by right]; exfalso.
  - destruct (push_total (pool s) t (si_pool _ _ _ _ _ _ Hs)) as [p Hp].
    by eapply Hstuck, step_push.
  - assert (t ∈ Pool.counting (pool s)) as (l1 & l2 & Hl)%list_elem_of_split.
    { rewrite (si_counting _ _ _ _ _ _ Hs). apply list_elem_of_bind. exists c.
      rewrite Hm. split; [by apply list_elem_of_singleton|done]. }
    by eapply Hstuck, step_count.
Qed.

(** ..and none in [wait_all]. *)
Lemma stuck_returned s :
  0 < tpn → system_inv nodes tpn n p0 starts s → (∀ s', ¬ step n s s') →
  all_returned s ∧ quiet (pool s).
Proof.
  intros Htpn Hs Hstuck.
  destruct (Pool.work_stuck _ _ _ Htpn (si_pool _ _ _ _ _ _ Hs)) as [Hb Hq].
  { intros p Hw. destruct (work_progress s p Hs Hw) as [s' ?]. by apply (Hstuck s'). }
  assert (Pool.counting (pool s) = []) as Hcnt.
  { apply elem_of_nil_inv. intros t. rewrite (si_counting _ _ _ _ _ _ Hs).
    intros (c & Ht & Hc)%list_elem_of_bind.
    destruct (stuck_submitted s c Hs Hstuck Hc) as [Hm|Hm]; rewrite Hm in Ht; set_solver. }
  destruct (Pool.idle_done _ _ _ (si_pool _ _ _ _ _ _ Hs) Hb Hq) as [_ Hdone].
  split; [|done]. apply Forall_forall. intros c Hc.
  destruct (stuck_submitted s c Hs Hstuck Hc) as [Hm|Hm]; [exfalso|done].
  apply list_elem_of_lookup in Hc as [i Hi]. eapply Hstuck, step_return; eauto.
Qed.
End Progress.


(** ** Supersteps of a lone worker *)

(** [run_superstep] of a worker that has the scheduler for itself. *)
Inductive par_superstep (pm : PMap.PartitionMap) (env : StepEnv) (n : Superstep)
    (p : Pool.State) (w : WorkerNode D) : Pool.State → WorkerNode D → Prop :=
  | par_superstep_intro w1 ts m s c w2 :
      select_tasks (env_order env) (receive_phase env w) = Some (w1, ts) →
      steps n m (entered p [(ts, w1)]) s →
      clients s = [c] → main c = Returned →
      route_phase pm env (Tasks.worker (tasks c)) = Some w2 →
      par_superstep pm env n p w (pool s) (set_stats (add_superstep (stats_ w2)) w2).

Inductive par_supersteps (pm : PMap.PartitionMap) :
    list (StepEnv * Superstep) → Pool.State → WorkerNode D → Pool.State → WorkerNode D → Prop :=
  | par_supersteps_nil p w : par_supersteps pm [] p w p w
  | par_supersteps_cons env n envs p w p' w' p'' w'' :
      par_superstep pm env n p w p' w' → par_supersteps pm envs p' w' p'' w'' →
      par_supersteps pm ((env, n) :: envs) p w p'' w''.

(** What a worker selects. *)
Lemma selected pm env w w1 ts :
  worker_wf pm w → env_wf env w →
  select_tasks (env_order env) (receive_phase env w) = Some (w1, ts) →
  NoDup (task_ids ts) ∧ stats_wf (stats_ w1) ∧
  filter (λ vid, vid ∈ task_ids ts) (env_exec env) ≡ₚ task_ids ts.
Proof.
  intros Hwf Henv Hsel. destruct (receive_phase_spec pm env w Hwf) as (Hwf1 & _ & Hv1 & _).
  assert (env_wf env (receive_phase env w)) as Henv1 by (unfold env_wf; by rewrite Hv1).
  destruct Hwf1 as (_ & _ & _ & _ & _ & Hn & Hst & _).
  destruct (select_spec (env_order env) (receive_phase env w)) as (w1' & ts' & Hsel' & Ht & Hsame & _);
    [by eapply env_order_NoDup|intros; by apply (env_order_in env (receive_phase env w))|done|].
  rewrite Hsel in Hsel'. injection Hsel' as <- <-. destruct Hsame as (_ & _ & _ & _ & Hs).
  assert (NoDup (task_ids ts)) as Hnd by (rewrite Ht; by eapply NoDup_filter, env_order_NoDup).
  split_and!; [done|by rewrite Hs|].
  apply NoDup_Permutation; [by eapply NoDup_filter, env_exec_NoDup|done|].
  intros vid. rewrite list_elem_of_filter. split; [by intros []|]. intros Hvid. split; [done|].
  rewrite Ht in Hvid. apply list_elem_of_filter in Hvid as [_ Hvid].
  destruct Henv as [Ho He]. by rewrite He, <- Ho.
Qed.

Lemma par_superstep_run nodes tpn pm env n p w p' w' :
  worker_wf pm w → env_wf env w → Pool.inv nodes tpn p → quiet p →
  Z.of_nat (length (Pool.pushed p')) < 2 ^ 64 →
  par_superstep pm env n p w p' w' →
  run_superstep pm env n w = Some (w', count_active w') ∧ Pool.inv nodes tpn p' ∧ quiet p'.
Proof.
  intros Hwf Henv Hp Hq Hmax Hs. destruct Hs as [w1 ts m s c w2 Hsel Hm Hc Hret Hroute].
  destruct (selected _ _ _ _ _ Hwf Henv Hsel) as (Hnd & Hst & Hperm).
  destruct (lone_steps _ _ _ _ _ _ _ _ Hp Hq Hnd Hst Hm Hmax c Hc Hret) as [Hq' Hrun].
  split_and!; [|eapply si_pool, system_steps_inv; [|exact Hm]|done].
  - unfold run_superstep, compute_phase. rewrite Hsel. cbn [mbind option_bind].
    rewrite (Hrun _ Hperm). cbn [mbind option_bind]. by rewrite Hroute.
  - apply entered_inv; [done|done|by apply Forall_singleton].
Qed.

Lemma par_superstep_pushed pm env n p w p' w' :
  par_superstep pm env n p w p' w' → (length (Pool.pushed p) ≤ length (Pool.pushed p'))%nat.
Proof.
  intros [w1 ts m s c w2 _ Hm _ _ _]. remember (entered p [(ts, w1)]) as s0 eqn:E0.
  change p with (pool (entered p [(ts, w1)])). rewrite <- E0. clear E0.
  induction Hm as [s|m s s' s'' Hm IH Hs]; [done|]. apply step_pushed in Hs. lia.
Qed.

Lemma par_supersteps_pushed pm envs p w p' w' :
  par_supersteps pm envs p w p' w' → (length (Pool.pushed p) ≤ length (Pool.pushed p'))%nat.
Proof.
  intros Hs. induction Hs as [p w|env n envs p w p1 w1 p' w' Hone Hs IH]; [done|].
  apply par_superstep_pushed in Hone. lia.
Qed.

Lemma par_supersteps_run nodes tpn pm envs p w p' w' :
  worker_wf pm w → envs_wf envs w → Pool.inv nodes tpn p → quiet p →
  Z.of_nat (length (Pool.pushed p')) < 2 ^ 64 →
  par_supersteps pm envs p w p' w' →
  run_supersteps pm envs w = Some w' ∧ worker_wf pm w' ∧ Pool.inv nodes tpn p' ∧ quiet p' ∧
  dom (vertices_ w') = dom (vertices_ w).
Proof.
  intros Hwf Henvs Hp Hq Hmax Hs.
  induction Hs as [p w|env n envs p w p1 w1 p' w' Hone Hs IH]; [by split_and!|].
  apply Forall_cons in Henvs as [[Henv Hst] Henvs].
  pose proof (par_supersteps_pushed _ _ _ _ _ _ Hs) as Hle.
  assert (Z.of_nat (length (Pool.pushed p1)) < 2 ^ 64) as Hmax1 by lia.
  destruct (par_superstep_run _ _ _ _ _ _ _ _ _ Hwf Henv Hp Hq Hmax1 Hone) as (Hrun & Hp1 & Hq1).
  pose proof (run_superstep_defined _ _ _ _ _ Hwf Henv Hrun) as Hdef.
  destruct (run_superstep_effect pm env n w Hwf Henv Hst Hdef) as (w1' & Hrun' & Hwf1 & _ & Hv & _).
  rewrite Hrun in Hrun'. injection Hrun' as <-.
  pose proof (superstep_dom _ _ _ _ Hdef Hv) as Hdom.
  unfold run_supersteps. cbn [foldM]. rewrite Hrun. cbn [fmap option_fmap option_map fst mbind option_bind].
  rewrite <- Hdom. apply IH; try done. unfold envs_wf, env_wf. by rewrite Hdom.
Qed.


(** *** The superstep ends *)

(** How many accesses a superstep takes: nine for each task and one for each
    worker. *)
Definition accesses (starts : list (list Sched.Task * WorkerNode D)) : nat :=
  sum_list_with (λ tw, 9 * length tw.1 + 1)%nat starts.

Lemma enter_left ts w : (client_left (enter ts w) ≤ 9 * length ts + 1)%nat.
Proof.
  pose proof (turns_left_start (task_ids ts)) as H. unfold task_ids in H.
  rewrite length_fmap in H. unfold client_left. cbn [enter main tasks main_left].
  change (turns_left (Tasks.phases (Tasks.start (task_ids ts) w)) ≤ 3 * length ts)%nat in H. lia.
Qed.

Lemma entered_left p starts : quiet p → (accesses_left (entered p starts) ≤ accesses starts)%nat.
Proof.
  intros (_ & Hb & Hq). unfold accesses_left, accesses, Pool.measure. cbn [entered pool clients].
  rewrite Hb, Hq. cbn [length sum_list_with].
  induction starts as [|tw starts IH]; [done|].
  rewrite fmap_cons. cbn [sum_list_with]. pose proof (enter_left tw.1 tw.2). lia.
Qed.

Lemma steps_left n m s s' : steps n m s s' → (m + accesses_left s' ≤ accesses_left s)%nat.
Proof. intros Hm. induction Hm as [s|m s s' s'' Hm IH Hs]; [done|]. apply step_left in Hs. lia. Qed.

Lemma steps_bound n m p starts s :
  quiet p → steps n m (entered p starts) s → (m ≤ accesses starts)%nat.
Proof. intros Hq%(entered_left p starts) Hm%steps_left. lia. Qed.

(** The computations of the selected tasks are defined when those of the superstep
    are. *)
Lemma selected_defined pm env n w :
  worker_wf pm w → env_wf env w → in_u64 n → computes env n w →
  ∃ w1 ts w2 w3, select_tasks (env_order env) (receive_phase env w) = Some (w1, ts) ∧
    Tasks.defined n (task_ids ts) w1 ∧
    (∀ l, l ≡ₚ task_ids ts → foldM (run_task n) w1 l = Some w2) ∧
    route_phase pm env w2 = Some w3.
Proof.
  intros Hwf Henv Hst Hdef.
  destruct (run_superstep_effect pm env n w Hwf Henv Hst Hdef) as (w4 & Hrun & _).
  unfold run_superstep, compute_phase in Hrun.
  destruct (select_tasks _ _) as [[w1 ts]|] eqn:Hsel; [|done]. cbn [mbind option_bind] in Hrun.
  apply bind_Some in Hrun as (w2 & Hfold & Hrun).
  apply bind_Some in Hrun as (w3 & Hroute & _).
  destruct (selected _ _ _ _ _ Hwf Henv Hsel) as (Hnd & Hst1 & Hperm).
  set (l := filter _ _) in Hfold, Hperm.
  assert (NoDup l) as Hndl by (by rewrite Hperm).
  exists w1, ts, w2, w3. split_and!; try done.
  - intros vid Hvid. rewrite <- Hperm in Hvid.
    destruct (run_tasks_spec _ _ _ _ Hndl Hst1 Hfold) as (_ & _ & _ & _ & Hv).
    specialize (Hv vid). rewrite decide_True in Hv by done.
    destruct Hv as (vd & Hvd & _ & Hsome & Heq). exists vd. split; [done|]. by rewrite <- Heq.
  - intros l' Hl'. rewrite <- Hfold. symmetry. apply foldM_permutation;
      [intros; by apply run_task_commute|done|by rewrite Hperm, Hl'].
Qed.

(** ** Executing a schedule *)

(** Whose access comes next: of the main thread of worker [i], of the thread of the
    pool that is number [k] of the busy ones, or of the [fn] of its task. *)
Inductive Turn :=
  | Push (i : nat)
  | Count (i k : nat)
  | Return (i : nat)
  | Take (node : nat)
  | Run (k : nat) (actual : Z)
  | Unload (k : nat)
  | Complete (k : nat)
  | Fn (i k : nat).

#[local] Existing Instance Sched.Task_eq_dec.
#[local] Instance Stage_eq_dec : EqDecision Pool.Stage.
Proof. solve_decision. Defined.
#[local] Instance task_over_dec vid c : Decision (task_over vid c).
Proof. unfold task_over. apply _. Defined.
#[local] Instance fn_returned_dec cs vid : Decision (fn_returned cs vid).
Proof. unfold fn_returned. apply _. Defined.
#[local] Instance fns_returned_dec cs p : Decision (fns_returned cs p).
Proof. unfold fns_returned. apply _. Defined.

(** The accesses of a worker thread of the pool. *)
Definition pool_turn (a : Turn) (p : Pool.State) : option Pool.State :=
  let sc := Pool.sched p in
  let at_stage k stage := b ← Pool.busy p !! k;
    if decide (Pool.b_stage b = stage) then Some b else None in
  let replace k b sc stage := Pool.mkState sc (Pool.counting p)
    (take k (Pool.busy p) ++ Pool.mkBusy (Pool.b_node b) (Pool.b_task b) stage ::
     drop (S k) (Pool.busy p)) (Pool.completed p) (Pool.pushed p) in
  match a with
  | Take nd =>
      if decide (Z.of_nat (count (Pool.at_node nd) (Pool.busy p)) < Sched.threads_per_node_ sc) then
        '(sc, t) ← Sched.pop_task nd sc;
        Some (Pool.mkState sc (Pool.counting p) (Pool.busy p ++ [Pool.mkBusy nd t Pool.Taken])
                (Pool.completed p) (Pool.pushed p))
      else None
  | Run k actual =>
      b ← at_stage k Pool.Taken;
      Some (replace k b (Sched.record_spike (Pool.b_node b) (Pool.b_task b) actual sc) Pool.Ran)
  | Unload k =>
      b ← at_stage k Pool.Ran;
      sc ← Sched.finish_active (Pool.b_node b) sc;
      Some (replace k b sc Pool.Unloaded)
  | Complete k =>
      b ← at_stage k Pool.Unloaded;
      Some (Pool.mkState (Sched.finish_count sc) (Pool.counting p)
              (take k (Pool.busy p) ++ drop (S k) (Pool.busy p))
              (Pool.completed p ++ [Pool.b_task b]) (Pool.pushed p))
  | _ => None
  end.


(** One turn. *)
Definition turn (n : Superstep) (s : System) (a : Turn) : option System :=
  let goes_on (p : Pool.State) (i : nat) (c : Client) := mkSystem p (<[i := c]> (clients s)) in
  match a with
  | Push i =>
      c ← clients s !! i;
      match main c with
      | Submitting (t :: todo) =>
          p ← push t (pool s); Some (goes_on p i (mkClient (tasks c) (Counting t todo)))
      | _ => None
      end
  | Count i k =>
      c ← clients s !! i;
      t' ← Pool.counting (pool s) !! k;
      match main c with
      | Counting t todo =>
          if decide (t' = t) then
            let l := Pool.counting (pool s) in
            Some (goes_on (counted (take k l ++ drop (S k) l) (pool s)) i
                    (mkClient (tasks c) (Submitting todo)))
          else None
      | _ => None
      end
  | Return i =>
      c ← clients s !! i;
      match main c with
      | Submitting [] =>
          if Sched.wait_all_done (Pool.sched (pool s))
          then Some (goes_on (pool s) i (mkClient (tasks c) Returned)) else None
      | _ => None
      end
  | Fn i k =>
      c ← clients s !! i;
      b ← Pool.busy (pool s) !! k;
      if decide (Pool.b_stage b = Pool.Taken) then
        ts ← Tasks.advance n (Sched.task_id (Pool.b_task b)) (tasks c);
        Some (goes_on (pool s) i (mkClient ts (main c)))
      else None
  | _ =>
      p ← pool_turn a (pool s);
      if decide (fns_returned (clients s) p) then Some (mkSystem p (clients s)) else None
  end.

Lemma pool_turn_step a p p' : pool_turn a p = Some p' → Pool.work_step p p'.
Proof.
  unfold pool_turn. destruct a as [| | |nd|k d|k|k|]; try done.
  - case_decide as Hn; [|done]. intros ([sc t] & Hpop & [= <-])%bind_Some.
    by apply Pool.step_take.
  - intros (b & (b' & Hk & Hb)%bind_Some & [= <-])%bind_Some. case_decide as Hst; [|done].
    injection Hb as ->. destruct b as [nd t st]. cbn in Hst. subst st.
    eapply Pool.step_run. symmetry. by apply take_drop_middle.
  - intros (b & (b' & Hk & Hb)%bind_Some & (sc & Hsc & [= <-])%bind_Some)%bind_Some.
    case_decide as Hst; [|done]. injection Hb as ->. destruct b as [nd t st]. cbn in Hst. subst st.
    eapply Pool.step_unload; [symmetry; by apply take_drop_middle|done].
  - intros (b & (b' & Hk & Hb)%bind_Some & [= <-])%bind_Some. case_decide as Hst; [|done].
    injection Hb as ->. destruct b as [nd t st]. cbn in Hst. subst st.
    eapply Pool.step_complete. symmetry. by apply take_drop_middle.
Qed.

Lemma turn_step n s a s' : turn n s a = Some s' → step n s s'.
Proof.
  assert (∀ a, (p ← pool_turn a (pool s);
    if decide (fns_returned (clients s) p) then Some (mkSystem p (clients s)) else None) = Some s' →
    step n s s') as Hpool.
  { intros a' (p & Hp%pool_turn_step & H)%bind_Some. case_decide; [|done]. injection H as <-.
    by apply step_thread. }
  unfold turn. destruct a as [i|i k|i|nd|k d|k|k|i k]; try apply Hpool.
  - intros (c & Hc & H)%bind_Some. destruct (main c) as [[|t todo]| |] eqn:Hm; try done.
    apply bind_Some in H as (p & Hp & [= <-]). by eapply step_push.
  - intros (c & Hc & (t' & Ht & H)%bind_Some)%bind_Some.
    destruct (main c) as [|t todo|] eqn:Hm; try done. case_decide; [|done]. injection H as <-. subst t'.
    eapply step_count; [done|done|]. symmetry. by apply take_drop_middle.
  - intros (c & Hc & H)%bind_Some. destruct (main c) as [[|t todo]| |] eqn:Hm; try done.
    destruct (Sched.wait_all_done _) eqn:Hd; [|done]. injection H as <-. by apply step_return.
  - intros (c & Hc & (b & Hb & H)%bind_Some)%bind_Some. case_decide as Hst; [|done].
    apply bind_Some in H as (ts & Ha & [= <-]). eapply step_fn; eauto.
    by eapply list_elem_of_lookup_2.
Qed.

Lemma turns_steps n schedule s s' :
  foldM (turn n) s schedule = Some s' → steps n (length schedule) s s'.
Proof.
  induction schedule as [|a schedule IH] using rev_ind in s' |- *.
  { intros [= <-]. apply steps_0. }
  rewrite foldM_app, length_app, Nat.add_comm. cbn [foldM length].
  intros (s1 & H1 & H2)%bind_Some. apply bind_Some in H2 as (s2 & H2 & [= <-]).
  eapply steps_S; [by apply IH|by eapply turn_step].
Qed.


(** ** Properties *)

(** C3: On the threads of the scheduler a lone worker computes what
    [run_superstep] says.  Take any number of supersteps of a worker that has the
    scheduler for itself, in which its main thread submits the tasks, the worker
    threads run them, access by access in any interleaving, and [wait_all] returns
    when the counters say so.  Then every [wait_all] has waited for all the tasks
    of its superstep, and the worker at the end is the one that [run_supersteps]
    computes. *)
Theorem threads_run_supersteps nodes tpn pm envs p w p' w' :
  0 < nodes → worker_wf pm w → envs_wf envs w →
  Pool.reachable nodes tpn p → quiet p → Z.of_nat (length (Pool.pushed p')) < 2 ^ 64 →
  par_supersteps pm envs p w p' w' →
  run_supersteps pm envs w = Some w' ∧ quiet p'.
Proof.
  intros Hn Hwf Henvs Hp%Pool.pool_reachable_inv Hq Hmax Hs; [|done].
  by destruct (par_supersteps_run _ _ _ _ _ _ _ _ Hwf Henvs Hp Hq Hmax Hs) as (? & _ & _ & ? & _).
Qed.

(** C11: A superstep on the threads ends.  Let the computations of the superstep be
    defined.  Then the worker selects its tasks, any interleaving makes at most
    nine accesses for each of them and one more, and one that cannot go on has
    finished the superstep: no thread is ever stuck before. *)
Theorem threads_finish_superstep nodes tpn pm env n p w :
  0 < nodes → 0 < tpn → worker_wf pm w → env_wf env w → in_u64 n → computes env n w →
  Pool.reachable nodes tpn p → quiet p →
  ∃ w1 ts, select_tasks (env_order env) (receive_phase env w) = Some (w1, ts) ∧
    ∀ m s, steps n m (entered p [(ts, w1)]) s →
      (m ≤ 9 * length ts + 1)%nat ∧
      ((∀ s', ¬ step n s s') → ∃ w', par_superstep pm env n p w (pool s) w').
Proof.
  intros Hn Htpn Hwf Henv Hst Hdef Hp%Pool.pool_reachable_inv Hq; [|done].
  destruct (selected_defined _ _ _ _ Hwf Henv Hst Hdef) as (w1 & ts & w2 & w3 & Hsel & Htd & Hfold & Hroute).
  destruct (selected _ _ _ _ _ Hwf Henv Hsel) as (Hnd & Hst1 & _).
  exists w1, ts. split; [done|]. intros m s Hm. split.
  { pose proof (steps_bound _ _ _ _ _ Hq Hm) as H. unfold accesses in H. cbn in H. lia. }
  intros Hstuck.
  assert (system_inv nodes tpn n p [(ts, w1)] s) as Hs.
  { eapply system_steps_inv; [|exact Hm]. apply entered_inv; [done|done|by apply Forall_singleton]. }
  destruct (stuck_returned nodes tpn n p [(ts, w1)] ltac:(by apply Forall_singleton) s Htpn Hs Hstuck)
    as [Hret Hq'].
  destruct (lone_client _ _ _ _ _ _ Hs) as [c Hc].
  unfold all_returned in Hret. rewrite Hc, Forall_singleton in Hret.
  pose proof (quiet_finished nodes tpn n p [(ts, w1)] s O ts w1 c (task_ids ts) Hp Hq Hs Hq'
    eq_refl ltac:(by rewrite Hc) ltac:(by rewrite Hret) Hnd Hst1 ltac:(done)) as Hrun.
  rewrite Hfold in Hrun by done. injection Hrun as ->.
  eexists. by eapply par_superstep_intro.
Qed.

End Parallel.
Arguments System D : clear implicits.
Arguments Client D : clear implicits.

(** ** The theorems on concrete runs *)

#[local] Existing Instance Venue.lcg.

Definition fresh_pool : Pool.State := Pool.init 2 1.

(** The sample worker of [Superstep] enters its superstep alone. *)
Definition lone_start : WorkerNode (OBData Z) * list Sched.Task :=
  default (sample_worker 1 0, [])
    (select_tasks (env_order sample_env) (receive_phase sample_env (sample_worker 1 0))).

(** Its second task is pushed while the first is running. *)
Definition lone_schedule : list Turn :=
  [Push 0; Take 1; Fn 0 0; Count 0 0; Push 0; Fn 0 0; Count 0 0; Fn 0 0; Run 0 10; Unload 0;
   Complete 0; Take 1; Fn 0 0; Fn 0 0; Fn 0 0; Run 0 200; Unload 0; Complete 0; Return 0].

Definition lone_end : System (OBData Z) :=
  default (entered fresh_pool [])
    (foldM (turn 0) (entered fresh_pool [(lone_start.2, lone_start.1)]) lone_schedule).

Lemma lone_runs :
  par_superstep (PMap.new 1) sample_env 0 fresh_pool (sample_worker 1 0) (pool lone_end)
    (sample_next 1 0).
Proof.
  eassert (sample_next 1 0 = set_stats _ _) as ->; cycle 1.
  { eapply (par_superstep_intro _ _ _ _ _ lone_start.1 lone_start.2 _ lone_end).
    - vm_compute. reflexivity.
    - apply (turns_steps _ lone_schedule). vm_compute. reflexivity.
    - vm_compute. reflexivity.
    - reflexivity.
    - vm_compute. reflexivity. }
  vm_compute. reflexivity.
Qed.

(** Two workers on one scheduler: worker 1 with the vertices 1 and 3, and worker 0
    with vertex 2. *)
Definition other_worker : WorkerNode (OBData Z) :=
  add_vertex (mkVertex 2 PRICE_LEVEL 0 false [mkEdge 3 1 2] [],
      PriceLevelV (PriceLevel.new (PriceLevel.mkState 150000100 ASK 1000 2 0 true)))
    (Worker.new 0 2 (Bus.new 0 2 true)).
Definition other_env : StepEnv := mkEnv [2] [2] [] (λ _ _, 0).

Definition two_starts : list (list Sched.Task * WorkerNode (OBData Z)) :=
  default [] (
    '(w1, ts1) ← select_tasks (env_order sample_env) (receive_phase sample_env (sample_worker 2 1));
    '(w0, ts0) ← select_tasks (env_order other_env) (receive_phase other_env other_worker);
    Some [(ts1, w1); (ts0, w0)]).

(** Worker 1 has submitted its two tasks; worker 0 pushes its own, which completes
    before it is counted; then the first task of worker 1 completes. *)
Definition race : list Turn :=
  [Push 0; Count 0 0; Push 0; Count 0 0; Push 1;
   Take 0; Fn 1 0; Fn 1 0; Fn 1 0; Run 0 10; Unload 0; Complete 0;
   Take 1; Fn 0 0; Fn 0 0; Fn 0 0; Run 0 10; Unload 0; Complete 0; Return 0].

Definition race_end : System (OBData Z) :=
  default (entered fresh_pool []) (foldM (turn 0) (entered fresh_pool two_starts) race).

Lemma fresh_quiet : quiet fresh_pool.
Proof. done. Qed.

Lemma lone_env_wf : envs_wf [(sample_env, 0)] (sample_worker 1 0).
Proof. apply Forall_singleton. split; [apply sample_env_wf|done]. Qed.

Lemma lone_computes : computes sample_env 0 (sample_worker 1 0).
Proof.
  eapply run_superstep_defined; [by apply (sample_worker_wf 1 0)|apply sample_env_wf|].
  apply (sample_runs 1 0). auto.
Qed.

Lemma threads_run_supersteps_witness :
  run_supersteps (PMap.new 1) [(sample_env, 0)] (sample_worker 1 0) = Some (sample_next 1 0).
Proof.
  refine (proj1 (threads_run_supersteps 2 1 (PMap.new 1) [(sample_env, 0)] fresh_pool _ (pool lone_end)
    _ _ _ _ (Pool.reachable_init 2 1) fresh_quiet _ _)).
  - lia.
  - by apply (sample_worker_wf 1 0).
  - exact lone_env_wf.
  - vm_compute. reflexivity.
  - eapply par_supersteps_cons; [exact lone_runs|apply par_supersteps_nil].
Defined.

Lemma threads_finish_superstep_witness :
  ∃ w1 ts, select_tasks (env_order sample_env) (receive_phase sample_env (sample_worker 1 0)) = Some (w1, ts) ∧
    ∀ m s, steps 0 m (entered fresh_pool [(ts, w1)]) s → (m ≤ 9 * length ts + 1)%nat.
Proof.
  destruct (threads_finish_superstep 2 1 (PMap.new 1) sample_env 0 fresh_pool (sample_worker 1 0))
    as (w1 & ts & Hsel & Hend);
    [lia|lia|by apply (sample_worker_wf 1 0)|apply sample_env_wf|done|exact lone_computes
    |exact (Pool.reachable_init 2 1)|exact fresh_quiet|].
  exists w1, ts. split; [exact Hsel|]. intros m s Hm. exact (proj1 (Hend m s Hm)).
Defined.

Lemma other_worker_wf : worker_wf (PMap.new 2) other_worker.
Proof.
  unfold other_worker. apply add_vertex_wf.
  - by apply (new_worker_wf (PMap.new 2)); [apply PMap.pmap_new_wf|..].
  - split_and!; cbn; try done; by repeat constructor.
Qed.

Lemma other_env_wf : env_wf other_env other_worker.
Proof. by split. Qed.

Lemma race_runs : steps 0 (length race) (entered fresh_pool two_starts) race_end.
Proof. apply turns_steps. vm_compute. reflexivity. Qed.

(** C13: With two workers on one scheduler a superstep can leave messages behind.  There is
    an execution in which [wait_all] of worker 1 returns while its task of vertex 1
    has not begun, because a task of worker 0 that its [submit] had pushed and not
    counted yet was completed instead.  The worker then collects its outboxes
    without what vertex 1 sends in this superstep: the message that
    [run_superstep] routes to vertex 3 is missing. *)
Theorem two_workers_race :
  ∃ m s c w' w'' late, steps 0 m (entered fresh_pool two_starts) s ∧
    clients s !! O = Some c ∧ main c = Returned ∧
    Tasks.phases (tasks c) !! 1 = Some Tasks.Waiting ∧
    route_phase (PMap.new 2) sample_env (Tasks.worker (tasks c)) = Some w' ∧
    run_superstep (PMap.new 2) sample_env 0 (sample_worker 2 1) = Some (w'', 2) ∧
    Bus.inbox_ (bus_ w'') = Bus.inbox_ (bus_ w') ++ [late] ∧
    msg_src late = 1 ∧ msg_dst late = 3.
Proof.
  eexists _, race_end, _, _, (sample_next 2 1),
    (mkMessage 1 3 PRICE_UPDATE 0 (mkPayload 149999900 0 1000 0)). split; [exact race_runs|].
  split_and!.
  - vm_compute. reflexivity.
  - reflexivity.
  - vm_compute. reflexivity.
  - vm_compute. reflexivity.
  - apply sample_runs. auto.
  - vm_compute. reflexivity.
  - reflexivity.
  - reflexivity.
Qed.

End Parallel.
