(* ===== verification/ParallelCollect.v ===== *)
(** The supersteps of several workers up to the barrier: what
    [WorkerNode::run_superstep] ([src/worker_node.cpp]) does after [wait_all], while
    tasks may still run.

    [ParallelStep] ends when [wait_all] returns.  With several workers on one
    scheduler it can return early ([Parallel.two_workers_race]), and the main thread
    then collects the outboxes and flushes the bus while tasks of its own worker
    are queued or running.  Here the main thread goes on: [step] adds to the
    accesses of [Parallel.step] those of [collect_and_route_outbox], one vertex at a
    time, and [flush].  The theorems say that every superstep reaches the barrier,
    and what the workers are then: a task that is late leaves its vertex's messages
    in the vertex's outbox, and disturbs nothing else.

    Each access is atomic here.  In C++ the collection of a vertex and a [compute]
    of the same vertex at the same time would be a data race, which the model does
    not have: it orders them. *)
From S2P Require Import Prelude Types Vertex PartitionMap RdmaTransport MessageBus NumaScheduler WorkerNode VenueVertex PriceLevelVertex OrderBook Superstep Tasks ParallelStep.
Local Open Scope Z_scope.

Module Collect.
Import Worker Superstep Parallel.
Section Collect.
Context {D : Type} `{HI : VertexImpl D, HL : !VertexLaws D}.
Implicit Types (w : WorkerNode D) (c : Client D).

(** Where the main thread of a worker is after [wait_all]. *)
Inductive Tail :=
  | Before                                (* not there yet *)
  | Collecting (todo : list VertexId)     (* in [collect_and_route_outbox], at the first of [todo] *)
  | Flushed.                              (* the bus is flushed: at the barrier *)

Record State := mkState { sys : System D; tails : list Tail }.

(** The worker of a client is changed by its main thread. *)
Definition set_worker w c : Client D :=
  mkClient (Tasks.mkState w (Tasks.phases (tasks c))) (main c).

Definition goes_on (x : State) (i : nat) c (t : Tail) : State :=
  mkState (mkSystem (pool (sys x)) (<[i := c]> (clients (sys x)))) (<[i := t]> (tails x)).

Section Step.
Context (pm : PMap.PartitionMap) (envs : list StepEnv) (n : Superstep).

(** One access of one thread; [envs] has the environment of each worker. *)
Inductive step (x : State) : State → Prop :=
  | step_access s :
      Parallel.step n (sys x) s → step x (mkState s (tails x))
  | step_begin i c env :
      clients (sys x) !! i = Some c → main c = Returned →
      tails x !! i = Some Before → envs !! i = Some env →
      step x (goes_on x i c (Collecting (env_order env)))
  | step_collect i c vid todo w :
      clients (sys x) !! i = Some c → tails x !! i = Some (Collecting (vid :: todo)) →
      collect_one pm (Tasks.worker (tasks c)) vid = Some w →
      step x (goes_on x i (set_worker w c) (Collecting todo))
  | step_flush i c env b :
      clients (sys x) !! i = Some c → tails x !! i = Some (Collecting []) →
      envs !! i = Some env →
      Bus.flush (env_clock env) (bus_ (Tasks.worker (tasks c))) = Some b →
      step x (goes_on x i (set_worker (set_bus b (Tasks.worker (tasks c))) c) Flushed).

Inductive steps : nat → State → State → Prop :=
  | steps_0 x : steps 0 x x
  | steps_S m x x' x'' : steps m x x' → step x' x'' → steps (S m) x x''.

End Step.

(** The workers that enter a superstep on the pool [p]. *)
Definition begin (p : Pool.State) (starts : list (list Sched.Task * WorkerNode D)) : State :=
  mkState (entered p starts) (replicate (length starts) Before).

(** Every worker is at the barrier. *)
Definition at_barrier (x : State) : Prop := Forall (λ t, t = Flushed) (tails x).

(** ** Collecting commutes with the tasks *)

Section Commute.
Context (pm : PMap.PartitionMap).

Lemma collect_fetch w w' x m :
  collect_one pm w x = Some w' → collect_one pm (set_inbox m w) x = Some (set_inbox m w').
Proof.
  unfold collect_one. cbn [vertices_ bus_ stats_ set_inbox].
  destruct (vertices_ w !! x) as [[v d]|]; [|done]. cbn [mbind option_bind].
  case_decide; [by intros [= <-]|]. intros (b & Hb & [= <-])%bind_Some.
  cbn [bus_ set_stats set_inbox Tasks.count_processed] in *. by rewrite Hb.
Qed.

Lemma collect_count w w' x :
  collect_one pm w x = Some w' →
  collect_one pm (Tasks.count_processed w) x = Some (Tasks.count_processed w').
Proof.
  unfold collect_one. cbn [vertices_ bus_ Tasks.count_processed set_stats].
  destruct (vertices_ w !! x) as [[v d]|]; [|done]. cbn [mbind option_bind].
  case_decide; [by intros [= <-]|]. intros (b & Hb & [= <-])%bind_Some.
  cbn [bus_ set_stats set_inbox Tasks.count_processed] in *. by rewrite Hb.
Qed.

Lemma collect_compute w w' x vid :
  x ≠ vid → collect_one pm w x = Some w' →
  vertices_ w' !! vid = vertices_ w !! vid ∧
  ∀ vd, collect_one pm (set_vertices (<[vid := vd]> (vertices_ w)) w) x =
    Some (set_vertices (<[vid := vd]> (vertices_ w')) w').
Proof.
  intros Hne. unfold collect_one. cbn [vertices_ bus_ stats_ set_vertices].
  destruct (vertices_ w !! x) as [[v d]|] eqn:Hx; [|done]. cbn [mbind option_bind].
  assert (∀ vd, <[vid := vd]> (vertices_ w) !! x = Some (v, d)) as Hx'
    by (intros vd; by rewrite lookup_insert_ne).
  case_decide as Ho.
  - intros [= <-]. split; [done|]. intros vd. rewrite Hx'. cbn. by rewrite decide_True.
  - intros (b & Hb & [= <-])%bind_Some. cbn [vertices_ set_vertices]. split; [by rewrite lookup_insert_ne|].
    intros vd. rewrite Hx'. cbn [mbind option_bind]. rewrite decide_False by done.
    cbn [bus_ set_stats set_vertices] in *. rewrite Hb. cbn [mbind option_bind]. unfold set_vertices. cbn.
    by rewrite insert_insert_ne.
Qed.

(** The same for a whole list. *)
Lemma collects_fetch L w w' m :
  foldM (collect_one pm) w L = Some w' →
  foldM (collect_one pm) (set_inbox m w) L = Some (set_inbox m w').
Proof.
  revert w. induction L as [|x L IH]; intros w; cbn [foldM]; [by intros [= <-]|].
  intros (w1 & H1 & H2)%bind_Some. rewrite (collect_fetch _ _ _ _ H1). by apply IH.
Qed.

Lemma collects_count L w w' :
  foldM (collect_one pm) w L = Some w' →
  foldM (collect_one pm) (Tasks.count_processed w) L = Some (Tasks.count_processed w').
Proof.
  revert w. induction L as [|x L IH]; intros w; cbn [foldM]; [by intros [= <-]|].
  intros (w1 & H1 & H2)%bind_Some. rewrite (collect_count _ _ _ H1). by apply IH.
Qed.

Lemma collects_compute L w w' vid :
  vid ∉ L → foldM (collect_one pm) w L = Some w' →
  vertices_ w' !! vid = vertices_ w !! vid ∧
  ∀ vd, foldM (collect_one pm) (set_vertices (<[vid := vd]> (vertices_ w)) w) L =
    Some (set_vertices (<[vid := vd]> (vertices_ w')) w').
Proof.
  revert w. induction L as [|x L IH]; intros w Hvid; cbn [foldM]; [by intros [= <-]|].
  apply not_elem_of_cons in Hvid as [Hne Hvid]. intros (w1 & H1 & H2)%bind_Some.
  destruct (collect_compute w w1 x vid ltac:(done) H1) as [Hv1 Hc1].
  destruct (IH w1 Hvid H2) as [Hv2 Hc2]. split; [by rewrite Hv2|].
  intros vd. rewrite (Hc1 vd). apply Hc2.
Qed.

Lemma collects_inbox L w w' :
  foldM (collect_one pm) w L = Some w' → vertex_inbox_ w' = vertex_inbox_ w.
Proof.
  revert w. induction L as [|x L IH]; intros w; cbn [foldM]; [by intros [= <-]|].
  intros (w1 & H1 & H2)%bind_Some. rewrite (IH w1 H2). unfold collect_one in H1.
  apply bind_Some in H1 as ([v d] & _ & H1). case_decide; [by injection H1 as <-|].
  by apply bind_Some in H1 as (b & _ & [= <-]).
Qed.

End Commute.

(** ** The tasks do not notice *)

(** The computation of the vertex is behind it, or it has no task. *)
Definition over (phases : gmap Z Tasks.Phase) (vid : VertexId) : Prop :=
  match phases !! vid with
  | Some Tasks.Waiting | Some (Tasks.Fetched _) => False
  | _ => True
  end.

(** The vertex has a task that has not computed it. *)
Definition late c (vid : VertexId) : Prop := ¬ over (Tasks.phases (tasks c)) vid.

#[local] Instance over_dec phases vid : Decision (over phases vid).
Proof. unfold over. destruct (phases !! vid) as [[]|]; apply _. Defined.

Lemma advance_keeps_over n vid (ts ts' : Tasks.State (D := D)) x :
  Tasks.advance n vid ts = Some ts' → over (Tasks.phases ts) x → over (Tasks.phases ts') x.
Proof.
  unfold Tasks.advance, over. intros (ph & Hph & H)%bind_Some Hx.
  destruct ph as [|ms| |]; [| | |done].
  - injection H as <-. cbn [Tasks.phases]. rewrite lookup_insert. case_decide; [|done].
    subst x. by rewrite Hph in Hx.
  - apply bind_Some in H as (w & _ & [= <-]). cbn [Tasks.phases]. rewrite lookup_insert.
    by case_decide.
  - injection H as <-. cbn [Tasks.phases]. rewrite lookup_insert. by case_decide.
Qed.

(** A worker [wa] of which the main thread has collected the vertices [L], and maybe
    replaced the bus, by the worker [wg] of which it has not. *)
Definition ahead (pm : PMap.PartitionMap) (L : list VertexId) (b : Bus.MessageBus) (wg wa : WorkerNode D)
    : Prop :=
  ∃ wm, foldM (collect_one pm) wg L = Some wm ∧ wa = set_bus b wm.

(** An access of a task is possible ahead when it is possible behind, and leaves the
    one ahead of the other. *)
Lemma advance_ahead pm n vid L wg wm b phases :
  foldM (collect_one pm) wg L = Some wm → Forall (over phases) L →
  match Tasks.advance n vid (Tasks.mkState wg phases),
        Tasks.advance n vid (Tasks.mkState (set_bus b wm) phases) with
  | Some g, Some a =>
      Tasks.phases a = Tasks.phases g ∧
      ∃ wm', foldM (collect_one pm) (Tasks.worker g) L = Some wm' ∧ bus_ wm' = bus_ wm ∧
        Tasks.worker a = set_bus b wm'
  | None, None => True
  | _, _ => False
  end.
Proof.
  intros Hfold Hov. unfold Tasks.advance. cbn [Tasks.phases Tasks.worker].
  destruct (phases !! vid) as [ph|] eqn:Hph; [|done]. cbn [mbind option_bind].
  destruct ph as [|ms| |]; [| | |done].
  - unfold Tasks.fetch. cbn [Tasks.phases Tasks.worker vertex_inbox_ set_bus].
    rewrite (collects_inbox _ _ _ _ Hfold). split; [done|].
    eexists. split; [by apply collects_fetch|]. by split.
  - assert (vid ∉ L) as Hvid.
    { intros Hin. rewrite Forall_forall in Hov. specialize (Hov vid Hin). unfold over in Hov.
      by rewrite Hph in Hov. }
    destruct (collects_compute pm L wg wm vid Hvid Hfold) as [Hv Hc].
    unfold Tasks.compute_vertex. cbn [vertices_ set_bus]. rewrite Hv.
    destruct (vertices_ wg !! vid) as [[v d]|]; [|done]. cbn [mbind option_bind].
    destruct (compute v d ms n) as [vd|]; [|done]. cbn [mbind option_bind Tasks.phases Tasks.worker].
    split; [done|]. eexists. split; [apply Hc|]. by split.
  - cbn [Tasks.phases Tasks.worker]. split; [done|].
    eexists. split; [by apply collects_count|]. by split.
Qed.

(** ** The simulation *)

(** The client [ca] at [t] is ahead of the client [cg], whose main thread has stopped
    when [wait_all] returned.  The vertices of [early] were computed before it went
    on, and are collected. *)
Definition client_sim (pm : PMap.PartitionMap) (early : VertexId → Prop) (env : StepEnv)
    (cg ca : Client D) (t : Tail) : Prop :=
  main ca = main cg ∧ Tasks.phases (tasks ca) = Tasks.phases (tasks cg) ∧
  (∀ vid, early vid → over (Tasks.phases (tasks cg)) vid) ∧
  match t with
  | Before => Tasks.worker (tasks ca) = Tasks.worker (tasks cg)
  | Collecting todo =>
      main cg = Returned ∧
      ∃ done L, env_order env = done ++ todo ∧ sublist L done ∧
        (∀ vid, vid ∈ done → early vid → vid ∈ L) ∧
        Forall (over (Tasks.phases (tasks cg))) L ∧
        foldM (collect_one pm) (Tasks.worker (tasks cg)) L = Some (Tasks.worker (tasks ca))
  | Flushed =>
      main cg = Returned ∧
      ∃ L wm b, sublist L (env_order env) ∧
        (∀ vid, vid ∈ env_order env → early vid → vid ∈ L) ∧ Forall (over (Tasks.phases (tasks cg))) L ∧
        foldM (collect_one pm) (Tasks.worker (tasks cg)) L = Some wm ∧
        Bus.flush (env_clock env) (bus_ wm) = Some b ∧
        Tasks.worker (tasks ca) = set_bus b wm
  end.

Record sims (pm : PMap.PartitionMap) (early : nat → VertexId → Prop) (envs : list StepEnv)
    (g : System D) (x : State) : Prop := {
  sim_pool : pool (sys x) = pool g;
  sim_clients : length (clients (sys x)) = length (clients g);
  sim_tails : length (tails x) = length (clients g);
  sim_envs : length envs = length (clients g);
  sim_each : ∀ i env cg ca t, envs !! i = Some env → clients g !! i = Some cg →
    clients (sys x) !! i = Some ca → tails x !! i = Some t → client_sim pm (early i) env cg ca t;
}.

Lemma set_bus_id w : set_bus (bus_ w) w = w.
Proof. by destruct w. Qed.

(** The clients and the environment of an index. *)
Lemma sims_lookup pm early envs g x i ca :
  sims pm early envs g x → clients (sys x) !! i = Some ca →
  ∃ env cg t, envs !! i = Some env ∧ clients g !! i = Some cg ∧ tails x !! i = Some t ∧
    client_sim pm (early i) env cg ca t.
Proof.
  intros [_ Hc Ht He Hall] Hca. pose proof (lookup_lt_Some _ _ _ Hca) as Hlt.
  destruct (lookup_lt_is_Some_2 envs i) as [env Henv]; [lia|].
  destruct (lookup_lt_is_Some_2 (clients g) i) as [cg Hcg]; [lia|].
  destruct (lookup_lt_is_Some_2 (tails x) i) as [t Hti]; [lia|].
  exists env, cg, t. split_and!; try done. by apply (Hall i).
Qed.

Lemma sims_update pm early envs g x p i cg' ca' t' :
  sims pm early envs g x →
  (∀ env, envs !! i = Some env → client_sim pm (early i) env cg' ca' t') →
  sims pm early envs (mkSystem p (<[i := cg']> (clients g)))
    (mkState (mkSystem p (<[i := ca']> (clients (sys x)))) (<[i := t']> (tails x))).
Proof.
  intros [Hp Hc Ht He Hall] Hsim. constructor; cbn [sys clients tails pool];
    rewrite ?length_insert; try done.
  intros j env cg ca t Henv Hcg Hca Htj. destruct (decide (i = j)) as [<-|Hne].
  - apply list_lookup_insert_Some in Hcg as [(_ & <- & _)|[? _]]; [|done].
    apply list_lookup_insert_Some in Hca as [(_ & <- & _)|[? _]]; [|done].
    apply list_lookup_insert_Some in Htj as [(_ & <- & _)|[? _]]; [|done]. by apply Hsim.
  - rewrite list_lookup_insert_ne in Hcg by done. rewrite list_lookup_insert_ne in Hca by done.
    rewrite list_lookup_insert_ne in Htj by done. by apply (Hall j).
Qed.

(** Only the main thread moves, or only the tasks do. *)
Lemma sims_system pm early envs g x p i cg' ca' t :
  sims pm early envs g x → tails x !! i = Some t →
  (∀ env, envs !! i = Some env → client_sim pm (early i) env cg' ca' t) →
  sims pm early envs (mkSystem p (<[i := cg']> (clients g)))
    (mkState (mkSystem p (<[i := ca']> (clients (sys x)))) (tails x)).
Proof.
  intros Hs Ht Hsim. pose proof (sims_update pm early envs g x p i cg' ca' t Hs Hsim) as H.
  by rewrite (list_insert_id (tails x) i t Ht) in H.
Qed.

Lemma sims_tail pm early envs g x i cg ca' t' :
  sims pm early envs g x → clients g !! i = Some cg →
  (∀ env, envs !! i = Some env → client_sim pm (early i) env cg ca' t') →
  sims pm early envs g (goes_on x i ca' t').
Proof.
  intros Hs Hcg Hsim. pose proof (sims_update pm early envs g x (pool g) i cg ca' t' Hs Hsim) as H.
  rewrite (list_insert_id (clients g) i cg Hcg) in H. unfold goes_on.
  rewrite (sim_pool _ _ _ _ _ Hs). by destruct g.
Qed.

Lemma sim_fns_returned pm early envs g x p :
  sims pm early envs g x → fns_returned (clients (sys x)) p ↔ fns_returned (clients g) p.
Proof.
  intros Hs. unfold fns_returned. apply Forall_iff. intros b.
  assert (fn_returned (clients (sys x)) (Sched.task_id (Pool.b_task b)) ↔
    fn_returned (clients g) (Sched.task_id (Pool.b_task b))) as ->; [|done].
  unfold fn_returned. rewrite !Forall_lookup. unfold task_over. split.
  - intros H i cg Hcg. destruct (lookup_lt_is_Some_2 (clients (sys x)) i) as [ca Hca].
    { rewrite (sim_clients _ _ _ _ _ Hs). by eapply lookup_lt_Some. }
    destruct (sims_lookup _ _ _ _ _ _ _ Hs Hca) as (env & cg' & t & _ & Hcg' & _ & _ & E & _).
    rewrite Hcg in Hcg'. injection Hcg' as <-. rewrite <- E. by apply (H i).
  - intros H i ca Hca.
    destruct (sims_lookup _ _ _ _ _ _ _ Hs Hca) as (env & cg & t & _ & Hcg & _ & _ & -> & _).
    exact (H i cg Hcg).
Qed.

(** The simulated client of one that moves. *)
Lemma sim_before pm early envs g x i ca :
  sims pm early envs g x → clients (sys x) !! i = Some ca → main ca ≠ Returned →
  ∃ cg, clients g !! i = Some cg ∧ tails x !! i = Some Before ∧ ca = cg ∧
    ∀ vid, early i vid → over (Tasks.phases (tasks cg)) vid.
Proof.
  intros Hs Hca Hm.
  destruct (sims_lookup _ _ _ _ _ _ _ Hs Hca) as (env & cg & t & _ & Hcg & Ht & Hmain & Hph & He & Hsim).
  exists cg. rewrite Hmain in Hm.
  destruct t; [|by destruct Hsim as [? _]|by destruct Hsim as [? _]]. split_and!; try done.
  destruct ca as [[] ?], cg as [[] ?]. cbn in *. congruence.
Qed.

Lemma sim_before_next pm early (envs : list StepEnv) (i : nat) (cg : Client D) m' :
  (∀ vid, early vid → over (Tasks.phases (tasks cg)) vid) →
  ∀ env, envs !! i = Some env →
    client_sim pm early env (mkClient (tasks cg) m') (mkClient (tasks cg) m') Before.
Proof. by intros. Qed.

(** An access of a task, on both sides. *)
Lemma sim_advance pm early env n vid cg ca t :
  client_sim pm early env cg ca t →
  match Tasks.advance n vid (tasks cg), Tasks.advance n vid (tasks ca) with
  | Some g, Some a => client_sim pm early env (mkClient g (main cg)) (mkClient a (main ca)) t
  | None, None => True
  | _, _ => False
  end.
Proof.
  intros (Hm & Hph & He & Ht).
  destruct cg as [[wg phases] mg], ca as [[wa phases'] ma]. cbn [tasks main Tasks.phases Tasks.worker] in *.
  subst phases' ma.
  pose proof (advance_keeps_over n vid (Tasks.mkState wg phases)) as Hkeep. destruct t as [|todo|].
  - subst wa. destruct (Tasks.advance _ _ _) as [g|]; [|done]. split_and!; try done.
    intros y Hy. by apply (Hkeep g), He.
  - destruct Ht as (-> & done & L & Ho & HLd & HLe & Hov & Hfold).
    pose proof (advance_ahead pm n vid L wg wa (bus_ wa) phases Hfold Hov) as H.
    rewrite set_bus_id in H.
    destruct (Tasks.advance n vid (Tasks.mkState wg phases)) as [g|],
      (Tasks.advance n vid (Tasks.mkState wa phases)) as [a|]; try done.
    destruct H as (Hpa & wm' & Hfold' & Hb & Hw). split_and!; try done.
    { intros y Hy. by apply (Hkeep g), He. }
    exists done, L. split_and!; try done.
    + eapply Forall_impl; [exact Hov|]. intros y. by apply (Hkeep g).
    + cbn [tasks]. by rewrite Hw, <- Hb, set_bus_id.
  - destruct Ht as (-> & L & wm & b & HLd & HLe & Hov & Hfold & Hfl & ->).
    pose proof (advance_ahead pm n vid L wg wm b phases Hfold Hov) as H.
    destruct (Tasks.advance n vid (Tasks.mkState wg phases)) as [g|],
      (Tasks.advance n vid (Tasks.mkState (set_bus b wm) phases)) as [a|]; try done.
    destruct H as (Hpa & wm' & Hfold' & Hb & Hw). split_and!; try done.
    { intros y Hy. by apply (Hkeep g), He. }
    exists L, wm', b. split_and!; try done.
    + eapply Forall_impl; [exact Hov|]. intros y. by apply (Hkeep g).
    + by rewrite Hb.
Qed.

(** Every access of [Parallel.step] is one of the simulated system.. *)
Lemma sim_step pm early envs n g x s :
  sims pm early envs g x → Parallel.step n (sys x) s →
  ∃ g', Parallel.step n g g' ∧ sims pm early envs g' (mkState s (tails x)).
Proof.
  intros Hs Hstep. pose proof (sim_pool _ _ _ _ _ Hs) as Ep.
  destruct Hstep as [i c t todo p Hc Hm Hp|i c t todo l1 l2 Hc Hm Hl|i c Hc Hm Hd|p Hw Hf|i c b ts Hc Hb Hst Ha].
  - destruct (sim_before _ _ _ _ _ _ _ Hs Hc) as (cg & Hcg & Ht & -> & He); [by rewrite Hm|].
    rewrite Ep in Hp. eexists. split; [by eapply step_push|].
    eapply sims_system; [done|done|]. by apply sim_before_next.
  - destruct (sim_before _ _ _ _ _ _ _ Hs Hc) as (cg & Hcg & Ht & -> & He); [by rewrite Hm|].
    rewrite Ep in *. eexists. split; [by eapply step_count|].
    eapply sims_system; [done|done|]. by apply sim_before_next.
  - destruct (sim_before _ _ _ _ _ _ _ Hs Hc) as (cg & Hcg & Ht & -> & He); [by rewrite Hm|].
    rewrite Ep in *. eexists. split; [by eapply step_return|].
    eapply sims_system; [done|done|]. by apply sim_before_next.
  - rewrite Ep in Hw. eexists. split; [eapply step_thread; [exact Hw|]|].
    + by apply (sim_fns_returned _ _ _ _ _ p Hs).
    + destruct Hs as [_ ? ? ? ?]. by constructor.
  - destruct (sims_lookup _ _ _ _ _ _ _ Hs Hc) as (env & cg & t & Henv & Hcg & Ht & Hsim).
    pose proof (sim_advance pm (early i) env n (Sched.task_id (Pool.b_task b)) _ _ _ Hsim) as H.
    rewrite Ha in H. destruct (Tasks.advance n _ (tasks cg)) as [tg|] eqn:Hg; [|done].
    rewrite Ep in *. eexists. split; [by eapply step_fn|].
    eapply sims_system; [done|done|]. intros env' Henv'. by simplify_eq.
Qed.

(** ..and the other way round. *)
Lemma sim_step_back pm early envs n g x g' :
  sims pm early envs g x → Parallel.step n g g' → ∃ s, Parallel.step n (sys x) s.
Proof.
  intros Hs Hstep. pose proof (sim_pool _ _ _ _ _ Hs) as Ep.
  assert (∀ i cg, clients g !! i = Some cg → ∃ env ca t, envs !! i = Some env ∧
    clients (sys x) !! i = Some ca ∧ client_sim pm (early i) env cg ca t) as Hback.
  { intros i cg Hcg. destruct (lookup_lt_is_Some_2 (clients (sys x)) i) as [ca Hca].
    { rewrite (sim_clients _ _ _ _ _ Hs). by eapply lookup_lt_Some. }
    destruct (sims_lookup _ _ _ _ _ _ _ Hs Hca) as (env & cg' & t & Henv & Hcg' & _ & Hsim).
    rewrite Hcg in Hcg'. injection Hcg' as <-. by exists env, ca, t. }
  destruct Hstep as [i c t todo p Hc Hm Hp|i c t todo l1 l2 Hc Hm Hl|i c Hc Hm Hd|p Hw Hf|i c b ts Hc Hb Hst Ha].
  - destruct (Hback i c Hc) as (env & ca & tl & _ & Hca & Hmain & _).
    rewrite <- Ep in Hp. eexists. eapply step_push; [exact Hca|by rewrite Hmain|exact Hp].
  - destruct (Hback i c Hc) as (env & ca & tl & _ & Hca & Hmain & _).
    rewrite <- Ep in Hl. eexists. eapply step_count; [exact Hca|by rewrite Hmain|exact Hl].
  - destruct (Hback i c Hc) as (env & ca & tl & _ & Hca & Hmain & _).
    rewrite <- Ep in Hd. eexists. eapply step_return; [exact Hca|by rewrite Hmain|exact Hd].
  - rewrite <- Ep in Hw. eexists. eapply step_thread; [exact Hw|].
    by apply (sim_fns_returned _ _ _ _ _ p Hs).
  - destruct (Hback i c Hc) as (env & ca & tl & _ & Hca & Hsim).
    pose proof (sim_advance pm (early i) env n (Sched.task_id (Pool.b_task b)) _ _ _ Hsim) as H.
    rewrite Ha in H. destruct (Tasks.advance n _ (tasks ca)) as [ta|] eqn:Hta; [|done].
    rewrite <- Ep in Hb. eexists. by eapply step_fn.
Qed.

(** ** The invariant *)

(** What collecting and flushing need. *)
Definition collectable (pm : PMap.PartitionMap) (env : StepEnv) w : Prop :=
  Bus.bus_wf (bus_ w) ∧ PMap.worker_count_ pm = Bus.worker_count_ (bus_ w) ∧
  ∀ vid, vid ∈ env_order env → is_Some (vertices_ w !! vid).

Lemma advance_collectable pm env n vid (ts ts' : Tasks.State (D := D)) :
  Tasks.advance n vid ts = Some ts' →
  collectable pm env (Tasks.worker ts) → collectable pm env (Tasks.worker ts').
Proof.
  unfold Tasks.advance. intros (ph & _ & H)%bind_Some (Hb & Hn & Hv).
  destruct ph as [|ms| |]; [| | |done].
  - by injection H as <-.
  - apply bind_Some in H as (w & Hw & [= <-]). unfold Tasks.compute_vertex in Hw.
    apply bind_Some in Hw as ([v d] & _ & Hw). apply bind_Some in Hw as (vd & _ & [= <-]).
    split_and!; try done. intros x Hx. cbn. rewrite lookup_insert_is_Some'. right. by apply Hv.
  - by injection H as <-.
Qed.

Lemma enqueued_wf pm msgs b b' :
  PMap.pmap_wf pm → PMap.worker_count_ pm = Bus.worker_count_ b → Bus.bus_wf b →
  Bus.enqueue_batch pm msgs b = Some b' →
  Bus.bus_wf b' ∧ Bus.worker_count_ b' = Bus.worker_count_ b.
Proof.
  intros Hpm Hn Hb Henq. pose proof Hb as (Hl & Hlen & Ht & Hs & Hr).
  destruct (Bus.enqueue_batch_spec pm msgs b Hpm Hn Hlen) as (boxes & Henq' & Hlb & _).
  rewrite Henq in Henq'. injection Henq' as ->. split; [|done].
  split_and!; try done; cbn; lia.
Qed.

Lemma collect_total pm env w vid :
  PMap.pmap_wf pm → collectable pm env w → is_Some (vertices_ w !! vid) →
  ∃ w', collect_one pm w vid = Some w' ∧ collectable pm env w'.
Proof.
  intros Hpm (Hb & Hn & Hv) [[v d] Hvd]. unfold collect_one. rewrite Hvd. cbn [mbind option_bind].
  case_decide; [by exists w|]. cbn [bus_ set_stats].
  pose proof Hb as (_ & Hlen & _).
  destruct (Bus.enqueue_batch_spec pm (outbox_ v) (bus_ w) Hpm Hn Hlen) as (boxes & Henq & _).
  destruct (enqueued_wf _ _ _ _ Hpm Hn Hb Henq) as [Hb' Hn']. rewrite Henq.
  eexists. split; [done|]. split; [exact Hb'|]. split; [cbn; congruence|].
  intros x Hx. cbn. rewrite lookup_insert_is_Some'. right. by apply Hv.
Qed.

Lemma flush_total pm env w clock :
  collectable pm env w →
  ∃ b, Bus.flush clock (bus_ w) = Some b ∧ collectable pm env (set_bus b w).
Proof.
  intros (Hb & Hn & Hv). eexists. split; [by apply Bus.flush_eq|].
  split; [by apply Bus.flushed_wf|]. by split.
Qed.

Section Run.
Context (pm : PMap.PartitionMap) (envs : list StepEnv) (n : Superstep).
Context (nodes tpn : Z) (p0 : Pool.State) (starts : list (list Sched.Task * WorkerNode D)).

(** A worker that is about to submit its tasks, with nothing in its outboxes. *)
Definition ready (env : StepEnv) (tw : list Sched.Task * WorkerNode D) : Prop :=
  start_ok tw ∧ collectable pm env tw.2 ∧
  map_Forall (λ _ vd, outbox_ vd.1 = []) (vertices_ tw.2).

Context (Hpm : PMap.pmap_wf pm) (Hp0 : Pool.inv nodes tpn p0) (Hq0 : quiet p0).
Context (Hready : Forall2 ready envs starts).

Lemma starts_stats : Forall (λ tw, stats_wf (stats_ tw.2)) starts.
Proof.
  apply Forall_lookup. intros i tw Hi.
  destruct (Forall2_lookup_r _ _ _ _ _ Hready Hi) as (env & _ & [_ ?] & _). done.
Qed.

Lemma starts_ok : Forall start_ok starts.
Proof.
  apply Forall_lookup. intros i tw Hi.
  by destruct (Forall2_lookup_r _ _ _ _ _ Hready Hi) as (env & _ & ? & _).
Qed.

Lemma ghost_inv m g :
  Parallel.steps n m (entered p0 starts) g → system_inv nodes tpn n p0 starts g.
Proof.
  intros Hm. eapply system_steps_inv; [|exact Hm]. apply entered_inv; [done|done|].
  apply starts_stats.
Qed.

Definition inv (early : nat → VertexId → Prop) (x : State) : Prop :=
  ∃ m g, Parallel.steps n m (entered p0 starts) g ∧ sims pm early envs g x ∧
    ∀ i env ca, envs !! i = Some env → clients (sys x) !! i = Some ca →
      collectable pm env (Tasks.worker (tasks ca)).

Lemma begin_inv : inv (λ _ _, False) (begin p0 starts).
Proof.
  exists O, (entered p0 starts). split; [apply Parallel.steps_0|].
  pose proof (Forall2_length _ _ _ Hready) as Hlen. split.
  - constructor; cbn [begin sys tails entered clients pool];
      rewrite ?length_fmap, ?length_replicate; try done.
    intros i env cg ca t _ Hcg Hca Ht. rewrite Hcg in Hca. injection Hca as <-.
    apply lookup_replicate in Ht as [-> _]. by split_and!.
  - intros i env ca Henv Hca. cbn in Hca. apply list_lookup_fmap_Some in Hca as (tw & -> & Htw).
    destruct (Forall2_lookup_lr _ _ _ _ _ _ Hready Henv Htw) as (_ & Hc & _). exact Hc.
Qed.

(** A vertex whose computation is not behind it has nothing to collect. *)
Lemma late_empty early m g x i env cg ca vid L :
  Parallel.steps n m (entered p0 starts) g → sims pm early envs g x →
  envs !! i = Some env → clients g !! i = Some cg → clients (sys x) !! i = Some ca →
  Forall (over (Tasks.phases (tasks cg))) L →
  foldM (collect_one pm) (Tasks.worker (tasks cg)) L = Some (Tasks.worker (tasks ca)) →
  ¬ over (Tasks.phases (tasks cg)) vid →
  ∀ w, collect_one pm (Tasks.worker (tasks ca)) vid = Some w → w = Tasks.worker (tasks ca).
Proof.
  intros Hm Hs Henv Hcg Hca Hov Hfold Hlate w Hw.
  destruct (ghost_inv _ _ Hm) as [_ _ _ (new & fin & _ & _ & _ & Hcs)].
  destruct (Forall2_lookup_r _ _ _ _ _ Hcs Hcg) as (tw & Htw & (_ & _ & _ & _ & _ & Ht) & _).
  destruct (Forall2_lookup_lr _ _ _ _ _ _ Hready Henv Htw) as (_ & _ & Hout).
  assert (vid ∉ L) as Hvid by (intros Hin; rewrite Forall_forall in Hov; by apply Hlate, Hov).
  destruct (collects_compute pm L _ _ vid Hvid Hfold) as [Hv _].
  assert (vertices_ (Tasks.worker (tasks cg)) !! vid = vertices_ tw.2 !! vid) as Hvg.
  { specialize (Ht vid). unfold over in Hlate.
    destruct (Tasks.phases (tasks cg) !! vid) as [[]|]; cbn in Ht; tauto. }
  unfold collect_one in Hw. rewrite Hv, Hvg in Hw. apply bind_Some in Hw as ([v d] & Hvd & Hw).
  rewrite decide_True in Hw by exact (Hout vid (v, d) Hvd). by injection Hw as <-.
Qed.

Lemma inv_collectable (x : State) i c :
  (∀ j env ca, envs !! j = Some env → clients (sys x) !! j = Some ca →
      collectable pm env (Tasks.worker (tasks ca))) →
  (∀ env, envs !! i = Some env → collectable pm env (Tasks.worker (tasks c))) →
  ∀ j env ca, envs !! j = Some env → <[i := c]> (clients (sys x)) !! j = Some ca →
      collectable pm env (Tasks.worker (tasks ca)).
Proof.
  intros Hcol Hi j env ca Henv Hca.
  apply list_lookup_insert_Some in Hca as [(<- & <- & _)|[_ Hca]]; [by apply Hi|by apply (Hcol j)].
Qed.

Lemma tail_step_inv early x x' : inv early x → step pm envs n x x' → inv early x'.
Proof.
  intros (m & g & Hm & Hs & Hcol) Hstep.
  destruct Hstep as [s Hstep|i c env Hc Hmain Ht Henv|i c vid todo w Hc Ht Hw|i c env b Hc Ht Henv Hb].
  - destruct (sim_step _ _ _ _ _ _ _ Hs Hstep) as (g' & Hg' & Hs').
    exists (S m), g'. split; [by eapply Parallel.steps_S|]. split; [done|].
    destruct Hstep as [i c t todo p Hc _ _|i c t todo l1 l2 Hc _ _|i c Hc _ _|p _ _|i c b ts Hc _ _ Ha];
      cbn [sys clients]; try done; apply inv_collectable; try done; intros env Henv;
      cbn [tasks]; try (by apply (Hcol i)).
    eapply advance_collectable; [exact Ha|]. by apply (Hcol i).
  - destruct (sims_lookup _ _ _ _ _ _ _ Hs Hc) as (env' & cg & t' & Henv' & Hcg & Ht' & Hmm & Hph & He & Hsim).
    simplify_eq. exists m, g. split; [done|]. split.
    + eapply sims_tail; [done|done|]. intros env' Henv'. simplify_eq. split_and!; try done.
      { by rewrite <- Hmm. }
      exists [], []. split_and!; [done|constructor|by intros ? []%elem_of_nil|constructor|]. cbn. by rewrite Hsim.
    + cbn [goes_on sys clients]. apply inv_collectable; [done|]. intros env' Henv'. by apply (Hcol i).
  - destruct (sims_lookup _ _ _ _ _ _ _ Hs Hc) as (env & cg & t' & Henv & Hcg & Ht' & Hmm & Hph & He & Hsim).
    rewrite Ht in Ht'. injection Ht' as <-.
    destruct Hsim as (Hret & done & L & Ho & HLd & HLe & Hov & Hfold).
    exists m, g. split; [done|]. split.
    + eapply sims_tail; [done|done|]. intros env' Henv'. simplify_eq. split_and!; try done.
      destruct (decide (over (Tasks.phases (tasks cg)) vid)) as [Hyes|Hno].
      * exists (done ++ [vid]), (L ++ [vid]). split_and!.
        -- by rewrite <- app_assoc.
        -- by apply sublist_app.
        -- intros y. rewrite !elem_of_app, !list_elem_of_singleton. intros [Hy| ->] Hey; [left; auto|by right].
        -- apply Forall_app. by split; [|apply Forall_singleton].
        -- rewrite foldM_app, Hfold. cbn. by rewrite Hw.
      * exists (done ++ [vid]), L. split_and!; [by rewrite <- app_assoc| | |done|].
        -- by apply sublist_inserts_r.
        -- intros y. rewrite elem_of_app, list_elem_of_singleton. intros [Hy| ->] Hey; [auto|].
           by destruct (Hno (He _ Hey)).
        -- rewrite (late_empty early m g x i env cg c vid L Hm Hs Henv Hcg Hc Hov Hfold Hno w Hw). done.
    + cbn [goes_on sys clients]. apply inv_collectable; [done|]. intros env' Henv'. simplify_eq.
      pose proof (Hcol i env c Henv Hc) as Hcc.
      destruct (collect_total pm env (Tasks.worker (tasks c)) vid Hpm Hcc) as (w' & Hw' & Hcc').
      { apply Hcc. rewrite Ho. set_solver. }
      rewrite Hw in Hw'. by injection Hw' as <-.
  - destruct (sims_lookup _ _ _ _ _ _ _ Hs Hc) as (env' & cg & t' & Henv' & Hcg & Ht' & Hmm & Hph & He & Hsim).
    rewrite Henv in Henv'. injection Henv' as <-. rewrite Ht in Ht'. injection Ht' as <-.
    destruct Hsim as (Hret & done & L & Ho & HLd & HLe & Hov & Hfold).
    rewrite app_nil_r in Ho. subst done.
    exists m, g. split; [done|]. split.
    + eapply sims_tail; [done|done|]. intros env' Henv'. rewrite Henv in Henv'.
      injection Henv' as <-. split_and!; try done. by exists L, (Tasks.worker (tasks c)), b.
    + cbn [goes_on sys clients]. apply inv_collectable; [done|]. intros env' Henv'.
      rewrite Henv in Henv'. injection Henv' as <-.
      pose proof (Hcol i env c Henv Hc) as Hcc.
      destruct (flush_total pm env _ (env_clock env) Hcc) as (b' & Hb' & Hcc').
      rewrite Hb in Hb'. by injection Hb' as <-.
Qed.

Lemma tail_steps_inv early m x x' : inv early x → steps pm envs n m x x' → inv early x'.
Proof. intros Hx Hm. induction Hm; [done|]. eapply tail_step_inv; [by apply IHHm|done]. Qed.

(** While a main thread has not gone on, what is computed is early. *)
Lemma early_inv early x i c :
  inv early x → tails x !! i = Some Before → clients (sys x) !! i = Some c →
  inv (λ j vid, j = i ∧ over (Tasks.phases (tasks c)) vid) x.
Proof.
  intros (m & g & Hm & Hs & Hcol) Ht Hc. exists m, g. split_and!; [done| |done].
  pose proof Hs as [Hp Hcl Htl Hen Hall]. constructor; try done.
  intros j env cg ca t Henv Hcg Hca Htj.
  destruct (Hall j env cg ca t Henv Hcg Hca Htj) as (Hmm & Hph & _ & Hsim). split_and!; [done..| |].
  - intros vid [-> Hov]. simplify_eq. by rewrite <- Hph.
  - destruct (decide (j = i)) as [->|Hne]; [by simplify_eq|]. destruct t as [|todo|]; [done|..].
    + destruct Hsim as (Hret & done & L & Ho & HLd & _ & Hrest). split; [done|].
      exists done, L. split_and!; try apply Hrest; try done. by intros ? _ [? _].
    + destruct Hsim as (Hret & L & wm & b & HLd & _ & Hrest). split; [done|].
      exists L, wm, b. split_and!; try apply Hrest; try done. by intros ? _ [? _].
Qed.

(** ** The end of the supersteps *)

Definition with_order (L : list VertexId) (env : StepEnv) : StepEnv :=
  mkEnv L (env_exec env) (env_passes env) (env_clock env).

(** What the barrier finds of a worker that entered with the tasks [tw.1]: its tasks
    have run, and it has routed what the vertices [L] of its order have sent, which
    are all but late ones.  The other vertices are as their tasks have left them. *)
Definition outcome (late : VertexId → Prop) (env : StepEnv) (tw : list Sched.Task * WorkerNode D) (wa : WorkerNode D) : Prop :=
  ∃ L wg, sublist L (env_order env) ∧
    (∀ vid, vid ∈ env_order env → vid ∉ L → late vid) ∧
    (∀ l, l ≡ₚ task_ids tw.1 → foldM (run_task n) tw.2 l = Some wg) ∧
    route_phase pm (with_order L env) wg = Some wa ∧
    ∀ vid, vid ∉ L → vertices_ wa !! vid = vertices_ wg !! vid.

Lemma barrier_outcome m x1 m' x i c1 :
  steps pm envs n m (begin p0 starts) x1 →
  tails x1 !! i = Some Before → clients (sys x1) !! i = Some c1 →
  steps pm envs n m' x1 x → at_barrier x →
  Z.of_nat (length (Pool.pushed (pool (sys x)))) < 2 ^ 64 →
  quiet (pool (sys x)) ∧
  ∀ env tw c, envs !! i = Some env → starts !! i = Some tw → clients (sys x) !! i = Some c →
    outcome (late c1) env tw (Tasks.worker (tasks c)).
Proof.
  intros Hm1 Ht1 Hc1 Hm Hbar Hmax.
  pose proof (tail_steps_inv _ _ _ _ begin_inv Hm1) as Hx1.
  destruct (tail_steps_inv _ _ _ _ (early_inv _ _ _ _ Hx1 Ht1 Hc1) Hm) as (k & g & Hg & Hs & _).
  pose proof (ghost_inv _ _ Hg) as Hinv.
  assert (∀ j c, clients (sys x) !! j = Some c → ∃ env cg, envs !! j = Some env ∧
    clients g !! j = Some cg ∧
    client_sim pm (λ vid, j = i ∧ over (Tasks.phases (tasks c1)) vid) env cg c Flushed) as Hall.
  { intros j c Hc. destruct (sims_lookup _ _ _ _ _ _ _ Hs Hc) as (env & cg & t & Henv & Hcg & Ht & Hsim).
    rewrite (Forall_lookup_1 _ _ _ _ Hbar Ht) in Hsim. by exists env, cg. }
  assert (all_returned g) as Hret.
  { apply Forall_lookup. intros j cg Hcg.
    destruct (lookup_lt_is_Some_2 (clients (sys x)) j) as [c Hc].
    { rewrite (sim_clients _ _ _ _ _ Hs). by eapply lookup_lt_Some. }
    destruct (Hall j c Hc) as (env & cg' & _ & Hcg' & _ & _ & _ & Hr & _).
    rewrite Hcg in Hcg'. by injection Hcg' as <-. }
  rewrite (sim_pool _ _ _ _ _ Hs) in *.
  pose proof (returned_quiet nodes tpn n p0 starts k g Hp0 Hq0 starts_stats Hg Hmax Hret) as Hq.
  split; [done|]. intros env tw c Henv Htw Hc.
  pose proof (returned_finished nodes tpn n p0 starts g Hp0 Hq0 Hinv Hq starts_ok Hret) as Hfin.
  destruct (Hall i c Hc) as (env' & cg & Henv' & Hcg & _ & _ & _ & _ & L & wm & b & HLs & HLe & _ & Hfold & Hb & Hw).
  rewrite Henv in Henv'. injection Henv' as <-.
  pose proof (Forall2_lookup_lr _ _ _ _ _ _ Hfin Htw Hcg) as Hrun. cbn in Hrun.
  exists L, (Tasks.worker (tasks cg)). split_and!; try done.
  - intros vid Hvid HvL Hov. by apply HvL, HLe.
  - unfold route_phase, collect_and_route_outbox. cbn [env_order with_order env_clock].
    rewrite Hfold. cbn [mbind option_bind]. by rewrite Hb, Hw.
  - intros vid Hvid. rewrite Hw. by destruct (collects_compute pm L _ _ vid Hvid Hfold).
Qed.

(** Collecting a vertex that sent nothing does nothing. *)
Lemma collects_all (order L : list VertexId) w wm :
  sublist L order → NoDup order →
  (∀ vid, vid ∈ order → vid ∉ L → ∃ vd, vertices_ w !! vid = Some vd ∧ outbox_ vd.1 = []) →
  foldM (collect_one pm) w L = Some wm → foldM (collect_one pm) w order = Some wm.
Proof.
  intros HLs. revert w. induction HLs as [|x L l HLs IH|x L l HLs IH]; intros w Hnd Hout Hfold.
  - done.
  - apply NoDup_cons in Hnd as [Hx Hnd]. cbn [foldM] in *.
    apply bind_Some in Hfold as (w1 & Hw1 & Hfold). rewrite Hw1. apply IH; [done| |done].
    intros vid Hvid HvL. assert (x ≠ vid) as Hne by (by intros ->).
    destruct (collect_compute pm w w1 x vid Hne Hw1) as [-> _]. apply Hout; [by right|].
    by apply not_elem_of_cons.
  - apply NoDup_cons in Hnd as [Hx Hnd]. cbn [foldM].
    assert (x ∉ L) as HxL by (intros H; by apply Hx, (elem_of_sublist L l)).
    assert (collect_one pm w x = Some w) as ->.
    { destruct (Hout x) as ([v d] & Hv & Ho); [left|done|]. unfold collect_one. rewrite Hv.
      cbn [mbind option_bind]. cbn in Ho. by rewrite decide_True. }
    cbn [mbind option_bind]. apply IH; [done| |done]. intros vid Hvid. apply Hout. by right.
Qed.

(** *** Termination *)

Definition tail_left (env : StepEnv) (t : Tail) : nat :=
  match t with
  | Before => length (env_order env) + 2
  | Collecting todo => length todo + 1
  | Flushed => 0
  end.

Fixpoint tails_left (es : list StepEnv) (ts : list Tail) : nat :=
  match es, ts with
  | env :: es, t :: ts => tail_left env t + tails_left es ts
  | _, _ => 0
  end.

Definition left (x : State) : nat := accesses_left (sys x) + tails_left envs (tails x).

Lemma tails_left_update es ts i env t t' :
  es !! i = Some env → ts !! i = Some t →
  (tails_left es (<[i := t']> ts) + tail_left env t = tails_left es ts + tail_left env t')%nat.
Proof.
  revert ts i. induction es as [|e es IH]; intros [|t0 ts] [|i] He Ht; try done.
  - injection He as <-. injection Ht as <-.
    change (<[O := t']> (t0 :: ts)) with (t' :: ts). cbn [tails_left]. lia.
  - specialize (IH ts i He Ht).
    change (<[S i := t']> (t0 :: ts)) with (t0 :: <[i := t']> ts). cbn [tails_left]. lia.
Qed.

Lemma clients_same c i (cs : list (Client D)) w :
  cs !! i = Some c →
  sum_list_with client_left (<[i := set_worker w c]> cs) = sum_list_with client_left cs.
Proof.
  intros Hc. pose proof (sum_list_insert client_left cs i (set_worker w c) c Hc) as H.
  change (client_left (set_worker w c)) with (client_left c) in H. lia.
Qed.

Lemma tail_step_left early x x' : inv early x → step pm envs n x x' → (left x' < left x)%nat.
Proof.
  intros (m & g & Hm & Hs & _) Hstep. unfold left.
  destruct Hstep as [s Hstep|i c env Hc Hmain Ht Henv|i c vid todo w Hc Ht Hw|i c env b Hc Ht Henv Hb];
    cbn [goes_on sys tails pool clients].
  - apply Parallel.step_left in Hstep. lia.
  - rewrite (list_insert_id _ _ _ Hc).
    pose proof (tails_left_update _ _ _ _ _ (Collecting (env_order env)) Henv Ht) as H.
    unfold accesses_left. cbn [pool clients]. cbn [tail_left] in H. lia.
  - destruct (sims_lookup _ _ _ _ _ _ _ Hs Hc) as (env & _ & _ & Henv & _).
    pose proof (tails_left_update _ _ _ _ _ (Collecting todo) Henv Ht) as H.
    unfold accesses_left. cbn [pool clients]. rewrite clients_same by done.
    cbn [tail_left length] in H. lia.
  - pose proof (tails_left_update _ _ _ _ _ Flushed Henv Ht) as H.
    unfold accesses_left. cbn [pool clients]. rewrite clients_same by done.
    cbn [tail_left length] in H. lia.
Qed.

(** An access that is possible, while somebody is not at the barrier. *)
Lemma stuck_at_barrier early x :
  0 < tpn → Forall (λ tw, Tasks.defined n (task_ids tw.1) tw.2) starts →
  inv early x → (∀ x', ¬ step pm envs n x x') → at_barrier x.
Proof.
  intros Htpn Hdef (m & g & Hm & Hs & Hcol) Hstuck.
  destruct (stuck_returned nodes tpn n p0 starts Hdef g Htpn (ghost_inv _ _ Hm)) as [Hret _].
  { intros g' Hg. destruct (sim_step_back _ _ _ _ _ _ _ Hs Hg) as [s Hx].
    by eapply Hstuck, step_access. }
  apply Forall_lookup. intros i t Ht.
  destruct (lookup_lt_is_Some_2 (clients (sys x)) i) as [c Hc].
  { rewrite (sim_clients _ _ _ _ _ Hs), <- (sim_tails _ _ _ _ _ Hs). by eapply lookup_lt_Some. }
  destruct (sims_lookup _ _ _ _ _ _ _ Hs Hc) as (env & cg & t' & Henv & Hcg & Ht' & Hmm & _ & _ & Hsim).
  rewrite Ht in Ht'. injection Ht' as <-. destruct t as [|[|vid todo]|]; [..|done]; exfalso.
  - eapply Hstuck, step_begin; try done. rewrite Hmm. apply (Forall_lookup_1 _ _ _ _ Hret Hcg).
  - destruct (flush_total pm env _ (env_clock env) (Hcol i env c Henv Hc)) as (b & Hb & _).
    by eapply Hstuck, step_flush.
  - pose proof (Hcol i env c Henv Hc) as Hcc. destruct Hsim as (_ & done & L & Ho & _).
    destruct (collect_total pm env (Tasks.worker (tasks c)) vid Hpm Hcc) as (w & Hw & _).
    { apply Hcc. rewrite Ho. set_solver. }
    by eapply Hstuck, step_collect.
Qed.

Lemma tail_steps_left m x : steps pm envs n m (begin p0 starts) x → (m + left x ≤ left (begin p0 starts))%nat.
Proof.
  intros Hm. remember (begin p0 starts) as x0 eqn:E. induction Hm as [x|m x x' x'' Hm IH Hstep]; [lia|].
  assert (inv (λ _ _, False) x') as Hi
    by (subst x; eapply tail_steps_inv; [apply begin_inv|done]).
  apply (tail_step_left _ _ _ Hi) in Hstep.
  specialize (IH E). lia.
Qed.

(** The accesses of the main threads after [wait_all]. *)
Definition collect_accesses (es : list StepEnv) : nat :=
  sum_list_with (λ env, length (env_order env) + 2)%nat es.

Lemma begin_left : (left (begin p0 starts) ≤ accesses starts + collect_accesses envs)%nat.
Proof.
  unfold left, begin. cbn [sys tails].
  pose proof (entered_left p0 starts Hq0) as H1.
  rewrite <- (Forall2_length _ _ _ Hready).
  assert (tails_left envs (replicate (length envs) Before) = collect_accesses envs) as ->; [|lia].
  clear. unfold collect_accesses.
  induction envs as [|e es IH]; [done|]. cbn. by rewrite IH.
Qed.

End Run.

(** ** The workers that enter *)

(** A worker between two supersteps, its outboxes empty ([worker_wf]), that selects its
    tasks [tw.1] and is then [tw.2]. *)
Definition enters (pm : PMap.PartitionMap) (n : Superstep) (ew : StepEnv * WorkerNode D)
    (tw : list Sched.Task * WorkerNode D) : Prop :=
  worker_wf pm ew.2 ∧ env_wf ew.1 ew.2 ∧ computes ew.1 n ew.2 ∧
  select_tasks (env_order ew.1) (receive_phase ew.1 ew.2) = Some (tw.2, tw.1).

Lemma enters_ready pm n ew tw : enters pm n ew tw → ready pm ew.1 tw.
Proof.
  intros (Hwf & Henv & _ & Hsel).
  destruct (selected _ _ _ _ _ Hwf Henv Hsel) as (Hnd & Hst & _). split; [done|].
  destruct (receive_phase_spec pm ew.1 ew.2 Hwf) as (Hwf1 & _ & Hv1 & _).
  assert (env_wf ew.1 (receive_phase ew.1 ew.2)) as Henv1 by (unfold env_wf; by rewrite Hv1).
  destruct (tasks_selected pm ew.1 _ Hwf1 Henv1) as (w1 & ts & Hsel' & Hsame & _ & _ & Hv & _).
  rewrite Hsel in Hsel'. injection Hsel' as <- <-. destruct Hsame as (_ & _ & Hb & _ & _).
  destruct Hwf1 as (Hpm & Hn & Hbw & _ & _ & _ & _ & Hok & _). split.
  - unfold collectable. rewrite Hb. split_and!; try done. intros vid Hvid. rewrite Hv.
    rewrite (env_order_in _ _ _ Henv1) in Hvid. case_decide; [by rewrite fmap_is_Some|done].
  - intros vid vd Hvd. rewrite Hv in Hvd. case_decide.
    + apply fmap_Some in Hvd as (vd0 & Hvd0 & ->). by destruct (Hok vid vd0 Hvd0) as (_ & _ & ? & _).
    + by destruct (Hok vid vd Hvd) as (_ & _ & ? & _).
Qed.

Lemma enter_all pm n ews starts :
  in_u64 n → Forall2 (enters pm n) ews starts →
  Forall2 (ready pm) ews.*1 starts ∧
  Forall (λ tw, Tasks.defined n (task_ids tw.1) tw.2) starts.
Proof.
  intros Hn Hall. split.
  - apply Forall2_fmap_l. eapply Forall2_impl; [exact Hall|]. intros ew tw. apply enters_ready.
  - induction Hall as [|ew tw ews starts (Hwf & Henv & Hc & Hsel) _ IH]; [done|].
    constructor; [|done].
    destruct (selected_defined _ _ _ _ Hwf Henv Hn Hc) as (w1 & ts & _ & _ & Hsel' & Htd & _).
    rewrite Hsel in Hsel'. by injection Hsel' as -> ->.
Qed.

Lemma run_tasks_vertices n l w w' vid :
  NoDup l → stats_wf (stats_ w) → foldM (run_task n) w l = Some w' →
  is_Some (vertices_ w !! vid) → is_Some (vertices_ w' !! vid).
Proof.
  intros Hnd Hst Hl Hv. destruct (run_tasks_spec _ _ _ _ Hnd Hst Hl) as (_ & _ & _ & _ & H).
  specialize (H vid). case_decide; [by destruct H as (? & _ & _ & ? & _)|by destruct H as [-> _]].
Qed.

(** A worker that has left nothing behind, or had no late task, is what
    [run_superstep] says. *)
Lemma outcome_run pm n lates ew tw wa :
  enters pm n ew tw → outcome pm n lates ew.1 tw wa →
  map_Forall (λ _ vd, outbox_ vd.1 = []) (vertices_ wa) ∨ (∀ vid, ¬ lates vid) →
  let w' := set_stats (add_superstep (stats_ wa)) wa in
  run_superstep pm ew.1 n ew.2 = Some (w', count_active w').
Proof.
  intros Hent (L & wg & HsubL & Hlate & Hrun & Hroute & Hrest) Hout. cbn zeta.
  pose proof Hent as (Hwf & Henv & _ & Hsel).
  destruct (selected _ _ _ _ _ Hwf Henv Hsel) as (Hnd & Hst & Hperm).
  destruct (enters_ready pm n ew tw Hent) as (_ & (_ & _ & Hcol) & _).
  unfold run_superstep, compute_phase. rewrite Hsel. cbn [mbind option_bind].
  rewrite (Hrun _ Hperm). cbn [mbind option_bind].
  assert (route_phase pm ew.1 wg = Some wa) as ->; [|done].
  revert Hroute. unfold route_phase, collect_and_route_outbox. cbn [with_order env_order env_clock].
  intros (wm & Hfold & Hfl)%bind_Some.
  rewrite (collects_all pm (env_order ew.1) L wg wm); [done|done|by eapply env_order_NoDup| |done].
  intros vid Hvid HvL. specialize (Hrest vid HvL).
  destruct Hout as [Hout|Hno]; [|by destruct (Hno vid (Hlate vid Hvid HvL))].
  assert (is_Some (vertices_ wg !! vid)) as [vd Hvd].
  { eapply run_tasks_vertices; [|apply Hst|by apply (Hrun (task_ids tw.1))|]; [done|].
    by apply Hcol. }
  exists vd. split; [done|]. rewrite <- Hrest in Hvd. exact (Hout vid vd Hvd).
Qed.

(** ** Executing a schedule *)

(** Whose access comes next: one of [Parallel], or of the main thread of worker [i]
    after its [wait_all]. *)
Inductive Turn :=
  | Base (a : Parallel.Turn)
  | Begin (i : nat)
  | Collect (i : nat)
  | Flush (i : nat).

Definition turn (pm : PMap.PartitionMap) (envs : list StepEnv) (n : Superstep) (x : State) (a : Turn)
    : option State :=
  match a with
  | Base a => s ← Parallel.turn n (sys x) a; Some (mkState s (tails x))
  | Begin i =>
      c ← clients (sys x) !! i; env ← envs !! i; t ← tails x !! i;
      match main c, t with
      | Returned, Before => Some (goes_on x i c (Collecting (env_order env)))
      | _, _ => None
      end
  | Collect i =>
      c ← clients (sys x) !! i; t ← tails x !! i;
      match t with
      | Collecting (vid :: todo) =>
          w ← collect_one pm (Tasks.worker (tasks c)) vid;
          Some (goes_on x i (set_worker w c) (Collecting todo))
      | _ => None
      end
  | Flush i =>
      c ← clients (sys x) !! i; env ← envs !! i; t ← tails x !! i;
      match t with
      | Collecting [] =>
          b ← Bus.flush (env_clock env) (bus_ (Tasks.worker (tasks c)));
          Some (goes_on x i (set_worker (set_bus b (Tasks.worker (tasks c))) c) Flushed)
      | _ => None
      end
  end.

Lemma tail_turn_step pm envs n x a x' : turn pm envs n x a = Some x' → step pm envs n x x'.
Proof.
  destruct a as [a|i|i|i]; cbn [turn].
  - intros (s & Hs%Parallel.turn_step & [= <-])%bind_Some. by apply step_access.
  - intros (c & Hc & (env & Henv & (t & Ht & H)%bind_Some)%bind_Some)%bind_Some.
    destruct (main c) eqn:Hm, t; try done. injection H as <-. by apply step_begin.
  - intros (c & Hc & (t & Ht & H)%bind_Some)%bind_Some. destruct t as [|[|vid todo]|]; try done.
    apply bind_Some in H as (w & Hw & [= <-]). by eapply step_collect.
  - intros (c & Hc & (env & Henv & (t & Ht & H)%bind_Some)%bind_Some)%bind_Some.
    destruct t as [|[|vid todo]|]; try done.
    apply bind_Some in H as (b & Hb & [= <-]). by eapply step_flush.
Qed.

Lemma tail_turns_steps pm envs n schedule x x' :
  foldM (turn pm envs n) x schedule = Some x' → steps pm envs n (length schedule) x x'.
Proof.
  induction schedule as [|a schedule IH] using rev_ind in x' |- *.
  { intros [= <-]. apply steps_0. }
  rewrite foldM_app, length_app, Nat.add_comm. cbn [foldM length].
  intros (x1 & H1 & H2)%bind_Some. apply bind_Some in H2 as (x2 & H2 & [= <-]).
  eapply steps_S; [by apply IH|by eapply tail_turn_step].
Qed.

(** ** Properties *)

(** C12: The supersteps of many workers on one scheduler reach the barrier.  Let any
    number of workers with empty outboxes enter a superstep whose computations are
    defined, on an idle scheduler.  Any interleaving of their main threads and of the worker threads
    makes at most nine accesses for each task, one for each vertex that is collected
    and three for each worker; and one that cannot go on has every main thread past
    its [flush], at the barrier.  That a [wait_all] returns early stops nobody. *)
Theorem supersteps_reach_barrier nodes tpn pm n p ews starts m x :
  0 < nodes → 0 < tpn → PMap.pmap_wf pm → in_u64 n → Pool.reachable nodes tpn p → quiet p →
  Forall2 (enters pm n) ews starts →
  steps pm ews.*1 n m (begin p starts) x →
  (m ≤ accesses starts + collect_accesses ews.*1)%nat ∧
  ((∀ x', ¬ step pm ews.*1 n x x') → at_barrier x).
Proof.
  intros Hn Htpn Hpm Hst Hp%Pool.pool_reachable_inv Hq Hents Hm; [|done].
  destruct (enter_all _ _ _ _ Hst Hents) as [Hready Hdef]. split.
  - pose proof (tail_steps_left pm ews.*1 n nodes tpn p starts Hpm Hp Hq Hready m x Hm).
    pose proof (begin_left pm ews.*1 p starts Hq Hready). lia.
  - intros Hstuck. apply (stuck_at_barrier pm ews.*1 n nodes tpn p starts Hpm Hp Hq Hready (λ _ _, False));
      try done.
    apply (tail_steps_inv pm ews.*1 n nodes tpn p starts Hpm Hp Hq Hready _ m (begin p starts));
      [by apply (begin_inv _ _ _ p)|done].
Qed.

(** C14: What the workers are at the barrier, however the threads have interleaved.
    Take any moment at which worker [i] has not begun to collect, and the vertices
    that are late then: those with a task that has not computed them.  When every main
    thread is past its [flush], at the barrier, no task is left in the scheduler.  The
    worker has run all the tasks [tw.1] it entered with, also those that ran while it
    was collecting, with the effect they have one after the other in any order.  It
    has collected and routed what its vertices sent, with the possible exception of
    late ones; what it has not collected is as its task has left it, the messages in
    the outbox.  If no vertex was late, or no outbox has a message left, the worker is
    exactly what [run_superstep] computes.  (The model orders the collection of a
    vertex and its [compute]; in C++ the two at the same time are a data race.) *)
Theorem superstep_outcome nodes tpn pm n p ews starts m1 x1 m x i ew tw c1 c :
  0 < nodes → PMap.pmap_wf pm → in_u64 n → Pool.reachable nodes tpn p → quiet p →
  Forall2 (enters pm n) ews starts → ews !! i = Some ew → starts !! i = Some tw →
  steps pm ews.*1 n m1 (begin p starts) x1 →
  tails x1 !! i = Some Before → clients (sys x1) !! i = Some c1 →
  steps pm ews.*1 n m x1 x → at_barrier x → clients (sys x) !! i = Some c →
  Z.of_nat (length (Pool.pushed (pool (sys x)))) < 2 ^ 64 →
  let wa := Tasks.worker (tasks c) in
  let w' := set_stats (add_superstep (stats_ wa)) wa in
  quiet (pool (sys x)) ∧ outcome pm n (late c1) ew.1 tw wa ∧
  (map_Forall (λ _ vd, outbox_ vd.1 = []) (vertices_ wa) ∨ (∀ vid, ¬ late c1 vid) →
   run_superstep pm ew.1 n ew.2 = Some (w', count_active w')).
Proof.
  intros Hn Hpm Hst Hp%Pool.pool_reachable_inv Hq Hents Hew Htw Hm1 Ht1 Hc1 Hm Hbar Hc Hmax wa w'; [|done].
  destruct (enter_all _ _ _ _ Hst Hents) as [Hready _].
  destruct (barrier_outcome pm ews.*1 n nodes tpn p starts Hpm Hp Hq Hready m1 x1 m x i c1)
    as [Hquiet Hout]; try done.
  assert (outcome pm n (late c1) ew.1 tw wa) as Ho
    by (apply Hout; [by rewrite list_lookup_fmap, Hew|done|done]).
  split_and!; [done|done|]. apply (outcome_run pm n (late c1) ew tw wa); try done.
  by apply (Forall2_lookup_lr _ _ _ i ew tw Hents).
Qed.

End Collect.
Arguments State D : clear implicits.

(** ** The theorems on a concrete run *)

#[local] Existing Instance Venue.lcg.

Definition two_workers : list (StepEnv * WorkerNode (OBData Z)) :=
  [(sample_env, sample_worker 2 1); (other_env, other_worker)].

(** After the race of [ParallelStep] worker 1 collects and flushes while its task of
    vertex 1 is queued, and is at the barrier before that task runs. *)
Definition late_schedule : list Turn :=
  Begin 0 :: (const (Collect 0) <$> env_order sample_env) ++ [Flush 0] ++
  (Base <$> [Count 1 0; Take 1; Fn 0 0; Fn 0 0; Fn 0 0; Run 0 10; Unload 0; Complete 0; Return 1]) ++
  [Begin 1; Collect 1; Flush 1].

Definition late_end : State (OBData Z) :=
  default (begin fresh_pool [])
    (foldM (turn (PMap.new 2) two_workers.*1 0) (begin fresh_pool two_starts)
       ((Base <$> race) ++ late_schedule)).

Definition late_start : list Sched.Task * WorkerNode (OBData Z) :=
  default ([], sample_worker 2 1) (two_starts !! O).

(** When worker 1 is about to collect. *)
Definition late_before : State (OBData Z) :=
  default (begin fresh_pool [])
    (foldM (turn (PMap.new 2) two_workers.*1 0) (begin fresh_pool two_starts) (Base <$> race)).

Lemma race_before :
  steps (PMap.new 2) two_workers.*1 0 (length (Base <$> race)) (begin fresh_pool two_starts) late_before.
Proof. apply tail_turns_steps. vm_compute. reflexivity. Qed.

Lemma late_after :
  steps (PMap.new 2) two_workers.*1 0 (length late_schedule) late_before late_end.
Proof. apply tail_turns_steps. vm_compute. reflexivity. Qed.

Lemma late_runs :
  steps (PMap.new 2) two_workers.*1 0 (length ((Base <$> race) ++ late_schedule))
    (begin fresh_pool two_starts) late_end.
Proof. apply tail_turns_steps. vm_compute. reflexivity. Qed.

Lemma late_at_barrier : at_barrier late_end.
Proof.
  unfold at_barrier. replace (tails late_end) with [Flushed; Flushed] by (vm_compute; reflexivity).
  by repeat constructor.
Qed.

Lemma two_workers_enter : Forall2 (enters (PMap.new 2) 0) two_workers two_starts.
Proof.
  assert (computes sample_env 0 (sample_worker 2 1)) as H1.
  { eapply run_superstep_defined; [by apply (sample_worker_wf 2 1)|apply sample_env_wf|].
    apply (sample_runs 2 1). auto. }
  assert (computes other_env 0 other_worker) as H2.
  { eapply run_superstep_defined; [exact other_worker_wf|exact other_env_wf|]. vm_compute. reflexivity. }
  unfold two_starts, two_workers.
  destruct (select_tasks (env_order sample_env) _) as [[w1 ts1]|] eqn:E1;
    [|exfalso; by vm_compute in E1].
  destruct (select_tasks (env_order other_env) _) as [[w0 ts0]|] eqn:E0;
    [|exfalso; by vm_compute in E0].
  cbn [mbind option_bind default].
  apply Forall2_cons. split; [|apply Forall2_cons; split; [|by apply Forall2_nil]].
  - split_and!; [by apply (sample_worker_wf 2 1)|apply sample_env_wf|done|done].
  - split_and!; [exact other_worker_wf|exact other_env_wf|done|done].
Qed.

Lemma supersteps_reach_barrier_witness :
  (length ((Base <$> race) ++ late_schedule) ≤ accesses two_starts + collect_accesses two_workers.*1)%nat ∧
  ((∀ x', ¬ step (PMap.new 2) two_workers.*1 0 late_end x') → at_barrier late_end).
Proof.
  exact (supersteps_reach_barrier 2 1 (PMap.new 2) 0 fresh_pool two_workers two_starts
    (length ((Base <$> race) ++ late_schedule)) late_end ltac:(lia) ltac:(lia) (PMap.pmap_new_wf 2 ltac:(lia)) ltac:(done)
    (Pool.reachable_init 2 1) fresh_quiet two_workers_enter late_runs).
Defined.

(** The task of vertex 1 is late: it has run in the end, and left its message in the
    outbox. *)
Lemma superstep_outcome_witness :
  ∃ c1 c, clients (sys late_before) !! O = Some c1 ∧ late c1 1 ∧ ¬ late c1 3 ∧
    clients (sys late_end) !! O = Some c ∧
    outcome (PMap.new 2) 0 (late c1) sample_env late_start (Tasks.worker (tasks c)) ∧
    ((λ vd, msg_dst <$> outbox_ vd.1) <$> vertices_ (Tasks.worker (tasks c)) !! 1) = Some [3].
Proof.
  assert (0 < 2) as H2 by lia. pose proof (PMap.pmap_new_wf 2 ltac:(lia)) as Hpm.
  assert (in_u64 0) as H0 by done.
  destruct (clients (sys late_before) !! O) as [c1|] eqn:Hc1; [|by vm_compute in Hc1].
  destruct (clients (sys late_end) !! O) as [c|] eqn:Hc; [|by vm_compute in Hc].
  exists c1, c. split; [exact eq_refl|].
  assert (tails late_before !! O = Some Before) as Ht by (vm_compute; reflexivity).
  assert (Z.of_nat (length (Pool.pushed (pool (sys late_end)))) < 2 ^ 64) as Hmax
    by (vm_compute; reflexivity).
  assert (two_starts !! O = Some late_start) as Hstart by (vm_compute; reflexivity).
  assert (outcome (PMap.new 2) 0 (late c1) sample_env late_start (Tasks.worker (tasks c))) as Ho.
  { refine (proj1 (proj2 (superstep_outcome 2 1 (PMap.new 2) 0 fresh_pool two_workers two_starts
      (length (Base <$> race)) late_before (length late_schedule) late_end O
      (sample_env, sample_worker 2 1) late_start c1 c H2 Hpm H0
      (Pool.reachable_init 2 1) fresh_quiet two_workers_enter eq_refl Hstart race_before Ht Hc1
      late_after late_at_barrier Hc Hmax))). }
  clear Ht Hmax Hstart. vm_compute in Hc1. injection Hc1 as <-. split; [|split].
  - intros Hov. exact Hov.
  - intros Hl. apply Hl. exact I.
  - split; [exact eq_refl|]. split; [exact Ho|].
    clear Ho. vm_compute in Hc. injection Hc as <-. vm_compute. reflexivity.
Defined.

End Collect.
