(* ===== verification/PregelSpec.v ===== *)
(** The abstract bulk-synchronous machine, and the refinement of the engine's
    worker to it.

    A [Machine] is what Pregel promises a programmer: the vertices, and the
    messages in flight between two supersteps.  In a superstep every vertex
    receives the messages addressed to it, in the order they were sent; a halted
    vertex without messages is skipped; the messages sent are in flight for the
    next superstep.  A superstep is undefined when a computation is.

    With one worker [WorkerNode] implements this machine exactly
    ([single_worker_refines]); with several it does not, because
    [RdmaTransport] never carries a message from one worker to another
    ([Superstep.foreign_mail_never_arrives]). *)
From S2P Require Import Prelude Types Vertex PartitionMap RdmaTransport MessageBus NumaScheduler WorkerNode OrderBook VenueVertex Superstep.
Local Open Scope Z_scope.

Module Pregel.
Import Worker Superstep.
Section Pregel.
Context {D : Type} `{HI : VertexImpl D, HL : !VertexLaws D}.

Record Machine := mkMachine {
  verts : gmap Z (Vertex * D);
  flight : list Message;
}.

(** The computation of one vertex. *)
Definition advance (step : Superstep) (m : Machine) (vid : VertexId) (vd : Vertex * D)
    : option (Vertex * D) :=
  next_vertex step (for_vertex vid (flight m)) vd.

(** A superstep; [order] is the order in which the outboxes are collected. *)
Definition pregel_step (m : Machine) (os : list VertexId * Superstep) : option Machine :=
  if decide (map_Forall (λ vid vd, is_Some (advance os.2 m vid vd)) (verts m))
  then Some (mkMachine
    (map_imap (λ vid vd, cleared <$> advance os.2 m vid vd) (verts m))
    (os.1 ≫= λ vid,
       match verts m !! vid ≫= advance os.2 m vid with
       | Some vd => outbox_ vd.1 | None => [] end))
  else None.

(** The abstraction of a worker that is between two supersteps. *)
Definition abstract (w : WorkerNode D) : Machine :=
  mkMachine (vertices_ w) (Bus.inbox_ (bus_ w)).

(** A lone worker between two supersteps: its vertices' mailboxes are empty. *)
Definition alone (pm : PMap.PartitionMap) (w : WorkerNode D) : Prop :=
  worker_wf pm w ∧ PMap.worker_count_ pm = 1 ∧
  ∀ vid, is_Some (vertices_ w !! vid) → mail (vertex_inbox_ w) vid = [].

Lemma alone_id pm w : alone pm w → id_ w = 0.
Proof. intros ((_ & Hc & ((? & ?) & _) & <- & _) & Hn & _). lia. Qed.

Lemma network_run_none (b : Bus.MessageBus) passes :
  Bus.bus_wf b → Bus.worker_count_ b = 1 → Bus.network_run passes b = b.
Proof.
  intros ((? & ?) & _ & Htr & _) Hn. unfold Bus.network_run, Bus.set_transport.
  destruct b as [i n r [t|] bs inb ms mr]; cbn in *; [|done].
  destruct Htr as (_ & Hw & Hl & Hc). rewrite Transport.network_run_alone; try done; lia.
Qed.

Lemma alone_arrived pm env w :
  alone pm w → arrived env w = Bus.inbox_ (bus_ w).
Proof.
  intros Hal. pose proof (alone_id pm w Hal) as Hid.
  destruct Hal as ((_ & Hc & Hb & Hl & _) & Hn & _). rewrite Hn in Hc.
  unfold arrived. rewrite network_run_none, Bus.drain_inbox_eq by done. cbn [snd].
  destruct Hb as (_ & _ & Htr & _). destruct (Bus.transport_ (bus_ w)) as [t|].
  - destruct Htr as (_ & Hw & Hl' & Hc').
    rewrite Transport.receive_all_alone by (done || congruence). apply app_nil_r.
  - apply app_nil_r.
Qed.

Lemma alone_computed pm env step w vid :
  alone pm w →
  computed env step w vid = vertices_ w !! vid ≫= advance step (abstract w) vid.
Proof.
  intros Hal. unfold computed, advance, received. rewrite (alone_arrived pm) by done.
  destruct Hal as (_ & _ & Hm). specialize (Hm vid).
  destruct (vertices_ w !! vid) as [vd|]; [|done]. cbn. by rewrite Hm by (by eexists).
Qed.

Lemma alone_routes pm w ms : alone pm w → Bus.for_worker pm (Z.to_nat (id_ w)) ms = ms.
Proof.
  intros Hal. rewrite (alone_id pm w Hal). destruct Hal as ((Hpm & _) & Hn & _).
  unfold Bus.for_worker. induction ms as [|m ms IH]; [done|].
  rewrite filter_cons_True; [by rewrite IH|].
  destruct (PMap.owner_of_in_range (msg_dst m) pm Hpm) as (o & -> & Ho). cbn.
  do 2 f_equal. lia.
Qed.

(** One superstep of a lone worker is one step of the machine. *)
Lemma step_refines pm env step w :
  alone pm w → env_wf env w → in_u64 step →
  match run_superstep pm env step w with
  | Some (w', _) => alone pm w' ∧ dom (vertices_ w') = dom (vertices_ w) ∧
      pregel_step (abstract w) (env_order env, step) = Some (abstract w')
  | None => pregel_step (abstract w) (env_order env, step) = None
  end.
Proof.
  intros Hal Henv Hst. pose proof Hal as (Hwf & Hn & _).
  assert (computes env step w ↔
    map_Forall (λ vid vd, is_Some (advance step (abstract w) vid vd)) (vertices_ w)) as Hiff.
  { unfold computes. setoid_rewrite (alone_computed pm env step w _ Hal). split.
    - intros Hc vid vd Hvd. specialize (Hc vid). rewrite Hvd in Hc. cbn in Hc. apply Hc.
      by eexists.
    - intros Hc vid [vd Hvd]. rewrite Hvd. cbn. by apply Hc. }
  unfold pregel_step. cbn [fst snd abstract verts].
  destruct (run_superstep pm env step w) as [[w' n]|] eqn:Hrun.
  - pose proof (run_superstep_defined _ _ _ _ _ Hwf Henv Hrun) as Hdef.
    destruct (run_superstep_effect pm env step w Hwf Henv Hst Hdef)
      as (w1 & Hrun' & Hwf' & Hid & Hv & Hm & Hin & _).
    rewrite Hrun in Hrun'. injection Hrun' as <- _.
    pose proof (superstep_dom _ _ _ _ Hdef Hv) as Hdom.
    split; [split_and!; try done|split; [done|]].
    + intros vid Hvid. rewrite Hm, decide_True; [done|].
      by rewrite <- elem_of_dom, <- Hdom, elem_of_dom.
    + rewrite decide_True by (by apply Hiff). f_equal. unfold abstract. f_equal.
      * apply map_eq. intros vid. rewrite map_lookup_imap, Hv, (alone_computed pm) by done.
        by destruct (vertices_ w !! vid).
      * rewrite Hin, alone_routes by done. unfold sent.
        apply list_bind_ext; [|done]. intros vid. by rewrite (alone_computed pm).
  - rewrite decide_False; [done|]. intros Hc%Hiff.
    destruct (run_superstep_effect pm env step w Hwf Henv Hst Hc) as (w' & ? & _).
    congruence.
Qed.

(** C2: A lone worker is a Pregel machine.  Starting from a worker that is alone
    and between supersteps, running any number of supersteps and forgetting
    everything but the vertices and the inbox of the bus gives exactly the
    result of the abstract machine, and one is undefined when the other is:
    whatever the scheduler, the clocks and the network threads do, and whether
    or not RDMA is simulated. *)
Theorem single_worker_refines pm envs w :
  alone pm w → envs_wf envs w →
  abstract <$> run_supersteps pm envs w =
  foldM pregel_step (abstract w) ((λ es, (env_order es.1, es.2)) <$> envs).
Proof.
  revert w. induction envs as [|[env step] envs IH]; intros w Hal Henvs; [done|].
  apply Forall_cons in Henvs as [[Henv Hst] Henvs].
  pose proof (step_refines pm env step w Hal Henv Hst) as H1.
  unfold run_supersteps in *. cbn [foldM fmap list_fmap fst snd].
  destruct (run_superstep pm env step w) as [[w' n]|]; cbn [fmap option_fmap option_map fst].
  - destruct H1 as (Hal' & Hdom & ->). cbn [mbind option_bind]. apply IH; [done|].
    unfold envs_wf, env_wf. by rewrite Hdom.
  - by rewrite H1.
Qed.

End Pregel.
Arguments Machine D : clear implicits.
(** ** The refinement at a concrete worker *)

#[local] Existing Instance Venue.lcg.

(** Two supersteps of the sample worker, alone. *)
Lemma single_worker_refines_witness :
  let envs := [(sample_env, 0); (sample_env, 1)] in
  abstract <$> run_supersteps (PMap.new 1) envs (sample_worker 1 0) =
  foldM pregel_step (abstract (sample_worker 1 0))
    ((λ es : StepEnv * Superstep, (env_order es.1, es.2)) <$> envs).
Proof.
  cbn zeta. apply single_worker_refines.
  - split; [by apply sample_worker_wf|]. split; [done|]. intros vid _. done.
  - repeat constructor; try apply sample_env_wf; done.
Defined.

End Pregel.
