(* ===== verification/OrderBookGraph.v ===== *)
(** Building the order-book graph: [build_order_book_graph] of
    [src/order_book_graph.cpp], with its parameters and result
    ([src/order_book_graph.hpp]).

    The random engine with its two distributions is an interface,
    [GraphSource]: how [std::uniform_int_distribution] and
    [std::normal_distribution] draw is left open by the C++ standard.  What they
    promise is [GraphSourceLaws].  [BoundedPriceDraws] is no promise of theirs: a
    normal distribution may draw anything, and the theorems that name this class
    are about the seeds whose draws it covers.  [clock] gives the time stamp of each order.
    [None] is undefined behaviour: a division by a worker count of zero, a signed
    overflow, or an index out of range. *)
From S2P Require Import Prelude Float64 Types Vertex OrderVertex PriceLevelVertex VenueVertex MarketMakerVertex OrderBook.
Local Open Scope Z_scope.

(** [graph_seed] is [std::mt19937_64(seed)] with two fresh distributions,
    [qty_draw] a draw of [qty_dist], [price_draw] one of [price_noise] converted
    to [int64_t], [word_draw] the engine's next word. *)
Class GraphSource (G : Type) := {
  graph_seed : Z → G;
  qty_draw : G → Z * G;
  price_draw : G → Z * G;
  word_draw : G → Z * G;
}.

(** [qty_dist(100, 10000)] stays in its interval, and a word has 64 bits. *)
Class GraphSourceLaws (G : Type) `{GraphSource G} := {
  qty_draw_range g : 100 ≤ (qty_draw g).1 ≤ 10000;
  word_draw_range g : in_u64 (word_draw g).1;
}.

(** The assumption that no price draw exceeds a million.  The distribution has the
    standard deviation 5, so a larger draw is improbable; the C++ standard does not
    exclude it. *)
Class BoundedPriceDraws (G : Type) `{GraphSource G} :=
  price_draw_range g : Z.abs (price_draw g).1 ≤ 1000000.

Module Graph.
Section Graph.
Context {R G : Type} `{HN : NoiseSource R, HG : GraphSource G, HL : !GraphSourceLaws G,
  HB : !BoundedPriceDraws G}.

(** [OrderBookGraphParams] *)
Record Params := mkParams {
  p_venue_count : Z;
  p_price_levels : Z;
  p_orders_per_level : Z;
  p_market_maker_count : Z;
  p_worker_count : Z;
  p_seed : Z;
}.

Record GraphData := mkGraph {
  vertices : list (Vertex * OBData R);
  total_edges : Z;
  venue_count : Z;
  price_level_count : Z;
  order_count : Z;
  mm_count : Z;
}.

(** The local variables of the function. *)
Record Build := mkBuild {
  rng_ : G;
  next_id : VertexId;
  data_ : GraphData;
  venue_ids : list VertexId;
  price_level_ids : list VertexId;
  order_ids : list VertexId;
}.

Definition BASE_PRICE : Z := 150 * FIXED_SCALE.

Definition venue_names : list string := ["NYSE"; "NASDAQ"; "CBOE"; "BATS"; "IEX"]%string.

(** [vid % w_count] *)
Definition owner_mod (p : Params) (vid : VertexId) : option WorkerId :=
  if decide (p_worker_count p = 0) then None else Some (u32 (vid `mod` p_worker_count p)).

(** [data.vertices.push_back] *)
Definition push_vertex (vd : Vertex * OBData R) (d : GraphData) : GraphData :=
  mkGraph (vertices d ++ [vd]) (total_edges d) (venue_count d) (price_level_count d)
    (order_count d) (mm_count d).
(** [data.vertices[i]->edges().push_back(e)] *)
Definition push_edge (i : VertexId) (e : Edge) (d : GraphData) : option GraphData :=
  vd ← vertices d !! Z.to_nat i;
  Some (mkGraph (<[Z.to_nat i := (add_edge e vd.1, vd.2)]> (vertices d)) (total_edges d)
          (venue_count d) (price_level_count d) (order_count d) (mm_count d)).
(** [data.total_edges += n] *)
Definition count_edges (n : Z) (d : GraphData) : GraphData :=
  mkGraph (vertices d) (u64 (total_edges d + n)) (venue_count d) (price_level_count d)
    (order_count d) (mm_count d).
Definition count_venue (d : GraphData) : GraphData :=
  mkGraph (vertices d) (total_edges d) (u32 (venue_count d + 1)) (price_level_count d)
    (order_count d) (mm_count d).
Definition count_level (d : GraphData) : GraphData :=
  mkGraph (vertices d) (total_edges d) (venue_count d) (u32 (price_level_count d + 1))
    (order_count d) (mm_count d).
Definition count_order (d : GraphData) : GraphData :=
  mkGraph (vertices d) (total_edges d) (venue_count d) (price_level_count d)
    (u64 (order_count d + 1)) (mm_count d).
Definition count_maker (d : GraphData) : GraphData :=
  mkGraph (vertices d) (total_edges d) (venue_count d) (price_level_count d) (order_count d)
    (u32 (mm_count d + 1)).

Definition set_data (d : GraphData) (b : Build) : Build :=
  mkBuild (rng_ b) (next_id b) d (venue_ids b) (price_level_ids b) (order_ids b).

(** The body of the first loop. *)
Definition add_venue (p : Params) (b : Build) (v : nat) : option Build :=
  let vid := next_id b in
  let '(n1, g) := price_draw (rng_ b) in
  let '(n2, g) := price_draw g in
  let '(q1, g) := qty_draw g in
  let '(q2, g) := qty_draw g in
  bid ← i64 (BASE_PRICE - 100 + n1);
  ask ← i64 (BASE_PRICE + 100 + n2);
  owner ← owner_mod p vid;
  let vs := Venue.mkState (Z.of_nat v) (default ""%string (venue_names !! (v `mod` 5)%nat))
              bid ask q1 q2 (bool_decide (v = O)) in
  Some (mkBuild g (u64 (vid + 1))
          (count_venue (push_vertex (new_vertex vid VENUE owner, VenueV (Venue.new vs)) (data_ b)))
          (venue_ids b ++ [vid]) (price_level_ids b) (order_ids b)).

(** The body of the loop over the orders of a level; [pl] is [*pl_vertex]. *)
Definition add_order (p : Params) (clock : VertexId → Z) (v : nat) (side : Side)
    (pl_id : VertexId) (price : Z) (bpl : Build * Vertex) (o : nat) : option (Build * Vertex) :=
  let '(b, pl) := bpl in
  let ord_id := next_id b in
  let '(n, g) := price_draw (rng_ b) in
  let '(q, g) := qty_draw g in
  let '(r, g) := word_draw g in
  limit ← i64 (price + n);
  owner ← owner_mod p ord_id;
  let os := Order.mkState limit q 0 side true (Z.of_nat v) (r `mod` 1000) (u64 (clock ord_id)) in
  let ord_vertex := add_edge (mkEdge pl_id 1 0) (new_vertex ord_id ORDER owner) in
  Some (mkBuild g (u64 (ord_id + 1))
          (count_order (push_vertex (ord_vertex, OrderV (Order.new os))
             (count_edges 2 (data_ b))))
          (venue_ids b) (price_level_ids b) (order_ids b ++ [ord_id]),
        add_edge (mkEdge ord_id 1 1) pl).

(** The body of the loop over the levels of one side of a venue's book. *)
Definition add_level (p : Params) (clock : VertexId → Z) (v : nat) (side : Side)
    (b : Build) (lvl : nat) : option Build :=
  venue_vid ← venue_ids b !! v;
  let pl_id := next_id b in
  let tick := u32 (Z.of_nat lvl + 1) * TICK_SIZE in
  let offset := match side with BID => - tick | ASK => tick end in
  let '(n, g) := price_draw (rng_ b) in
  let '(q, g) := qty_draw g in
  base ← i64 (BASE_PRICE + offset);
  price ← i64 (base + n);
  owner ← owner_mod p pl_id;
  let pls := PriceLevel.mkState price side (u64 (q * p_orders_per_level p))
               (u32 (p_orders_per_level p)) (Z.of_nat v) (bool_decide (lvl = O)) in
  let pl := add_edge (mkEdge venue_vid 1 2) (new_vertex pl_id PRICE_LEVEL owner) in
  data ← push_edge venue_vid (mkEdge pl_id 1 0) (data_ b);
  let b := mkBuild g (u64 (pl_id + 1)) (count_edges 2 data) (venue_ids b)
             (price_level_ids b ++ [pl_id]) (order_ids b) in
  '(b, pl) ← foldM (add_order p clock v side pl_id price) (b, pl)
               (seq 0 (Z.to_nat (p_orders_per_level p)));
  Some (set_data (count_level (push_vertex (pl, PriceLevelV (PriceLevel.new pls)) (data_ b))) b).

(** The body of the second loop over the venues. *)
Definition add_book (p : Params) (clock : VertexId → Z) (b : Build) (v : nat) : option Build :=
  foldM (λ b side, foldM (add_level p clock v side) b (seq 0 (Z.to_nat (p_price_levels p))))
    b [BID; ASK].

(** The two inner loops of a market maker; [mm] is [*mm_vertex]. *)
Definition link_venue (mm_id : VertexId) (bmm : GraphData * Vertex) (vid : VertexId)
    : option (GraphData * Vertex) :=
  let '(d, mm) := bmm in
  d ← push_edge vid (mkEdge mm_id 1 3) d;
  Some (count_edges 2 d, add_edge (mkEdge vid 1 0) mm).

Definition link_level (bmm : Build * Vertex) (i : nat) : option (Build * Vertex) :=
  let '(b, mm) := bmm in
  let '(r, g) := word_draw (rng_ b) in
  pl_id ← price_level_ids b !! Z.to_nat (r `mod` Z.of_nat (length (price_level_ids b)));
  Some (mkBuild g (next_id b) (count_edges 1 (data_ b)) (venue_ids b) (price_level_ids b)
          (order_ids b), add_edge (mkEdge pl_id 1 2) mm).

(** The body of the third loop. *)
Definition add_maker (p : Params) (b : Build) (mm : nat) : option Build :=
  let mm_id := next_id b in
  owner ← owner_mod p mm_id;
  let mms := MarketMaker.mkState (Z.of_nat mm) 0 0 0 0 (F64.of_Z 1000000) in
  '(data, mmv) ← foldM (link_venue mm_id) (data_ b, new_vertex mm_id MARKET_MAKER owner)
                   (venue_ids b);
  let b := mkBuild (rng_ b) (u64 (mm_id + 1)) data (venue_ids b) (price_level_ids b)
             (order_ids b) in
  '(b, mmv) ← foldM link_level (b, mmv) (seq 0 (Nat.min 20 (length (price_level_ids b))));
  Some (set_data (count_maker
          (push_vertex (mmv, MarketMakerV (MarketMaker.new mms)) (data_ b))) b).

Definition start (p : Params) : Build :=
  mkBuild (graph_seed (p_seed p)) 0 (mkGraph [] 0 0 0 0 0) [] [] [].

Definition build_order_book_graph (p : Params) (clock : VertexId → Z) : option GraphData :=
  b ← foldM (add_venue p) (start p) (seq 0 (Z.to_nat (p_venue_count p)));
  b ← foldM (add_book p clock) b (seq 0 (Z.to_nat (p_venue_count p)));
  b ← foldM (add_maker p) b (seq 0 (Z.to_nat (p_market_maker_count p)));
  Some (data_ b).

(** ** The graph that is built *)

(** The class of a vertex. *)
Definition class_of (d : OBData R) : VertexType :=
  match d with
  | OrderV _ => ORDER | PriceLevelV _ => PRICE_LEVEL
  | VenueV _ => VENUE | MarketMakerV _ => MARKET_MAKER
  end.

(** The classes of the ids in use, in the order they are handed out: the venues,
    then for each venue and side its levels, each followed by its orders, then
    the market makers. *)
Definition level_block (p : Params) : list VertexType :=
  PRICE_LEVEL :: replicate (Z.to_nat (p_orders_per_level p)) ORDER.
Definition side_block (p : Params) : list VertexType :=
  mjoin (replicate (Z.to_nat (p_price_levels p)) (level_block p)).
Definition kinds (p : Params) : list VertexType :=
  replicate (Z.to_nat (p_venue_count p)) VENUE ++
  mjoin (replicate (Z.to_nat (p_venue_count p)) (side_block p ++ side_block p)) ++
  replicate (Z.to_nat (p_market_maker_count p)) MARKET_MAKER.

(** The class of the id [i]. *)
Definition kind_at (K : list VertexType) (i : VertexId) (t : VertexType) : Prop :=
  0 ≤ i ∧ K !! Z.to_nat i = Some t.

(** The edges each class may have: an order to its level, a level to its venue and
    its orders, a venue to its levels and the market makers, a market maker to
    the venues and to levels. *)
Definition edge_ok (K : list VertexType) (t : VertexType) (e : Edge) : Prop :=
  match t with
  | ORDER => edge_type e = 0 ∧ kind_at K (edge_dst e) PRICE_LEVEL
  | PRICE_LEVEL =>
      (edge_type e = 2 ∧ kind_at K (edge_dst e) VENUE) ∨
      (edge_type e = 1 ∧ kind_at K (edge_dst e) ORDER)
  | VENUE =>
      (edge_type e = 0 ∧ kind_at K (edge_dst e) PRICE_LEVEL) ∨
      (edge_type e = 3 ∧ kind_at K (edge_dst e) MARKET_MAKER)
  | MARKET_MAKER =>
      (edge_type e = 0 ∧ kind_at K (edge_dst e) VENUE) ∨
      (edge_type e = 2 ∧ kind_at K (edge_dst e) PRICE_LEVEL)
  end.

(** [o] is an order of the level [l]: the ids after [l] up to [o] are all orders. *)
Definition own_level (K : list VertexType) (l o : VertexId) : Prop :=
  kind_at K l PRICE_LEVEL ∧ l < o ∧ ∀ i, l < i ≤ o → kind_at K i ORDER.

(** The number of ids of one venue's book, and the venue in whose book the id [i] is:
    the books follow the venues. *)
Definition book_size (p : Params) : Z := 2 * p_price_levels p * (1 + p_orders_per_level p).
Definition book_of (p : Params) (i : VertexId) : VertexId :=
  (i - p_venue_count p) `div` book_size p.

(** Which vertex of its class the edge [e] of the vertex [i] leads to: an order's to
    its own level, a level's to its own venue and its own orders, a venue's to the
    levels of its own book. *)
Definition edge_own (p : Params) (K : list VertexType) (i : VertexId) (t : VertexType) (e : Edge)
    : Prop :=
  match t with
  | ORDER => own_level K (edge_dst e) i
  | PRICE_LEVEL => (edge_type e = 2 → edge_dst e = book_of p i) ∧
                   (edge_type e = 1 → own_level K i (edge_dst e))
  | VENUE => edge_type e = 0 → book_of p (edge_dst e) = i
  | MARKET_MAKER => True
  end.

Definition edge_good (p : Params) (K : list VertexType) (i : VertexId) (t : VertexType) (e : Edge)
    : Prop :=
  edge_ok K t e ∧ edge_own p K i t e.

(** The prices of the initial book differ from the base price by at most this. *)
Definition price_band (p : Params) : Z := p_price_levels p * TICK_SIZE + 2000000.
Definition in_band (p : Params) (x : Z) : Prop := Z.abs (x - BASE_PRICE) ≤ price_band p.

(** The data a vertex starts with. *)
Definition fresh (p : Params) (d : OBData R) : Prop :=
  match d with
  | OrderV d => Order.order_wf d ∧ Order.filled_qty (Order.state_ d) = 0 ∧
                Order.active (Order.state_ d) = true ∧
                Order.best_market_price_ d = 0 ∧ Order.steps_without_fill_ d = 0
  | PriceLevelV d => PriceLevel.level_wf d ∧ PriceLevel.prev_total_qty_ d = 0 ∧
                     in_band p (PriceLevel.price (PriceLevel.state_ d))
  | VenueV d => Venue.venue_wf d ∧ in_band p (Venue.best_bid (Venue.state_ d)) ∧
                in_band p (Venue.best_ask (Venue.state_ d))
  | MarketMakerV d => ∃ i, d = MarketMaker.new (MarketMaker.mkState i 0 0 0 0 (F64.of_Z 1000000))
  end.

(** A vertex of class [t], data aside. *)
Definition base_good (p : Params) (K : list VertexType) (t : VertexType) (v : Vertex) : Prop :=
  kind_at K (Vertex.id_ v) t ∧ Vertex.type_ v = t ∧
  Vertex.owner_ v = Vertex.id_ v `mod` p_worker_count p ∧
  halted_ v = false ∧ outbox_ v = [] ∧ Forall (edge_good p K (Vertex.id_ v) t) (edges_ v).

(** A vertex of the built graph. *)
Definition good (p : Params) (K : list VertexType) (vd : Vertex * OBData R) : Prop :=
  base_good p K (class_of vd.2) vd.1 ∧ fresh p vd.2.

Definition params_wf (p : Params) : Prop :=
  in_u32 (p_venue_count p) ∧ in_u32 (p_price_levels p) ∧ in_u64 (p_orders_per_level p) ∧
  in_u32 (p_market_maker_count p) ∧ 0 < p_worker_count p < 2 ^ 32.

(** The number of edges of some vertices. *)
Definition degree (l : list (Vertex * OBData R)) : nat :=
  sum_list_with (λ vd, length (edges_ vd.1)) l.

(** The [i]-th venue id is [i], and its vertex is the [i]-th. *)
Definition venues_ok (K : list VertexType) (l : list (Vertex * OBData R))
    (vs : list VertexId) : Prop :=
  ∀ i vid, vs !! i = Some vid →
    vid = Z.of_nat i ∧ kind_at K vid VENUE ∧
    ∃ vd, l !! i = Some vd ∧ Vertex.id_ vd.1 = vid ∧ class_of vd.2 = VENUE.

(** The state of the construction when the ids of the classes [K] are handed out,
    the vertices [l] are stored and the vertices [pending] are not yet. *)
Definition built (p : Params) (K : list VertexType) (pending : list Vertex) (nid : VertexId)
    (l : list (Vertex * OBData R)) (vs pls : list VertexId) (te : Z) : Prop :=
  nid = Z.of_nat (length K) ∧ Z.of_nat (length K) ≤ 2 ^ 63 ∧
  (Vertex.id_ <$> pending) ++ ((λ vd, Vertex.id_ vd.1) <$> l) ≡ₚ seqZ 0 (Z.of_nat (length K)) ∧
  Forall (good p K) l ∧ Forall (λ v, base_good p K (Vertex.type_ v) v) pending ∧
  venues_ok K l vs ∧ Forall (λ i, kind_at K i PRICE_LEVEL) pls ∧
  te = u64 (Z.of_nat (sum_list_with (λ v, length (edges_ v)) pending + degree l)).

Definition built_b (p : Params) (K : list VertexType) (pending : list Vertex) (b : Build)
    : Prop :=
  built p K pending (next_id b) (vertices (data_ b)) (venue_ids b) (price_level_ids b)
    (total_edges (data_ b)).

Lemma kind_at_app K K' i t : kind_at K i t → kind_at (K ++ K') i t.
Proof. intros [? Hk]. split; [done|]. by apply lookup_app_l_Some. Qed.

Lemma kind_at_new K t K' : kind_at (K ++ t :: K') (Z.of_nat (length K)) t.
Proof. split; [lia|]. rewrite Nat2Z.id. by apply list_lookup_middle. Qed.

Lemma edge_ok_app K K' t e : edge_ok K t e → edge_ok (K ++ K') t e.
Proof. destruct t; cbn; intros; intuition auto using kind_at_app. Qed.

Lemma edges_good_ok p K i t es : Forall (edge_good p K i t) es → Forall (edge_ok K t) es.
Proof. intros H. eapply Forall_impl; [exact H|]. by intros e []. Qed.

Lemma own_level_app K K' l o : own_level K l o → own_level (K ++ K') l o.
Proof. intros (? & ? & Hi). split_and!; try done; auto using kind_at_app. Qed.

Lemma edge_good_app p K K' i t e : edge_good p K i t e → edge_good p (K ++ K') i t e.
Proof.
  intros [? Ho]. split; [by apply edge_ok_app|].
  destruct t; cbn in *; intuition auto using own_level_app.
Qed.

(** An order that is next after the orders [K'] of the level [l]. *)
Lemma own_level_next K l k :
  l = Z.of_nat (length K) →
  own_level (K ++ PRICE_LEVEL :: replicate (S k) ORDER) l (l + 1 + Z.of_nat k).
Proof.
  intros ->. split; [apply kind_at_new|]. split; [lia|]. intros i Hi. split; [lia|].
  rewrite lookup_app_r by lia. rewrite lookup_cons_ne_0 by lia.
  apply lookup_replicate_2. lia.
Qed.

Lemma base_good_app p K K' t v : base_good p K t v → base_good p (K ++ K') t v.
Proof.
  intros (?&?&?&?&?&He). split_and!; try done; [by apply kind_at_app|].
  eapply Forall_impl; [exact He|]. intros e. apply edge_good_app.
Qed.

Lemma base_good_edge p K t v e :
  base_good p K t v → edge_good p K (Vertex.id_ v) t e → base_good p K t (add_edge e v).
Proof.
  intros (?&?&?&?&?&He) Hok. split_and!; try done. apply Forall_app.
  split; [exact He|by apply Forall_singleton].
Qed.

Lemma base_good_new p K t K' owner :
  owner = Z.of_nat (length K) `mod` p_worker_count p →
  base_good p (K ++ t :: K') t (new_vertex (Z.of_nat (length K)) t owner).
Proof. intros ->. split_and!; try done; apply kind_at_new. Qed.

Lemma venues_ok_app K K' l l' vs : venues_ok K l vs → venues_ok (K ++ K') (l ++ l') vs.
Proof.
  intros Hv i vid Hi. destruct (Hv i vid Hi) as (? & ? & vd & ? & ?).
  split_and!; [done|by apply kind_at_app|]. exists vd. split; [|done].
  by apply lookup_app_l_Some.
Qed.

Lemma owner_mod_Some p vid :
  params_wf p → owner_mod p vid = Some (vid `mod` p_worker_count p).
Proof.
  intros (_&_&_&_&Hw). unfold owner_mod. rewrite decide_False by lia.
  pose proof (Z.mod_pos_bound vid (p_worker_count p) ltac:(lia)).
  by rewrite u32_small by (unfold in_u32; lia).
Qed.

Lemma seqZ_next n : seqZ 0 (Z.of_nat n + 1) = seqZ 0 (Z.of_nat n) ++ [Z.of_nat n].
Proof. rewrite seqZ_app by lia. f_equal. Qed.

Lemma degree_app l vd : degree (l ++ [vd]) = (degree l + length (edges_ vd.1))%nat.
Proof. unfold degree. rewrite sum_list_with_app. cbn. lia. Qed.

Lemma degree_insert l i vd vd' :
  l !! i = Some vd →
  (degree (<[i:=vd']> l) + length (edges_ vd.1) = degree l + length (edges_ vd'.1))%nat.
Proof. exact (sum_list_insert _ l i vd' vd). Qed.

(** *** The moves of the construction *)

Lemma built_open p K t pending nid l vs pls te v :
  built p K pending nid l vs pls te → Z.of_nat (length K) < 2 ^ 63 →
  base_good p (K ++ [t]) t v → Vertex.id_ v = nid → edges_ v = [] →
  built p (K ++ [t]) (v :: pending) (u64 (nid + 1)) l vs pls te.
Proof.
  intros (-> & _ & Hids & Hl & Hp & Hv & Hpl & Hte) Hmax Hg Hid He.
  assert (Z.of_nat (length (K ++ [t])) = Z.of_nat (length K) + 1) as Hlen
    by (rewrite length_app; cbn; lia).
  split_and!.
  - rewrite Hlen, u64_small; [done|unfold in_u64; lia].
  - lia.
  - cbn [fmap list_fmap app]. rewrite Hlen, seqZ_next, Hid, <- Hids. apply Permutation_cons_append.
  - eapply Forall_impl; [exact Hl|]. intros vd [? ?]. split; [by apply base_good_app|done].
  - constructor; [by rewrite (proj1 (proj2 Hg))|].
    eapply Forall_impl; [exact Hp|]. intros v'. apply base_good_app.
  - rewrite <- (app_nil_r l). by apply venues_ok_app.
  - eapply Forall_impl; [exact Hpl|]. intros i. apply kind_at_app.
  - cbn. by rewrite He.
Qed.

Lemma built_edge_pending p K pending nid l vs pls te v e :
  built p K (v :: pending) nid l vs pls te → edge_good p K (Vertex.id_ v) (Vertex.type_ v) e →
  built p K (add_edge e v :: pending) nid l vs pls (u64 (te + 1)).
Proof.
  intros (? & ? & Hids & Hl & Hp & Hv & Hpl & ->) He.
  apply Forall_cons in Hp as [Hg Hp]. split_and!; try done.
  - constructor; [by apply base_good_edge|done].
  - cbn. rewrite u64_add_idemp. f_equal. rewrite length_app. cbn. lia.
Qed.

Lemma built_edge_stored p K pending nid l vs pls te i vid e :
  built p K pending nid l vs pls te → vs !! i = Some vid → edge_good p K vid VENUE e →
  ∃ vd, l !! Z.to_nat vid = Some vd ∧
    built p K pending nid (<[Z.to_nat vid := (add_edge e vd.1, vd.2)]> l) vs pls (u64 (te + 1)).
Proof.
  intros (? & ? & Hids & Hl & Hp & Hv & Hpl & ->) Hi He.
  destruct (Hv i vid Hi) as (-> & Hk & vd & Hvd & Hid & Hc). rewrite Nat2Z.id.
  exists vd. split; [done|].
  assert (good p K vd) as [Hg Hf] by (rewrite Forall_lookup in Hl; by eapply Hl).
  split_and!; try done.
  - assert ((λ vd, Vertex.id_ vd.1) <$> <[i := (add_edge e vd.1, vd.2)]> l =
      (λ vd, Vertex.id_ vd.1) <$> l) as ->; [|done].
    rewrite list_fmap_insert. apply list_insert_id. by rewrite list_lookup_fmap, Hvd.
  - apply Forall_insert; [done|]. split; [|done]. cbn. apply base_good_edge; [done|by rewrite Hc, Hid].
  - intros j vid Hj. destruct (Hv j vid Hj) as (-> & Hk' & vd' & Hvd' & Hid' & Hc').
    split_and!; try done. destruct (decide (i = j)) as [->|Hne].
    + eexists. rewrite list_lookup_insert_eq by (by eapply lookup_lt_Some). split; [done|].
      by simplify_eq.
    + exists vd'. by rewrite list_lookup_insert_ne.
  - rewrite u64_add_idemp. f_equal. pose proof (degree_insert l i vd (add_edge e vd.1, vd.2) Hvd) as Hd.
    cbn in Hd. rewrite length_app in Hd. cbn in Hd. lia.
Qed.

Lemma built_store p K pending nid l vs pls te v d :
  built p K (v :: pending) nid l vs pls te → class_of d = Vertex.type_ v → fresh p d →
  built p K pending nid (l ++ [(v, d)]) vs pls te.
Proof.
  intros (? & ? & Hids & Hl & Hp & Hv & Hpl & ->) Hc Hf.
  apply Forall_cons in Hp as [Hg Hp]. split_and!; try done.
  - rewrite <- Hids, fmap_app. cbn. rewrite app_assoc. symmetry. apply Permutation_cons_append.
  - apply Forall_app. split; [done|]. constructor; [|done]. split; [cbn; by rewrite Hc|done].
  - rewrite <- (app_nil_r K). by apply venues_ok_app.
  - rewrite degree_app. cbn. f_equal. lia.
Qed.

(** *** The loops *)

Lemma built_length p K b :
  built_b p K [] b → length (vertices (data_ b)) = length K.
Proof.
  intros (_ & _ & Hids & _). apply Permutation_length in Hids.
  rewrite length_app, !length_fmap, length_seqZ in Hids. cbn in Hids. lia.
Qed.

Lemma u64_two x : u64 (u64 (x + 1) + 1) = u64 (x + 2).
Proof. rewrite u64_add_idemp. f_equal. lia. Qed.

(** The counters of the graph count the vertices of each class. *)
Definition kcount (t : VertexType) (C : list VertexType) : Z :=
  Z.of_nat (count (λ k, bool_decide (k = t)) C).
Definition counts_ok (C : list VertexType) (d : GraphData) : Prop :=
  venue_count d = u32 (kcount VENUE C) ∧ price_level_count d = u32 (kcount PRICE_LEVEL C) ∧
  order_count d = u64 (kcount ORDER C) ∧ mm_count d = u32 (kcount MARKET_MAKER C).

Lemma kcount_app t C C' : kcount t (C ++ C') = kcount t C + kcount t C'.
Proof. unfold kcount. rewrite count_app. lia. Qed.

Lemma kcount_perm t C C' : C ≡ₚ C' → kcount t C = kcount t C'.
Proof. intros HC. unfold kcount. by rewrite HC. Qed.

Lemma counts_ok_perm C C' d : C ≡ₚ C' → counts_ok C d → counts_ok C' d.
Proof. intros HC. unfold counts_ok. by rewrite !(kcount_perm _ C C' HC). Qed.

(** One vertex of class [t] is counted. *)
Definition count_class (t : VertexType) (d : GraphData) : GraphData :=
  match t with
  | VENUE => count_venue d | PRICE_LEVEL => count_level d
  | ORDER => count_order d | MARKET_MAKER => count_maker d
  end.
Definition same_counts (d d' : GraphData) : Prop :=
  venue_count d' = venue_count d ∧ price_level_count d' = price_level_count d ∧
  order_count d' = order_count d ∧ mm_count d' = mm_count d.

Lemma counts_ok_snoc t C d d' :
  same_counts (count_class t d) d' → counts_ok C d → counts_ok (C ++ [t]) d'.
Proof.
  unfold same_counts, counts_ok. intros (-> & -> & -> & ->) (H1 & H2 & H3 & H4).
  rewrite !kcount_app. unfold kcount at 2 4 6 8.
  destruct t; cbn -[u32 u64 kcount];
    rewrite ?H1, ?H2, ?H3, ?H4, ?u32_add_idemp, ?u64_add_idemp, ?Z.add_0_r; done.
Qed.

Lemma FIXED_SCALE_eq : BASE_PRICE = 150000000.
Proof. done. Qed.

Lemma add_venue_spec p b v K :
  params_wf p → built_b p K [] b → Z.of_nat (length K) < 2 ^ 63 →
  length (venue_ids b) = length K →
  ∃ b', add_venue p b v = Some b' ∧ built_b p (K ++ [VENUE]) [] b' ∧
    venue_ids b' = venue_ids b ++ [next_id b] ∧ price_level_ids b' = price_level_ids b ∧
    (∀ C, counts_ok C (data_ b) → counts_ok (C ++ [VENUE]) (data_ b')).
Proof.
  intros Hp Hb Hmax Hvs. pose proof (built_length _ _ _ Hb) as Hlen.
  pose proof Hb as (Hnid & _). unfold add_venue.
  pose proof (price_draw_range (rng_ b)) as Hn1. destruct (price_draw (rng_ b)) as [n1 g1].
  pose proof (price_draw_range g1) as Hn2. destruct (price_draw g1) as [n2 g2].
  pose proof (qty_draw_range g2) as Hq1. destruct (qty_draw g2) as [q1 g3].
  pose proof (qty_draw_range g3) as Hq2. destruct (qty_draw g3) as [q2 g4].
  cbn [fst] in *. rewrite FIXED_SCALE_eq in *.
  rewrite !i64_ok by (unfold in_i64; lia). cbn [mbind option_bind].
  rewrite owner_mod_Some by done. cbn [mbind option_bind].
  eexists. split; [done|]. split; [|split_and!; [done..|intros C; by apply (counts_ok_snoc VENUE C (data_ b))]].
  set (vd := (_, VenueV _)).
  assert (built p (K ++ [VENUE]) [] (u64 (next_id b + 1)) (vertices (data_ b) ++ [vd])
            (venue_ids b) (price_level_ids b) (total_edges (data_ b))) as Hb'.
  { apply built_store.
    - apply built_open; [exact Hb|done| |done|done]. rewrite Hnid. by apply base_good_new.
    - done.
    - split; [|unfold in_band, price_band; rewrite FIXED_SCALE_eq; unfold TICK_SIZE; cbn;
        destruct Hp as (_&[]&_); lia].
      split; cbn; unfold in_u64; lia. }
  destruct Hb' as (? & ? & ? & ? & ? & Hv & ? & ?). split_and!; try done.
  intros i vid Hi. cbn in Hi. apply lookup_app_Some in Hi as [Hi|[Hge Hi]].
  { by apply Hv. }
  apply list_lookup_singleton_Some in Hi as [Hi <-].
  assert (i = length K) as -> by lia. cbn. rewrite Hnid.
  split_and!; [done|apply kind_at_new|]. exists vd. split; [|done].
  rewrite <- Hlen. by apply list_lookup_middle.
Qed.

Lemma add_order_spec p clock v side pl_id price b pl o K :
  params_wf p → built_b p K [pl] b → Z.of_nat (length K) < 2 ^ 63 →
  Vertex.type_ pl = PRICE_LEVEL → Vertex.id_ pl = pl_id →
  own_level (K ++ [ORDER]) pl_id (next_id b) → Z.abs price ≤ 2 ^ 62 →
  ∃ b', add_order p clock v side pl_id price (b, pl) o =
      Some (b', add_edge (mkEdge (next_id b) 1 1) pl) ∧
    built_b p (K ++ [ORDER]) [add_edge (mkEdge (next_id b) 1 1) pl] b' ∧
    venue_ids b' = venue_ids b ∧ price_level_ids b' = price_level_ids b ∧
    (∀ C, counts_ok C (data_ b) → counts_ok (C ++ [ORDER]) (data_ b')).
Proof.
  intros Hp Hb Hmax Ht Hplid Hown Hprice. pose proof Hb as (Hnid & _). unfold add_order.
  pose proof (price_draw_range (rng_ b)) as Hn. destruct (price_draw (rng_ b)) as [n g1].
  pose proof (qty_draw_range g1) as Hq. destruct (qty_draw g1) as [q g2].
  destruct (word_draw g2) as [r g3]. cbn [fst] in *.
  rewrite i64_ok by (unfold in_i64; lia). cbn [mbind option_bind].
  rewrite owner_mod_Some by done. cbn [mbind option_bind].
  eexists. split; [done|]. split; [|split_and!; [done..|intros C; by apply (counts_ok_snoc ORDER C (data_ b))]].
  unfold built_b. cbn [next_id data_ vertices venue_ids price_level_ids total_edges
    count_order push_vertex count_edges]. rewrite <- u64_two.
  set (d := OrderV _). set (ov := new_vertex _ ORDER _).
  assert (kind_at (K ++ [ORDER]) (next_id b) ORDER) as Hko by (rewrite Hnid; apply kind_at_new).
  apply built_store; [|done|].
  - apply built_edge_pending; [|split; [split; [done|apply Hown]|exact Hown]].
    assert (∀ a c te, built p (K ++ [ORDER]) [a; c] (u64 (next_id b + 1)) (vertices (data_ b))
      (venue_ids b) (price_level_ids b) te → built p (K ++ [ORDER]) [c; a] (u64 (next_id b + 1))
      (vertices (data_ b)) (venue_ids b) (price_level_ids b) te) as Hswap.
    { intros a c te (? & ? & Hids & ? & Hpe & ? & ? & Hte). split_and!; try done.
      - rewrite <- Hids. cbn. apply perm_swap.
      - by rewrite !Forall_cons in *; tauto.
      - rewrite Hte. cbn. do 2 f_equal. lia. }
    apply Hswap, built_edge_pending; [|rewrite Ht, Hplid; split; [right; by split|by split]].
    apply Hswap, built_open; [exact Hb|done| |done|done].
    unfold ov. rewrite Hnid. by apply base_good_new.
  - split_and!; cbn; try done. unfold Order.order_wf. cbn.
    unfold in_u64, in_i64, in_u32. split_and!; lia.
Qed.

Lemma add_orders_spec p clock v side pl_id price b pl K k :
  params_wf p → built_b p (K ++ [PRICE_LEVEL]) [pl] b → Z.of_nat (length K + 1 + k) ≤ 2 ^ 63 →
  Vertex.type_ pl = PRICE_LEVEL → Vertex.id_ pl = pl_id → pl_id = Z.of_nat (length K) →
  Z.abs price ≤ 2 ^ 62 →
  ∃ b' pl', foldM (add_order p clock v side pl_id price) (b, pl) (seq 0 k) = Some (b', pl') ∧
    built_b p (K ++ PRICE_LEVEL :: replicate k ORDER) [pl'] b' ∧
    Vertex.type_ pl' = PRICE_LEVEL ∧ Vertex.id_ pl' = pl_id ∧
    venue_ids b' = venue_ids b ∧ price_level_ids b' = price_level_ids b ∧
    (∀ C, counts_ok C (data_ b) → counts_ok (C ++ replicate k ORDER) (data_ b')).
Proof.
  intros Hp Hb Hmax Ht Hplid Hid Hprice. induction k as [|k IH].
  { exists b, pl. cbn. split_and!; try done. intros C. by rewrite app_nil_r. }
  destruct IH as (b1 & pl1 & H1 & Hb1 & Ht1 & Hi1 & Hv1 & Hpl1 & HC1); [lia|].
  rewrite seq_S, foldM_app, H1. cbn [mbind option_bind foldM Nat.add].
  assert ((K ++ PRICE_LEVEL :: replicate k ORDER) ++ [ORDER] =
    K ++ PRICE_LEVEL :: replicate (S k) ORDER) as Hrep.
  { rewrite <- app_assoc. cbn [app replicate]. by rewrite replicate_cons_app. }
  destruct (add_order_spec p clock v side pl_id price b1 pl1 k (K ++ PRICE_LEVEL :: replicate k ORDER))
    as (b2 & H2 & Hb2 & Hv2 & Hpl2 & HC2); try done.
  { rewrite length_app. cbn [length]. rewrite length_replicate. lia. }
  { rewrite Hrep. pose proof Hb1 as (-> & _). rewrite length_app. cbn [length].
    rewrite length_replicate.
    replace (Z.of_nat (length K + S k)) with (pl_id + 1 + Z.of_nat k) by lia.
    by apply own_level_next. }
  rewrite H2. cbn [mbind option_bind]. eexists _, _. split; [done|].
  rewrite Hrep in Hb2. split_and!; try done; try congruence.
  intros C HC. apply HC1, HC2 in HC. by rewrite <- app_assoc, <- replicate_cons_app in HC.
Qed.

Lemma push_edge_spec p K pending i vid e d nid vs pls te :
  built p K pending nid (vertices d) vs pls te → vs !! i = Some vid → edge_good p K vid VENUE e →
  ∃ d', push_edge vid e d = Some d' ∧ same_counts d d' ∧ total_edges d' = total_edges d ∧
    built p K pending nid (vertices d') vs pls (u64 (te + 1)).
Proof.
  intros Hb Hi He. destruct (built_edge_stored _ _ _ _ _ _ _ _ _ _ _ Hb Hi He) as (vd & Hvd & Hb').
  unfold push_edge. rewrite Hvd. cbn [mbind option_bind]. eexists. by split_and!.
Qed.

Lemma built_add_level_id p K pending nid l vs pls te i :
  built p K pending nid l vs pls te → kind_at K i PRICE_LEVEL →
  built p K pending nid l vs (pls ++ [i]) te.
Proof.
  intros (?&?&?&?&?&?&?&?) Hi. split_and!; try done.
  apply Forall_app; split; [done|by apply Forall_singleton].
Qed.

Lemma add_level_spec p clock v side b lvl K vid :
  params_wf p → built_b p K [] b → Z.of_nat (length (K ++ level_block p)) ≤ 2 ^ 63 →
  Z.of_nat lvl < p_price_levels p → venue_ids b !! v = Some vid →
  book_of p (Z.of_nat (length K)) = Z.of_nat v →
  ∃ b', add_level p clock v side b lvl = Some b' ∧ built_b p (K ++ level_block p) [] b' ∧
    venue_ids b' = venue_ids b ∧
    (∀ C, counts_ok C (data_ b) → counts_ok (C ++ level_block p) (data_ b')).
Proof.
  intros Hp Hb Hmax Hlvl Hvid Hbook. pose proof Hb as (Hnid & _).
  pose proof Hp as (_ & [_ Hlev] & [Hopl Hopl'] & _).
  unfold level_block in *. rewrite length_app in Hmax. cbn [length] in Hmax.
  rewrite length_replicate in Hmax.
  unfold add_level. rewrite Hvid. cbn [mbind option_bind].
  pose proof (price_draw_range (rng_ b)) as Hn. destruct (price_draw (rng_ b)) as [n g1].
  pose proof (qty_draw_range g1) as Hq. destruct (qty_draw g1) as [q g2]. cbn [fst] in *.
  rewrite FIXED_SCALE_eq, (u32_small (Z.of_nat lvl + 1)) by (unfold in_u32; lia).
  set (off := match side with BID => _ | ASK => _ end).
  assert (Z.abs off ≤ p_price_levels p * TICK_SIZE) as Hoff
    by (unfold off, TICK_SIZE; destruct side; lia).
  unfold TICK_SIZE in Hoff.
  rewrite (i64_ok (150000000 + off)) by (unfold in_i64; lia). cbn [mbind option_bind].
  rewrite (i64_ok (150000000 + off + n)) by (unfold in_i64; lia). cbn [mbind option_bind].
  rewrite owner_mod_Some by done. cbn [mbind option_bind].
  set (price := 150000000 + off + n). set (pls := PriceLevel.mkState _ _ _ _ _ _).
  set (pl0 := new_vertex (next_id b) PRICE_LEVEL _).
  assert (kind_at (K ++ [PRICE_LEVEL]) (next_id b) PRICE_LEVEL) as Hkp
    by (rewrite Hnid; apply kind_at_new).
  assert (vid = Z.of_nat v ∧ kind_at K vid VENUE) as [-> Hkv]
    by (destruct Hb as (_ & _ & _ & _ & _ & Hv & _); split; by apply (Hv v)).
  assert (built p (K ++ [PRICE_LEVEL]) [add_edge (mkEdge (Z.of_nat v) 1 2) pl0] (u64 (next_id b + 1))
    (vertices (data_ b)) (venue_ids b) (price_level_ids b) (u64 (total_edges (data_ b) + 1)))
    as Hb1.
  { apply built_edge_pending.
    - apply built_open; [exact Hb|lia| |done|done]. unfold pl0. rewrite Hnid. by apply base_good_new.
    - split; [left; split; [done|by apply kind_at_app]|]. split; [|done]. intros _.
      change (Z.of_nat v = book_of p (next_id b)). by rewrite Hnid, Hbook. }
  destruct (push_edge_spec _ _ _ _ _ (mkEdge (next_id b) 1 0) _ _ _ _ _ Hb1 Hvid)
    as (d1 & -> & Hsame & Hte & Hb2); [split; [by left|intros _]|].
  { change (book_of p (next_id b) = Z.of_nat v). by rewrite Hnid. }
  cbn [mbind option_bind].
  set (b1 := mkBuild g2 _ _ _ _ _).
  assert (built_b p (K ++ [PRICE_LEVEL]) [add_edge (mkEdge (Z.of_nat v) 1 2) pl0] b1) as Hb1b.
  { unfold built_b, b1. cbn [next_id data_ vertices venue_ids price_level_ids total_edges
      count_edges]. rewrite Hte, <- u64_two. by apply built_add_level_id. }
  destruct (add_orders_spec p clock v side (next_id b) price b1 _ K
    (Z.to_nat (p_orders_per_level p)) Hp Hb1b)
    as (b2 & pl2 & -> & Hbb2 & Ht2 & _ & Hv2 & _ & HC2);
    [lia|done|done|done|unfold price; lia|].
  cbn [mbind option_bind].
  eexists. split; [done|]. split_and!.
  - unfold built_b. cbn. apply built_store; [exact Hbb2|done|]. cbn. split_and!; try done.
    + split_and!; [apply u64_range|done|]. cbn. unfold price, in_i64. lia.
    + unfold in_band, price_band. rewrite FIXED_SCALE_eq. unfold price, TICK_SIZE. lia.
  - cbn. by rewrite Hv2.
  - intros C HC. eapply (counts_ok_perm ((C ++ replicate _ ORDER) ++ [PRICE_LEVEL])).
    { rewrite <- app_assoc. f_equiv. symmetry. apply Permutation_cons_append. }
    apply (counts_ok_snoc _ _ (data_ b2)); [done|]. apply HC2.
    destruct Hsame as (E1 & E2 & E3 & E4). unfold counts_ok in *. cbn.
    by rewrite E1, E2, E3, E4.
Qed.

Lemma same_counts_trans d1 d2 d3 : same_counts d1 d2 → same_counts d2 d3 → same_counts d1 d3.
Proof. intros (?&?&?&?) (?&?&?&?). split_and!; congruence. Qed.

Lemma counts_ok_same C d d' : same_counts d d' → counts_ok C d → counts_ok C d'.
Proof. intros (E1 & E2 & E3 & E4). unfold counts_ok. by rewrite E1, E2, E3, E4. Qed.

Lemma link_venues_spec p K mm_id l d mm nid vs pls :
  built p K [mm] nid (vertices d) vs pls (total_edges d) → Vertex.type_ mm = MARKET_MAKER →
  kind_at K mm_id MARKET_MAKER → (∀ vid, vid ∈ l → vid ∈ vs) →
  ∃ d' mm', foldM (link_venue mm_id) (d, mm) l = Some (d', mm') ∧ same_counts d d' ∧
    built p K [mm'] nid (vertices d') vs pls (total_edges d') ∧
    Vertex.type_ mm' = MARKET_MAKER.
Proof.
  intros Hb Ht Hk. revert d mm Hb Ht. induction l as [|vid l IH]; intros d mm Hb Ht Hl.
  { exists d, mm. by split_and!. }
  destruct (proj1 (list_elem_of_lookup _ _) (Hl vid (list_elem_of_here _ _))) as [i Hi].
  destruct (push_edge_spec _ _ _ _ _ (mkEdge mm_id 1 3) _ _ _ _ _ Hb Hi)
    as (d1 & H1 & Hs1 & Hte & Hb1); [by split; [right|]|].
  destruct (IH (count_edges 2 d1) (add_edge (mkEdge vid 1 0) mm)) as (d2 & mm2 & H2 & Hs2 & ? & ?).
  - cbn. rewrite Hte, <- u64_two. apply built_edge_pending; [done|]. rewrite Ht.
    split; [left; split; [done|]|done]. destruct Hb as (_ & _ & _ & _ & _ & Hv & _). by apply (Hv i).
  - done.
  - intros. by apply Hl, list_elem_of_further.
  - exists d2, mm2. cbn [foldM].
    assert (link_venue mm_id (d, mm) vid =
      Some (count_edges 2 d1, add_edge (mkEdge vid 1 0) mm)) as Hlink.
    { unfold link_venue. by rewrite H1. }
    rewrite Hlink. cbn [mbind option_bind]. split; [done|]. split; [|done].
    by eapply same_counts_trans; [exact Hs1|].
Qed.

Lemma link_levels_spec p K b mm l :
  built_b p K [mm] b → Vertex.type_ mm = MARKET_MAKER →
  (l = [] ∨ price_level_ids b ≠ []) →
  ∃ b' mm', foldM link_level (b, mm) l = Some (b', mm') ∧ same_counts (data_ b) (data_ b') ∧
    built_b p K [mm'] b' ∧ Vertex.type_ mm' = MARKET_MAKER ∧ venue_ids b' = venue_ids b.
Proof.
  revert b mm. induction l as [|i l IH]; intros b mm Hb Ht Hne.
  { exists b, mm. by split_and!. }
  destruct Hne as [|Hne]; [done|]. cbn [foldM]. cbn [link_level].
  destruct (word_draw (rng_ b)) as [r g].
  set (n := Z.of_nat (length (price_level_ids b))).
  assert (0 < n) as Hn by (unfold n; destruct (price_level_ids b); [done|cbn; lia]).
  pose proof (Z.mod_pos_bound r n Hn) as Hmod.
  destruct (lookup_lt_is_Some_2 (price_level_ids b) (Z.to_nat (r `mod` n))) as [pl Hpl]; [lia|].
  rewrite Hpl. cbn [mbind option_bind].
  destruct (IH (mkBuild g (next_id b) (count_edges 1 (data_ b)) (venue_ids b)
    (price_level_ids b) (order_ids b)) (add_edge (mkEdge pl 1 2) mm))
    as (b2 & mm2 & H2 & Hs2 & ? & ? & ?).
  - apply built_edge_pending; [exact Hb|]. rewrite Ht. split; [right; split; [done|]|done].
    destruct Hb as (_ & _ & _ & _ & _ & _ & Hpls & _). rewrite Forall_lookup in Hpls.
    by eapply Hpls.
  - done.
  - by right.
  - exists b2, mm2. split_and!; done.
Qed.

Lemma add_maker_spec p b mm K :
  params_wf p → built_b p K [] b → Z.of_nat (length (K ++ [MARKET_MAKER])) ≤ 2 ^ 63 →
  ∃ b', add_maker p b mm = Some b' ∧ built_b p (K ++ [MARKET_MAKER]) [] b' ∧
    venue_ids b' = venue_ids b ∧
    (∀ C, counts_ok C (data_ b) → counts_ok (C ++ [MARKET_MAKER]) (data_ b')).
Proof.
  intros Hp Hb Hmax. rewrite length_app in Hmax. cbn [length] in Hmax.
  pose proof Hb as (Hnid & _). unfold add_maker. rewrite owner_mod_Some by done.
  cbn [mbind option_bind]. set (mm0 := new_vertex _ MARKET_MAKER _).
  assert (built p (K ++ [MARKET_MAKER]) [mm0] (u64 (next_id b + 1)) (vertices (data_ b))
    (venue_ids b) (price_level_ids b) (total_edges (data_ b))) as Hb1.
  { apply built_open; [exact Hb|lia| |done|done]. unfold mm0. rewrite Hnid.
    by apply base_good_new. }
  destruct (link_venues_spec _ _ (next_id b) (venue_ids b) (data_ b) mm0 _ _ _ Hb1)
    as (d2 & mm2 & -> & Hs2 & Hb2 & Ht2); [done|rewrite Hnid; apply kind_at_new|done|].
  cbn [mbind option_bind]. set (b2 := mkBuild _ _ d2 _ _ _).
  destruct (link_levels_spec p (K ++ [MARKET_MAKER]) b2 mm2
    (seq 0 (Nat.min 20 (length (price_level_ids b2))))) as (b3 & mm3 & -> & Hs3 & Hb3 & Ht3 & Hv3);
    [exact Hb2|done|cbn; destruct (price_level_ids b); [by left|by right]|].
  cbn [mbind option_bind]. eexists. split; [done|]. split_and!.
  - unfold built_b. cbn. apply built_store; [exact Hb3|done|]. by eexists.
  - done.
  - intros C HC. apply (counts_ok_snoc MARKET_MAKER C (data_ b3)); [done|].
    eapply counts_ok_same; [|exact HC]. eapply same_counts_trans; [exact Hs2|exact Hs3].
Qed.

(** *** The construction as a whole *)

(** The body [f] of a loop hands out the ids of the classes [blk], from the id [n] on. *)
Definition grows {A} (p : Params) (vs : list VertexId) (f : Build → A → option Build)
    (blk : list VertexType) (n : nat) (x : A) : Prop :=
  ∀ b K, built_b p K [] b → venue_ids b = vs → length K = n →
    Z.of_nat (length (K ++ blk)) ≤ 2 ^ 63 →
    ∃ b', f b x = Some b' ∧ built_b p (K ++ blk) [] b' ∧ venue_ids b' = vs ∧
      ∀ C, counts_ok C (data_ b) → counts_ok (C ++ blk) (data_ b').

Lemma loop_grows {A B} p vs (f : Build → A → option Build) blk n l m (x : B) :
  length l = m →
  (∀ i y, l !! i = Some y → grows p vs f blk (n + i * length blk) y) →
  grows p vs (λ b _, foldM f b l) (mjoin (replicate m blk)) n x.
Proof.
  intros <- Hl b K Hb Hvs Hn. revert n Hl b K Hb Hvs Hn.
  induction l as [|y l IH]; intros n Hl b K Hb Hvs Hn Hmax.
  { exists b. cbn. rewrite app_nil_r. split_and!; try done. intros C. by rewrite app_nil_r. }
  cbn [length replicate] in *. change (mjoin (blk :: ?l)) with (blk ++ mjoin l) in *.
  rewrite app_assoc in *.
  destruct (Hl O y eq_refl b K Hb Hvs ltac:(lia)) as (b1 & H1 & Hb1 & Hv1 & HC1).
  { rewrite length_app in Hmax. lia. }
  destruct (IH (n + length blk)%nat) with (b := b1) (K := K ++ blk)
    as (b2 & H2 & Hb2 & Hv2 & HC2); try done.
  { intros i z Hi. replace (n + length blk + i * length blk)%nat
      with (n + S i * length blk)%nat by lia. by apply Hl. }
  { rewrite length_app. lia. }
  exists b2. cbn [foldM]. rewrite H1. split_and!; try done.
  intros C HC. rewrite app_assoc. by apply HC2, HC1.
Qed.

Lemma grows_app {A} p vs (f g : Build → A → option Build) blk blk' n x :
  grows p vs f blk n x → grows p vs g blk' (n + length blk) x →
  grows p vs (λ b x, f b x ≫= λ b, g b x) (blk ++ blk') n x.
Proof.
  intros Hf Hg b K Hb Hvs Hn Hmax. rewrite app_assoc in *.
  destruct (Hf b K Hb Hvs Hn) as (b1 & H1 & Hb1 & Hv1 & HC1).
  { rewrite length_app in Hmax. lia. }
  destruct (Hg b1 (K ++ blk) Hb1 Hv1) as (b2 & H2 & Hb2 & Hv2 & HC2); [|done|].
  { rewrite length_app. lia. }
  exists b2. rewrite H1. split_and!; try done.
  intros C HC. rewrite app_assoc. by apply HC2, HC1.
Qed.

Lemma add_venues_spec p n :
  params_wf p → Z.of_nat n ≤ 2 ^ 63 →
  ∃ b, foldM (add_venue p) (start p) (seq 0 n) = Some b ∧
    built_b p (replicate n VENUE) [] b ∧ length (venue_ids b) = n ∧
    counts_ok (replicate n VENUE) (data_ b).
Proof.
  intros Hp Hmax. induction n as [|n IH].
  { eexists. split; [done|]. by split_and!. }
  destruct IH as (b & H1 & Hb & Hvs & HC); [lia|].
  destruct (add_venue_spec p b n _ Hp Hb) as (b' & H2 & Hb' & Hvs' & _ & HC').
  { rewrite length_replicate. lia. }
  { by rewrite Hvs, length_replicate. }
  exists b'. rewrite seq_S, foldM_app, H1. cbn [mbind option_bind foldM Nat.add]. rewrite H2.
  rewrite <- replicate_cons_app in Hb'. split_and!; try done.
  - rewrite Hvs', length_app. cbn. lia.
  - apply HC' in HC. by rewrite <- replicate_cons_app in HC.
Qed.

Lemma length_blocks {A} n (blk : list A) : length (mjoin (replicate n blk)) = (n * length blk)%nat.
Proof.
  induction n as [|n IH]; [done|]. cbn [replicate].
  change (mjoin (blk :: ?l)) with (blk ++ mjoin l). rewrite length_app, IH. lia.
Qed.

Lemma level_block_length p : params_wf p →
  Z.of_nat (length (level_block p)) = 1 + p_orders_per_level p.
Proof.
  intros (_ & _ & [] & _). unfold level_block. cbn [length]. rewrite length_replicate. lia.
Qed.

Lemma side_block_length p : params_wf p →
  Z.of_nat (length (side_block p)) = p_price_levels p * (1 + p_orders_per_level p).
Proof.
  intros Hp. pose proof Hp as (_ & [] & _). unfold side_block.
  rewrite length_blocks, Nat2Z.inj_mul, level_block_length by done. by rewrite Z2Nat.id by lia.
Qed.

(** The levels of the venue [v] on the side number [s] are in its book. *)
Lemma book_of_level p v s lvl :
  params_wf p → (s < 2)%nat → Z.of_nat lvl < p_price_levels p →
  book_of p (p_venue_count p + Z.of_nat v * book_size p +
             Z.of_nat s * Z.of_nat (length (side_block p)) +
             Z.of_nat lvl * Z.of_nat (length (level_block p))) = Z.of_nat v.
Proof.
  intros Hp Hs Hlvl. pose proof Hp as ([] & [] & [] & _).
  rewrite side_block_length, level_block_length by done. unfold book_of, book_size.
  symmetry. apply (Z.div_unique _ _ _ (Z.of_nat s * (p_price_levels p * (1 + p_orders_per_level p)) +
    Z.of_nat lvl * (1 + p_orders_per_level p))); [left|lia].
  assert (Z.of_nat s = 0 ∨ Z.of_nat s = 1) as [-> | ->] by lia; nia.
Qed.

Lemma add_book_grows p clock vs v n :
  params_wf p → is_Some (vs !! v) → Z.of_nat n = p_venue_count p + Z.of_nat v * book_size p →
  grows p vs (add_book p clock) (side_block p ++ side_block p) n v.
Proof.
  intros Hp [vid Hv] Hn.
  assert (∀ s side, (s < 2)%nat → grows p vs (λ b (_ : nat), foldM (add_level p clock v side) b
    (seq 0 (Z.to_nat (p_price_levels p)))) (side_block p) (n + s * length (side_block p)) O) as Hside.
  { intros s side Hs. unfold side_block at 1.
    apply loop_grows; [apply length_seq|]. intros i lvl (Hi & Hlvl)%lookup_seq b K Hb Hvs Hlen Hmax.
    cbn in Hi. subst lvl.
    destruct (add_level_spec p clock v side b i K vid) as (b' & ? & ? & Hv' & ?);
      try done; [lia|by rewrite Hvs| |].
    { rewrite Hlen, !Nat2Z.inj_add, !Nat2Z.inj_mul, Hn. apply book_of_level; [done|done|lia]. }
    exists b'. split_and!; try done. by rewrite Hv'. }
  intros b K Hb Hvs Hlen Hmax.
  pose proof (Hside O BID ltac:(lia)) as H0. pose proof (Hside 1%nat ASK ltac:(lia)) as H1.
  rewrite Nat.mul_0_l, Nat.add_0_r in H0. rewrite Nat.mul_1_l in H1.
  destruct (grows_app p vs _ _ _ _ n O H0 H1 b K Hb Hvs Hlen Hmax) as (b' & Hrun & H').
  exists b'. split; [|exact H']. unfold add_book. cbn [foldM].
  destruct (foldM _ b _) as [b1|]; [|done]. cbn [mbind option_bind] in *.
  rewrite Hrun. done.
Qed.

Lemma kcount_replicate t t' n :
  kcount t (replicate n t') = if decide (t' = t) then Z.of_nat n else 0.
Proof.
  unfold kcount. induction n as [|n IH]; [by case_decide|]. cbn [replicate]. rewrite count_cons.
  case_decide; [rewrite bool_decide_eq_true_2 by done|rewrite bool_decide_eq_false_2 by done];
    cbn [Nat.b2n]; lia.
Qed.

Lemma kcount_blocks t blk n : kcount t (mjoin (replicate n blk)) = Z.of_nat n * kcount t blk.
Proof.
  induction n as [|n IH]; [done|]. cbn [replicate].
  change (mjoin (blk :: ?l)) with (blk ++ mjoin l). rewrite kcount_app, IH. lia.
Qed.

Lemma kcount_kinds p t :
  params_wf p →
  kcount t (kinds p) =
    match t with
    | VENUE => p_venue_count p
    | PRICE_LEVEL => 2 * p_venue_count p * p_price_levels p
    | ORDER => 2 * p_venue_count p * p_price_levels p * p_orders_per_level p
    | MARKET_MAKER => p_market_maker_count p
    end.
Proof.
  intros ([] & [] & [] & [] & _). unfold kinds. rewrite !kcount_app, kcount_blocks, kcount_app.
  unfold side_block. rewrite kcount_blocks. unfold level_block.
  change (PRICE_LEVEL :: ?l) with ([PRICE_LEVEL] ++ l). rewrite kcount_app, !kcount_replicate.
  change (kcount t [PRICE_LEVEL]) with (kcount t (replicate 1 PRICE_LEVEL)).
  rewrite kcount_replicate. destruct t; cbn [decide]; repeat case_decide; try done; lia.
Qed.

Lemma kcount_total C :
  Z.of_nat (length C) =
  kcount VENUE C + kcount PRICE_LEVEL C + kcount ORDER C + kcount MARKET_MAKER C.
Proof.
  induction C as [|t C IH]; [done|]. cbn [length].
  change (t :: C) with ([t] ++ C). rewrite !kcount_app.
  assert (kcount VENUE [t] + kcount PRICE_LEVEL [t] + kcount ORDER [t] + kcount MARKET_MAKER [t]
    = 1) by (by destruct t). lia.
Qed.

Lemma build_effect p clock :
  params_wf p → Z.of_nat (length (kinds p)) ≤ 2 ^ 63 →
  ∃ b, build_order_book_graph p clock = Some (data_ b) ∧ built_b p (kinds p) [] b ∧
       counts_ok (kinds p) (data_ b).
Proof.
  intros Hp Hmax. unfold kinds in Hmax. rewrite !length_app, length_replicate in Hmax.
  destruct (add_venues_spec p (Z.to_nat (p_venue_count p)) Hp) as (b1 & H1 & Hb1 & Hvs & HC1).
  { lia. }
  assert (grows p (venue_ids b1) (λ b _, foldM (add_book p clock) b
    (seq 0 (Z.to_nat (p_venue_count p))))
    (mjoin (replicate (Z.to_nat (p_venue_count p)) (side_block p ++ side_block p)))
    (Z.to_nat (p_venue_count p)) O) as Hbooks.
  { apply loop_grows; [apply length_seq|]. intros i v (Hi & Hv)%lookup_seq. cbn in Hi. subst v.
    apply add_book_grows; [done|apply lookup_lt_is_Some; lia|].
    pose proof Hp as ([] & _). rewrite length_app, Nat2Z.inj_add, Nat2Z.inj_mul, Nat2Z.inj_add.
    rewrite !side_block_length, Z2Nat.id by (done || lia). unfold book_size. ring. }
  assert (∀ n, grows p (venue_ids b1) (λ b _, foldM (add_maker p) b
    (seq 0 (Z.to_nat (p_market_maker_count p))))
    (replicate (Z.to_nat (p_market_maker_count p)) MARKET_MAKER) n O) as Hmakers.
  { intros n. assert (∀ n, replicate n MARKET_MAKER = mjoin (replicate n [MARKET_MAKER])) as ->.
    { clear. induction n as [|n IH]; [done|]. cbn [replicate].
      change (mjoin ([MARKET_MAKER] :: ?l)) with (MARKET_MAKER :: mjoin l). by rewrite IH. }
    apply loop_grows; [apply length_seq|]. intros i mm _ b K Hb Hv _ Hm.
    destruct (add_maker_spec p b mm K Hp Hb Hm) as (b' & ? & ? & Hv' & ?).
    exists b'. split_and!; try done. by rewrite Hv'. }
  destruct (grows_app _ _ _ _ _ _ _ O Hbooks (Hmakers _) b1 _ Hb1 eq_refl)
    as (b3 & H3 & Hb3 & _ & HC3).
  { apply length_replicate. }
  { rewrite !length_app, length_replicate. lia. }
  exists b3. split; [|split; [exact Hb3|by apply HC3]].
  unfold build_order_book_graph. rewrite H1. cbn [mbind option_bind].
  apply bind_Some in H3 as (b2 & H2 & H3). rewrite H2. cbn [mbind option_bind]. by rewrite H3.
Qed.

(** ** Properties *)

(** C22: the graph.  For parameters in the range of their types with at least one
    worker, and a graph of at most 2^63 vertices, the construction is defined.
    Its vertices have the ids 0 to n-1, once each; the class of each id is the
    one given by [kinds]; every vertex is awake, has an empty outbox, its owner
    is its id modulo the worker count, its data are fresh and in range, and its
    edges, counted in [total_edges], lead to vertices of the graph of the classes
    its own class may talk to.  They also lead to the right ones: an order's edge
    to the level in whose block of ids it is, a level's to the venue in whose book
    it is and to orders of its own block, a venue's to levels of its own book.  So
    no edge leads to an order but from its own level.  The hypotheses are what the
    distributions promise and the assumption [BoundedPriceDraws]. *)
Theorem graph_built p clock :
  params_wf p → Z.of_nat (length (kinds p)) ≤ 2 ^ 63 →
  ∃ d, build_order_book_graph p clock = Some d ∧
    ((λ vd, Vertex.id_ vd.1) <$> vertices d) ≡ₚ seqZ 0 (Z.of_nat (length (kinds p))) ∧
    Forall (good p (kinds p)) (vertices d) ∧
    total_edges d = u64 (Z.of_nat (degree (vertices d))).
Proof.
  intros Hp Hmax. destruct (build_effect p clock Hp Hmax) as (b & Hrun & Hb & _).
  exists (data_ b). destruct Hb as (_ & _ & Hids & Hg & _ & _ & _ & Hte). by split_and!.
Qed.

(** the counts.  The counters of the graph are those of its vertices: one per
    venue and market maker, two sides of levels per venue, the orders of each
    level; 32-bit and 64-bit counters wrap around. *)
Theorem graph_counts p clock d :
  params_wf p → Z.of_nat (length (kinds p)) ≤ 2 ^ 63 →
  build_order_book_graph p clock = Some d →
  Z.of_nat (length (vertices d)) =
    p_venue_count p + 2 * p_venue_count p * p_price_levels p * (1 + p_orders_per_level p) +
    p_market_maker_count p ∧
  venue_count d = p_venue_count p ∧ mm_count d = p_market_maker_count p ∧
  price_level_count d = u32 (2 * p_venue_count p * p_price_levels p) ∧
  order_count d = u64 (2 * p_venue_count p * p_price_levels p * p_orders_per_level p).
Proof.
  intros Hp Hmax Hrun. destruct (build_effect p clock Hp Hmax) as (b & Hrun' & Hb & HC).
  rewrite Hrun in Hrun'. injection Hrun' as ->.
  destruct HC as (-> & -> & -> & ->). rewrite !kcount_kinds by done.
  pose proof Hp as (Hv & Hl & Ho & Hm & _).
  rewrite !(u32_small (p_venue_count p)), !(u32_small (p_market_maker_count p)) by done.
  split_and!; try done. rewrite (built_length _ _ _ Hb), kcount_total, !kcount_kinds by done. lia.
Qed.

End Graph.
(** ** The theorems at a concrete source and small parameters *)

#[local] Existing Instance Venue.lcg.

Definition lcg_graph_source : GraphSource Z :=
  {| graph_seed s := s;
     qty_draw g := (100 + g `mod` 9901, Venue.lcg_step g);
     price_draw g := (g `mod` 31 - 15, Venue.lcg_step g);
     word_draw g := (u64 g, Venue.lcg_step g) |}.
#[local] Existing Instance lcg_graph_source.

Lemma lcg_graph_laws : GraphSourceLaws Z.
Proof.
  split; intros g; cbn -[u64].
  - pose proof (Z.mod_pos_bound g 9901 ltac:(lia)). lia.
  - apply u64_range.
Qed.
#[local] Existing Instance lcg_graph_laws.

Lemma lcg_graph_bounded : BoundedPriceDraws Z.
Proof.
  intros g. cbn. pose proof (Z.mod_pos_bound g 31 ltac:(lia)). lia.
Qed.
#[local] Existing Instance lcg_graph_bounded.

(** Two venues with one level of two orders per side, one market maker, three
    workers. *)
Definition sample_params : Params := mkParams 2 1 2 1 3 7.

Lemma sample_params_wf : params_wf sample_params.
Proof. unfold params_wf, in_u32, in_u64. cbn. lia. Qed.

Lemma sample_params_size : Z.of_nat (length (kinds sample_params)) ≤ 2 ^ 63.
Proof. by apply Z.leb_le. Qed.

#[local] Abbreviation sample_graph := (build_order_book_graph (R := Z) sample_params (λ _, 0)).

Lemma sample_graph_degree : (λ d, degree (vertices d)) <$> sample_graph = Some 32%nat.
Proof. vm_compute. reflexivity. Qed.

Lemma graph_built_witness :
  ∃ d, sample_graph = Some d ∧ length (vertices d) = 15%nat ∧ total_edges d = 32.
Proof.
  destruct (graph_built (R := Z) sample_params (λ _, 0) sample_params_wf sample_params_size)
    as (d & Hrun & Hids & _ & Hte).
  exists d. split; [exact Hrun|]. split.
  - apply Permutation_length in Hids. by rewrite length_fmap, length_seqZ in Hids.
  - pose proof sample_graph_degree as Hd. rewrite Hrun in Hd.
    apply Some_inj in Hd. rewrite Hte. cbn [fmap option_fmap option_map] in Hd. by rewrite Hd.
Defined.

Lemma graph_counts_witness :
  ∃ d, sample_graph = Some d ∧ price_level_count d = 4 ∧ order_count d = 8.
Proof.
  pose proof sample_graph_degree as Hd. apply fmap_Some in Hd as (d & Hrun & _).
  destruct (graph_counts sample_params (λ _, 0) d sample_params_wf sample_params_size Hrun)
    as (_ & _ & _ & Hl & Ho).
  exists d. split; [exact Hrun|]. split; [exact Hl|exact Ho].
Defined.

End Graph.
