(* ===== verification/Coordinator.v ===== *)
(** The coordinator: [src/coordinator.hpp], [src/coordinator.cpp].

    The workers share nothing that they write, the barrier and the scheduler
    aside, so the futures of a superstep are run one after the other; the
    monitor thread of the failure detector and the fault injection thread act
    between the supersteps, in any order, as the [background] events.  What the
    program prints is part of the state: a row per superstep, and a line per
    reassignment.  The texts, and the throughputs in them, are in [Report]. *)
From S2P Require Import Prelude Types Vertex PartitionMap RdmaTransport MessageBus NumaScheduler Float64 Heartbeat WorkerNode VenueVertex PriceLevelVertex OrderBook Superstep.
Local Open Scope Z_scope.

Module Coord.
Import Worker Superstep.
Section Coord.
Context {D : Type} `{HI : VertexImpl D, HM : MathLib}.

(** A row of the table: [print_superstep_stats]. *)
Record Row := mkRow { row_step : Z; row_active : Z; row_msgs : Z }.

Record Coordinator := mkCoordinator {
  config_ : EngineConfig;
  workers_ : list (WorkerNode D);
  pmap_ : PMap.PartitionMap;
  hb_ : Hb.HeartbeatDetector;
  current_step_ : Superstep;
  done_ : bool;
  total_vertices_processed_ : Z;
  rows_ : list Row;
  reassigned_ : list (WorkerId * WorkerId);    (* [redistribute_partition] *)
}.

(** The constructor; the threshold 8 is the detector's default, [clock] the
    readings of its constructor. *)
Definition new (config : EngineConfig) (workers : list (WorkerNode D)) (pm : PMap.PartitionMap)
    (clock : Z → Z) : Coordinator :=
  mkCoordinator config workers pm
    (Hb.on_failure (Hb.new 0 (worker_count config) (heartbeat_interval_ms config)
                      (failure_timeout_ms config) (F64.of_Z 8) clock))
    0 false 0 [] [].

Definition set_hb (hb : Hb.HeartbeatDetector) (c : Coordinator) : Coordinator :=
  mkCoordinator (config_ c) (workers_ c) (pmap_ c) hb (current_step_ c) (done_ c)
    (total_vertices_processed_ c) (rows_ c) (reassigned_ c).
Definition set_workers (ws : list (WorkerNode D)) (c : Coordinator) : Coordinator :=
  mkCoordinator (config_ c) ws (pmap_ c) (hb_ c) (current_step_ c) (done_ c)
    (total_vertices_processed_ c) (rows_ c) (reassigned_ c).
Definition set_step (s : Superstep) (c : Coordinator) : Coordinator :=
  mkCoordinator (config_ c) (workers_ c) (pmap_ c) (hb_ c) s (done_ c)
    (total_vertices_processed_ c) (rows_ c) (reassigned_ c).
Definition set_done (c : Coordinator) : Coordinator :=
  mkCoordinator (config_ c) (workers_ c) (pmap_ c) (hb_ c) (current_step_ c) true
    (total_vertices_processed_ c) (rows_ c) (reassigned_ c).
Definition record_step (row : Row) (c : Coordinator) : Coordinator :=
  mkCoordinator (config_ c) (workers_ c) (pmap_ c) (hb_ c) (current_step_ c) (done_ c)
    (u64 (total_vertices_processed_ c + row_active row)) (rows_ c ++ [row]) (reassigned_ c).
Definition reassign (failed new_owner : WorkerId) (c : Coordinator) : Coordinator :=
  mkCoordinator (config_ c) (workers_ c) (pmap_ c) (hb_ c) (current_step_ c) (done_ c)
    (total_vertices_processed_ c) (rows_ c) (reassigned_ c ++ [(failed, new_owner)]).

(** *** A failure *)

Definition SIZE_MAX : Z := 2 ^ 64 - 1.

(** One iteration of the loop of [handle_worker_failure]. *)
Definition choose_owner (failed : WorkerId) (acc : WorkerId * Z) (w : WorkerNode D)
    : WorkerId * Z :=
  let '(new_owner, min_vertices) := acc in
  if decide (id_ w = failed) then acc
  else if decide (Z.of_nat (vertex_count w) < min_vertices)
       then (id_ w, Z.of_nat (vertex_count w)) else acc.

Definition new_owner_of (failed : WorkerId) (ws : list (WorkerNode D)) : WorkerId :=
  (foldl (choose_owner failed) (0, SIZE_MAX) ws).1.

(** [redistribute_partition] prints its arguments. *)
Definition redistribute_partition (failed new_owner : WorkerId) (c : Coordinator)
    : Coordinator :=
  reassign failed new_owner c.

Definition handle_worker_failure (failed : WorkerId) (c : Coordinator) : Coordinator :=
  redistribute_partition failed (new_owner_of failed (workers_ c)) c.

(** The callbacks of the detector: only [on_failure] is set. *)
Definition callback (c : Coordinator) (cb : Hb.Callback) : Coordinator :=
  match cb with
  | Hb.OnFailure w => handle_worker_failure w c
  | Hb.OnRecovery _ => c
  end.

(** What the detector's monitor thread and the injection thread do meanwhile. *)
Inductive Background :=
  | MonitorPass (order : list WorkerId) (clock : WorkerId → Z * Z)
  | FaultInjection.

Definition background (c : Coordinator) (ev : Background) : Coordinator :=
  match ev with
  | MonitorPass order clock =>
      let '(hb, cbs) := Hb.monitor_pass order clock (hb_ c) in
      foldl callback (set_hb hb c) cbs
  | FaultInjection =>
      if decide (enable_fault_injection (config_ c) = true ∧ (2 < length (workers_ c))%nat)
      then set_hb (Hb.inject_failure 1 (hb_ c)) c else c
  end.

(** *** The superstep loop *)

(** The heartbeats of a superstep; [clock w] is the reading for worker [w]. *)
Definition heartbeats (clock : WorkerId → Z) (c : Coordinator) : Coordinator :=
  foldl (λ c w, let '(hb, cbs) := Hb.receive_heartbeat (Z.of_nat w) (clock (Z.of_nat w)) (hb_ c) in
                foldl callback (set_hb hb c) cbs)
    c (seq 0 (Z.to_nat (worker_count (config_ c)))).

(** The futures: every worker runs the superstep, the active counts add up. *)
Fixpoint run_workers (pm : PMap.PartitionMap) (env : nat → StepEnv) (step : Superstep)
    (ws : list (WorkerNode D)) (i : nat) : option (list (WorkerNode D) * Z) :=
  match ws with
  | [] => Some ([], 0)
  | w :: ws =>
      '(w, n) ← run_superstep pm (env i) step w;
      '(ws, total) ← run_workers pm env step ws (S i);
      Some (w :: ws, u64 (n + total))
  end.

Definition total_sent (ws : list (WorkerNode D)) : Z :=
  foldl (λ t w, u64 (t + messages_sent (stats_ w))) 0 ws.

Record Env := mkEnvironment {
  e_background : list Background;
  e_beats : WorkerId → Z;
  e_workers : nat → StepEnv;
}.

(** The body of the loop, up to the test for convergence. *)
Definition superstep (env : Env) (step : Superstep) (c : Coordinator)
    : option (Coordinator * Z) :=
  let c := foldl background c (e_background env) in
  let c := heartbeats (e_beats env) (set_step step c) in
  '(ws, total_active) ← run_workers (pmap_ c) (e_workers env) step (workers_ c) 0;
  let c := set_workers ws c in
  Some (record_step (mkRow step total_active (total_sent ws)) c, total_active).

(** The loop, with [n] supersteps left. *)
Fixpoint run_loop (env : Superstep → Env) (step : Superstep) (n : nat) (c : Coordinator)
    : option Coordinator :=
  match n with
  | O => Some c
  | S n =>
      '(c, total_active) ← superstep (env step) step c;
      if decide (total_active = 0) then Some c else run_loop env (step + 1) n c
  end.

Definition run (env : Superstep → Env) (c : Coordinator) : option Coordinator :=
  c ← run_loop env 0 (Z.to_nat (max_supersteps (config_ c))) c;
  Some (set_done c).

(** The sums of [print_summary]. *)
Record Summary := mkSummary {
  s_supersteps : Z; s_vertices : Z; s_messages : Z; s_rdma : Z; s_spikes : Z; s_migrations : Z }.

Definition sum_stats (f : WorkerStats → Z) (ws : list (WorkerNode D)) : Z :=
  foldl (λ t w, u64 (t + f (stats_ w))) 0 ws.

Definition print_summary (c : Coordinator) : Summary :=
  mkSummary (u64 (current_step_ c + 1)) (sum_stats vertices_processed (workers_ c))
    (sum_stats messages_sent (workers_ c)) (sum_stats rdma_ops (workers_ c))
    (sum_stats latency_spike_count (workers_ c))
    (sum_stats migrations_performed (workers_ c)).

(** ** Lemmas *)

(** What the detector and its callbacks never touch. *)
Definition same_core (c c' : Coordinator) : Prop :=
  config_ c' = config_ c ∧ workers_ c' = workers_ c ∧ pmap_ c' = pmap_ c ∧
  current_step_ c' = current_step_ c ∧ done_ c' = done_ c ∧ rows_ c' = rows_ c ∧
  total_vertices_processed_ c' = total_vertices_processed_ c.

#[global] Instance same_core_preorder : PreOrder same_core.
Proof.
  split; [by intros c; split_and!|]. intros a b c (?&?&?&?&?&?&?) (?&?&?&?&?&?&?).
  split_and!; congruence.
Qed.

Lemma foldl_core {A} (f : Coordinator → A → Coordinator) l c :
  (∀ c x, same_core c (f c x)) → same_core c (foldl f c l).
Proof.
  intros Hf. revert c. induction l as [|x l IH]; intros c; [done|]. cbn.
  etrans; [apply Hf|apply IH].
Qed.

Lemma callback_core c cb : same_core c (callback c cb).
Proof. by destruct cb. Qed.

Lemma background_core c ev : same_core c (background c ev).
Proof.
  destruct ev as [order clock|]; cbn.
  - destruct (Hb.monitor_pass _ _ _) as [hb cbs].
    etrans; [|apply foldl_core, callback_core]. done.
  - by case_decide.
Qed.

Lemma heartbeats_core clock c : same_core c (heartbeats clock c).
Proof.
  unfold heartbeats. apply foldl_core. intros c' w.
  destruct (Hb.receive_heartbeat _ _ _) as [hb cbs].
  etrans; [|apply foldl_core, callback_core]. done.
Qed.

(** The state in which the workers of a superstep start. *)
Lemma before_workers env step c :
  let c1 := heartbeats (e_beats env) (set_step step (foldl background c (e_background env))) in
  config_ c1 = config_ c ∧ workers_ c1 = workers_ c ∧ pmap_ c1 = pmap_ c ∧
  current_step_ c1 = step ∧ done_ c1 = done_ c ∧ rows_ c1 = rows_ c.
Proof.
  cbn zeta. destruct (heartbeats_core (e_beats env)
    (set_step step (foldl background c (e_background env)))) as (->&->&->&->&->&->&_).
  destruct (foldl_core background (e_background env) c background_core) as (?&?&?&?&?&?&_).
  by split_and!.
Qed.

Lemma before_total env step c :
  total_vertices_processed_ (heartbeats (e_beats env)
    (set_step step (foldl background c (e_background env)))) = total_vertices_processed_ c.
Proof.
  destruct (heartbeats_core (e_beats env)
    (set_step step (foldl background c (e_background env)))) as (_&_&_&_&_&_&->).
  by destruct (foldl_core background (e_background env) c background_core) as (_&_&_&_&_&_&?).
Qed.

(** The workers of a superstep, one by one. *)
Lemma run_workers_spec pm env step ws i :
  match run_workers pm env step ws i with
  | Some (ws', t) =>
      ∃ ns, length ns = length ws ∧ length ws' = length ws ∧
        t = u64 (foldr Z.add 0 ns) ∧
        ∀ k w, ws !! k = Some w → ∃ w' n,
          run_superstep pm (env (i + k)%nat) step w = Some (w', n) ∧
          ws' !! k = Some w' ∧ ns !! k = Some n
  | None => ∃ k w, ws !! k = Some w ∧ run_superstep pm (env (i + k)%nat) step w = None
  end.
Proof.
  revert i. induction ws as [|w ws IH]; intros i; cbn [run_workers].
  { exists []. by split_and!. }
  destruct (run_superstep pm (env i) step w) as [[w' n]|] eqn:E; cbn [mbind option_bind].
  2: { exists O, w. rewrite Nat.add_0_r. done. }
  specialize (IH (S i)). destruct (run_workers pm env step ws (S i)) as [[ws' t]|];
    cbn [mbind option_bind].
  - destruct IH as (ns & Hl & Hl' & -> & Hk). exists (n :: ns). cbn [length foldr].
    split_and!; [congruence|congruence| |].
    { unfold u64. by rewrite Zplus_mod_idemp_r. }
    intros [|k] w0 Hw0; cbn in Hw0.
    + injection Hw0 as <-. exists w', n. rewrite Nat.add_0_r. done.
    + destruct (Hk k w0 Hw0) as (w1 & n1 & ? & ? & ?). exists w1, n1.
      rewrite Nat.add_succ_r. done.
  - destruct IH as (k & w0 & ? & ?). exists (S k), w0. rewrite Nat.add_succ_r. done.
Qed.

(** A superstep of the coordinator is one of its workers. *)
Lemma superstep_eq env step c :
  superstep env step c =
    let c1 := heartbeats (e_beats env) (set_step step (foldl background c (e_background env))) in
    '(ws, t) ← run_workers (pmap_ c) (e_workers env) step (workers_ c) 0;
    Some (record_step (mkRow step t (total_sent ws)) (set_workers ws c1), t).
Proof.
  unfold superstep. cbn zeta.
  destruct (before_workers env step c) as (_ & Hw & Hp & _). cbn zeta in Hw, Hp.
  by rewrite Hw, Hp.
Qed.

(** *** The loop *)

(** The rows that a loop over the steps from [step] leaves: consecutive steps,
    and only the last may have no active vertex. *)
Inductive table : Superstep → list Row → Prop :=
  | table_nil step : table step []
  | table_last step r : row_step r = step → table step [r]
  | table_cons step r rows :
      row_step r = step → row_active r ≠ 0 → table (step + 1) rows → table step (r :: rows).

Lemma run_loop_spec env step n c c' :
  run_loop env step n c = Some c' →
  ∃ rows, rows_ c' = rows_ c ++ rows ∧ table step rows ∧ (length rows ≤ n)%nat ∧
    (length rows = n ∨ ∃ r, last rows = Some r ∧ row_active r = 0) ∧
    (rows ≠ [] → current_step_ c' = step + Z.of_nat (length rows) - 1) ∧
    pmap_ c' = pmap_ c ∧ config_ c' = config_ c ∧ length (workers_ c') = length (workers_ c).
Proof.
  revert step c. induction n as [|n IH]; intros step c; cbn [run_loop].
  { intros [= <-]. exists []. rewrite app_nil_r. split_and!; try done; [constructor|by left]. }
  rewrite superstep_eq. cbn zeta.
  destruct (before_workers (env step) step c) as (Hc & Hw & Hp & Hcs & _ & Hr). cbn zeta in *.
  set (c1 := heartbeats _ _) in *.
  pose proof (run_workers_spec (pmap_ c) (e_workers (env step)) step (workers_ c) 0) as Hws.
  destruct (run_workers _ _ _ _ _) as [[ws t]|]; [|done]. destruct Hws as (ns & _ & Hlen & _).
  cbn [mbind option_bind]. set (row := mkRow step t (total_sent ws)).
  set (c2 := record_step row (set_workers ws c1)).
  assert (rows_ c2 = rows_ c ++ [row]) as Hr2 by (cbn; by rewrite Hr).
  case_decide as Ht.
  - intros [= <-]. exists [row]. split_and!; try done; [by apply table_last|cbn; lia| |cbn; lia].
    right. by exists row.
  - intros Hrun. destruct (IH _ _ Hrun) as (rows & E & Htab & Hn & Hend & Hcur & ? & ? & ?).
    exists (row :: rows). rewrite Hr2, <- app_assoc in E. split_and!; try done.
    + by apply table_cons.
    + cbn. lia.
    + destruct Hend as [Hend|(r & Hl & Ha)]; [left; cbn; lia|right].
      exists r. split; [|done]. destruct rows; done.
    + intros _. destruct rows as [|r rows].
      * destruct n; cbn [run_loop] in Hrun.
        { injection Hrun as <-. cbn. rewrite Hcs. lia. }
        exfalso. destruct Hend as [Hend|(r & Hl & _)]; done.
      * rewrite Hcur by done. cbn [length]. lia.
    + cbn in *. congruence.
    + cbn in *. congruence.
    + cbn in *. congruence.
Qed.

(** What every superstep preserves for the [i]-th worker holds after the loop. *)
Lemma run_loop_workers (P : nat → WorkerNode D → Prop) env step n c c' :
  (∀ s i w w' m, step ≤ s < step + Z.of_nat n → P i w →
     run_superstep (pmap_ c) (e_workers (env s) i) s w = Some (w', m) → P i w') →
  (∀ i w, workers_ c !! i = Some w → P i w) →
  run_loop env step n c = Some c' →
  ∀ i w, workers_ c' !! i = Some w → P i w.
Proof.
  revert step c. induction n as [|n IH]; intros step c HP Hc; cbn [run_loop].
  { intros [= <-]. done. }
  rewrite superstep_eq. cbn zeta.
  destruct (before_workers (env step) step c) as (_ & _ & Hp & _). cbn zeta in *.
  set (c1 := heartbeats _ _) in *.
  pose proof (run_workers_spec (pmap_ c) (e_workers (env step)) step (workers_ c) 0) as Hws.
  destruct (run_workers _ _ _ _ _) as [[ws t]|]; [|done].
  destruct Hws as (ns & _ & Hlen & _ & Hk). cbn [mbind option_bind].
  assert (∀ i w, ws !! i = Some w → P i w) as Hws.
  { intros i w Hi. destruct (lookup_lt_is_Some_2 (workers_ c) i) as [w0 Hw0].
    { rewrite <- Hlen. by eapply lookup_lt_Some. }
    destruct (Hk i w0 Hw0) as (w1 & m & Hrun & Hw1 & _). rewrite Hi in Hw1.
    injection Hw1 as <-. eapply (HP step); [lia| |exact Hrun]. by apply Hc. }
  case_decide; [by intros [= <-]|].
  apply IH; [|exact Hws]. intros s i w w' m Hs. cbn [pmap_ record_step set_workers]. rewrite Hp.
  apply HP. lia.
Qed.

(** Workers whose supersteps are defined. *)
Lemma run_workers_total pm env step ws (P : nat → WorkerNode D → Prop) :
  (∀ i w, ws !! i = Some w →
     ∃ w', run_superstep pm (env i) step w = Some (w', count_active w') ∧ P i w') →
  ∃ ws', run_workers pm env step ws 0 = Some (ws', u64 (foldr Z.add 0 (count_active <$> ws'))) ∧
    length ws' = length ws ∧ ∀ i w', ws' !! i = Some w' → P i w'.
Proof.
  intros HP. pose proof (run_workers_spec pm env step ws 0) as Hs.
  destruct (run_workers pm env step ws 0) as [[ws' t]|].
  2: { destruct Hs as (k & w & Hk & Hn). destruct (HP k w Hk) as (w' & Hw' & _).
       cbn in Hn. congruence. }
  destruct Hs as (ns & Hl & Hl' & -> & Hk). exists ws'.
  assert (∀ i w', ws' !! i = Some w' → ns !! i = Some (count_active w') ∧ P i w') as Hall.
  { intros i w' Hi. destruct (lookup_lt_is_Some_2 ws i) as [w Hw].
    { rewrite <- Hl'. by eapply lookup_lt_Some. }
    destruct (Hk i w Hw) as (w1 & n & Hrun & Hw1 & Hn). rewrite Hi in Hw1. injection Hw1 as <-.
    destruct (HP i w Hw) as (w2 & Hrun2 & HP2). cbn in Hrun. rewrite Hrun2 in Hrun.
    injection Hrun as -> ->. done. }
  split; [|split; [done|intros i w' Hi; by apply Hall]]. do 4 f_equal.
  apply list_eq_same_length with (length ws); [by rewrite length_fmap|done|].
  intros i x y _ Hx Hy. apply list_lookup_fmap_Some in Hy as (w' & -> & Hw').
  destruct (Hall i w' Hw') as [Hn _]. congruence.
Qed.

(** A loop whose supersteps are defined and never leave the workers idle makes
    all its supersteps. *)
Lemma run_loop_total (I : Superstep → list (WorkerNode D) → Prop) env step n c :
  (∀ s ws, step ≤ s < step + Z.of_nat n → I s ws →
     ∃ ws' t, run_workers (pmap_ c) (e_workers (env s)) s ws 0 = Some (ws', t) ∧
       t ≠ 0 ∧ I (s + 1) ws') →
  I step (workers_ c) →
  ∃ c', run_loop env step n c = Some c' ∧ I (step + Z.of_nat n) (workers_ c') ∧
    pmap_ c' = pmap_ c ∧ ∃ rows, rows_ c' = rows_ c ++ rows ∧ length rows = n ∧
    Forall (λ r, row_active r ≠ 0) rows.
Proof.
  revert step c. induction n as [|n IH]; intros step c Hstep HInv; cbn [run_loop].
  { exists c. rewrite Z.add_0_r. split_and!; try done. exists []. by rewrite app_nil_r. }
  rewrite superstep_eq. cbn zeta.
  destruct (before_workers (env step) step c) as (_ & _ & Hp & _ & _ & Hr). cbn zeta in *.
  set (c1 := heartbeats _ _) in *.
  destruct (Hstep step (workers_ c)) as (ws & t & -> & Ht & HInv'); [lia|done|].
  cbn [mbind option_bind]. set (c2 := record_step _ (set_workers ws c1)).
  rewrite decide_False by done.
  destruct (IH (step + 1) c2) as (c' & -> & HInv2 & Hp2 & rows & Hr2 & Hl & Hf).
  { intros s ws' Hs. cbn [c2 pmap_ record_step set_workers]. rewrite Hp. apply Hstep. lia. }
  { done. }
  exists c'. split; [done|]. cbn in Hp2, Hr2. rewrite Hr in Hr2. rewrite Hp in Hp2.
  split; [by replace (step + Z.of_nat (S n)) with (step + 1 + Z.of_nat n) by lia|].
  split; [done|]. eexists (_ :: rows). rewrite Hr2, <- app_assoc. split_and!; [done| |].
  - cbn. by rewrite Hl.
  - by constructor.
Qed.

(** The schedule of one worker over the supersteps from [step] on. *)
Definition worker_schedule (env : Superstep → Env) (i : nat) (step : Superstep) (n : nat)
    : list (StepEnv * Superstep) :=
  (λ s, (e_workers (env s) i, s)) <$> seqZ step (Z.of_nat n).

(** The loop does to each worker what its own supersteps do. *)
Lemma run_loop_isolated env step n c c' :
  run_loop env step n c = Some c' →
  ∃ m, length (rows_ c') = (length (rows_ c) + m)%nat ∧ (m ≤ n)%nat ∧
    ∀ i w, workers_ c !! i = Some w → ∃ w', workers_ c' !! i = Some w' ∧
      run_supersteps (pmap_ c) (worker_schedule env i step m) w = Some w'.
Proof.
  revert step c. induction n as [|n IH]; intros step c; cbn [run_loop].
  { intros [= <-]. exists O. split_and!; [lia|lia|]. intros i w Hi. by exists w. }
  rewrite superstep_eq. cbn zeta.
  destruct (before_workers (env step) step c) as (_ & _ & Hp & _ & _ & Hr). cbn zeta in *.
  set (c1 := heartbeats _ _) in *.
  pose proof (run_workers_spec (pmap_ c) (e_workers (env step)) step (workers_ c) 0) as Hws.
  destruct (run_workers _ _ _ _ _) as [[ws t]|]; [|done]. destruct Hws as (ns & _ & Hlen & _ & Hk).
  cbn [mbind option_bind]. set (c2 := record_step _ (set_workers ws c1)).
  assert (length (rows_ c2) = (length (rows_ c) + 1)%nat) as Hr2
    by (cbn; by rewrite Hr, length_app).
  assert (∀ m i, worker_schedule env i step (S m) =
    (e_workers (env step) i, step) :: worker_schedule env i (step + 1) m) as Hcons.
  { intros m i. unfold worker_schedule. rewrite seqZ_cons by lia. cbn [fmap list_fmap].
    by replace (Z.pred (Z.of_nat (S m))) with (Z.of_nat m) by lia. }
  case_decide as Ht.
  - intros [= <-]. exists 1%nat. split_and!; [done|lia|]. intros i w Hi.
    destruct (Hk i w Hi) as (w' & k & Hrun & Hw' & _). exists w'. split; [done|].
    rewrite Hcons. unfold run_supersteps. cbn [foldM]. cbn in Hrun. by rewrite Hrun.
  - intros Hrun. destruct (IH _ _ Hrun) as (m & Hm & Hle & Hall).
    exists (S m). split_and!; [lia|lia|]. intros i w Hi.
    destruct (Hk i w Hi) as (w1 & k & Hstep & Hw1 & _). destruct (Hall i w1 Hw1) as (w' & Hw' & Hs).
    exists w'. split; [done|]. rewrite Hcons. unfold run_supersteps in *. cbn [foldM].
    cbn in Hstep. rewrite Hstep. cbn [mbind option_bind]. cbn [c2 pmap_ record_step set_workers] in Hs.
    by rewrite Hp in Hs.
Qed.

(** *** The owner chosen after a failure *)

Lemma choose_spec failed ws :
  Forall (λ w, Z.of_nat (vertex_count w) < SIZE_MAX) ws →
  let '(o, m) := foldl (choose_owner failed) (0, SIZE_MAX) ws in
  (o = 0 ∧ m = SIZE_MAX ∧ Forall (λ w, id_ w = failed) ws) ∨
  ∃ i w, ws !! i = Some w ∧ id_ w = o ∧ o ≠ failed ∧ m = Z.of_nat (vertex_count w) ∧
    ∀ j w', ws !! j = Some w' → id_ w' ≠ failed →
      m ≤ Z.of_nat (vertex_count w') ∧ ((j < i)%nat → m < Z.of_nat (vertex_count w')).
Proof.
  induction ws as [|x ws IH] using rev_ind; intros Hall; [left; by split_and!|].
  apply Forall_app in Hall as [Hall Hx]. apply Forall_cons in Hx as [Hx _].
  specialize (IH Hall). rewrite foldl_app. cbn [foldl].
  destruct (foldl (choose_owner failed) (0, SIZE_MAX) ws) as [o m]. cbn [choose_owner].
  destruct (decide (id_ x = failed)) as [Hf|Hf].
  - destruct IH as [(-> & -> & Hws)|(i & w & Hi & ? & ? & ? & Hmin)].
    + left. split_and!; try done. apply Forall_app. by repeat constructor.
    + right. exists i, w. split_and!; try done; [by apply lookup_app_l_Some|].
      intros j w' Hj Hw'. apply lookup_app_Some in Hj as [Hj|[Hj1 Hj2]]; [by apply Hmin|].
      apply list_lookup_singleton_Some in Hj2 as [_ <-]. done.
  - destruct IH as [(-> & -> & Hws)|(i & w & Hi & ? & ? & -> & Hmin)].
    + rewrite decide_True by done. right. exists (length ws), x.
      split_and!; try done; [by apply list_lookup_middle|].
      intros j w' Hj Hw'. apply lookup_app_Some in Hj as [Hj|[Hj1 Hj2]].
      * rewrite Forall_lookup in Hws. by specialize (Hws _ _ Hj).
      * apply list_lookup_singleton_Some in Hj2 as [Hj2 <-]. lia.
    + pose proof (lookup_lt_Some _ _ _ Hi). case_decide as Hlt; right.
      * exists (length ws), x. split_and!; try done; [by apply list_lookup_middle|].
        intros j w' Hj Hw'. apply lookup_app_Some in Hj as [Hj|[Hj1 Hj2]].
        { destruct (Hmin j w' Hj Hw'). lia. }
        apply list_lookup_singleton_Some in Hj2 as [Hj2 <-]. lia.
      * exists i, w. split_and!; try done; [by apply lookup_app_l_Some|].
        intros j w' Hj Hw'. apply lookup_app_Some in Hj as [Hj|[Hj1 Hj2]]; [by apply Hmin|].
        apply list_lookup_singleton_Some in Hj2 as [Hj2 <-]. lia.
Qed.

(** ** Properties *)

(** C21: the run.  When it is defined, a run ends done after at most
    [max_supersteps] supersteps, numbered from 0 without a gap; it ends before
    that only at a superstep that leaves no active vertex, and goes on after
    every other; whether messages are still under way plays no part.  It never
    changes the partition map. *)
Theorem coordinator_run env c c' :
  run env c = Some c' →
  done_ c' = true ∧ pmap_ c' = pmap_ c ∧
  ∃ rows, rows_ c' = rows_ c ++ rows ∧ table 0 rows ∧
    (length rows ≤ Z.to_nat (max_supersteps (config_ c)))%nat ∧
    (length rows = Z.to_nat (max_supersteps (config_ c)) ∨
     ∃ r, last rows = Some r ∧ row_active r = 0) ∧
    (rows ≠ [] → current_step_ c' = Z.of_nat (length rows) - 1).
Proof.
  unfold run. intros (c1 & Hrun & [= <-])%bind_Some.
  apply run_loop_spec in Hrun as (rows & ? & ? & ? & ? & Hcur & Hp & _).
  split; [done|]. split; [done|]. exists rows. split_and!; try done.
Qed.

(** the workers are on their own.  A run makes of each worker what its own
    supersteps make of it, one after the other, whatever the other workers hold
    and do: no message, heartbeat or failure of another worker reaches it.  The
    number of supersteps is the only thing the workers decide together. *)
Theorem workers_isolated env c c' :
  run env c = Some c' →
  ∃ m, length (rows_ c') = (length (rows_ c) + m)%nat ∧
    (m ≤ Z.to_nat (max_supersteps (config_ c)))%nat ∧
    ∀ i w, workers_ c !! i = Some w → ∃ w', workers_ c' !! i = Some w' ∧
      run_supersteps (pmap_ c) (worker_schedule env i 0 m) w = Some w'.
Proof.
  unfold run. intros (c1 & Hrun & [= <-])%bind_Some.
  exact (run_loop_isolated _ _ _ _ _ Hrun).
Qed.

(** the owner named after a failure.  If some other worker than the failed
    one exists, the reassignment that is printed names the first of those with
    the fewest vertices; nothing else of the coordinator, its workers and the
    partition map changes: no vertex moves. *)
Theorem failure_names_least_loaded failed c :
  Forall (λ w, Z.of_nat (vertex_count w) < SIZE_MAX) (workers_ c) →
  (∃ w, w ∈ workers_ c ∧ id_ w ≠ failed) →
  let c' := handle_worker_failure failed c in
  same_core c c' ∧
  ∃ i w, workers_ c !! i = Some w ∧ id_ w ≠ failed ∧
    reassigned_ c' = reassigned_ c ++ [(failed, id_ w)] ∧
    ∀ j w', workers_ c !! j = Some w' → id_ w' ≠ failed →
      (vertex_count w ≤ vertex_count w')%nat ∧
      ((j < i)%nat → (vertex_count w < vertex_count w')%nat).
Proof.
  intros Hall (w0 & Hw0 & Hne). split; [done|].
  pose proof (choose_spec failed (workers_ c) Hall) as Hs.
  unfold handle_worker_failure, redistribute_partition, new_owner_of. cbn.
  destruct (foldl (choose_owner failed) (0, SIZE_MAX) (workers_ c)) as [o m].
  destruct Hs as [(_ & _ & Hf)|(i & w & Hi & <- & Ho & -> & Hmin)].
  { rewrite Forall_forall in Hf. by specialize (Hf _ Hw0). }
  exists i, w. split_and!; try done. intros j w' Hj Hw'. destruct (Hmin j w' Hj Hw'). lia.
Qed.

End Coord.
Section Partition.
Context {D : Type} `{HI : VertexImpl D, HL : !VertexLaws D, HM : MathLib}.

(** The workers are well formed, and the environment enumerates their
    vertices. *)
Definition coord_wf (c : Coordinator (D := D)) : Prop :=
  ∀ i w, workers_ c !! i = Some w → worker_wf (pmap_ c) w.
Definition envs_ok (env : Superstep → Env) (c : Coordinator (D := D)) : Prop :=
  ∀ s i w, workers_ c !! i = Some w → env_wf (e_workers (env s) i) w.

(** the partition never moves.  Whatever failures the detector reports during
    a run, every worker ends with exactly the vertices it started with, no
    migration is counted, and so are no RDMA operation and no latency spike: the
    last three lines of the summary show what they showed before. *)
Theorem run_keeps_partition env (c c' : Coordinator (D := D)) :
  coord_wf c → envs_ok env c → 0 ≤ max_supersteps (config_ c) < 2 ^ 32 →
  run env c = Some c' →
  coord_wf c' ∧
  ∀ i w, workers_ c !! i = Some w → ∃ w', workers_ c' !! i = Some w' ∧
    dom (vertices_ w') = dom (vertices_ w) ∧
    migrations_performed (stats_ w') = migrations_performed (stats_ w) ∧
    rdma_ops (stats_ w') = rdma_ops (stats_ w) ∧
    latency_spike_count (stats_ w') = latency_spike_count (stats_ w).
Proof.
  intros Hwf Henv Hmax. unfold run. intros (c1 & Hrun & [= <-])%bind_Some.
  pose proof (run_loop_spec _ _ _ _ _ Hrun) as (_ & _ & _ & _ & _ & _ & Hp & _ & Hlen).
  assert (∀ i w', workers_ c1 !! i = Some w' → ∃ w, workers_ c !! i = Some w ∧
    worker_wf (pmap_ c) w' ∧ dom (vertices_ w') = dom (vertices_ w) ∧
    migrations_performed (stats_ w') = migrations_performed (stats_ w) ∧
    rdma_ops (stats_ w') = rdma_ops (stats_ w) ∧
    latency_spike_count (stats_ w') = latency_spike_count (stats_ w)) as Hall.
  { eapply run_loop_workers; [| |exact Hrun].
    - intros s i w w' m Hs (w0 & Hw0 & Hw & Hd & Hm & Hr & Hl) Hstep.
      assert (env_wf (e_workers (env s) i) w) as He
        by (unfold env_wf; rewrite Hd; by apply Henv).
      assert (in_u64 s) as Hst by (unfold in_u64; lia).
      pose proof (run_superstep_defined _ _ _ _ _ Hw He Hstep) as Hdef.
      destruct (run_superstep_effect (pmap_ c) _ s w Hw He Hst Hdef)
        as (w1 & Hstep' & Hw1 & _ & Hv & _ & _ & Hstats & _).
      rewrite Hstep in Hstep'. injection Hstep' as <- _.
      exists w0. rewrite Hstats, <- Hm, <- Hr, <- Hl, <- Hd.
      split_and!; try done. by eapply superstep_dom.
    - intros i w Hw. exists w. split_and!; try done. by apply (Hwf i). }
  cbn [workers_ pmap_ set_done]. split.
  - intros i w' Hw'. cbn [workers_ pmap_ set_done] in *. rewrite Hp.
    by destruct (Hall i w' Hw') as (w & _ & ? & _).
  - intros i w Hw. destruct (lookup_lt_is_Some_2 (workers_ c1) i) as [w' Hw'].
    { rewrite Hlen. by eapply lookup_lt_Some. }
    destruct (Hall i w' Hw') as (w0 & Hw0 & _ & H). rewrite Hw in Hw0. injection Hw0 as <-.
    by exists w'.
Qed.
End Partition.

(** ** The theorems at a concrete coordinator *)

#[local] Existing Instances Venue.lcg Hb.step_math.

Definition sample_config : EngineConfig := mkConfig 1 2 2 500 2000 true false.
Definition sample_coordinator : Coordinator (D := OBData Z) :=
  new sample_config [sample_worker 1 0] (PMap.new 1) (λ _, 0).
Definition sample_environment (s : Superstep) : Env :=
  mkEnvironment [FaultInjection; MonitorPass [] (λ _, (0, 0))] (λ _, s) (λ _, sample_env).

Lemma sample_run_defined : is_Some (run sample_environment sample_coordinator).
Proof. vm_compute. by eexists. Qed.

Lemma sample_coordinator_wf : coord_wf sample_coordinator.
Proof.
  intros i w Hi. apply list_lookup_singleton_Some in Hi as [_ <-].
  apply (sample_worker_wf 1 0); lia.
Qed.

Lemma coordinator_run_witness :
  ∃ c', run sample_environment sample_coordinator = Some c' ∧ done_ c' = true ∧
        pmap_ c' = PMap.new 1.
Proof.
  destruct sample_run_defined as [c' Hrun]. exists c'. split; [exact Hrun|].
  destruct (coordinator_run sample_environment sample_coordinator c' Hrun) as (Hd & Hp & _).
  split; [exact Hd|exact Hp].
Defined.

Lemma workers_isolated_witness :
  ∃ m w', run_supersteps (PMap.new 1) (worker_schedule sample_environment 0 0 m)
            (sample_worker 1 0) = Some w'.
Proof.
  destruct sample_run_defined as [c' Hrun].
  destruct (workers_isolated sample_environment sample_coordinator c' Hrun) as (m & _ & _ & Hall).
  destruct (Hall 0%nat (sample_worker 1 0) eq_refl) as (w' & _ & Hw').
  exists m, w'. exact Hw'.
Defined.

(** Three workers, of which the second fails. *)
Definition sample_three : Coordinator (D := OBData Z) :=
  new (mkConfig 3 2 2 500 2000 true false)
    [sample_worker 3 0; sample_worker 3 1; Worker.new 2 2 (Bus.new 2 3 true)]
    (PMap.new 3) (λ _, 0).

Lemma failure_names_least_loaded_witness :
  reassigned_ (handle_worker_failure 1 sample_three) = [(1, 2)].
Proof.
  destruct (failure_names_least_loaded 1 sample_three) as (_ & i & w & Hi & Hne & Hr & Hmin).
  - repeat constructor; vm_compute; reflexivity.
  - exists (sample_worker 3 0). split; [apply list_elem_of_here|done].
  - rewrite Hr. destruct i as [|[|[|i]]]; [|by injection Hi as <-|by injection Hi as <-|done].
    injection Hi as <-. destruct (Hmin 2%nat _ eq_refl ltac:(done)) as [Hle _].
    vm_compute in Hle. lia.
Defined.

Lemma run_keeps_partition_witness :
  ∃ c' w', run sample_environment sample_coordinator = Some c' ∧
    workers_ c' !! 0%nat = Some w' ∧ dom (vertices_ w') = dom (vertices_ (sample_worker 1 0)).
Proof.
  destruct sample_run_defined as [c' Hrun].
  assert (max_supersteps (config_ sample_coordinator) = 2) as Hmax by reflexivity.
  assert (envs_ok sample_environment sample_coordinator) as Henv.
  { intros s i w Hi. apply list_lookup_singleton_Some in Hi as [_ <-]. apply sample_env_wf. }
  pose proof (run_keeps_partition sample_environment sample_coordinator c'
    sample_coordinator_wf Henv ltac:(rewrite Hmax; lia) Hrun) as [_ Hall].
  destruct (Hall 0%nat (sample_worker 1 0) eq_refl) as (w' & Hw' & Hd & _).
  exists c', w'. split; [exact Hrun|]. split; [exact Hw'|exact Hd].
Defined.

End Coord.
