(* ===== verification/Market.v ===== *)
(** The order book at work: what the four vertex classes do to each other on the
    graph of [OrderBookGraph].

    Two invariants describe a market that has run for [k] supersteps: one of the
    vertices, [vertex_inv], and one of the messages, [mail_inv].  They bound every
    price by the band of the initial book, widened at each superstep by the
    largest step of a venue's random walk, and record who talks to whom.
    [market_step] shows that a computation keeps them; so, as long as the band
    stays above zero, no computation overflows, orders are never filled, market
    makers never trade and never see an opportunity, and venues never halt. *)
From S2P Require Import Prelude Float64 Types Vertex OrderVertex PriceLevelVertex VenueVertex MarketMakerVertex OrderBook OrderBookGraph PartitionMap RdmaTransport MessageBus NumaScheduler WorkerNode Superstep.
Local Open Scope Z_scope.

Module Market.
Import Superstep Graph.
Section Market.
Context {R : Type} `{HN : NoiseSource R}.

(** The classes of the ids, the largest draw of a venue's noise, and the width of
    the initial band. *)
Variables (K : list VertexType) (N W : Z).
Hypothesis noise_bounded : ∀ r, Z.abs (noise r).1 ≤ N.

Definition lowest (k : Z) : Z := BASE_PRICE - W - k * (N + Venue.half_spread).
Definition highest (k : Z) : Z := BASE_PRICE + W + k * (N + Venue.half_spread).
Definition banded (k x : Z) : Prop := lowest k ≤ x ≤ highest k.

(** A quote of both sides, as a venue makes it: in the band, the spread twice the
    half spread. *)
Definition two_sided (k : Z) (m : Message) : Prop :=
  let bid := price_bid (msg_payload m) in
  let ask := price_ask (msg_payload m) in
  banded k bid ∧ banded k ask ∧ ask = bid + 2 * Venue.half_spread.

(** The announcement of a price level: the price of its side, and nothing for the
    other. *)
Definition one_sided (k : Z) (m : Message) : Prop :=
  let bid := price_bid (msg_payload m) in
  let ask := price_ask (msg_payload m) in
  (bid = 0 ∧ banded k ask) ∨ (ask = 0 ∧ banded k bid).

(** The protocol of the market: what a vertex of the class [from] may send to one of
    the class [to]. *)
Definition protocol (k : Z) (from to : VertexType) (m : Message) : Prop :=
  match from, to, msg_type m with
  | ORDER, PRICE_LEVEL, ORDER_FILL => True
  | VENUE, PRICE_LEVEL, PRICE_UPDATE => two_sided k m
  | VENUE, MARKET_MAKER, PRICE_UPDATE => two_sided k m
  | PRICE_LEVEL, ORDER, PRICE_UPDATE => two_sided k m
  | PRICE_LEVEL, VENUE, PRICE_UPDATE => one_sided k m
  | _, _, _ => False
  end.

(** A message of the market. *)
Definition mail_inv (k : Z) (m : Message) : Prop :=
  ∃ from to, kind_at K (msg_src m) from ∧ kind_at K (msg_dst m) to ∧ protocol k from to m.

Definition data_inv (k : Z) (halted : bool) (d : OBData R) : Prop :=
  match d with
  | OrderV d => Order.filled_qty (Order.state_ d) = 0 ∧ Order.active (Order.state_ d) = true
  | PriceLevelV d => banded k (PriceLevel.price (PriceLevel.state_ d))
  | VenueV d => halted = false ∧ banded k (Venue.best_bid (Venue.state_ d)) ∧
                banded k (Venue.best_ask (Venue.state_ d))
  | MarketMakerV d =>
      let s := MarketMaker.state_ d in
      MarketMaker.net_position s = 0 ∧ MarketMaker.pnl_fixed s = 0 ∧
      MarketMaker.fill_count s = 0 ∧ MarketMaker.arb_signals_sent s = 0 ∧
      MarketMaker.inventory_limit s = F64.of_Z 1000000 ∧ MarketMaker.uncrossed d
  end.

Definition vertex_inv (k : Z) (vd : Vertex * OBData R) : Prop :=
  kind_at K (Vertex.id_ vd.1) (class_of vd.2) ∧
  Forall (edge_ok K (class_of vd.2)) (edges_ vd.1) ∧ data_inv k (halted_ vd.1) vd.2.

(** The band has not reached zero. *)
Definition in_business (k : Z) : Prop :=
  0 ≤ k ∧ 0 ≤ N ∧ 0 ≤ W ∧ 0 < lowest k ∧ highest k < 2 ^ 62.

Lemma banded_mono k k' x : in_business k' → k ≤ k' → banded k x → banded k' x.
Proof.
  unfold in_business, banded, lowest, highest. change Venue.half_spread with 200.
  intros (_ & HN0 & _) Hk. nia.
Qed.

Lemma mail_inv_mono k k' m : in_business k' → k ≤ k' → mail_inv k m → mail_inv k' m.
Proof.
  intros Hb Hk (from & to & Hf & Ht & Hp). exists from, to. split_and!; try done.
  pose proof (λ x, banded_mono k k' x Hb Hk) as Hmono.
  unfold protocol, two_sided, one_sided in *.
  destruct from, to; try done; destruct (msg_type m); naive_solver.
Qed.

Lemma kind_unique i t t' : kind_at K i t → kind_at K i t' → t = t'.
Proof. intros [_ H1] [_ H2]. congruence. Qed.

(** The protocol from the receiver's side. *)
Lemma mail_for k i t m :
  kind_at K i t → mail_inv k m → msg_dst m = i → ∃ from, protocol k from t m.
Proof.
  intros Hi (from & to & _ & Ht & Hp) <-. rewrite (kind_unique _ _ _ Hi Ht). by exists from.
Qed.

(** Mail for a vertex that is no price level holds price updates only. *)
Lemma price_updates_only k i t ms :
  kind_at K i t → t ≠ PRICE_LEVEL →
  Forall (λ m, mail_inv k m ∧ msg_dst m = i) ms → Forall (λ m, msg_type m = PRICE_UPDATE) ms.
Proof.
  intros Hi Ht Hms. eapply Forall_impl; [exact Hms|]. intros m [Hm Hd].
  destruct (mail_for k i t m Hi Hm Hd) as [from Hp]. unfold protocol in Hp.
  destruct from, t; try done; by destruct (msg_type m).
Qed.

(** The messages sent along the edges of a vertex. *)
Lemma along_inv (P : Message → Prop) p m v t :
  Forall (edge_ok K t) (edges_ v) →
  (∀ e, edge_ok K t e → p e = true → P (addressed (Vertex.id_ v) (edge_dst e) m)) →
  Forall P (along p m v).
Proof.
  intros He HP. unfold along. apply Forall_forall. intros x (e & -> & Hin)%list_elem_of_fmap.
  apply list_elem_of_filter in Hin as [Hp Hin]. apply HP; [|by apply Is_true_true].
  rewrite Forall_forall in He. by apply He.
Qed.

(** *** Orders *)

Lemma order_on_quotes d ms :
  Forall (λ m, msg_type m = PRICE_UPDATE) ms →
  (Order.on_inbox d ms).2 = false ∧
  Order.state_ (Order.on_inbox d ms).1 = Order.state_ d.
Proof.
  intros Hms. revert d. induction Hms as [|m ms Hm _ IH]; intros d; [done|].
  cbn [Order.on_inbox]. unfold Order.on_message. rewrite Hm.
  destruct (IH (Order.set_price (if decide (Order.side (Order.state_ d) = BID)
    then price_bid (msg_payload m) else price_ask (msg_payload m)) d)) as [-> ->]. done.
Qed.

Lemma order_step k v d ms step :
  vertex_inv k (v, OrderV d) → outbox_ v = [] →
  Forall (λ m, mail_inv k m ∧ msg_dst m = Vertex.id_ v) ms →
  ∃ v' d', Order.compute v d ms step = (v', d') ∧ edges_ v' = edges_ v ∧
    Vertex.id_ v' = Vertex.id_ v ∧ data_inv k (halted_ v') (OrderV d' : OBData R) ∧
    Forall (mail_inv k) (outbox_ v').
Proof.
  intros (Hk & He & Hf & Ha) Hout Hms. cbn [fst snd class_of] in *.
  pose proof (price_updates_only k _ _ _ Hk ltac:(done) Hms) as Hq.
  destruct (order_on_quotes d ms Hq) as [Hb Hs]. unfold Order.compute. rewrite Ha.
  destruct (Order.on_inbox d ms) as [d1 b]. cbn in Hb, Hs. subst b.
  destruct (Order.marketable d1).
  - set (m := Order.fill_message _ _ _).
    destruct (send_along_sends (λ _, true) m v) as (Hid & _ & _ & Hed & Ho).
    eexists _, _. split; [done|]. rewrite Ho, Hout. split_and!; try done.
    + cbn. by rewrite Hs.
    + apply (along_inv _ _ _ _ ORDER He). intros e [_ Hdst] _. by exists ORDER, PRICE_LEVEL.
  - eexists _, _. split; [done|].
    assert (∀ b, Forall (mail_inv k) (outbox_ (if b : bool then vote_to_halt v else v)) ∧
      edges_ (if b then vote_to_halt v else v) = edges_ v ∧
      Vertex.id_ (if b then vote_to_halt v else v) = Vertex.id_ v) as Hv.
    { intros []; cbn; by rewrite Hout. }
    case_decide; [destruct (Hv true) as (? & ? & ?)|destruct (Hv false) as (? & ? & ?)];
      split_and!; try done; cbn; by rewrite Hs.
Qed.

(** *** Price levels *)

Lemma level_step k v d ms step :
  in_business k → vertex_inv k (v, PriceLevelV d) → outbox_ v = [] →
  PriceLevel.level_wf d →
  Forall (λ m, (mail_inv k m ∧ message_wf m) ∧ msg_dst m = Vertex.id_ v) ms →
  ∃ v' d', PriceLevel.compute v d ms step = (v', d') ∧ edges_ v' = edges_ v ∧
    Vertex.id_ v' = Vertex.id_ v ∧ data_inv k (halted_ v') (PriceLevelV d' : OBData R) ∧
    Forall (mail_inv k) (outbox_ v').
Proof.
  intros (H0k & HN0 & HW0 & Hlow & Hhigh) (Hk & He & Hp) Hout Hwf Hms.
  cbn [fst snd class_of data_inv] in *.
  assert (Forall message_wf ms) as Hmw
    by (eapply Forall_impl; [exact Hms|]; by intros m [[_ ?] _]).
  pose proof (PriceLevel.level_price v d ms step Hwf Hmw) as Hprice.
  pose proof (PriceLevel.compute_spec v d ms step Hwf Hmw) as Hc.
  destruct (PriceLevel.compute v d ms step) as [v' d']. cbn [fst snd] in Hprice.
  destruct Hc as ((Hid & _ & _ & Hed & Ho) & _ & _ & _ & _).
  eexists _, _. split; [done|]. rewrite Ho, Hout. split_and!; try done.
  { cbn. by rewrite Hprice. }
  rewrite app_nil_l. apply Forall_app; split.
  - unfold PriceLevel.forwards. rewrite Forall_bind. apply Forall_forall. intros m Hm.
    simpl. destruct (decide (msg_type m = PRICE_UPDATE)) as [Ht|Ht]; [|constructor]. rewrite Forall_forall in Hms.
    destruct (Hms m Hm) as [[Hi _] Hd].
    assert (two_sided k m) as Htwo.
    { destruct (mail_for k _ _ m Hk Hi Hd) as [[] Hpr]; unfold protocol in Hpr;
        by rewrite ?Ht in Hpr. }
    apply (along_inv _ _ _ _ PRICE_LEVEL He). intros e Hedge Hto.
    unfold PriceLevel.to_order in Hto. apply bool_decide_eq_true in Hto.
    destruct Hedge as [[? _]|[_ Hord]]; [lia|].
    exists PRICE_LEVEL, ORDER. split_and!; try done. unfold protocol, two_sided.
    unfold PriceLevel.restamp, addressed. cbn [msg_type msg_payload]. by rewrite Ht.
  - case_decide; [by constructor|].
    apply (along_inv _ _ _ _ PRICE_LEVEL He). intros e Hedge Hto.
    unfold PriceLevel.to_venue in Hto. apply bool_decide_eq_true in Hto.
    destruct Hedge as [[_ Hven]|[? _]]; [|lia].
    assert (in_i64 (PriceLevel.price (PriceLevel.state_ d'))) as Hi64
      by (unfold banded, in_i64 in *; rewrite Hprice; lia).
    exists PRICE_LEVEL, VENUE. split_and!; try done. unfold protocol, one_sided.
    unfold PriceLevel.level_message, addressed, new_message. cbn -[price_bid price_ask].
    rewrite price_bid_mk, price_ask_mk by (case_decide; [done|unfold in_i64; lia]).
    rewrite <- Hprice in Hp.
    destruct (PriceLevel.side _); [right|left]; split; done.
Qed.

(** *** Venues *)

Lemma venue_inbox k i ms s :
  kind_at K i VENUE → Forall (λ m, mail_inv k m ∧ msg_dst m = i) ms → 0 < lowest k →
  banded k (Venue.best_bid s) → banded k (Venue.best_ask s) →
  banded k (Venue.best_bid (foldl Venue.on_message s ms)) ∧
  banded k (Venue.best_ask (foldl Venue.on_message s ms)).
Proof.
  intros Hi Hms Hlow. pose proof (price_updates_only k _ _ _ Hi ltac:(done) Hms) as Hq.
  revert s. induction ms as [|m ms IH]; intros s Hb Ha; [done|].
  apply Forall_cons in Hms as [[Hm Hd] Hms]. apply Forall_cons in Hq as [Ht Hq].
  assert ((price_bid (msg_payload m) = 0 ∨ banded k (price_bid (msg_payload m))) ∧
    (price_ask (msg_payload m) = 0 ∨ banded k (price_ask (msg_payload m)))) as [H1 H2].
  { destruct (mail_for k _ _ m Hi Hm Hd) as [[] Hpr]; unfold protocol in Hpr;
      rewrite ?Ht in Hpr; try done. unfold one_sided in Hpr. tauto. }
  cbn [foldl]. apply IH; try done; unfold Venue.on_message; rewrite Ht;
    unfold banded in *; repeat case_decide; cbn; lia.
Qed.

Lemma walk_banded k s draw :
  in_business k → in_business (k + 1) → Z.abs draw ≤ N →
  banded k (Venue.best_bid s) → banded k (Venue.best_ask s) →
  ∃ s', Venue.walk s draw = Some s' ∧ banded (k + 1) (Venue.best_bid s') ∧
    banded (k + 1) (Venue.best_ask s') ∧
    Venue.best_ask s' = Venue.best_bid s' + 2 * Venue.half_spread.
Proof.
  unfold in_business, banded, lowest, highest, Venue.walk.
  change Venue.half_spread with 200. intros Hk Hk1 Hd Hb Ha.
  assert ((k + 1) * (N + 200) = k * (N + 200) + (N + 200)) as Hnext by lia.
  set (W' := k * (N + 200)) in *. rewrite Hnext in *. clearbody W'.
  rewrite (i64_ok (Venue.best_bid s + _)) by (unfold in_i64; lia). cbn [mbind option_bind].
  set (mid := Z.quot (Venue.best_bid s + Venue.best_ask s) 2).
  assert (BASE_PRICE - W - W' ≤ mid ≤ BASE_PRICE + W + W') as Hmid.
  { unfold mid. rewrite Z.quot_div_nonneg by lia. split.
    - apply Z.div_le_lower_bound; lia.
    - apply Z.div_le_upper_bound; lia. }
  rewrite (decide_False (P := mid = 0)) by lia.
  rewrite (i64_ok (mid + draw)) by (unfold in_i64; lia). cbn [mbind option_bind].
  rewrite (i64_ok (_ - 200)) by (unfold in_i64; lia). cbn [mbind option_bind].
  rewrite (i64_ok (_ + 200)) by (unfold in_i64; lia). cbn [mbind option_bind].
  eexists. split; [done|]. cbn. lia.
Qed.

Lemma venue_step k v (d : Venue.Data R) ms step :
  in_business k → in_business (k + 1) → vertex_inv k (v, VenueV d) → outbox_ v = [] →
  Forall (λ m, mail_inv k m ∧ msg_dst m = Vertex.id_ v) ms →
  ∃ v' d', Venue.compute v d ms step = Some (v', d') ∧ edges_ v' = edges_ v ∧
    Vertex.id_ v' = Vertex.id_ v ∧ data_inv (k + 1) (halted_ v') (VenueV d') ∧
    Forall (mail_inv (k + 1)) (outbox_ v').
Proof.
  intros Hk Hk1 (Hi & He & Hh & Hb & Ha) Hout Hms. cbn [fst snd class_of] in *.
  destruct (venue_inbox k _ ms (Venue.state_ d) Hi Hms ltac:(apply Hk) Hb Ha) as [Hb1 Ha1].
  unfold Venue.compute. pose proof (noise_bounded (Venue.rng_ d)) as Hd.
  destruct (noise (Venue.rng_ d)) as [draw rng].
  destruct (walk_banded k _ draw Hk Hk1 Hd Hb1 Ha1) as (s' & -> & Hb2 & Ha2 & Hlt).
  cbn [mbind option_bind]. set (m := Venue.nbbo_message step s').
  destruct (send_along_sends (λ _, true) m v) as (Hid & _ & _ & Hed & Ho).
  eexists _, _. split; [done|]. rewrite Ho, Hout. split_and!; try done.
  { cbn. by rewrite send_along_halted. }
  apply (along_inv _ _ _ _ VENUE He). intros e Hedge _.
  destruct Hk1 as (_ & _ & _ & Hlow & Hhigh).
  assert (two_sided (k + 1) (addressed (Vertex.id_ v) (edge_dst e) m)) as Htwo.
  { unfold two_sided, banded, m, Venue.nbbo_message, new_message, addressed in *.
    cbn -[price_bid price_ask]. rewrite price_bid_mk, price_ask_mk by (unfold in_i64; lia). lia. }
  destruct Hedge as [[_ Hto]|[_ Hto]];
    [exists VENUE, PRICE_LEVEL|exists VENUE, MARKET_MAKER]; by split_and!.
Qed.

(** *** Market makers *)

Lemma maker_inbox k i ms d :
  kind_at K i MARKET_MAKER → Forall (λ m, mail_inv k m ∧ msg_dst m = i) ms →
  0 < lowest k → MarketMaker.uncrossed d →
  ∃ d', foldM MarketMaker.on_message d ms = Some d' ∧ MarketMaker.uncrossed d' ∧
    MarketMaker.state_ d' = MarketMaker.state_ d.
Proof.
  intros Hi Hms Hlow. pose proof (price_updates_only k _ _ _ Hi ltac:(done) Hms) as Hq.
  revert d. induction ms as [|m ms IH]; intros d Hd; [by exists d|].
  apply Forall_cons in Hms as [[Hm Hdst] Hms]. apply Forall_cons in Hq as [Ht Hq].
  assert (MarketMaker.two_sided m) as Htwo.
  { intros _. destruct (mail_for k _ _ m Hi Hm Hdst) as [[] Hpr]; unfold protocol in Hpr;
      rewrite ?Ht in Hpr; try done. unfold two_sided, banded in Hpr.
    change Venue.half_spread with 200 in Hpr. lia. }
  assert (∃ d1, MarketMaker.on_message d m = Some d1 ∧
    MarketMaker.state_ d1 = MarketMaker.state_ d) as (d1 & Hd1 & Hs1)
    by (eexists; unfold MarketMaker.on_message; by rewrite Ht).
  destruct (IH Hms Hq d1) as (d' & Hf & Hu & Hs2);
    [by apply (MarketMaker.on_message_uncrossed d m)|].
  exists d'. cbn. rewrite Hd1. cbn. split_and!; [done..|congruence].
Qed.

Lemma maker_step k v d ms step :
  in_business k → vertex_inv k (v, MarketMakerV d) → outbox_ v = [] →
  Forall (λ m, mail_inv k m ∧ msg_dst m = Vertex.id_ v) ms →
  ∃ v' d', MarketMaker.compute v d ms step = Some (v', d') ∧ edges_ v' = edges_ v ∧
    Vertex.id_ v' = Vertex.id_ v ∧ data_inv k (halted_ v') (MarketMakerV d' : OBData R) ∧
    Forall (mail_inv k) (outbox_ v').
Proof.
  intros Hb (Hi & He & Hn & Hp & Hf & Ha & Hl & Hu) Hout Hms. cbn [fst snd class_of] in *.
  destruct (maker_inbox k _ ms d Hi Hms ltac:(apply Hb) Hu) as (d1 & Hd1 & Hu1 & Hs1).
  unfold MarketMaker.compute. rewrite Hd1. cbn [mbind option_bind].
  rewrite MarketMaker.arb_bps_uncrossed by done. cbn [mbind option_bind]. rewrite Hs1, Hn.
  cbn [mbind option_bind i64 Z.abs]. rewrite Hl.
  eexists _, _. split; [reflexivity|]. rewrite F64.lt_of_Z by lia. cbn [Z.ltb Z.compare].
  assert (∀ b, Forall (mail_inv k) (outbox_ (if b : bool then vote_to_halt v else v)) ∧
    edges_ (if b then vote_to_halt v else v) = edges_ v ∧
    Vertex.id_ (if b then vote_to_halt v else v) = Vertex.id_ v) as Hv.
  { intros []; cbn; by rewrite Hout. }
  case_decide; [destruct (Hv true) as (? & ? & ?)|destruct (Hv false) as (? & ? & ?)];
    split_and!; try done; cbn; by rewrite ?Hs1; split_and!.
Qed.

(** *** All classes *)

Lemma data_inv_mono k k' h d : in_business k' → k ≤ k' → data_inv k h d → data_inv k' h d.
Proof.
  intros Hb Hk. destruct d; cbn; try done; [by apply banded_mono|].
  intros (? & ? & ?). split_and!; [done|by eapply banded_mono..].
Qed.

(** The state a computation leaves behind. *)
Lemma vertex_inv_intro k k' v d v' d' :
  vertex_inv k (v, d) → class_of d' = class_of d → edges_ v' = edges_ v →
  Vertex.id_ v' = Vertex.id_ v → data_inv k' (halted_ v') d' →
  vertex_inv k' (cleared (v', d')).
Proof.
  intros (Hk & He & _) Hc Hed Hid Hd. cbn in *. unfold vertex_inv. cbn. rewrite Hc, Hed, Hid.
  by split_and!.
Qed.

Lemma market_compute k v d ms step :
  in_business k → in_business (k + 1) → vertex_inv k (v, d) → outbox_ v = [] → ob_ok d →
  Forall (λ m, (mail_inv k m ∧ message_wf m) ∧ msg_dst m = Vertex.id_ v) ms →
  ∃ vd', compute v d ms step = Some vd' ∧ vertex_inv (k + 1) (cleared vd') ∧
    Forall (mail_inv (k + 1)) (outbox_ vd'.1).
Proof.
  intros Hb Hb1 Hinv Hout Hok Hms.
  assert (Forall (λ m, mail_inv k m ∧ msg_dst m = Vertex.id_ v) ms) as Hms'
    by (eapply Forall_impl; [exact Hms|]; by intros m [[? _] ?]).
  assert (∀ v' d', class_of d' = class_of d → edges_ v' = edges_ v →
    Vertex.id_ v' = Vertex.id_ v → data_inv k (halted_ v') d' → Forall (mail_inv k) (outbox_ v') →
    vertex_inv (k + 1) (cleared (v', d')) ∧ Forall (mail_inv (k + 1)) (outbox_ v')) as Hlift.
  { intros v' d' ? ? ? ? Hm. split.
    - eapply vertex_inv_intro; try done. eapply data_inv_mono; [done| |done]. lia.
    - eapply Forall_impl; [exact Hm|]. intros m. apply mail_inv_mono; [done|lia]. }
  unfold compute, order_book_compute. destruct d as [d|d|d|d].
  - destruct (order_step k v d ms step Hinv Hout Hms') as (v' & d' & -> & ? & ? & ? & ?).
    eexists; split; [done|]. by apply Hlift.
  - destruct (level_step k v d ms step Hb Hinv Hout Hok Hms) as (v' & d' & -> & ? & ? & ? & ?).
    eexists; split; [done|]. by apply Hlift.
  - destruct (venue_step k v d ms step Hb Hb1 Hinv Hout Hms') as (v' & d' & -> & ? & ? & ? & ?).
    eexists; split; [done|]. split; [|done]. by eapply vertex_inv_intro.
  - destruct (maker_step k v d ms step Hb Hinv Hout Hms') as (v' & d' & -> & ? & ? & ? & ?).
    eexists; split; [done|]. by apply Hlift.
Qed.

Lemma vertex_inv_wake k v d : vertex_inv k (v, d) → vertex_inv k (wake_up v, d).
Proof. intros (Hk & He & Hd). split_and!; try done. destruct d; try done. by destruct Hd. Qed.

Lemma market_step k vid vd ms step :
  in_business k → in_business (k + 1) → vertex_ok vid vd → vertex_inv k vd →
  Forall (λ m, (mail_inv k m ∧ message_wf m) ∧ msg_dst m = vid) ms →
  ∃ vd', next_vertex step ms vd = Some vd' ∧ vertex_inv (k + 1) (cleared vd') ∧
    Forall (mail_inv (k + 1)) (outbox_ vd'.1).
Proof.
  destruct vd as [v d]. intros Hb Hb1 (Hid & _ & Hout & Hok) Hinv Hms. cbn in *. subst vid.
  unfold next_vertex. cbn. case_decide.
  - exists (v, d). cbn [fst]. rewrite Hout. split_and!; [done| |done]. pose proof Hinv as (_ & _ & Hd).
    eapply vertex_inv_intro; try done. eapply data_inv_mono; [done| |done]. lia.
  - apply (market_compute k); try done. by apply vertex_inv_wake.
Qed.

(** A fresh vertex of the built graph, in the initial band. *)
Lemma vertex_inv_good p vd :
  W = price_band p → good p K vd → vertex_inv 0 vd.
Proof.
  destruct vd as [v d]. intros HWp [(Hk & _ & _ & Hh & _ & He%edges_good_ok) Hf].
  split_and!; try done.
  unfold data_inv, banded, lowest, highest.
  destruct d as [d|d|d|d]; cbn in *; unfold in_band in *; rewrite <- ?HWp in *.
  - by destruct Hf as (_ & ? & ? & _).
  - destruct Hf as (_ & _ & ?). lia.
  - destruct Hf as (_ & ? & ?). split; [done|]. lia.
  - destruct Hf as [i ->]. cbn. split_and!; try done. left. done.
Qed.

End Market.
End Market.
