(* ===== verification/Engine.v ===== *)
(** The engine: [src/graph_engine.hpp], [src/graph_engine.cpp].

    The engine, its coordinator and the workers hold shared pointers to one
    partition map and one vector of workers; the model stores them once, in the
    coordinator.  [hw] is [std::thread::hardware_concurrency()], [clock] the
    readings of the failure detector's constructor, [arrival] the time stamps of
    the orders.  What is printed while loading is in [Report], and so is the
    throughput: [benchmark] yields the vertex count it divides.  [None] is undefined behaviour.

    The theorems put the components together: loading puts every vertex of the
    order book on the worker the partition map names, and a run makes all its
    supersteps, every one defined, keeping the invariants of [Market]. *)
From S2P Require Import Prelude Types Vertex OrderVertex PriceLevelVertex VenueVertex MarketMakerVertex OrderBook OrderBookGraph PartitionMap RdmaTransport MessageBus NumaScheduler Heartbeat WorkerNode Superstep Coordinator Market.
Local Open Scope Z_scope.

Module Engine.
Import Worker Superstep Graph.
Section Engine.
Context {R G : Type} `{HN : NoiseSource R, HG : GraphSource G, HM : MathLib}.

Record GraphEngine := mkEngine {
  config_ : EngineConfig;
  scheduler_ : Sched.Scheduler;
  coordinator_ : Coord.Coordinator (D := OBData R);
}.

(** [std::max(1u, hardware_concurrency() / config_.numa_nodes)] *)
Definition threads_per_node (hw numa : Z) : Z := Z.max 1 (hw / numa).

(** The [i]-th worker, with its bus. *)
Definition make_worker (config : EngineConfig) (i : nat) : WorkerNode (OBData R) :=
  Worker.new (Z.of_nat i) (numa_nodes config)
    (Bus.new (Z.of_nat i) (worker_count config) (enable_rdma_sim config)).

Definition make_workers (config : EngineConfig) : list (WorkerNode (OBData R)) :=
  make_worker config <$> seq 0 (Z.to_nat (worker_count config)).

Definition setup_infrastructure (hw : Z) (clock : Z → Z) (config : EngineConfig)
    : option GraphEngine :=
  if decide (numa_nodes config = 0) then None
  else Some (mkEngine config
    (Sched.new (numa_nodes config) (threads_per_node hw (numa_nodes config)))
    (Coord.new config (make_workers config) (PMap.new (worker_count config)) clock)).

(** The body of the loop of [distribute_vertices]. *)
Definition distribute_one (pm : PMap.PartitionMap) (ws : list (WorkerNode (OBData R)))
    (vd : Vertex * OBData R) : option (list (WorkerNode (OBData R))) :=
  owner ← PMap.owner_of (Vertex.id_ vd.1) pm;
  w ← ws !! Z.to_nat owner;
  Some (<[Z.to_nat owner := add_vertex vd w]> ws).

Definition distribute_vertices (data : GraphData) (e : GraphEngine) : option GraphEngine :=
  let c := coordinator_ e in
  ws ← foldM (distribute_one (Coord.pmap_ c)) (Coord.workers_ c) (vertices data);
  Some (mkEngine (config_ e) (scheduler_ e) (Coord.set_workers ws c)).

Definition graph_params (config : EngineConfig) : Params :=
  mkParams 5 10 20 8 (worker_count config) 0xC0FFEE42.

Definition load_graph (arrival : VertexId → Z) (e : GraphEngine) : option GraphEngine :=
  data ← build_order_book_graph (G := G) (graph_params (config_ e)) arrival;
  distribute_vertices data e.

(** The first two steps of [run] and of [benchmark]. *)
Definition setup (hw : Z) (clock : Z → Z) (arrival : VertexId → Z) (config : EngineConfig)
    : option GraphEngine :=
  e ← setup_infrastructure hw clock config;
  load_graph arrival e.

Definition run (hw : Z) (clock : Z → Z) (arrival : VertexId → Z)
    (env : Superstep → Coord.Env) (config : EngineConfig) : option GraphEngine :=
  e ← setup hw clock arrival config;
  c ← Coord.run env (coordinator_ e);
  Some (mkEngine (config_ e) (scheduler_ e) c).

(** The loop of [benchmark]: the workers, and [total_verts]. *)
Definition benchmark_step (pm : PMap.PartitionMap) (env : Superstep → nat → StepEnv)
    (wt : list (WorkerNode (OBData R)) * Z) (step : Superstep)
    : option (list (WorkerNode (OBData R)) * Z) :=
  '(ws, n) ← Coord.run_workers pm (env step) step wt.1 0;
  Some (ws, u64 (wt.2 + n)).

Definition benchmark (hw : Z) (clock : Z → Z) (arrival : VertexId → Z)
    (env : Superstep → nat → StepEnv) (supersteps : Z) (config : EngineConfig)
    : option (list (WorkerNode (OBData R)) * Z) :=
  e ← setup hw clock arrival config;
  let c := coordinator_ e in
  foldM (benchmark_step (Coord.pmap_ c) env) (Coord.workers_ c, 0) (seqZ 0 supersteps).

(** ** Lemmas *)

Definition config_wf (config : EngineConfig) : Prop :=
  0 < worker_count config < 2 ^ 32 ∧ numa_nodes config ≠ 0 ∧
  0 ≤ max_supersteps config < 2 ^ 32.

(** The ids of the order book. *)
Definition vertex_total : Z := 2113.
Definition all_kinds : list VertexType := kinds (graph_params default_config).

Lemma kinds_config config : kinds (graph_params config) = all_kinds.
Proof. done. Qed.
Lemma all_kinds_length : Z.of_nat (length all_kinds) = vertex_total.
Proof. vm_compute. done. Qed.

(** The ids worker [i] of [n] owns. *)
Definition owned (n : Z) (i : nat) : gset Z :=
  filter (λ vid, vid `mod` n = Z.of_nat i) (list_to_set (seqZ 0 vertex_total)).

Lemma elem_of_owned n i vid :
  vid ∈ owned n i ↔ vid `mod` n = Z.of_nat i ∧ 0 ≤ vid < vertex_total.
Proof. unfold owned. rewrite elem_of_filter, elem_of_list_to_set, elem_of_seqZ. lia. Qed.

Lemma size_seqZ (n : Z) : size (list_to_set (seqZ 0 n) : gset Z) = Z.to_nat n.
Proof. rewrite size_list_to_set by apply NoDup_seqZ. apply length_seqZ. Qed.

Lemma owned_size n i : Z.of_nat (size (owned n i)) ≤ vertex_total.
Proof.
  assert (owned n i ⊆ list_to_set (seqZ 0 vertex_total)) as Hsub.
  { intros vid [_ Hvid]%elem_of_owned. apply elem_of_list_to_set, elem_of_seqZ. exact Hvid. }
  apply subseteq_size in Hsub. pose proof (size_seqZ vertex_total) as Hsz.
  assert (Z.to_nat vertex_total = 2113%nat) as Ht by reflexivity.
  rewrite Hsz, Ht in Hsub. unfold vertex_total. lia.
Qed.

(** The workers after the vertices [l] were handed out. *)
Definition distributed (config : EngineConfig) (l : list (Vertex * OBData R))
    (ws : list (WorkerNode (OBData R))) : Prop :=
  length ws = Z.to_nat (worker_count config) ∧
  ∀ i w, ws !! i = Some w →
    id_ w = Z.of_nat i ∧ numa_nodes_ w = numa_nodes config ∧
    bus_ w = Bus.new (Z.of_nat i) (worker_count config) (enable_rdma_sim config) ∧
    vertex_inbox_ w = ∅ ∧ stats_ w = stats_zero ∧
    (∀ vid, vid ∈ dom (vertices_ w) ↔
       vid `mod` worker_count config = Z.of_nat i ∧ vid ∈ (λ vd, Vertex.id_ vd.1) <$> l) ∧
    map_Forall (λ vid vd, Vertex.id_ vd.1 = vid ∧ vd ∈ l) (vertices_ w).

Lemma distributed_new config : distributed config [] (make_workers config).
Proof.
  split; [unfold make_workers; by rewrite length_fmap, length_seq|].
  intros i w Hi. apply list_lookup_fmap_Some in Hi as (k & -> & Hk).
  apply lookup_seq in Hk as [-> _]. cbn.
  split_and!; try done. intros vid. rewrite dom_empty_L. cbn.
  by split; [intros ?%elem_of_empty|intros [_ ?%elem_of_nil]].
Qed.

Lemma distribute_one_spec config l ws vd :
  config_wf config → distributed config l ws →
  ∃ ws', distribute_one (PMap.new (worker_count config)) ws vd = Some ws' ∧
    distributed config (l ++ [vd]) ws'.
Proof.
  intros [Hwc _] [Hlen Hws]. unfold distribute_one. rewrite PMap.owner_of_new by done.
  cbn [mbind option_bind].
  set (o := Vertex.id_ vd.1 `mod` worker_count config).
  assert (0 ≤ o < worker_count config) as Ho by (apply Z.mod_pos_bound; lia).
  destruct (lookup_lt_is_Some_2 ws (Z.to_nat o)) as [w Hw]; [lia|]. rewrite Hw.
  cbn [mbind option_bind]. eexists; split; [done|]. split; [by rewrite length_insert|].
  intros i w' Hi. rewrite fmap_app.
  destruct (decide (i = Z.to_nat o)) as [->|Hne].
  - rewrite list_lookup_insert_eq in Hi by lia. injection Hi as <-.
    destruct (Hws _ w Hw) as (? & ? & ? & ? & ? & Hd & Hv). split_and!; try done; cbn.
    + intros vid. rewrite dom_insert_L, elem_of_union, elem_of_singleton, Hd, elem_of_app,
        list_elem_of_singleton, Z2Nat.id by lia.
      unfold o. split; [intros [-> |[? ?]]; tauto|tauto].
    + intros vid vd' Hvd'. apply lookup_insert_Some in Hvd' as [[<- <-]|[_ Hvd']].
      * split; [done|]. apply elem_of_app. right. by apply list_elem_of_singleton.
      * destruct (Hv _ _ Hvd'). rewrite elem_of_app. auto.
  - rewrite list_lookup_insert_ne in Hi by done.
    destruct (Hws _ w' Hi) as (? & ? & ? & ? & ? & Hd & Hv). split_and!; try done.
    + intros vid. rewrite Hd, elem_of_app. cbn. rewrite list_elem_of_singleton.
      split; [tauto|]. intros [Hmod [?| ->]]; [tauto|]. unfold o in Hne. lia.
    + eapply map_Forall_impl; [exact Hv|]. intros vid vd' [? ?]. rewrite elem_of_app. auto.
Qed.

Lemma distribute_spec config l :
  config_wf config →
  ∃ ws, foldM (distribute_one (PMap.new (worker_count config))) (make_workers config) l =
          Some ws ∧ distributed config l ws.
Proof.
  intros Hc. induction l as [|vd l IH] using rev_ind.
  { eexists; split; [done|]. apply distributed_new. }
  destruct IH as (ws & Hws & Hd). rewrite foldM_app, Hws. cbn [mbind option_bind].
  destruct (distribute_one_spec config l ws vd Hc Hd) as (ws' & Hws' & Hd').
  exists ws'. split; [|done]. cbn. by rewrite Hws'.
Qed.

(** The loaded engine. *)
Context {HL : GraphSourceLaws G} {HB : BoundedPriceDraws G}.

Lemma setup_effect hw clock arrival config :
  config_wf config →
  ∃ d e, build_order_book_graph (R := R) (graph_params config) arrival = Some d ∧
    setup hw clock arrival config = Some e ∧ config_ e = config ∧
    Coord.pmap_ (coordinator_ e) = PMap.new (worker_count config) ∧
    Coord.config_ (coordinator_ e) = config ∧ Coord.rows_ (coordinator_ e) = [] ∧
    distributed config (vertices d) (Coord.workers_ (coordinator_ e)) ∧
    (λ vd, Vertex.id_ vd.1) <$> vertices d ≡ₚ seqZ 0 vertex_total ∧
    Forall (good (graph_params config) all_kinds) (vertices d) ∧
    Coord.total_vertices_processed_ (coordinator_ e) = 0.
Proof.
  intros Hc. pose proof Hc as (Hwc & Hnuma & _).
  assert (params_wf (graph_params config)) as Hp.
  { unfold params_wf, in_u32, in_u64. cbn. lia. }
  destruct (build_effect (R := R) (graph_params config) arrival Hp) as (b & Hb & Hbuilt & _).
  { rewrite kinds_config, all_kinds_length. unfold vertex_total. lia. }
  destruct Hbuilt as (_ & _ & Hids & Hg & _). rewrite kinds_config in *.
  rewrite all_kinds_length in Hids. cbn [fmap list_fmap app] in Hids.
  destruct (distribute_spec config (vertices (data_ b)) Hc) as (ws & Hws & Hd).
  eexists _, _. split; [exact Hb|]. unfold setup, setup_infrastructure.
  rewrite decide_False by done. cbn [mbind option_bind]. unfold load_graph. cbn [config_].
  rewrite Hb. cbn [mbind option_bind]. unfold distribute_vertices. cbn [coordinator_].
  cbn [Coord.new Coord.pmap_ Coord.workers_]. rewrite Hws. cbn [mbind option_bind].
  split; [done|]. by split_and!.
Qed.

Lemma kind_at_range i t : kind_at all_kinds i t → 0 ≤ i < vertex_total.
Proof.
  intros [? Hk%lookup_lt_Some]. pose proof all_kinds_length. lia.
Qed.

Lemma edge_range t e : edge_ok all_kinds t e → in_u64 (edge_dst e).
Proof.
  intros He. assert (∃ t', kind_at all_kinds (edge_dst e) t') as [t' H].
  { destruct t; cbn in He; destruct_or?; destruct_and?; by eexists. }
  apply kind_at_range in H. unfold in_u64, vertex_total in *. lia.
Qed.

Lemma good_ok p vd : good p all_kinds vd → vertex_ok (Vertex.id_ vd.1) vd.
Proof.
  intros [(Hk & _ & _ & _ & Ho & He%edges_good_ok) Hf]. split_and!; try done.
  - apply kind_at_range in Hk. split.
    + unfold in_u64, vertex_total in *. lia.
    + eapply Forall_impl; [exact He|]. intros e. apply edge_range.
  - destruct vd as [v [d|d|d|d]]; cbn in *; tauto.
Qed.

(** *** The running engine *)

Context (N : Z) (noise_bounded : ∀ r : R, Z.abs (noise r).1 ≤ N).

(** The width of the initial band. *)
Definition band : Z := price_band (graph_params default_config).

(** Worker [i] after [k] supersteps. *)
Definition worker_inv (config : EngineConfig) (k : Z) (i : nat) (w : WorkerNode (OBData R))
    : Prop :=
  worker_wf (PMap.new (worker_count config)) w ∧ id_ w = Z.of_nat i ∧
  dom (vertices_ w) = owned (worker_count config) i ∧ settled w ∧
  map_Forall (λ _ vd, Market.vertex_inv all_kinds N band k vd) (vertices_ w) ∧
  worker_all (Market.mail_inv all_kinds N band k) w.

Definition workers_inv (config : EngineConfig) (k : Z) (ws : list (WorkerNode (OBData R)))
    : Prop :=
  length ws = Z.to_nat (worker_count config) ∧
  ∀ i w, ws !! i = Some w → worker_inv config k i w.

(** The environment of a worker enumerates the ids it owns. *)
Definition schedules (config : EngineConfig) (env : nat → StepEnv) : Prop :=
  ∀ i, env_order (env i) ≡ₚ elements (owned (worker_count config) i) ∧
       env_exec (env i) ≡ₚ elements (owned (worker_count config) i).

Lemma distributed_wf config d ws i w :
  config_wf config → distributed config d ws →
  Forall (good (graph_params config) all_kinds) d → ws !! i = Some w →
  worker_wf (PMap.new (worker_count config)) w.
Proof.
  intros (Hwc & Hnuma & _) [Hlen Hws] Hg Hi. rewrite Forall_forall in Hg.
  destruct (Hws i w Hi) as (Hid & Hn & Hbus & Hbox & Hst & _ & Hv).
  pose proof (lookup_lt_Some _ _ _ Hi) as Hlt.
  split; [by apply PMap.pmap_new_wf|]. rewrite Hbus, Hbox, Hst, Hn, Hid.
  split_and!; try done; [apply Bus.bus_new_wf; lia| |apply Bus.bus_new_all].
  intros vid vd Hvd. destruct (Hv vid vd Hvd) as [<- Hin].
  apply (good_ok (graph_params config)). by apply Hg.
Qed.

Lemma workers_inv_start config d ws :
  config_wf config → distributed config d ws →
  (λ vd, Vertex.id_ vd.1) <$> d ≡ₚ seqZ 0 vertex_total →
  Forall (good (graph_params config) all_kinds) d → workers_inv config 0 ws.
Proof.
  intros Hc Hd Hids Hg. pose proof Hd as [Hlen Hws]. split; [exact Hlen|]. intros i w Hi.
  split; [exact (distributed_wf config d ws i w Hc Hd Hg Hi)|].
  destruct (Hws i w Hi) as (Hid & _ & Hbus & Hbox & _ & Hdom & Hv).
  rewrite Forall_forall in Hg.
  split; [exact Hid|split; [|split; [|split]]].
  - apply set_eq. intros vid. rewrite Hdom, Hids, elem_of_owned, elem_of_seqZ. lia.
  - intros vid _. by rewrite Hbox.
  - intros vid vd Hvd. destruct (Hv vid vd Hvd) as [_ Hin].
    apply (Market.vertex_inv_good _ _ _ (graph_params config)); [reflexivity|]. by apply Hg.
  - split; [rewrite Hbox; apply map_Forall_empty|rewrite Hbus; apply Bus.bus_new_all].
Qed.

Lemma worker_inv_next config k i w env step :
  Market.in_business N band k → Market.in_business N band (k + 1) → in_u64 step →
  schedules config env → worker_inv config k i w →
  ∃ w', run_superstep (PMap.new (worker_count config)) (env i) step w =
          Some (w', count_active w') ∧ worker_inv config (k + 1) i w'.
Proof.
  intros Hb Hb1 Hst Henv (Hwf & Hid & Hdom & Hset & Hv & Hm).
  assert (env_wf (env i) w) as He by (unfold env_wf; rewrite Hdom; apply Henv).
  destruct (superstep_invariant _ (env i) step w _ (Market.vertex_inv all_kinds N band (k + 1))
    _ (Market.mail_inv all_kinds N band (k + 1)) Hwf He Hst Hset Hv Hm)
    as (w' & Hrun & Hwf' & Hid' & Hdom' & Hset' & Hv' & Hm').
  - intros m. apply Market.mail_inv_mono; [done|lia].
  - intros vid vd ms. by apply Market.market_step.
  - exists w'. split; [exact Hrun|]. unfold worker_inv. rewrite Hdom', Hid'. auto 10.
Qed.

Lemma first_venue : kind_at all_kinds 0 VENUE.
Proof. split; [lia|]. vm_compute. reflexivity. Qed.

(** The active count of a worker; worker 0, which has a venue, is never idle. *)
Lemma worker_active config k i w :
  worker_inv config k i w →
  0 ≤ count_active w ≤ vertex_total ∧ (i = O → 0 < worker_count config → 1 ≤ count_active w).
Proof.
  intros (Hwf & _ & Hdom & _ & Hv & _).
  assert (Z.of_nat (size (vertices_ w)) ≤ vertex_total) as Hsize
    by (rewrite <- size_dom, Hdom; apply owned_size).
  rewrite count_active_size by (unfold vertex_total in *; lia).
  set (awake := filter _ (vertices_ w)).
  assert (size awake ≤ size (vertices_ w))%nat as Hle.
  { apply map_subseteq_size, map_filter_subseteq. }
  split; [lia|]. intros -> Hwc.
  assert (is_Some (vertices_ w !! 0)) as [vd Hvd].
  { apply elem_of_dom. rewrite Hdom, elem_of_owned. rewrite Zmod_0_l. unfold vertex_total. lia. }
  assert (size awake ≠ 0%nat) as Hne.
  { rewrite map_size_non_empty_iff. intros Hemp.
    assert (awake !! 0 = Some vd) as Ha; [|by rewrite Hemp in Ha].
    apply map_lookup_filter_Some. split; [done|]. cbn.
    destruct (Hv 0 vd Hvd) as (Hk & _ & Hd).
    assert (worker_wf (PMap.new (worker_count config)) w → Vertex.id_ vd.1 = 0) as Hid.
    { intros (_&_&_&_&_&_&_&Hok&_). by apply (Hok 0 vd). }
    rewrite Hid in Hk by done.
    assert (VENUE = class_of vd.2) as Hcl 
      by exact (Market.kind_unique all_kinds 0 _ _ first_venue Hk).
    destruct vd as [v []]; cbn in Hcl; try discriminate Hcl. apply Hd. }
  lia.
Qed.

Lemma sum_bound (ns : list Z) b :
  Forall (λ n, 0 ≤ n ≤ b) ns → 0 ≤ foldr Z.add 0 ns ≤ b * Z.of_nat (length ns).
Proof. induction 1 as [|n ns Hn _ IH]; cbn [foldr length]; lia. Qed.

Lemma workers_inv_next config k env ws :
  config_wf config → Market.in_business N band k → Market.in_business N band (k + 1) →
  in_u64 k → schedules config env → workers_inv config k ws →
  ∃ ws' t, Coord.run_workers (PMap.new (worker_count config)) env k ws 0 = Some (ws', t) ∧
    1 ≤ t ≤ vertex_total * worker_count config ∧ workers_inv config (k + 1) ws'.
Proof.
  intros (Hwc & _) Hb Hb1 Hk Henv [Hlen Hws].
  destruct (Coord.run_workers_total (PMap.new (worker_count config)) env k ws
    (worker_inv config (k + 1))) as (ws' & Hrun & Hlen' & Hws').
  { intros i w Hi. apply (worker_inv_next config k); auto. }
  eexists _, _. split; [exact Hrun|]. split; [|split; [congruence|exact Hws']].
  destruct ws' as [|w0 ws']; [cbn in *; lia|].
  assert (Forall (λ n, 0 ≤ n ≤ vertex_total) (count_active <$> ws')) as Hall.
  { apply Forall_fmap, Forall_lookup. intros i w Hi.
    apply (worker_active config (k + 1) (S i)). by apply Hws'. }
  apply sum_bound in Hall. rewrite length_fmap in Hall.
  destruct (worker_active config (k + 1) 0 w0 (Hws' O w0 eq_refl)) as [H0 H1].
  specialize (H1 eq_refl (proj1 Hwc)). cbn [length] in *. cbn [fmap list_fmap foldr].
  rewrite u64_small; unfold in_u64, vertex_total in *; lia.
Qed.

(** All the supersteps that start before the band reaches zero. *)
Lemma workers_inv_steps config n k env ws :
  config_wf config → 0 ≤ k → Market.in_business N band n → n ≤ 2 ^ 32 → k < n →
  (∀ s, 0 ≤ s < n → schedules config (env s)) → workers_inv config k ws →
  ∃ ws' t, Coord.run_workers (PMap.new (worker_count config)) (env k) k ws 0 = Some (ws', t) ∧
    1 ≤ t ≤ vertex_total * worker_count config ∧ workers_inv config (k + 1) ws'.
Proof.
  intros Hc H0 Hb Hn Hk Henv Hws.
  assert (∀ j, 0 ≤ j ≤ n → Market.in_business N band j) as Hbus.
  { revert Hb. clear. unfold Market.in_business, Market.lowest, Market.highest.
    change Venue.half_spread with 200. intros (? & ? & ? & ? & ?) j Hj.
    assert (j * (N + 200) ≤ n * (N + 200)) by nia. lia. }
  apply workers_inv_next; [exact Hc|apply Hbus; lia|apply Hbus; lia| |apply Henv; lia|exact Hws].
  unfold in_u64. lia.
Qed.

(** The loop of [Coordinator::run] and the loop of [benchmark] do the same to
    the workers, as long as there is an active vertex. *)
Lemma loops_agree (I : Superstep → list (WorkerNode (OBData R)) → Prop) env step n c :
  (∀ s ws, step ≤ s < step + Z.of_nat n → I s ws →
     ∃ ws' t, Coord.run_workers (Coord.pmap_ c) (Coord.e_workers (env s)) s ws 0 =
       Some (ws', t) ∧ t ≠ 0 ∧ I (s + 1) ws') →
  I step (Coord.workers_ c) →
  ∃ c', Coord.run_loop env step n c = Some c' ∧
    foldM (benchmark_step (Coord.pmap_ c) (λ s, Coord.e_workers (env s)))
      (Coord.workers_ c, Coord.total_vertices_processed_ c) (seqZ step (Z.of_nat n)) =
      Some (Coord.workers_ c', Coord.total_vertices_processed_ c').
Proof.
  revert step c. induction n as [|n IH]; intros step c Hstep HInv; cbn [Coord.run_loop].
  { by exists c. }
  rewrite Coord.superstep_eq, seqZ_cons by lia. cbn zeta.
  destruct (Coord.before_workers (env step) step c) as (_ & _ & Hp & _). cbn zeta in *.
  pose proof (Coord.before_total (env step) step c) as Ht1.
  set (c1 := Coord.heartbeats _ _) in *.
  destruct (Hstep step (Coord.workers_ c)) as (ws & t & Hrun & Ht & HInv'); [lia|done|].
  assert (benchmark_step (Coord.pmap_ c) (λ s, Coord.e_workers (env s))
    (Coord.workers_ c, Coord.total_vertices_processed_ c) step =
    Some (ws, u64 (Coord.total_vertices_processed_ c + t))) as Hbench.
  { unfold benchmark_step. cbn [fst snd]. by rewrite Hrun. }
  rewrite Hrun. cbn [mbind option_bind foldM]. rewrite Hbench, decide_False by done.
  cbn [mbind option_bind].
  set (c2 := Coord.record_step _ (Coord.set_workers ws c1)).
  rewrite <- Z.add_1_r. destruct (IH (step + 1) c2) as (c' & -> & Hf).
  { intros s ws' Hs. cbn [c2 Coord.pmap_ Coord.record_step Coord.set_workers]. rewrite Hp.
    apply Hstep. lia. }
  { done. }
  exists c'. split; [done|]. replace (Z.pred (Z.of_nat (S n))) with (Z.of_nat n) by lia.
  cbn [c2 Coord.pmap_ Coord.record_step Coord.set_workers Coord.workers_ Coord.row_active
    Coord.total_vertices_processed_] in Hf. rewrite Hp, Ht1 in Hf. exact Hf.
Qed.

(** The loop of [benchmark], from superstep [k] on. *)
Lemma benchmark_loop config n env m k ws t :
  config_wf config → Market.in_business N band n → n ≤ 2 ^ 32 →
  (∀ s, 0 ≤ s < n → schedules config (env s)) →
  0 ≤ k → k + Z.of_nat m ≤ n → workers_inv config k ws →
  ∃ ws' c, foldM (benchmark_step (PMap.new (worker_count config)) env) (ws, u64 t)
             (seqZ k (Z.of_nat m)) = Some (ws', u64 (t + c)) ∧
    Z.of_nat m ≤ c ≤ Z.of_nat m * (vertex_total * worker_count config) ∧
    workers_inv config (k + Z.of_nat m) ws'.
Proof.
  intros Hc Hb Hn Henv. revert k ws t. induction m as [|m IH]; intros k ws t Hk Hm Hws.
  { exists ws, 0. rewrite !Z.add_0_r. split; [reflexivity|]. split; [lia|exact Hws]. }
  destruct (workers_inv_steps config n k env ws Hc Hk Hb Hn ltac:(lia) Henv Hws)
    as (ws1 & t1 & Hrun & Ht1 & Hws1).
  destruct (IH (k + 1) ws1 (t + t1) ltac:(lia) ltac:(lia) Hws1) as (ws' & c & Hf & Hcnt & Hws').
  exists ws', (t1 + c). rewrite seqZ_cons by lia. cbn [foldM].
  assert (benchmark_step (PMap.new (worker_count config)) env (ws, u64 t) k =
    Some (ws1, u64 (t + t1))) as Hstep.
  { unfold benchmark_step. cbn [fst snd]. rewrite Hrun. cbn [mbind option_bind].
    by rewrite u64_add_idemp. }
  rewrite Hstep. cbn [mbind option_bind].
  replace (Z.succ k) with (k + 1) by lia.
  replace (Z.pred (Z.of_nat (S m))) with (Z.of_nat m) by lia.
  rewrite Hf, Z.add_assoc. split; [reflexivity|]. split; [lia|].
  by replace (k + Z.of_nat (S m)) with (k + 1 + Z.of_nat m) by lia.
Qed.

(** [benchmark], for any number of supersteps. *)
Lemma benchmark_effect hw clock arrival env n config :
  config_wf config → Market.in_business N band n → 0 ≤ n ≤ 2 ^ 32 →
  (∀ s, 0 ≤ s < n → schedules config (env s)) →
  ∃ ws c, benchmark hw clock arrival env n config = Some (ws, u64 c) ∧
    n ≤ c ≤ n * (vertex_total * worker_count config) ∧ workers_inv config n ws.
Proof.
  intros Hc Hb Hn Henv.
  destruct (setup_effect hw clock arrival config Hc)
    as (d & e & _ & He & _ & Hpm & _ & _ & Hd & Hids & Hg & _).
  pose proof (workers_inv_start config _ _ Hc Hd Hids Hg) as H0.
  destruct (benchmark_loop config n env (Z.to_nat n) 0 _ 0 Hc Hb ltac:(lia) Henv ltac:(lia)
    ltac:(lia) H0) as (ws & c & Hf & Hcnt & Hws).
  rewrite Z2Nat.id in * by lia. exists ws, c. unfold benchmark. rewrite He.
  cbn [mbind option_bind]. rewrite Hpm. split; [exact Hf|]. split; [exact Hcnt|exact Hws].
Qed.

(** The run of the coordinator on the loaded engine. *)
Lemma run_effect hw clock arrival env config :
  config_wf config → Market.in_business N band (max_supersteps config) →
  (∀ s, 0 ≤ s < max_supersteps config → schedules config (Coord.e_workers (env s))) →
  ∃ e c, setup hw clock arrival config = Some e ∧
    Coord.pmap_ (coordinator_ e) = PMap.new (worker_count config) ∧
    Coord.total_vertices_processed_ (coordinator_ e) = 0 ∧
    workers_inv config 0 (Coord.workers_ (coordinator_ e)) ∧
    Coord.run_loop env 0 (Z.to_nat (max_supersteps config)) (coordinator_ e) = Some c ∧
    run hw clock arrival env config =
      Some (mkEngine (config_ e) (scheduler_ e) (Coord.set_done c)) ∧
    workers_inv config (max_supersteps config) (Coord.workers_ c) ∧
    Z.of_nat (length (Coord.rows_ c)) = max_supersteps config ∧
    Forall (λ r, Coord.row_active r ≠ 0) (Coord.rows_ c).
Proof.
  intros Hc Hb Henv. pose proof Hc as (_ & _ & Hmax).
  destruct (setup_effect hw clock arrival config Hc)
    as (d & e & _ & He & _ & Hpm & Hcfg & Hrows & Hd & Hids & Hg & Ht).
  pose proof (workers_inv_start config _ _ Hc Hd Hids Hg) as H0.
  destruct (Coord.run_loop_total (workers_inv config) env 0 (Z.to_nat (max_supersteps config))
    (coordinator_ e)) as (c & Hrun & Hinv & _ & rows & Hr & Hl & Hf); [|exact H0|].
  { intros s ws Hs Hws. rewrite Hpm.
    destruct (workers_inv_steps config (max_supersteps config) s (λ s, Coord.e_workers (env s)) ws
      Hc ltac:(lia) Hb ltac:(lia) ltac:(lia) Henv Hws) as (ws' & t & Hstep & Ht' & Hws').
    exists ws', t. split; [exact Hstep|]. split; [lia|exact Hws']. }
  rewrite Hrows, app_nil_l in Hr. subst rows.
  rewrite Z.add_0_l, Z2Nat.id in Hinv by lia.
  exists e, c. split; [exact He|]. split; [exact Hpm|]. split; [exact Ht|].
  split; [exact H0|]. split; [exact Hrun|].
  split; [|split; [exact Hinv|split; [lia|exact Hf]]].
  unfold run. rewrite He. cbn [mbind option_bind]. unfold Coord.run. rewrite Hcfg, Hrun.
  reflexivity.
Qed.

Lemma add_venue_no_workers p (b : Build (R := R) (G := G)) v :
  p_worker_count p = 0 → add_venue p b v = None.
Proof.
  intros Hp. unfold add_venue, owner_mod. rewrite decide_True by done.
  destruct (price_draw (rng_ b)) as [n1 g1]. destruct (price_draw g1) as [n2 g2].
  destruct (qty_draw g2) as [q1 g3]. destruct (qty_draw g3) as [q2 g4].
  by destruct (i64 (BASE_PRICE - 100 + n1)), (i64 (BASE_PRICE + 100 + n2)).
Qed.

(** With no NUMA node, or with no worker, setting up the engine is undefined: it
    divides by that count. *)
Lemma engine_unchecked hw clock arrival env config :
  numa_nodes config = 0 ∨ worker_count config = 0 →
  run hw clock arrival env config = None.
Proof.
  unfold run, setup, setup_infrastructure. intros Hz. case_decide as Hn; [reflexivity|].
  destruct Hz as [Hz|Hz]; [by destruct Hn|]. cbn [mbind option_bind].
  unfold load_graph. cbn [config_].
  assert (build_order_book_graph (R := R) (G := G) (graph_params config) arrival = None) as ->;
    [|reflexivity].
  unfold build_order_book_graph. change (Z.to_nat (p_venue_count _)) with 5%nat.
  cbn [seq foldM]. by rewrite add_venue_no_workers.
Qed.

(** ** Properties *)

(** C5: a run of the engine on the order book.  With at least one worker and NUMA
    node, and a bound [N] on the draws of a venue's noise such that the price
    band of the last superstep is positive, the run is defined: no superstep
    meets an overflow, a division by zero or an index out of range.  It makes all
    of [max_supersteps] supersteps, each with an active vertex, and ends done:
    the vote to halt never ends it early,
    because the venues never vote.  (Like all theorems here it assumes
    [BoundedPriceDraws] of the draws that build the graph.) *)
Theorem engine_run hw clock arrival env config :
  config_wf config → Market.in_business N band (max_supersteps config) →
  (∀ s, 0 ≤ s < max_supersteps config → schedules config (Coord.e_workers (env s))) →
  ∃ e, run hw clock arrival env config = Some e ∧
    Coord.done_ (coordinator_ e) = true ∧
    Z.of_nat (length (Coord.rows_ (coordinator_ e))) = max_supersteps config ∧
    Forall (λ r, Coord.row_active r ≠ 0) (Coord.rows_ (coordinator_ e)).
Proof.
  intros Hc Hb Henv.
  destruct (run_effect hw clock arrival env config Hc Hb Henv)
    as (e & c & _ & _ & _ & _ & _ & Hrun & _ & Hl & Hf).
  eexists. split; [exact Hrun|]. split; [reflexivity|]. split; [exact Hl|exact Hf].
Qed.

(** The outcome of a vertex: prices have moved by at most the band of [n]
    supersteps, nothing was traded. *)
Definition quiet (n : Z) (d : OBData R) : Prop :=
  let near x := Z.abs (x - BASE_PRICE) ≤ band + n * (N + Venue.half_spread) in
  match d with
  | OrderV d => Order.filled_qty (Order.state_ d) = 0 ∧ Order.active (Order.state_ d) = true
  | PriceLevelV d => near (PriceLevel.price (PriceLevel.state_ d))
  | VenueV d => near (Venue.best_bid (Venue.state_ d)) ∧ near (Venue.best_ask (Venue.state_ d))
  | MarketMakerV d =>
      MarketMaker.net_position (MarketMaker.state_ d) = 0 ∧
      MarketMaker.pnl_fixed (MarketMaker.state_ d) = 0 ∧
      MarketMaker.fill_count (MarketMaker.state_ d) = 0 ∧
      MarketMaker.arb_signals_sent (MarketMaker.state_ d) = 0
  end.

Lemma quiet_inv k vd : Market.vertex_inv all_kinds N band k vd → quiet k vd.2.
Proof.
  intros (_ & _ & Hd). destruct vd as [v [d|d|d|d]]; cbn in *;
    unfold Market.banded, Market.lowest, Market.highest in *; [exact Hd|lia|lia|tauto].
Qed.

(** C6: what the order book does in a run.  After [max_supersteps] supersteps every
    vertex is where loading put it; no order has been filled or has become
    inactive, no market maker has traded or sent a signal, and every price of a
    venue or level is within the band around the base price.  This is not what the
    README and the comment in [MarketMakerVertex::compute] say, namely that a market
    maker signals when one venue's bid exceeds another's ask, which these runs may
    reach: a maker keeps only the last quote it received, both sides of it from one
    venue, and a venue never quotes a crossed market. *)
Theorem engine_order_book hw clock arrival env config :
  config_wf config → Market.in_business N band (max_supersteps config) →
  (∀ s, 0 ≤ s < max_supersteps config → schedules config (Coord.e_workers (env s))) →
  ∃ e, run hw clock arrival env config = Some e ∧
    length (Coord.workers_ (coordinator_ e)) = Z.to_nat (worker_count config) ∧
    ∀ i w, Coord.workers_ (coordinator_ e) !! i = Some w →
      dom (vertices_ w) = owned (worker_count config) i ∧
      map_Forall (λ _ vd, quiet (max_supersteps config) vd.2) (vertices_ w).
Proof.
  intros Hc Hb Henv.
  destruct (run_effect hw clock arrival env config Hc Hb Henv)
    as (e & c & _ & _ & _ & _ & _ & Hrun & [Hlen Hws] & _).
  eexists. split; [exact Hrun|]. split; [exact Hlen|].
  intros i w Hi. destruct (Hws i w Hi) as (_ & _ & Hdom & _ & Hv & _).
  split; [exact Hdom|]. eapply map_Forall_impl; [exact Hv|]. intros vid vd. apply quiet_inv.
Qed.


(** C24: the benchmark is the run without its control.  On the order book the loop
    of [benchmark] for as many supersteps computes the same workers, and counts
    the vertices that [Coordinator::run] sums up: failures, heartbeats
    and the convergence test change nothing.  ([BoundedPriceDraws] is assumed.) *)
Theorem benchmark_is_run hw clock arrival env config :
  config_wf config → Market.in_business N band (max_supersteps config) →
  (∀ s, 0 ≤ s < max_supersteps config → schedules config (Coord.e_workers (env s))) →
  ∃ e, run hw clock arrival env config = Some e ∧
    benchmark hw clock arrival (λ s, Coord.e_workers (env s)) (max_supersteps config) config =
      Some (Coord.workers_ (coordinator_ e),
            Coord.total_vertices_processed_ (coordinator_ e)).
Proof.
  intros Hc Hb Henv. pose proof Hc as (_ & _ & Hmax).
  destruct (run_effect hw clock arrival env config Hc Hb Henv)
    as (e & c & He & Hpm & Ht & H0 & Hloop & Hrun & _).
  eexists. split; [exact Hrun|]. unfold benchmark. rewrite He. cbn [mbind option_bind].
  destruct (loops_agree (workers_inv config) env 0 (Z.to_nat (max_supersteps config))
    (coordinator_ e)) as (c' & Hloop' & Hf); [|exact H0|].
  { intros s ws Hs Hws. rewrite Hpm.
    destruct (workers_inv_steps config (max_supersteps config) s (λ s, Coord.e_workers (env s)) ws
      Hc ltac:(lia) Hb ltac:(lia) ltac:(lia) Henv Hws) as (ws' & t & Hstep & Ht' & Hws').
    exists ws', t. split; [exact Hstep|]. split; [lia|exact Hws']. }
  rewrite Hloop in Hloop'. injection Hloop' as <-. rewrite Ht, Z2Nat.id in Hf by lia. exact Hf.
Qed.

(** C23: loading.  With at least one worker and NUMA node the order book is built
    and handed out: worker [i] holds the vertices whose id the partition map
    sends to [i], and no others; each is in its fresh state and names [i] as its
    owner; the worker has no mail, and it is well
    formed.  ([BoundedPriceDraws] is assumed.) *)
Theorem engine_loads hw clock arrival config :
  config_wf config →
  ∃ e, setup hw clock arrival config = Some e ∧
    length (Coord.workers_ (coordinator_ e)) = Z.to_nat (worker_count config) ∧
    ∀ i w, Coord.workers_ (coordinator_ e) !! i = Some w →
      worker_wf (Coord.pmap_ (coordinator_ e)) w ∧ id_ w = Z.of_nat i ∧ vertex_inbox_ w = ∅ ∧
      (∀ vid, is_Some (vertices_ w !! vid) ↔ 0 ≤ vid < vertex_total ∧
         PMap.owner_of vid (Coord.pmap_ (coordinator_ e)) = Some (Z.of_nat i)) ∧
      map_Forall (λ vid vd, Vertex.id_ vd.1 = vid ∧ Vertex.owner_ vd.1 = Z.of_nat i ∧
        good (graph_params config) all_kinds vd) (vertices_ w).
Proof.
  intros Hc. pose proof Hc as (Hwc & _).
  destruct (setup_effect hw clock arrival config Hc)
    as (d & e & _ & He & _ & Hpm & _ & _ & Hd & Hids & Hg & _).
  exists e. split; [exact He|]. pose proof Hd as [Hlen Hws]. split; [exact Hlen|].
  intros i w Hi. pose proof (distributed_wf config _ _ i w Hc Hd Hg Hi) as Hwf. rewrite Hpm.
  destruct (Hws i w Hi) as (Hid & _ & _ & Hbox & _ & Hdom & Hv).
  split; [exact Hwf|split; [exact Hid|split; [exact Hbox|split]]].
  - intros vid. rewrite PMap.owner_of_new, <- elem_of_dom, Hdom, Hids, elem_of_seqZ by done.
    rewrite Z.add_0_l. split; [intros [-> ?]; by split|by intros [? [= ->]]].
  - intros vid vd Hvd. destruct (Hv vid vd Hvd) as [Hvid Hin]. split; [exact Hvid|].
    rewrite Forall_forall in Hg. pose proof (Hg vd Hin) as Hgood. split; [|exact Hgood].
    destruct Hgood as [(_ & _ & -> & _) _]. cbn [p_worker_count graph_params].
    rewrite Hvid. apply Hdom, elem_of_dom. by eexists.
Qed.

End Engine.
(** ** The theorems at a concrete engine *)

#[local] Existing Instances Venue.lcg Graph.lcg_graph_source Graph.lcg_graph_laws Graph.lcg_graph_bounded Hb.step_math.

(** The default configuration, the failure injected during a run that visits the
    vertices in increasing order. *)
Definition sample_config : EngineConfig := mkConfig 4 2 100 500 2000 true true.
Definition sample_env (s : Superstep) : Coord.Env :=
  Coord.mkEnvironment [Coord.FaultInjection] (λ _, s)
    (λ i, mkEnv (elements (owned 4 i)) (elements (owned 4 i)) [] (λ _ _, 0)).

Lemma sample_config_wf : config_wf sample_config.
Proof. unfold config_wf. cbn. lia. Qed.

Lemma sample_noise (r : Z) : Z.abs (noise r).1 ≤ 1000.
Proof.
  cbn. pose proof (Z.mod_pos_bound r 401 ltac:(lia)). lia.
Qed.

Lemma sample_in_business : Market.in_business 1000 band (max_supersteps sample_config).
Proof.
  unfold Market.in_business, Market.lowest, Market.highest.
  change (max_supersteps sample_config) with 100. change band with 2001000.
  change Venue.half_spread with 200. change BASE_PRICE with 150000000. lia.
Qed.

Lemma sample_schedules s : schedules sample_config (Coord.e_workers (sample_env s)).
Proof. intros i. split; reflexivity. Qed.

#[local] Abbreviation sample_run :=
  (run (R := Z) (G := Z) 8 (λ _, 0) (λ _, 0) sample_env sample_config).

Lemma engine_run_witness :
  ∃ e, sample_run = Some e ∧ Z.of_nat (length (Coord.rows_ (coordinator_ e))) = 100.
Proof.
  destruct (engine_run (R := Z) (G := Z) 1000 sample_noise 8 (λ _, 0) (λ _, 0) sample_env
    sample_config sample_config_wf sample_in_business (λ s _, sample_schedules s))
    as (e & He & _ & Hl & _).
  exists e. split; [exact He|exact Hl].
Defined.

Lemma engine_order_book_witness :
  ∃ e, sample_run = Some e ∧ length (Coord.workers_ (coordinator_ e)) = 4%nat.
Proof.
  destruct (engine_order_book (R := Z) (G := Z) 1000 sample_noise 8 (λ _, 0) (λ _, 0) sample_env
    sample_config sample_config_wf sample_in_business (λ s _, sample_schedules s))
    as (e & He & Hl & _).
  exists e. split; [exact He|exact Hl].
Defined.


Lemma benchmark_is_run_witness :
  ∃ ws t, benchmark (R := Z) (G := Z) 8 (λ _, 0) (λ _, 0) (λ s, Coord.e_workers (sample_env s))
    100 sample_config = Some (ws, t).
Proof.
  destruct (benchmark_is_run (R := Z) (G := Z) 1000 sample_noise 8 (λ _, 0) (λ _, 0) sample_env
    sample_config sample_config_wf sample_in_business (λ s _, sample_schedules s))
    as (e & _ & He).
  eexists _, _. exact He.
Defined.

Lemma engine_loads_witness :
  ∃ e, setup (R := Z) (G := Z) 8 (λ _, 0) (λ _, 0) sample_config = Some e ∧
    length (Coord.workers_ (coordinator_ e)) = 4%nat.
Proof.
  destruct (engine_loads (R := Z) (G := Z) 8 (λ _, 0) (λ _, 0) sample_config sample_config_wf)
    as (e & He & Hl & _).
  exists e. split; [exact He|exact Hl].
Defined.

End Engine.
