(* ===== verification/Lifetime.v ===== *)
(** The life of the coordinator and of its threads: [Coordinator::run] around its
    loop and [~Coordinator] ([src/coordinator.cpp]), [HeartbeatDetector::start],
    [stop] and [monitor_loop] ([src/heartbeat.cpp]), and the end of the program
    ([src/main.cpp]).

    The main thread starts the monitor thread, detaches the fault injection thread
    when the configuration asks for it, runs the supersteps, stops the detector,
    prints the summary and destroys the coordinator.  What the threads compute is
    the subject of [Heartbeat] and [Coordinator]; here the question is whether they
    still run when what they use is gone: the failure callback and the injection
    thread hold a raw pointer to the coordinator. *)
From S2P Require Import Prelude Types.
Local Open Scope Z_scope.

Module Lifetime.

Inductive MonitorPC :=
  | NotStarted
  | Checking          (* [while (running_)] *)
  | Sleeping          (* in [sleep_for]; then the pass over the workers *)
  | Finished          (* left the loop *)
  | Joined.           (* no longer joinable *)

Inductive InjectorPC := NoInjector | Asleep | Injected.

Inductive MainPC :=
  | Entered                     (* at the start of [run] *)
  | Spawning                    (* the detector is started *)
  | Running (supersteps : nat)  (* the loop, with the supersteps left *)
  | Stopping                    (* [hb_->stop()] of [run] *)
  | Joining                     (* its join *)
  | Printing                    (* [print_summary], and the return to [main] *)
  | Destroying                  (* [hb_->stop()] of [~Coordinator] *)
  | DestroyJoining              (* its join *)
  | Destroyed                   (* the coordinator is gone, [main] returns *)
  | Exited.                     (* the process has ended *)

#[export] Instance MonitorPC_eq_dec : EqDecision MonitorPC.
Proof. solve_decision. Defined.
#[export] Instance InjectorPC_eq_dec : EqDecision InjectorPC.
Proof. solve_decision. Defined.
#[export] Instance MainPC_eq_dec : EqDecision MainPC.
Proof. solve_decision. Defined.

(** [dangling]: a thread has used the coordinator after its destruction. *)
Record State := mkState {
  main : MainPC;
  running_ : bool;
  monitor : MonitorPC;
  injector : InjectorPC;
  alive : bool;
  dangling : bool;
}.

Definition init : State := mkState Entered false NotStarted NoInjector true false.

Definition goto (pc : MainPC) (st : State) : State :=
  mkState pc (running_ st) (monitor st) (injector st) (alive st) (dangling st).
Definition set_monitor (pc : MonitorPC) (st : State) : State :=
  mkState (main st) (running_ st) pc (injector st) (alive st) (dangling st).
Definition set_running (b : bool) (st : State) : State :=
  mkState (main st) b (monitor st) (injector st) (alive st) (dangling st).
Definition set_injector (pc : InjectorPC) (st : State) : State :=
  mkState (main st) (running_ st) (monitor st) pc (alive st) (dangling st).
Definition destroy (st : State) : State :=
  mkState (main st) (running_ st) (monitor st) (injector st) false (dangling st).

(** A thread follows its pointer to the coordinator. *)
Definition use_coordinator (st : State) : State :=
  mkState (main st) (running_ st) (monitor st) (injector st) (alive st)
    (dangling st || negb (alive st)).

(** [HeartbeatDetector::start] *)
Definition start (st : State) : State := set_monitor Checking (set_running true st).

(** The join of [HeartbeatDetector::stop]: it waits for the thread, if it is
    joinable. *)
Definition join (st : State) : option State :=
  match monitor st with
  | NotStarted | Joined => Some st
  | Finished => Some (set_monitor Joined st)
  | Checking | Sleeping => None
  end.

(** The condition on which the injection thread is detached. *)
Definition injects (config : EngineConfig) (workers : nat) : bool :=
  enable_fault_injection config && bool_decide (2 < workers)%nat.

(** The next access of the main thread, in a run of [n] supersteps; [None]: it
    waits in a join, or has ended. *)
Definition main_step (inject : bool) (n : nat) (st : State) : option State :=
  match main st with
  | Entered => Some (goto Spawning (start st))
  | Spawning => Some (goto (Running n) (if inject then set_injector Asleep st else st))
  | Running (S k) => Some (goto (Running k) st)
  | Running O => Some (goto Stopping st)
  | Stopping => Some (goto Joining (set_running false st))
  | Joining => goto Printing <$> join st
  | Printing => Some (goto Destroying st)
  | Destroying => Some (goto DestroyJoining (set_running false st))
  | DestroyJoining => (λ st, goto Destroyed (destroy st)) <$> join st
  | Destroyed => Some (goto Exited st)
  | Exited => None
  end.

(** [monitor_loop]: the test, then the sleep and the pass, whose failures are
    reported to the coordinator. *)
Definition monitor_step (st : State) : option State :=
  match monitor st with
  | Checking => Some (set_monitor (if running_ st then Sleeping else Finished) st)
  | Sleeping => Some (set_monitor Checking (use_coordinator st))
  | _ => None
  end.

(** The injection thread: after its sleep it calls [hb_->inject_failure]. *)
Definition injector_step (st : State) : option State :=
  match injector st with
  | Asleep => Some (set_injector Injected (use_coordinator st))
  | _ => None
  end.

Inductive Thread := Main | Monitor | Injector.

(** Threads end with the process. *)
Definition step (inject : bool) (n : nat) (st : State) (th : Thread) : option State :=
  if decide (main st = Exited) then None
  else match th with
       | Main => main_step inject n st
       | Monitor => monitor_step st
       | Injector => injector_step st
       end.

Definition steps (inject : bool) (n : nat) (l : list Thread) (st : State) : option State :=
  foldM (step inject n) st l.

(** ** The invariant *)

(** Where the monitor thread may be when the main thread is at [pc]. *)
Definition monitor_at (pc : MainPC) (running : bool) (m : MonitorPC) : Prop :=
  match pc with
  | Entered => m = NotStarted
  | Spawning | Running _ | Stopping => running = true ∧ (m = Checking ∨ m = Sleeping)
  | Joining => running = false ∧ (m = Checking ∨ m = Sleeping ∨ m = Finished)
  | _ => m = Joined
  end.

Definition gone (pc : MainPC) : bool :=
  match pc with Destroyed | Exited => true | _ => false end.

Definition inv (inject : bool) (st : State) : Prop :=
  monitor_at (main st) (running_ st) (monitor st) ∧ alive st = negb (gone (main st)) ∧
  (inject = false → injector st = NoInjector ∧ dangling st = false).

Lemma steps_app inject n l k st :
  steps inject n (l ++ k) st = steps inject n l st ≫= steps inject n k.
Proof. apply foldM_app. Qed.

Lemma init_inv inject : inv inject init.
Proof. by split_and!. Qed.

Lemma lifetime_step_inv inject n st th st' :
  inv inject st → step inject n st th = Some st' → inv inject st'.
Proof.
  destruct st as [pc r m i a d]. unfold inv, step. cbn [main running_ monitor injector alive dangling].
  intros (Hm & Ha & Hi). case_decide; [done|]. destruct th.
  - unfold main_step, join. cbn [main monitor].
    destruct pc as [| |[|k]| | | | | | |], m; cbn in *; intros Hs;
      try discriminate Hs; injection Hs as <-; cbn; destruct inject; naive_solver.
  - unfold monitor_step. cbn [monitor].
    destruct m; cbn; intros Hs; try discriminate Hs; injection Hs as <-; cbn;
      destruct pc, r; cbn in *; naive_solver.
  - unfold injector_step. cbn [injector].
    destruct i; cbn; intros Hs; try discriminate Hs; injection Hs as <-; cbn.
    split_and!; [done|done|]. intros Hf. by destruct (Hi Hf).
Qed.

Lemma lifetime_steps_inv inject n l st st' :
  inv inject st → steps inject n l st = Some st' → inv inject st'.
Proof. intros Hi. apply foldM_inv; [|done]. intros ? th ? _. apply lifetime_step_inv. Qed.

(** The accesses the main thread has left. *)
Definition main_left (n : nat) (pc : MainPC) : nat :=
  match pc with
  | Entered => n + 10 | Spawning => n + 9 | Running k => k + 8 | Stopping => 7 | Joining => 6
  | Printing => 5 | Destroying => 4 | DestroyJoining => 3 | Destroyed => 2 | Exited => 0
  end.

Lemma main_step_left inject n st st' :
  main_step inject n st = Some st' → (main_left n (main st') < main_left n (main st))%nat.
Proof.
  destruct st as [pc r m i a d]. unfold main_step, join. cbn [main monitor].
  destruct pc as [| |[|k]| | | | | | |], m; cbn; intros Hs; try discriminate Hs;
    injection Hs as <-; cbn; destruct inject; cbn; lia.
Qed.

(** The main thread can go on, or waits for the monitor thread in the join of
    [run]. *)
Lemma progress inject n st :
  inv inject st → main st ≠ Exited →
  is_Some (main_step inject n st) ∨
  main st = Joining ∧ running_ st = false ∧
    ∃ l st', (length l ≤ 2)%nat ∧ steps inject n l st = Some st' ∧
      main st' = Joining ∧ monitor st' = Finished.
Proof.
  destruct st as [pc r m i a d]. unfold inv. cbn [main running_ monitor injector alive dangling].
  intros (Hm & _ & _) Hne.
  destruct pc as [| |[|k]| | | | | | |]; try done; try (left; by eexists);
    cbn in Hm; try (subst m; left; by eexists).
  destruct Hm as [-> [->|[->| ->]]]; [right|right|left; by eexists]; split_and!; try done.
  - eexists [Monitor], _. split_and!; [cbn; lia|reflexivity|done|done].
  - eexists [Monitor; Monitor], _. split_and!; [cbn; lia|reflexivity|done|done].
Qed.

Lemma reaches_exit inject n k st :
  (main_left n (main st) ≤ k)%nat → inv inject st →
  ∃ l st', steps inject n l st = Some st' ∧ main st' = Exited.
Proof.
  revert st. induction k as [|k IH]; intros st Hk Hi.
  { exists [], st. split; [done|]. destruct (main st); cbn in Hk; lia || done. }
  destruct (decide (main st = Exited)) as [He|Hne]; [by exists [], st|].
  assert (∀ st1, inv inject st1 → main_left n (main st1) = main_left n (main st) →
    main st1 ≠ Exited → is_Some (main_step inject n st1) →
    ∃ l st', steps inject n l st1 = Some st' ∧ main st' = Exited) as Hgo.
  { intros st1 Hi1 Hl Hne1 [st2 H2]. pose proof (main_step_left _ _ _ _ H2).
    assert (step inject n st1 Main = Some st2) as Hs by (unfold step; by rewrite decide_False).
    destruct (IH st2) as (l & st' & Hrun & He); [lia|by eapply lifetime_step_inv|].
    exists (Main :: l), st'. split; [|done]. unfold steps in *. cbn [foldM]. by rewrite Hs. }
  destruct (progress inject n st Hi Hne) as [Hm|(Hm & _ & l & st1 & _ & Hrun & Hm1 & Hf)];
    [by apply Hgo|].
  destruct (Hgo st1) as (l' & st' & Hrun' & He);
    [by eapply lifetime_steps_inv|by rewrite Hm, Hm1|by rewrite Hm1| |].
  { unfold main_step. rewrite Hm1. unfold join. rewrite Hf. by eexists. }
  exists (l ++ l'), st'. split; [|done]. by rewrite steps_app, Hrun.
Qed.

(** The main thread on its own, while the other threads sleep. *)
Lemma run_supersteps_alone inject n k st :
  main st = Running k →
  steps inject n (replicate k Main) st = Some (goto (Running 0) st).
Proof.
  revert st. induction k as [|k IH]; intros st Hm.
  - unfold steps. cbn. rewrite <- Hm. by destruct st.
  - unfold steps in *. cbn [replicate foldM].
    replace (step inject n st Main) with (main_step inject n st)
      by (unfold step; by rewrite Hm, decide_False).
    unfold main_step. rewrite Hm. cbn [mbind option_bind]. by rewrite IH.
Qed.

(** ** Properties *)

(** C28: Without fault injection nothing outlives what it uses.  In every
    interleaving no thread uses the coordinator after its destruction, the
    monitor thread is joined before that, and the process always gets on: the main
    thread can go on, or it waits in the join for the monitor thread, which then
    ends after at most two steps of its own.  The end is reached. *)
Theorem lifetimes_nest n l st :
  steps false n l init = Some st →
  dangling st = false ∧ (alive st = false → monitor st = Joined) ∧
  (main st = Exited ∨ is_Some (main_step false n st) ∨
   main st = Joining ∧ running_ st = false ∧
     ∃ l' st', (length l' ≤ 2)%nat ∧ steps false n l' st = Some st' ∧ monitor st' = Finished) ∧
  ∃ l' st', steps false n l' st = Some st' ∧ main st' = Exited.
Proof.
  intros Hrun. pose proof (lifetime_steps_inv _ _ _ _ _ (init_inv false) Hrun) as Hi.
  pose proof Hi as (Hm & Ha & Hd). split_and!.
  - by apply Hd.
  - intros Hdead. rewrite Ha in Hdead. by destruct (main st).
  - destruct (decide (main st = Exited)) as [He|Hne]; [by left|right].
    destruct (progress false n st Hi Hne) as [?|(? & ? & l' & st' & ? & ? & _ & ?)]; [by left|right].
    split_and!; try done. by exists l', st'.
  - by eapply reaches_exit.
Qed.

(** C29: Fault injection can use a destroyed coordinator.  The injection thread is
    detached and sleeps for half a second; nothing waits for it.  In a run that is
    over before, of any number of supersteps, there is an execution in which it
    wakes up after [~Coordinator] and calls the detector through the dead
    coordinator. *)
Theorem injection_dangles config workers n :
  enable_fault_injection config = true → (2 < workers)%nat →
  ∃ l st, steps (injects config workers) n l init = Some st ∧
    alive st = false ∧ main st ≠ Exited ∧ dangling st = true.
Proof.
  intros Hf Hw. unfold injects. rewrite Hf, bool_decide_true by done. cbn [andb].
  eexists ([Main; Main] ++ replicate n Main ++
    [Main; Main; Monitor; Main; Main; Main; Main; Injector]), _.
  rewrite steps_app. replace (steps true n [Main; Main] init) with
    (Some (mkState (Running n) true Checking Asleep true false)) by reflexivity.
  cbn [mbind option_bind]. rewrite steps_app, run_supersteps_alone by done.
  split_and!; reflexivity || done.
Qed.

(** ** The theorems on concrete runs *)

(** A run of one superstep, up to the join, with the monitor thread asleep. *)
Definition sample : list Thread := [Main; Monitor; Main; Main; Main; Main].

Lemma lifetimes_nest_witness :
  ∃ st, steps false 1 sample init = Some st ∧ main st = Joining ∧
    ∃ l' st', steps false 1 l' st = Some st' ∧ main st' = Exited.
Proof.
  eexists. split; [reflexivity|]. split; [reflexivity|].
  refine (proj2 (proj2 (proj2 (lifetimes_nest 1 sample _ _)))). reflexivity.
Defined.

Lemma injection_dangles_witness :
  let config := mkConfig 4 2 100 500 2000 true true in
  ∃ l st, steps (injects config 4) 100 l init = Some st ∧ dangling st = true.
Proof.
  cbn zeta.
  destruct (injection_dangles (mkConfig 4 2 100 500 2000 true true) 4 100 eq_refl ltac:(lia))
    as (l & st & Hrun & _ & _ & Hd).
  exists l, st. split; [exact Hrun|exact Hd].
Defined.

End Lifetime.
