(* ===== verification/Main.v ===== *)
(** The command line: [src/main.cpp].

    [None] is undefined behaviour: [std::atoi] of a number that is no [int], or
    a run of the engine that is undefined.  [Some] is the result of a sequential
    execution: one in which every [wait_all] waits for the tasks of its caller
    ([ParallelStep] has the executions of several workers in which it does not) and
    no thread outlives the engine ([Lifetime] has those of the detached fault
    injection thread, which this file leaves out).  What is printed is left out
    too. *)
From Stdlib Require Import Ascii.
From stdpp Require Import pretty.
From S2P Require Import Prelude Types VenueVertex OrderBookGraph Heartbeat Superstep OrderBook Coordinator Market Engine Lifetime.
Local Open Scope Z_scope.

Module Main.

(** *** [std::atoi] *)

Definition is_space (c : ascii) : bool :=
  let n := nat_of_ascii c in bool_decide (n = 32 ∨ 9 ≤ n ≤ 13)%nat.

Definition digit_of (c : ascii) : option Z :=
  let n := Z.of_nat (nat_of_ascii c) in
  if decide (48 ≤ n ≤ 57) then Some (n - 48) else None.

(** The leading digits, read after the number [acc]. *)
Fixpoint digits (acc : Z) (s : string) : Z :=
  match s with
  | "" => acc
  | String c s => match digit_of c with Some d => digits (10 * acc + d) s | None => acc end
  end%string.

Fixpoint skip_spaces (s : string) : string :=
  match s with
  | String c s' => if is_space c then skip_spaces s' else s
  | "" => ""
  end%string.

Definition in_int (z : Z) : Prop := - 2 ^ 31 ≤ z < 2 ^ 31.
#[export] Instance in_int_dec z : Decision (in_int z).
Proof. unfold in_int. apply _. Defined.

Definition atoi (s : string) : option Z :=
  let n := match skip_spaces s with
           | String "-" s => - digits 0 s
           | String "+" s => digits 0 s
           | s => digits 0 s
           end%char in
  if decide (in_int n) then Some n else None.

(** *** [main] *)

Definition set_worker_count (n : Z) (c : EngineConfig) : EngineConfig :=
  mkConfig n (numa_nodes c) (max_supersteps c) (heartbeat_interval_ms c)
    (failure_timeout_ms c) (enable_rdma_sim c) (enable_fault_injection c).
Definition set_max_supersteps (n : Z) (c : EngineConfig) : EngineConfig :=
  mkConfig (worker_count c) (numa_nodes c) n (heartbeat_interval_ms c)
    (failure_timeout_ms c) (enable_rdma_sim c) (enable_fault_injection c).
Definition set_numa_nodes (n : Z) (c : EngineConfig) : EngineConfig :=
  mkConfig (worker_count c) n (max_supersteps c) (heartbeat_interval_ms c)
    (failure_timeout_ms c) (enable_rdma_sim c) (enable_fault_injection c).
Definition set_fault (c : EngineConfig) : EngineConfig :=
  mkConfig (worker_count c) (numa_nodes c) (max_supersteps c) (heartbeat_interval_ms c)
    (failure_timeout_ms c) (enable_rdma_sim c) true.
Definition set_no_rdma (c : EngineConfig) : EngineConfig :=
  mkConfig (worker_count c) (numa_nodes c) (max_supersteps c) (heartbeat_interval_ms c)
    (failure_timeout_ms c) false (enable_fault_injection c).

(** The option that takes a value, if [arg] is one. *)
Definition valued (arg : string) : option (Z → EngineConfig → EngineConfig) :=
  if decide (arg = "--workers"%string) then Some set_worker_count
  else if decide (arg = "--steps"%string) then Some set_max_supersteps
  else if decide (arg = "--numa-nodes"%string) then Some set_numa_nodes
  else None.

Definition flag (arg : string) (c : EngineConfig) : EngineConfig :=
  if decide (arg = "--fault"%string) then set_fault c
  else if decide (arg = "--no-rdma"%string) then set_no_rdma c else c.

Inductive Parsed :=
  | Help
  | Start (config : EngineConfig).

(** The loop over [argv]; an option that needs a value and is the last argument is
    ignored, as is every unknown one. *)
Fixpoint parse_args (args : list string) (config : EngineConfig) : option Parsed :=
  match args with
  | [] => Some (Start config)
  | arg :: rest =>
      match valued arg, rest with
      | Some set, v :: rest' => n ← atoi v; parse_args rest' (set (u32 n) config)
      | _, _ =>
          if decide (arg = "--help"%string) then Some Help
          else parse_args rest (flag arg config)
      end
  end.

Section Main.
Context {R G : Type} `{HN : NoiseSource R, HG : GraphSource G, HM : MathLib}.

(** A sequential execution of the program, without the fault injection thread; [None]
    on success means that only the usage was printed. *)
Definition main (hw : Z) (clock : Z → Z) (arrival : Z → Z) (env : Superstep → Coord.Env)
    (args : list string) : option (option (Engine.GraphEngine (R := R))) :=
  parsed ← parse_args args default_config;
  match parsed with
  | Help => Some None
  | Start config =>
      e ← Engine.run (G := G) hw clock arrival env config; Some (Some e)
  end.

End Main.

(** ** Lemmas *)

Definition starts_digit (s : string) : Prop :=
  match s with String c _ => is_Some (digit_of c) | "" => False end%string.

Lemma digit_of_char (x : N) :
  (x < 10)%N → digit_of (pretty_N_char x) = Some (Z.of_N x).
Proof.
  intros Hx.
  assert (x = 0 ∨ x = 1 ∨ x = 2 ∨ x = 3 ∨ x = 4 ∨ x = 5 ∨ x = 6 ∨ x = 7 ∨ x = 8 ∨ x = 9)%N
    as H by lia.
  by destruct_or! H; subst x.
Qed.

(** The digits that are printed are the digits that are read. *)
Lemma digits_pretty x s :
  digits 0 (pretty_N_go x s) = digits (Z.of_N x) s ∧
  (starts_digit s ∨ (0 < x)%N → starts_digit (pretty_N_go x s)).
Proof.
  revert s. induction (N.lt_wf_0 x) as [x _ IH]; intros s.
  assert (x = 0 ∨ 0 < x)%N as [-> |Hx] by lia.
  { rewrite pretty_N_go_0. split; [done|]. by intros [?|?]. }
  rewrite pretty_N_go_step by done.
  destruct (IH (x `div` 10)%N ltac:(by apply N.div_lt)
    (String (pretty_N_char (x `mod` 10)) s)) as [-> Hd].
  assert (digit_of (pretty_N_char (x `mod` 10)) = Some (Z.of_N (x `mod` 10))) as Hc
    by (apply digit_of_char; by apply N.mod_lt).
  split.
  - cbn [digits]. rewrite Hc. f_equal.
    rewrite N2Z.inj_div, N2Z.inj_mod. pose proof (Z.div_mod (Z.of_N x) 10). lia.
  - intros _. apply Hd. left. cbn. rewrite Hc. by eexists.
Qed.

Lemma digit_not_space c : is_Some (digit_of c) → is_space c = false ∧ c ≠ "-"%char ∧ c ≠ "+"%char.
Proof.
  unfold digit_of, is_space. intros [d Hd]. case_decide as H; [|done].
  split; [apply bool_decide_eq_false; lia|].
  split; intros ->; [change (48 ≤ 45 ≤ 57) in H|change (48 ≤ 43 ≤ 57) in H]; lia.
Qed.

Lemma atoi_digits s :
  starts_digit s → atoi s = if decide (in_int (digits 0 s)) then Some (digits 0 s) else None.
Proof.
  destruct s as [|c s]; [done|]. intros (Hsp & Hm & Hp)%digit_not_space. unfold atoi.
  cbn [skip_spaces]. rewrite Hsp.
  destruct c as [[] [] [] [] [] [] [] []]; done.
Qed.

Lemma pretty_pos p : pretty (Z.pos p) = pretty_N_go (N.pos p) ""%string.
Proof. unfold pretty, pretty_Z, pretty, pretty_positive, pretty, pretty_N. by rewrite decide_False. Qed.
Lemma pretty_neg p : pretty (Z.neg p) = String "-" (pretty_N_go (N.pos p) ""%string).
Proof. rewrite <- pretty_pos. reflexivity. Qed.

(** [atoi] reads what a decimal printer prints: every non-negative [int], and
    every negative one with its sign. *)
Lemma atoi_of_pretty n : in_int n → atoi (pretty n) = Some n.
Proof.
  intros Hn. destruct n as [|p|p]; [reflexivity|..];
    destruct (digits_pretty (N.pos p) ""%string) as [Hd Hs].
  - rewrite pretty_pos, atoi_digits by (apply Hs; right; lia). rewrite Hd. cbn [digits].
    by rewrite decide_True.
  - rewrite pretty_neg. unfold atoi. change (skip_spaces (String "-" ?s)) with (String "-" s).
    cbn iota. rewrite Hd. cbn [digits]. by rewrite decide_True.
Qed.

Lemma parse_number arg set n rest c :
  valued arg = Some set → in_int n →
  parse_args (arg :: pretty n :: rest) c = parse_args rest (set (u32 n) c).
Proof. intros Ha Hn. cbn [parse_args]. rewrite Ha, atoi_of_pretty by done. reflexivity. Qed.

(** Text without a number at its start. *)
Definition no_number (v : string) : Prop :=
  match v with
  | String c _ => c ≠ "-" ∧ c ≠ "+" ∧ is_space c = false ∧ digit_of c = None
  | EmptyString => True
  end%char.

Lemma atoi_no_number v : no_number v → atoi v = Some 0.
Proof.
  destruct v as [|c v]; [reflexivity|]. intros (Hm & Hp & Hsp & Hd). unfold atoi.
  cbn [skip_spaces]. rewrite Hsp.
  assert (digits 0 (String c v) = 0) as Hz by (cbn [digits]; by rewrite Hd).
  destruct c as [[] [] [] [] [] [] [] []]; (rewrite Hz; reflexivity) || done.
Qed.

(** The command line for a configuration. *)
Definition render (c : EngineConfig) : list string :=
  ["--workers"; pretty (worker_count c); "--steps"; pretty (max_supersteps c);
   "--numa-nodes"; pretty (numa_nodes c)]%string ++
  (if enable_fault_injection c then ["--fault"%string] else []) ++
  (if enable_rdma_sim c then [] else ["--no-rdma"%string]).

(** The configurations that a command line can name. *)
Definition nameable (c : EngineConfig) : Prop :=
  0 ≤ worker_count c < 2 ^ 31 ∧ 0 ≤ max_supersteps c < 2 ^ 31 ∧ 0 ≤ numa_nodes c < 2 ^ 31 ∧
  heartbeat_interval_ms c = heartbeat_interval_ms default_config ∧
  failure_timeout_ms c = failure_timeout_ms default_config.

(** What the options of [c] make of the configuration [c0]. *)
Definition override (c0 c : EngineConfig) : EngineConfig :=
  mkConfig (worker_count c) (numa_nodes c) (max_supersteps c) (heartbeat_interval_ms c0)
    (failure_timeout_ms c0) (enable_rdma_sim c && enable_rdma_sim c0)
    (enable_fault_injection c || enable_fault_injection c0).

Lemma parse_render_from c rest c0 :
  nameable c → parse_args (render c ++ rest) c0 = parse_args rest (override c0 c).
Proof.
  intros (Hw & Hs & Hn & _). unfold render. cbn [app].
  rewrite (parse_number _ set_worker_count), (parse_number _ set_max_supersteps),
    (parse_number _ set_numa_nodes) by (try done; unfold in_int; lia).
  rewrite !u32_small by (unfold in_u32; lia).
  by destruct c as [w n s h f [] []], c0.
Qed.

Lemma parse_render c : nameable c → parse_args (render c) default_config = Some (Start c).
Proof.
  intros Hc. rewrite <- (app_nil_r (render c)), parse_render_from by done.
  destruct Hc as (_ & _ & _ & Hh & Hf), c as [w n s h f [] []]; cbn in Hh, Hf; by subst h f.
Qed.

(** *** Parts of a command line *)

(** Options that read no argument behind them, and no request for help. *)
Fixpoint complete (args : list string) : bool :=
  match args with
  | [] => true
  | arg :: rest =>
      match valued arg, rest with
      | Some _, _ :: rest' => complete rest'
      | Some _, [] => false
      | None, _ => bool_decide (arg ≠ "--help"%string) && complete rest
      end
  end.

(** The loop over arguments that are at most [n], two at a time. *)
Lemma args_ind (P : list string → Prop) :
  P [] → (∀ arg, P [arg]) → (∀ arg v rest, P rest → P (v :: rest) → P (arg :: v :: rest)) →
  ∀ args, P args.
Proof.
  intros H0 H1 H2 args. cut (P args ∧ ∀ arg, P (arg :: args)); [tauto|].
  induction args as [|v args [IH1 IH2]]; [by split|]. split; [apply IH2|].
  intros arg. apply H2; [done|apply IH2].
Qed.

Lemma valued_not_help arg set : valued arg = Some set → arg ≠ "--help"%string.
Proof. by intros H ->. Qed.

Lemma parse_complete before rest c p :
  complete before = true → parse_args (before ++ rest) c = Some p →
  ∃ c', parse_args rest c' = Some p.
Proof.
  revert c. induction before as [|arg|arg v before IH1 IH2] using args_ind; intros c; [eauto|..].
  - cbn [complete]. destruct (valued arg) eqn:Ha; [done|]. intros [Hh _]%andb_true_iff.
    apply bool_decide_eq_true in Hh. cbn [app parse_args]. rewrite Ha, decide_False by done. eauto.
  - cbn [complete]. destruct (valued arg) as [set|] eqn:Ha; intros Hc; cbn [app].
    + cbn [parse_args]. rewrite Ha. intros (n & _ & Hp)%bind_Some. by eapply IH1.
    + apply andb_true_iff in Hc as [Hh Hc]. apply bool_decide_eq_true in Hh.
      cbn [parse_args]. rewrite Ha, decide_False by done. by apply IH2.
Qed.

(** A field that the other options leave alone keeps its value. *)
Lemma parse_keeps (field : EngineConfig → Z) arg args c p :
  (∀ arg' set n c, valued arg' = Some set → arg' ≠ arg → field (set n c) = field c) →
  (∀ arg' c, field (flag arg' c) = field c) →
  arg ∉ args → "--help"%string ∉ args → parse_args args c = Some p →
  ∃ c', p = Start c' ∧ field c' = field c.
Proof.
  intros Hset Hflag. revert c.
  induction args as [|arg'|arg' v args IH1 IH2] using args_ind; intros c Harg Hhelp.
  - cbn. intros [= <-]. eauto.
  - cbn [parse_args]. assert (arg' ≠ "--help"%string) by set_solver.
    destruct (valued arg'); rewrite decide_False by done; intros [= <-]; eauto.
  - cbn [parse_args]. assert (arg' ≠ "--help"%string) by set_solver.
    destruct (valued arg') as [set|] eqn:Ha.
    + intros (n & _ & Hp)%bind_Some. apply IH1 in Hp as (c' & -> & E); [|set_solver..].
      exists c'. split; [done|]. rewrite E. apply (Hset arg'); [done|set_solver].
    + rewrite decide_False by done. intros Hp. apply IH2 in Hp as (c' & -> & E); [|set_solver..].
      exists c'. split; [done|]. by rewrite E.
Qed.

Lemma set_keeps_workers arg set n c :
  valued arg = Some set → arg ≠ "--workers"%string → worker_count (set n c) = worker_count c.
Proof. unfold valued. intros H ?. repeat case_decide; by simplify_eq. Qed.
Lemma set_keeps_nodes arg set n c :
  valued arg = Some set → arg ≠ "--numa-nodes"%string → numa_nodes (set n c) = numa_nodes c.
Proof. unfold valued. intros H ?. repeat case_decide; by simplify_eq. Qed.
Lemma flag_keeps_workers arg c : worker_count (flag arg c) = worker_count c.
Proof. unfold flag. by repeat case_decide. Qed.
Lemma flag_keeps_nodes arg c : numa_nodes (flag arg c) = numa_nodes c.
Proof. unfold flag. by repeat case_decide. Qed.

(** ** Properties *)

(** C26: the command line.  Every configuration with counts below 2^31 and the
    default times is what the program starts with when its options are given on
    the command line; in front of other arguments, and after earlier ones, the
    options set the counts, while the flags add up. *)
Theorem command_line c :
  nameable c →
  parse_args (render c) default_config = Some (Start c) ∧
  ∀ rest c0, parse_args (render c ++ rest) c0 = parse_args rest (override c0 c).
Proof. intros Hc. split; [by apply parse_render|]. intros rest c0. by apply parse_render_from. Qed.

(** counts are not checked.  A count on the command line is reduced modulo
    2^32, so that -1 workers are 4294967295 of them, and a value that is no number
    is a count of zero. *)
Theorem count_option set arg v rest c :
  valued arg = Some set →
  (∀ n, in_int n → parse_args (arg :: pretty n :: rest) c =
     parse_args rest (set (n `mod` 2 ^ 32) c)) ∧
  (no_number v → parse_args (arg :: v :: rest) c = parse_args rest (set 0 c)).
Proof.
  intros Ha. split; [intros n Hn; by apply parse_number|].
  intros Hv. cbn [parse_args]. by rewrite Ha, atoi_no_number.
Qed.

Section Main.
Context {R G : Type} `{HN : NoiseSource R, HG : GraphSource G, HM : MathLib, HL : !GraphSourceLaws G, HB : !BoundedPriceDraws G}.

(** C25: the program runs to its end.  Take the options of a configuration with at
    least one worker and NUMA node for which [Coordinator::run] makes no fault
    injection thread, and a
    noise that keeps the price band positive, and assume [BoundedPriceDraws].  Then every
    sequential execution of the program is defined: no signed overflow, no division
    by zero, no index or key out of range, in loading and in every superstep.  It
    makes all the supersteps the command line asks for, each with an active vertex,
    and ends done.  (The executions meant are those in which every [wait_all] waits
    for the tasks of its caller: with one worker all do, [threads_run_supersteps];
    with more, [two_workers_race] has others.) *)
Theorem program_runs (N hw : Z) clock arrival env config :
  (∀ r : R, Z.abs (noise r).1 ≤ N) → nameable config → Engine.config_wf config →
  Lifetime.injects config (Z.to_nat (worker_count config)) = false →
  Market.in_business N Engine.band (max_supersteps config) →
  (∀ s, 0 ≤ s < max_supersteps config → Engine.schedules config (Coord.e_workers (env s))) →
  ∃ e, main (R := R) (G := G) hw clock arrival env (render config) = Some (Some e) ∧
    Coord.done_ (Engine.coordinator_ e) = true ∧
    Z.of_nat (length (Coord.rows_ (Engine.coordinator_ e))) = max_supersteps config ∧
    Forall (λ r, Coord.row_active r ≠ 0) (Coord.rows_ (Engine.coordinator_ e)).
Proof.
  intros Hnoise Hn Hc _ Hb Henv.
  destruct (Engine.run_effect (R := R) (G := G) N Hnoise hw clock arrival env config Hc Hb Henv)
    as (e & c & _ & _ & _ & _ & _ & Hrun & _ & Hl & Hf).
  exists (Engine.mkEngine (Engine.config_ e) (Engine.scheduler_ e) (Coord.set_done c)).
  split; [|split; [reflexivity|split; [exact Hl|exact Hf]]].
  unfold main. rewrite parse_render by done. cbn [mbind option_bind]. rewrite Hrun.
  reflexivity.
Qed.

(** C27: a bad count is fatal.  Give the workers or the NUMA nodes a value that is no
    number: whatever complete options come before, and whatever comes after, as long
    as it neither gives that count again nor asks for help, the program divides by
    zero, and its behaviour is undefined. *)
Theorem bad_count_undefined (hw : Z) clock arrival env before arg v after :
  arg = "--workers"%string ∨ arg = "--numa-nodes"%string → no_number v →
  complete before = true → arg ∉ after → "--help"%string ∉ after →
  main (R := R) (G := G) hw clock arrival env (before ++ arg :: v :: after) = None.
Proof.
  intros Harg Hv Hbefore Hafter Hhelp. unfold main.
  destruct (parse_args _ _) as [p|] eqn:Hp; [|done].
  apply parse_complete in Hp as (c & Hp); [|done].
  assert (∃ c', p = Start c' ∧ (numa_nodes c' = 0 ∨ worker_count c' = 0)) as (c' & -> & Hz).
  { destruct Harg as [-> | ->]; cbn [parse_args] in Hp; rewrite atoi_no_number in Hp by done;
      cbn [mbind option_bind] in Hp.
    - destruct (parse_keeps worker_count _ _ _ _ set_keeps_workers flag_keeps_workers
        Hafter Hhelp Hp) as (c' & -> & Hz). eauto.
    - destruct (parse_keeps numa_nodes _ _ _ _ set_keeps_nodes flag_keeps_nodes
        Hafter Hhelp Hp) as (c' & -> & Hz). eauto. }
  cbn [mbind option_bind]. by rewrite Engine.engine_unchecked.
Qed.

End Main.
(** ** The theorems at concrete command lines *)

#[local] Existing Instances Venue.lcg Graph.lcg_graph_source Graph.lcg_graph_laws Graph.lcg_graph_bounded Hb.step_math.

Lemma sample_nameable : nameable Engine.sample_config.
Proof. unfold nameable. cbn. lia. Qed.

Lemma command_line_witness :
  parse_args ["--workers"; "4"; "--steps"; "100"; "--numa-nodes"; "2"; "--fault"]%string
    default_config = Some (Start Engine.sample_config).
Proof. exact (proj1 (command_line Engine.sample_config sample_nameable)). Defined.

Lemma count_option_witness :
  parse_args ["--workers"; "-1"]%string default_config =
    Some (Start (set_worker_count 4294967295 default_config)).
Proof.
  destruct (count_option set_worker_count "--workers"%string ""%string [] default_config eq_refl)
    as [Hn _].
  assert (in_int (-1)) as H1 by (unfold in_int; lia).
  exact (Hn (-1) H1).
Defined.

(** Four workers without fault injection. *)
Definition quiet_config : EngineConfig := mkConfig 4 2 100 500 2000 true false.

Lemma program_runs_witness :
  ∃ e, main (R := Z) (G := Z) 8 (λ _, 0) (λ _, 0) Engine.sample_env
    ["--workers"; "4"; "--steps"; "100"; "--numa-nodes"; "2"]%string = Some (Some e) ∧
    Z.of_nat (length (Coord.rows_ (Engine.coordinator_ e))) = 100.
Proof.
  assert (nameable quiet_config) as Hn by (unfold nameable; cbn; lia).
  destruct (program_runs (R := Z) (G := Z) 1000 8 (λ _, 0) (λ _, 0) Engine.sample_env
    quiet_config Engine.sample_noise Hn Engine.sample_config_wf eq_refl
    Engine.sample_in_business (λ s _, Engine.sample_schedules s)) as (e & He & _ & Hl & _).
  exists e. split; [exact He|exact Hl].
Defined.

Lemma bad_count_undefined_witness :
  main (R := Z) (G := Z) 8 (λ _, 0) (λ _, 0) Engine.sample_env
    ["--fault"; "--steps"; "10"; "--workers"; "four"; "--numa-nodes"; "2"]%string = None.
Proof.
  apply (bad_count_undefined (R := Z) (G := Z) 8 (λ _, 0) (λ _, 0) Engine.sample_env
    ["--fault"; "--steps"; "10"]%string "--workers"%string "four"%string
    ["--numa-nodes"; "2"]%string).
  - left; reflexivity.
  - vm_compute. split_and!; [discriminate|discriminate|reflexivity|reflexivity].
  - vm_compute. reflexivity.
  - apply (bool_decide_unpack _). vm_compute. exact I.
  - apply (bool_decide_unpack _). vm_compute. exact I.
Defined.

End Main.
