(* ===== verification/Bench.v ===== *)
(** The throughput benchmark: [src/bench_throughput.cpp].

    A row of its table is the worker count and the vertex count that the
    throughput divides by the elapsed time; the throughput itself and the scaling
    are in [Report].  Each engine of the loop has its own clock readings and
    schedules, hence the first argument of [clock], [arrival] and [env]. *)
From S2P Require Import Prelude Types VenueVertex OrderBookGraph Heartbeat WorkerNode Coordinator Market Engine.
Local Open Scope Z_scope.

Module Bench.
Section Bench.
Context {R G : Type} `{HN : NoiseSource R, HG : GraphSource G, HM : MathLib}.

Definition worker_counts : list Z := [1; 2; 4].

(** The [cfg] of an iteration. *)
Definition bench_config (wc : Z) : EngineConfig :=
  mkConfig wc (Z.max 1 (wc / 2)) 20 500 2000 true false.

(** The body of the loop. *)
Definition bench_one (hw : Z) (clock arrival : Z → Z → Z)
    (env : Z → Superstep → nat → Worker.StepEnv) (rows : list (Z * Z)) (wc : Z)
    : option (list (Z * Z)) :=
  '(_, total_verts) ← Engine.benchmark (R := R) (G := G) hw (clock wc) (arrival wc) (env wc) 10
                        (bench_config wc);
  Some (rows ++ [(wc, total_verts)]).

Definition main (hw : Z) (clock arrival : Z → Z → Z)
    (env : Z → Superstep → nat → Worker.StepEnv) : option (list (Z * Z)) :=
  foldM (bench_one hw clock arrival env) [] worker_counts.

(** ** Properties *)

Context {HL : GraphSourceLaws G} {HB : BoundedPriceDraws G} (N : Z) (noise_bounded : ∀ r : R, Z.abs (noise r).1 ≤ N).

Lemma bench_config_wf wc : 0 < wc < 2 ^ 32 → Engine.config_wf (bench_config wc).
Proof. unfold Engine.config_wf. cbn. lia. Qed.

Lemma bench_one_spec hw clock arrival env rows wc :
  0 < wc ≤ 4 → Market.in_business N Engine.band 10 →
  (∀ s, 0 ≤ s < 10 → Engine.schedules (bench_config wc) (env wc s)) →
  ∃ c, bench_one hw clock arrival env rows wc = Some (rows ++ [(wc, c)]) ∧
    10 ≤ c ≤ 21130 * wc.
Proof.
  intros Hwc Hb Henv. unfold bench_one.
  destruct (Engine.benchmark_effect (R := R) (G := G) N noise_bounded hw (clock wc) (arrival wc)
    (env wc) 10 (bench_config wc) (bench_config_wf wc ltac:(lia)) Hb ltac:(lia) Henv)
    as (ws & c & Hrun & Hc & _).
  rewrite Hrun. cbn [mbind option_bind].
  change (worker_count (bench_config wc)) with wc in Hc.
  change Engine.vertex_total with 2113 in Hc.
  exists c. rewrite u64_small by (unfold in_u64; lia). split; [reflexivity|lia].
Qed.

(** the benchmark.  With a noise that keeps the price band positive for ten
    supersteps, the benchmark of every worker count is defined, and prints a row
    each, in order; in none is the vertex count, and so the throughput, zero. *)
Theorem benchmarks_complete hw clock arrival env :
  Market.in_business N Engine.band 10 →
  (∀ wc s, wc ∈ worker_counts → 0 ≤ s < 10 → Engine.schedules (bench_config wc) (env wc s)) →
  ∃ rows, main hw clock arrival env = Some rows ∧ rows.*1 = worker_counts ∧
    Forall (λ row, 10 ≤ row.2 ≤ 21130 * row.1) rows.
Proof.
  intros Hb Henv. unfold main.
  assert (∀ wcs rows, wcs ⊆ worker_counts →
    ∃ more, foldM (bench_one hw clock arrival env) rows wcs = Some (rows ++ more) ∧
      more.*1 = wcs ∧ Forall (λ row, 10 ≤ row.2 ≤ 21130 * row.1) more) as Hloop.
  { induction wcs as [|wc wcs IH]; intros rows Hsub.
    { exists []. rewrite app_nil_r. by split_and!. }
    assert (wc ∈ worker_counts) as Hin by (apply Hsub, list_elem_of_here).
    assert (0 < wc ≤ 4) as Hwc.
    { unfold worker_counts in Hin. rewrite !elem_of_cons, elem_of_nil in Hin. lia. }
    destruct (bench_one_spec hw clock arrival env rows wc Hwc Hb (λ s, Henv wc s Hin))
      as (c & Hone & Hc).
    cbn [foldM]. rewrite Hone. cbn [mbind option_bind].
    destruct (IH (rows ++ [(wc, c)])) as (more & -> & Hfst & Hall).
    { intros x Hx. by apply Hsub, list_elem_of_further. }
    exists ((wc, c) :: more). rewrite <- app_assoc. cbn [fmap list_fmap fst].
    split; [reflexivity|]. split; [by rewrite Hfst|by constructor]. }
  destruct (Hloop worker_counts []) as (rows & Hrun & ? & ?); [done|].
  exists rows. by split_and!.
Qed.

End Bench.
(** ** The theorem at a concrete source *)

#[local] Existing Instances Venue.lcg Graph.lcg_graph_source Graph.lcg_graph_laws Graph.lcg_graph_bounded Hb.step_math.

Definition sample_env (wc : Z) (s : Superstep) (i : nat) : Worker.StepEnv :=
  Worker.mkEnv (elements (Engine.owned wc i)) (elements (Engine.owned wc i)) [] (λ _ _, 0).

Lemma bench_in_business : Market.in_business 1000 Engine.band 10.
Proof.
  unfold Market.in_business, Market.lowest, Market.highest.
  change Engine.band with 2001000. change Venue.half_spread with 200.
  change Graph.BASE_PRICE with 150000000. lia.
Qed.

Lemma bench_schedules wc s :
  Engine.schedules (bench_config wc) (sample_env wc s).
Proof. intros i. split; reflexivity. Qed.

Lemma benchmarks_complete_witness :
  ∃ rows, main (R := Z) (G := Z) 8 (λ _ _, 0) (λ _ _, 0) sample_env = Some rows ∧
    rows.*1 = [1; 2; 4].
Proof.
  destruct (benchmarks_complete (R := Z) (G := Z) 1000 Engine.sample_noise 8 (λ _ _, 0) (λ _ _, 0)
    sample_env bench_in_business (λ wc s _ _, bench_schedules wc s)) as (rows & Hrun & Hfst & _).
  exists rows. split; [exact Hrun|exact Hfst].
Defined.

End Bench.
