(* ===== verification/Locks.v ===== *)
(** The mutexes of the engine and the threads that take them: the [lock_guard]s and
    [unique_lock]s of [src/heartbeat.cpp], [src/coordinator.cpp],
    [src/worker_node.cpp], [src/message_bus.cpp], [src/rdma_transport.cpp] and
    [src/numa_scheduler.cpp].

    The other files take a critical section for one step.  Here is why they may:
    every method is the list of what it does to mutexes and to the data they guard,
    on each of its paths; a thread is the list of the calls it makes; and a system
    is any number of threads.  What decides on a path - which vertices are halted,
    which boxes are empty, how long a queue is, what a wait waits for - is an
    argument, so a theorem about all arguments is about all executions.

    The theorems are that the data is only touched under its mutex, by one thread at
    a time, and that no thread waits for a mutex forever.

    A vertex itself, as opposed to the map that owns it, has no mutex: the worker's
    main thread and the task that computes it are kept apart by [wait_all] only, which
    is the subject of [ParallelStep].  Nor have the members that are atomic, or that
    are set before the threads start. *)
From S2P Require Import Prelude Types.
Local Open Scope Z_scope.

Module Locks.

(** ** Mutexes and data *)

Inductive Mutex :=
  | hb_mu                              (* [HeartbeatDetector::mu_] *)
  | vertices_mu (w : WorkerId)         (* [WorkerNode] *)
  | inbox_mu (w : WorkerId)
  | outbox_mu (w : WorkerId)           (* [MessageBus] *)
  | bus_inbox_mu (w : WorkerId)
  | queue_mu (node : nat)              (* [NumaQueue::mu] *)
  | spike_mu                           (* [NumaScheduler] *)
  | qp_mu (w r : WorkerId)             (* [QueuePair::mu_], from [w] to [r] *)
  | flight_mu (w r : WorkerId)
  | cq_mu (w r : WorkerId)
  | pmap_mu.                           (* [PartitionMap::mu_], a [shared_mutex] *)

#[export] Instance Mutex_eq_dec : EqDecision Mutex.
Proof. solve_decision. Defined.

(** A [lock_guard] or [unique_lock] excludes everybody, a [shared_lock] only those. *)
Inductive Mode := Exclusive | Shared.

#[export] Instance Mode_eq_dec : EqDecision Mode.
Proof. solve_decision. Defined.

Definition conflicts (l l' : Mutex * Mode) : Prop :=
  l.1 = l'.1 ∧ (l.2 = Exclusive ∨ l'.2 = Exclusive).

#[export] Instance conflicts_dec l l' : Decision (conflicts l l').
Proof. unfold conflicts. apply _. Defined.

(** The members that a mutex guards. *)
Inductive Datum :=
  | records | vertices (w : WorkerId) | vertex_inbox (w : WorkerId) | outboxes (w : WorkerId)
  | bus_inbox (w : WorkerId) | queue (node : nat) | spikes
  | qp_inbox (w r : WorkerId) | in_flight (w r : WorkerId) | cq (w r : WorkerId)
  | overrides.

Definition guard (d : Datum) : Mutex :=
  match d with
  | records => hb_mu
  | vertices w => vertices_mu w
  | vertex_inbox w => inbox_mu w
  | outboxes w => outbox_mu w
  | bus_inbox w => bus_inbox_mu w
  | queue n => queue_mu n
  | spikes => spike_mu
  | qp_inbox w r => qp_mu w r
  | in_flight w r => flight_mu w r
  | cq w r => cq_mu w r
  | overrides => pmap_mu
  end.

(** What a thread does, as far as mutexes are concerned.  [Wait] is anything that can
    take long for another reason: a join, a future, a sleep, a spinning loop, a
    condition variable, the creation of the thread. *)
Inductive Action :=
  | Lock (l : Mutex * Mode)
  | Unlock (l : Mutex * Mode)
  | Use (d : Datum)
  | Read (d : Datum)
  | Wait.

(** A scope with a guard. *)
Definition scope (l : Mutex * Mode) (body : list Action) : list Action :=
  Lock l :: body ++ [Unlock l].
Definition guarded (m : Mutex) (body : list Action) : list Action := scope (m, Exclusive) body.
Definition critical (d : Datum) : list Action := guarded (guard d) [Use d].

(** A mutex released inside its scope, as a condition variable does. *)
Definition released (m : Mutex) (body : list Action) : list Action :=
  Unlock (m, Exclusive) :: body ++ [Lock (m, Exclusive)].

(** ** The methods *)

(** *** [HeartbeatDetector] and [Coordinator] *)

(** [receive_heartbeat]; the recovery callback is never set.  [inject_failure],
    [state_of], [phi_of] and [failed_workers] have the same section. *)
Definition receive_heartbeat : list Action := critical records.
Definition inject_failure : list Action := critical records.

Definition vertex_count (w : WorkerId) : list Action := critical (vertices w).

(** The loop of [handle_worker_failure] over the workers and their vertex counts. *)
Fixpoint handle_loop (failed : WorkerId) (min_vertices : Z) (workers : list (WorkerId * Z))
    : list Action :=
  match workers with
  | [] => []
  | (w, n) :: workers =>
      if decide (w = failed) then handle_loop failed min_vertices workers
      else vertex_count w ++
        if decide (n < min_vertices)
        then vertex_count w ++ handle_loop failed n workers
        else handle_loop failed min_vertices workers
  end.

Definition handle_worker_failure (workers : list (WorkerId * Z)) (failed : WorkerId)
    : list Action := handle_loop failed (2 ^ 64 - 1) workers.

(** A pass of [monitor_loop]: the callbacks are made with the mutex held. *)
Definition monitor_pass (workers : list (WorkerId * Z)) (failures : list WorkerId)
    : list Action :=
  guarded hb_mu (Use records :: failures ≫= λ failed,
    Use records :: handle_worker_failure workers failed).

Definition monitor_loop (passes : list (list (WorkerId * Z) * list WorkerId)) : list Action :=
  passes ≫= λ '(workers, failures), Wait :: monitor_pass workers failures.

(** The main thread in [Coordinator::run]: the heartbeats and the futures of each
    superstep, and the join of [stop]. *)
Definition coordinator_run (supersteps worker_count : nat) : list Action :=
  concat (replicate supersteps (concat (replicate worker_count receive_heartbeat) ++ [Wait])) ++
  [Wait].

(** *** [QueuePair] and [RdmaTransport] *)

Definition post_write (w r : WorkerId) : list Action := critical (in_flight w r).
Definition drain_received (w r : WorkerId) : list Action := critical (qp_inbox w r).
Definition receive_all (w : WorkerId) (remotes : list WorkerId) : list Action :=
  remotes ≫= drain_received w.
Definition send_batch (w r : WorkerId) (msgs : nat) : list Action :=
  concat (replicate msgs (post_write w r)).

(** An iteration of the inner loop of [network_loop]: [flight_mu_] is released while
    the message is delivered, and taken again. *)
Definition deliver (w r : WorkerId) : list Action :=
  Use (in_flight w r) ::
  released (flight_mu w r) (critical (qp_inbox w r) ++ critical (cq w r)).

(** An iteration of the outer loop, in which the condition variable waits [waits]
    times and [writes] are delivered. *)
Definition network_iteration (w r : WorkerId) (waits writes : nat) : list Action :=
  guarded (flight_mu w r)
    (concat (replicate waits (Use (in_flight w r) :: released (flight_mu w r) [Wait])) ++
     Use (in_flight w r) :: concat (replicate writes (deliver w r)) ++ [Use (in_flight w r)]).
Definition network_loop (w r : WorkerId) (iterations : list (nat * nat)) : list Action :=
  iterations ≫= λ '(waits, writes), network_iteration w r waits writes.

(** *** [PartitionMap] and [MessageBus] *)

Definition owner_of : list Action := scope (pmap_mu, Shared) [Read overrides].
Definition migrate : list Action := critical overrides.

(** [drain_inbox]: the first guard goes out of scope before the second. *)
Definition drain_inbox (use_rdma : bool) (w : WorkerId) (remotes : list WorkerId)
    : list Action :=
  (if use_rdma then receive_all w remotes ++ critical (bus_inbox w) else []) ++
  critical (bus_inbox w).

Definition enqueue_batch (w : WorkerId) (msgs : nat) : list Action :=
  guarded (outbox_mu w) (concat (replicate msgs (owner_of ++ [Use (outboxes w)]))).

(** A box of [flush], with its length. *)
Definition flush_box (use_rdma : bool) (w : WorkerId) (box : WorkerId * nat) : list Action :=
  let '(dst, msgs) := box in
  if decide (msgs = O) then []
  else if decide (dst = w) then critical (bus_inbox w)
  else if use_rdma then send_batch w dst msgs else [].

Definition flush (use_rdma : bool) (w : WorkerId) (boxes : list (WorkerId * nat))
    : list Action :=
  critical (outboxes w) ++ (boxes ≫= flush_box use_rdma w).

Definition barrier_sync : list Action := [Wait].

(** *** [NumaScheduler] *)

Definition submit (node : nat) : list Action := critical (queue node).
Definition submit_bulk (nodes : list nat) : list Action := nodes ≫= submit.
Definition wait_all : list Action := [Wait].

(** The [fn] of a task of worker [w]. *)
Definition task_fn (w : WorkerId) : list Action := critical (vertex_inbox w).

(** An iteration of [worker_thread]: the condition variable waits [waits] times, and
    if there is a task, its worker and whether it is a spike are given. *)
Definition worker_iteration (node : nat) (waits : nat) (task : option (WorkerId * bool))
    : list Action :=
  guarded (queue_mu node)
    (concat (replicate waits (Use (queue node) :: released (queue_mu node) [Wait])) ++
     [Use (queue node)]) ++
  match task with
  | Some (w, is_spike) => task_fn w ++ if (is_spike : bool) then critical spikes else []
  | None => []
  end.
Definition worker_thread (node : nat) (iterations : list (nat * option (WorkerId * bool)))
    : list Action :=
  iterations ≫= λ '(waits, task), worker_iteration node waits task.

(** *** [WorkerNode] *)

Definition dispatch_messages (w : WorkerId) : list Action := critical (vertex_inbox w).

(** The selection of the tasks, by which vertices are halted, and their submission to
    the [nodes], all with [vertices_mu_] held. *)
Definition select_tasks (w : WorkerId) (halted : list bool) (nodes : list nat) : list Action :=
  guarded (vertices_mu w)
    ((halted ≫= λ h : bool, Use (vertices w) :: if h then critical (vertex_inbox w) else []) ++
     submit_bulk nodes).

(** [collect_and_route_outbox], by the lengths of the outboxes. *)
Definition collect_and_route_outbox (w : WorkerId) (outboxes : list nat) : list Action :=
  guarded (vertices_mu w)
    (outboxes ≫= λ n : nat,
       Use (vertices w) :: match n with O => [] | _ => enqueue_batch w n end).

(** [absorb_partition] of some vertices; nothing calls it. *)
Definition absorb_partition (w : WorkerId) (migrated : nat) : list Action :=
  guarded (vertices_mu w) (concat (replicate migrated (migrate ++ [Use (vertices w)]))).

(** What decides on the path of a superstep. *)
Record Path := mkPath {
  remotes : list WorkerId;
  halted : list bool;
  nodes : list nat;
  outbox_lengths : list nat;
  boxes : list (WorkerId * nat);
}.

Definition run_superstep (use_rdma : bool) (w : WorkerId) (p : Path) : list Action :=
  drain_inbox use_rdma w (remotes p) ++ dispatch_messages w ++
  select_tasks w (halted p) (nodes p) ++ wait_all ++
  collect_and_route_outbox w (outbox_lengths p) ++ flush use_rdma w (boxes p) ++
  barrier_sync ++ critical (vertices w).

(** *** [GraphEngine] *)

(** [add_vertex] of [distribute_vertices], for the owners of the vertices, and the
    counts that are printed; the constructor of the detector. *)
Definition add_vertex (w : WorkerId) : list Action := critical (vertices w).
Definition load (owners : list WorkerId) (worker_count : nat) : list Action :=
  critical records ++ (owners ≫= λ w, owner_of ++ add_vertex w) ++
  (seq 0 worker_count ≫= λ i, vertex_count (Z.of_nat i)).

(** ** The threads *)

Inductive Thread :=
  | Main (owners : list WorkerId) (supersteps worker_count : nat)
  | Benchmark (owners : list WorkerId) (supersteps worker_count : nat)
  | Monitor (passes : list (list (WorkerId * Z) * list WorkerId))
  | Injector
  | Migration (w : WorkerId) (migrated : nat)
  | Superstep (use_rdma : bool) (w : WorkerId) (p : Path)     (* an [async] of a superstep *)
  | PoolThread (node : nat) (iterations : list (nat * option (WorkerId * bool)))
  | NetThread (w r : WorkerId) (iterations : list (nat * nat)).

(** What a thread does; all but the main thread wait until they are created. *)
Definition program (t : Thread) : list Action :=
  match t with
  | Main owners supersteps worker_count =>
      load owners worker_count ++ coordinator_run supersteps worker_count
  | Benchmark owners supersteps worker_count =>
      load owners worker_count ++ concat (replicate supersteps [Wait])
  | Monitor passes => Wait :: monitor_loop passes
  | Injector => [Wait; Wait] ++ inject_failure
  | Migration w migrated => Wait :: absorb_partition w migrated
  | Superstep use_rdma w p => Wait :: run_superstep use_rdma w p
  | PoolThread node iterations => Wait :: worker_thread node iterations
  | NetThread w r iterations => Wait :: network_loop w r iterations
  end.

(** A thread with the mutexes it holds and what it has left to do. *)
Record Running := mkRunning { held : list (Mutex * Mode); todo : list Action }.

Definition start (ts : list Thread) : list Running := (λ t, mkRunning [] (program t)) <$> ts.

Definition free (l : Mutex * Mode) (s : list Running) : bool :=
  bool_decide (Forall (λ t, Forall (λ l', ¬ conflicts l l') (held t)) s).

Fixpoint release (l : Mutex * Mode) (h : list (Mutex * Mode)) : option (list (Mutex * Mode)) :=
  match h with
  | [] => None
  | l' :: h => if decide (l = l') then Some h else cons l' <$> release l h
  end.

(** The next action of a thread; [None]: it has to wait for the mutex, or has ended,
    or it unlocks what it does not hold, which is undefined. *)
Definition act (s : list Running) (t : Running) : option Running :=
  match todo t with
  | [] => None
  | Lock l :: k => if free l s then Some (mkRunning (l :: held t) k) else None
  | Unlock l :: k => h ← release l (held t); Some (mkRunning h k)
  | Use _ :: k | Read _ :: k | Wait :: k => Some (mkRunning (held t) k)
  end.

Definition step (s : list Running) (i : nat) : option (list Running) :=
  t ← s !! i; t ← act s t; Some (<[i := t]> s).

Definition steps (s : list Running) (l : list nat) : option (list Running) := foldM step s l.

(** The next action of a thread. *)
Definition next (t : Running) : option Action := head (todo t).

(** Steps of threads that hold a mutex. *)
Definition holder_step (s : list Running) (i : nat) : option (list Running) :=
  t ← s !! i; if decide (held t = []) then None else step s i.
Definition holder_steps (s : list Running) (l : list nat) : option (list Running) := foldM holder_step s l.

(** ** The discipline *)

(** The order in which mutexes are taken. *)
Definition rank (m : Mutex) : nat :=
  match m with hb_mu => 0 | vertices_mu _ => 1 | pmap_mu => 3 | _ => 2 end.

Definition below (n : nat) (h : list (Mutex * Mode)) : bool :=
  forallb (λ l, Nat.ltb (rank l.1) n) h.

(** The mutexes held after an action, innermost first, if it keeps the discipline:
    mutexes are taken in the order of their ranks, released by scope, data is used
    under its guard, and nothing is held during a wait. *)
Definition hold (h : list (Mutex * Mode)) (a : Action) : option (list (Mutex * Mode)) :=
  match a with
  | Lock l => if below (rank l.1) h then Some (l :: h) else None
  | Unlock l =>
      match h with l' :: h => if decide (l = l') then Some h else None | [] => None end
  | Use d => if decide ((guard d, Exclusive) ∈ h) then Some h else None
  | Read d => if decide (guard d ∈ h.*1) then Some h else None
  | Wait => if decide (h = []) then Some h else None
  end.

(** A list of actions that keeps the discipline and returns what it took. *)
Definition well_locked (h : list (Mutex * Mode)) (l : list Action) : Prop :=
  foldM hold h l = Some h.

Lemma well_locked_nil h : well_locked h [].
Proof. done. Qed.

Lemma well_locked_app h l k : well_locked h l → well_locked h k → well_locked h (l ++ k).
Proof. unfold well_locked. intros Hl Hk. by rewrite foldM_app, Hl. Qed.

Lemma well_locked_use h d l :
  (guard d, Exclusive) ∈ h → well_locked h l → well_locked h (Use d :: l).
Proof. unfold well_locked. intros Hd Hl. cbn. by rewrite decide_True. Qed.

Lemma well_locked_wait l : well_locked [] l → well_locked [] (Wait :: l).
Proof. done. Qed.

Lemma well_locked_scope h l body :
  below (rank l.1) h = true → well_locked (l :: h) body → well_locked h (scope l body).
Proof.
  unfold well_locked, scope. intros Hm Hb. cbn [foldM hold]. rewrite Hm.
  cbn [mbind option_bind]. rewrite foldM_app, Hb. cbn. by rewrite decide_True.
Qed.

Lemma well_locked_guarded h m body :
  below (rank m) h = true → well_locked ((m, Exclusive) :: h) body →
  well_locked h (guarded m body).
Proof. apply (well_locked_scope h (m, Exclusive)). Qed.

Lemma well_locked_released h m body :
  below (rank m) h = true → well_locked h body →
  well_locked ((m, Exclusive) :: h) (released m body).
Proof.
  unfold well_locked, released. intros Hm Hl. cbn [foldM hold]. rewrite decide_True by done.
  cbn [mbind option_bind]. rewrite foldM_app, Hl. cbn [foldM hold mbind option_bind fst].
  by rewrite Hm.
Qed.

Lemma well_locked_critical h d : below (rank (guard d)) h = true → well_locked h (critical d).
Proof.
  intros Hd. apply well_locked_guarded; [done|]. apply well_locked_use; [|done]. set_solver.
Qed.

Lemma well_locked_bind {A} h (f : A → list Action) (l : list A) :
  (∀ x, well_locked h (f x)) → well_locked h (l ≫= f).
Proof.
  intros Hf. induction l as [|x l IH]; [done|]. rewrite bind_cons. by apply well_locked_app.
Qed.

Lemma well_locked_replicate h l n : well_locked h l → well_locked h (concat (replicate n l)).
Proof. intros Hl. induction n as [|n IH]; [done|]. cbn. by apply well_locked_app. Qed.

Create HintDb locks.
#[local] Hint Resolve well_locked_nil well_locked_app well_locked_use well_locked_wait
  well_locked_guarded well_locked_released well_locked_critical well_locked_bind
  well_locked_replicate : locks.
#[local] Hint Extern 1 (below _ _ = true) => reflexivity : locks.
#[local] Hint Extern 1 (_ ∈ _) => (cbn [guard]; set_solver) : locks.
#[local] Hint Extern 2 (well_locked _ (match ?x with _ => _ end)) => destruct x : locks.

(** *** The methods keep the discipline *)

Lemma owner_of_locked h : below 3 h = true → well_locked h owner_of.
Proof.
  intros Hh. apply well_locked_scope; [done|]. unfold well_locked. cbn.
  by rewrite decide_True by set_solver.
Qed.
#[local] Hint Resolve owner_of_locked : locks.

Lemma handle_loop_locked failed n workers :
  well_locked [(hb_mu, Exclusive)] (handle_loop failed n workers).
Proof.
  revert n. induction workers as [|[w k] workers IH]; intros n; cbn [handle_loop]; [done|].
  unfold vertex_count. repeat case_decide; auto 6 with locks.
Qed.
#[local] Hint Resolve handle_loop_locked : locks.

Lemma monitor_locked workers failures : well_locked [] (monitor_pass workers failures).
Proof.
  unfold monitor_pass, handle_worker_failure. apply well_locked_guarded; [done|].
  apply well_locked_use; [set_solver|]. auto 6 with locks.
Qed.
#[local] Hint Resolve monitor_locked : locks.

Lemma network_locked w r waits writes : well_locked [] (network_iteration w r waits writes).
Proof.
  unfold network_iteration, deliver. apply well_locked_guarded; [done|].
  apply well_locked_app; [auto 7 with locks|]. apply well_locked_use; [cbn; set_solver|].
  apply well_locked_app; [|auto with locks]. apply well_locked_replicate.
  apply well_locked_use; [cbn; set_solver|]. auto 7 with locks.
Qed.
#[local] Hint Resolve network_locked : locks.

Lemma worker_locked node waits task : well_locked [] (worker_iteration node waits task).
Proof.
  unfold worker_iteration, task_fn. apply well_locked_app.
  - apply well_locked_guarded; [done|]. apply well_locked_app; auto 7 with locks.
  - destruct task as [[w []]|]; auto with locks.
Qed.
#[local] Hint Resolve worker_locked : locks.

Lemma drain_inbox_locked use_rdma w rs : well_locked [] (drain_inbox use_rdma w rs).
Proof. unfold drain_inbox, receive_all, drain_received. destruct use_rdma; auto 7 with locks. Qed.

Lemma select_locked w hs ns : well_locked [] (select_tasks w hs ns).
Proof.
  unfold select_tasks, submit_bulk, submit. apply well_locked_guarded; [done|].
  apply well_locked_app; [|auto with locks]. apply well_locked_bind. intros [];
    apply well_locked_use; auto with locks; cbn; set_solver.
Qed.

Lemma enqueue_locked w n :
  well_locked [(vertices_mu w, Exclusive)] (enqueue_batch w n).
Proof.
  unfold enqueue_batch. apply well_locked_guarded; [done|].
  apply well_locked_replicate, well_locked_app; auto with locks.
Qed.
#[local] Hint Resolve enqueue_locked : locks.

Lemma collect_locked w ns : well_locked [] (collect_and_route_outbox w ns).
Proof.
  unfold collect_and_route_outbox. apply well_locked_guarded; [done|].
  apply well_locked_bind. intros []; apply well_locked_use; auto with locks; cbn; set_solver.
Qed.

Lemma absorb_locked w n : well_locked [] (absorb_partition w n).
Proof.
  unfold absorb_partition, migrate. apply well_locked_guarded; [done|].
  apply well_locked_replicate, well_locked_app; auto with locks.
Qed.

Lemma flush_locked use_rdma w bs : well_locked [] (flush use_rdma w bs).
Proof.
  unfold flush. apply well_locked_app; [auto with locks|]. apply well_locked_bind.
  intros [dst n]. unfold flush_box, send_batch, post_write. repeat case_decide; auto with locks.
Qed.
#[local] Hint Resolve drain_inbox_locked select_locked collect_locked absorb_locked
  flush_locked : locks.

Lemma run_superstep_locked use_rdma w p : well_locked [] (run_superstep use_rdma w p).
Proof.
  unfold run_superstep, dispatch_messages, wait_all, barrier_sync.
  repeat (apply well_locked_app; [solve [auto with locks]|]). auto with locks.
Qed.

Lemma coordinator_locked n k : well_locked [] (coordinator_run n k).
Proof.
  unfold coordinator_run, receive_heartbeat. apply well_locked_app; [|done].
  apply well_locked_replicate, well_locked_app; [|done]. auto with locks.
Qed.

Lemma load_locked owners n : well_locked [] (load owners n).
Proof.
  unfold load, add_vertex, vertex_count. apply well_locked_app; [auto with locks|].
  apply well_locked_app; auto 6 with locks.
Qed.
#[local] Hint Resolve run_superstep_locked coordinator_locked load_locked : locks.

Lemma program_locked t : well_locked [] (program t).
Proof.
  destruct t; cbn [program].
  - apply well_locked_app; auto with locks.
  - apply well_locked_app; auto with locks.
  - apply well_locked_wait, well_locked_bind. intros [ws fs]. auto with locks.
  - by apply (well_locked_app [] [Wait; Wait]); [|apply well_locked_critical].
  - auto with locks.
  - auto with locks.
  - apply well_locked_wait, well_locked_bind. intros [waits task]. auto with locks.
  - apply well_locked_wait, well_locked_bind. intros [waits writes]. auto with locks.
Qed.

(** ** The invariant *)

(** A thread keeps the discipline to its end. *)
Definition thread_ok (t : Running) : Prop := foldM hold (held t) (todo t) = Some [].

Record system_ok (s : list Running) : Prop := {
  ok_threads : Forall thread_ok s;
  ok_exclusive : ∀ i j t u l l', i ≠ j → s !! i = Some t → s !! j = Some u →
    l ∈ held t → l' ∈ held u → ¬ conflicts l l';
}.

Lemma start_locked ts : system_ok (start ts).
Proof.
  constructor.
  - apply Forall_fmap, Forall_forall. intros t _. apply program_locked.
  - intros i j t u l l' _ (? & -> & _)%list_lookup_fmap_Some _ Hl. cbn in Hl. set_solver.
Qed.

(** What the discipline says of the next action. *)
Lemma thread_next t :
  thread_ok t →
  match next t with
  | None | Some Wait => held t = []
  | Some (Use d) => (guard d, Exclusive) ∈ held t
  | Some (Read d) => guard d ∈ (held t).*1
  | Some (Unlock l) => ∃ h, held t = l :: h
  | Some (Lock l) => below (rank l.1) (held t) = true
  end.
Proof.
  unfold thread_ok, next. destruct (todo t) as [|[l|l|d|d|] k]; cbn [foldM head hold].
  - by intros [= ->].
  - by destruct (below _ _).
  - destruct (held t) as [|l' h]; [done|]. case_decide; [subst|done]. by exists h.
  - by case_decide.
  - by case_decide.
  - by case_decide.
Qed.

Lemma act_ok s t t' :
  thread_ok t → act s t = Some t' →
  thread_ok t' ∧ (length (todo t') < length (todo t))%nat ∧
  ∀ l, l ∈ held t' → l ∈ held t ∨ free l s = true.
Proof.
  unfold thread_ok, act. destruct t as [h [|[l|l|d|d|] k]]; cbn [todo held foldM hold];
    [done|..]; try (case_decide; [|done]; intros Hk [= <-]; cbn; by auto).
  - destruct (below _ _); [|done]. destruct (free l s) eqn:E; [|done].
    intros Hk [= <-]. split_and!; [done|cbn; lia|]. intros l'. cbn. rewrite elem_of_cons.
    intros [->|]; auto.
  - destruct h as [|l' h]; [done|]. cbn [release]. case_decide; [|done]. cbn.
    intros Hk [= <-]. split_and!; [done|cbn; lia|]. cbn. set_solver.
Qed.

Lemma free_spec l s i t l' :
  free l s = true → s !! i = Some t → l' ∈ held t → ¬ conflicts l l'.
Proof.
  intros H%bool_decide_eq_true Hi. pose proof (Forall_lookup_1 _ _ _ _ H Hi) as Ht.
  rewrite Forall_forall in Ht. apply Ht.
Qed.

Lemma not_free l s :
  free l s = false → ∃ i t l', s !! i = Some t ∧ l' ∈ held t ∧ conflicts l l'.
Proof.
  intros H%bool_decide_eq_false. apply not_Forall_Exists in H; [|intros ?; apply _].
  apply Exists_exists in H as (t & Hin & Hm). apply list_elem_of_lookup in Hin as [i Hi].
  cbn in Hm. apply not_Forall_Exists in Hm; [|intros ?; apply _].
  apply Exists_exists in Hm as (l' & Hl' & Hc). exists i, t, l'. split_and!; [done..|].
  by apply dec_stable.
Qed.

Lemma conflicts_sym l l' : conflicts l l' → conflicts l' l.
Proof. unfold conflicts. naive_solver. Qed.

Lemma step_Some s i s' :
  step s i = Some s' ↔ ∃ t t', s !! i = Some t ∧ act s t = Some t' ∧ s' = <[i := t']> s.
Proof.
  unfold step. split.
  - intros (t & Ht & (t' & Ht' & [= <-])%bind_Some)%bind_Some. by exists t, t'.
  - intros (t & t' & -> & Ha & ->). cbn. by rewrite Ha.
Qed.

Lemma locks_step_ok s i s' : system_ok s → step s i = Some s' → system_ok s'.
Proof.
  intros [Ht Hx] (t & t' & Hi & Ha & ->)%step_Some.
  destruct (act_ok _ _ _ (Forall_lookup_1 _ _ _ _ Ht Hi) Ha) as (Hok & _ & Hm).
  constructor; [by apply Forall_insert|]. intros j k u v l l' Hjk Hj Hk Hu Hv.
  apply list_lookup_insert_Some in Hj as [(<- & <- & _)|[Hij Hj]];
    apply list_lookup_insert_Some in Hk as [(<- & <- & _)|[Hik Hk]]; [done|..|by eapply (Hx j k)].
  - destruct (Hm l Hu) as [Ho|Hf]; [by eapply (Hx i k)|]. by eapply free_spec.
  - destruct (Hm l' Hv) as [Ho|Hf]; [by eapply (Hx j i)|]. intros ?%conflicts_sym.
    by eapply free_spec.
Qed.

Lemma locks_steps_ok s l s' : system_ok s → steps s l = Some s' → system_ok s'.
Proof. intros Hs. apply foldM_inv; [|done]. intros ? i ? _. apply locks_step_ok. Qed.

(** *** Progress *)

Lemma rank_max m : (rank m ≤ 3)%nat.
Proof. destruct m; cbn; lia. Qed.

Lemma below_lt n h m : below n h = true → m ∈ h.*1 → (rank m < n)%nat.
Proof.
  unfold below. rewrite forallb_forall. intros Hb (l & -> & Hl)%list_elem_of_fmap.
  apply Nat.ltb_lt, Hb. by apply list_elem_of_In.
Qed.

(** Whoever holds a mutex goes on, or waits for one of greater rank. *)
Lemma holder_acts n s i t m :
  system_ok s → (4 - rank m ≤ n)%nat → s !! i = Some t → m ∈ (held t).*1 →
  ∃ j u u', s !! j = Some u ∧ held u ≠ [] ∧ act s u = Some u'.
Proof.
  intros Hs. revert i t m. induction n as [|n IH]; intros i t m Hn Hi Hm.
  { pose proof (rank_max m). lia. }
  pose proof (thread_next t (Forall_lookup_1 _ _ _ _ (ok_threads _ Hs) Hi)) as Hnext.
  assert (held t ≠ []) as Hne by (intros E; rewrite E in Hm; set_solver).
  assert (∀ u', act s t = Some u' → ∃ j u u', s !! j = Some u ∧ held u ≠ [] ∧ act s u = Some u')
    as Hact by (intros u' ?; by exists i, t, u').
  unfold next in Hnext. unfold act in Hact.
  destruct (todo t) as [|[l|l|d|d|] k]; cbn [head] in Hnext; [done|..|done];
    try by eapply Hact.
  - destruct (free l s) eqn:E; [by eapply Hact|].
    apply not_free in E as (j & u & l' & Hj & Hu & [El _]).
    pose proof (below_lt _ _ _ Hnext Hm).
    apply (IH j u l.1); [lia|done|]. rewrite El. by apply list_elem_of_fmap_2.
  - destruct Hnext as [h E]. rewrite E in Hact. cbn [release] in Hact.
    rewrite decide_True in Hact by done. by eapply Hact.
Qed.

Definition left (s : list Running) : nat := sum_list_with (λ t, length (todo t)) s.

Lemma left_insert s i t t' :
  s !! i = Some t → (left (<[i := t']> s) + length (todo t) = left s + length (todo t'))%nat.
Proof. apply (sum_list_insert (λ t, length (todo t))). Qed.

(** A mutex that a thread waits for becomes free by steps of threads that hold
    mutexes. *)
Lemma becomes_free n s i t l :
  (left s ≤ n)%nat → system_ok s → s !! i = Some t → next t = Some (Lock l) →
  ∃ k s', holder_steps s k = Some s' ∧ (length k ≤ n)%nat ∧ s' !! i = Some t ∧ free l s' = true.
Proof.
  revert s. induction n as [|n IH]; intros s Hn Hs Hi Hl;
    (destruct (free l s) eqn:E; [by exists [], s; split_and!; try done; cbn; lia|]);
    apply not_free in E as (a & v & l' & Hk & Hv & Hc);
    destruct (holder_acts 4 s a v l'.1 Hs ltac:(lia) Hk ltac:(by apply list_elem_of_fmap_2))
      as (j & u & u' & Hj & Hu & Ha);
    destruct (act_ok _ _ _ (Forall_lookup_1 _ _ _ _ (ok_threads _ Hs) Hj) Ha) as (_ & Hlt & _);
    pose proof (left_insert s j u u' Hj); [lia|].
  assert (step s j = Some (<[j := u']> s)) as Hstep by (apply step_Some; by exists u, u').
  assert (i ≠ j) as Hij.
  { intros <-. rewrite Hi in Hj. injection Hj as <-. unfold act, next in *.
    destruct (todo t) as [|x ?]; [done|]. cbn in Hl. injection Hl as ->.
    destruct (free l s) eqn:E; [|done]. by apply (free_spec _ _ _ _ _ E Hk Hv). }
  destruct (IH (<[j := u']> s)) as (k & s' & Hrun & Hlen & Hi' & Hf);
    [lia|by eapply locks_step_ok|by rewrite list_lookup_insert_ne|done|].
  exists (j :: k), s'. split_and!; [|cbn; lia|done|done].
  assert (holder_step s j = Some (<[j := u']> s)) as Hgo
    by (unfold holder_step; rewrite Hj; cbn; by rewrite decide_False).
  unfold holder_steps in *. cbn [foldM]. by rewrite Hgo.
Qed.

(** ** Properties *)

(** C16: The mutexes guard the data.  In every reachable state of any number of
    threads nobody holds a mutex that somebody else holds exclusively; a thread that
    changes a member holds its mutex exclusively, one that reads it holds it, so that
    no thread changes a member while another uses it; and a thread releases the lock
    it took last. *)
Theorem locks_exclude ts l s :
  steps (start ts) l = Some s →
  (∀ i j t u k k', i ≠ j → s !! i = Some t → s !! j = Some u →
     k ∈ held t → k' ∈ held u → ¬ conflicts k k') ∧
  (∀ i t d, s !! i = Some t → next t = Some (Use d) → (guard d, Exclusive) ∈ held t) ∧
  (∀ i t d, s !! i = Some t → next t = Some (Read d) → guard d ∈ (held t).*1) ∧
  (∀ i j t u d, i ≠ j → s !! i = Some t → s !! j = Some u →
     next t = Some (Use d) → next u ≠ Some (Use d) ∧ next u ≠ Some (Read d)) ∧
  (∀ i t k, s !! i = Some t → next t = Some (Unlock k) → head (held t) = Some k).
Proof.
  intros Hl. destruct (locks_steps_ok _ _ _ (start_locked ts) Hl) as [Ht Hx].
  assert (∀ i t, s !! i = Some t → thread_ok t) as Hok
    by (intros i t; by apply Forall_lookup_1).
  assert (∀ i t d, s !! i = Some t → next t = Some (Use d) → (guard d, Exclusive) ∈ held t)
    as Huse by (intros i t d Hi Hn; pose proof (thread_next t (Hok i t Hi)) as H; by rewrite Hn in H).
  assert (∀ i t d, s !! i = Some t → next t = Some (Read d) → guard d ∈ (held t).*1)
    as Hread by (intros i t d Hi Hn; pose proof (thread_next t (Hok i t Hi)) as H; by rewrite Hn in H).
  split_and!; [exact Hx|exact Huse|exact Hread|..].
  - intros i j t u d Hij Hi Hj Hn. pose proof (Huse i t d Hi Hn) as Hm. split; intros Hn'.
    + apply (Hx _ _ _ _ _ _ Hij Hi Hj Hm (Huse j u d Hj Hn')). by split; [|left].
    + apply (Hread j u d Hj), list_elem_of_fmap in Hn' as (k & E & Hk).
      apply (Hx _ _ _ _ _ _ Hij Hi Hj Hm Hk). by split; [|left].
  - intros i t k Hi Hn. pose proof (thread_next t (Hok i t Hi)) as H. rewrite Hn in H.
    by destruct H as [h ->].
Qed.

(** C15: No deadlock.  A thread of the engine holds no mutex while it waits for
    anything else, nor when it has ended.  If in a reachable state it cannot take a
    mutex, then the threads that hold mutexes can go on, without any wait of theirs
    ending, until the mutex is free, and the thread can take it. *)
Theorem no_deadlock ts l s :
  steps (start ts) l = Some s →
  (∀ i t, s !! i = Some t → next t = Some Wait ∨ next t = None → held t = []) ∧
  ∀ i t k, s !! i = Some t → next t = Some (Lock k) →
    ∃ l' s', holder_steps s l' = Some s' ∧ s' !! i = Some t ∧ is_Some (step s' i).
Proof.
  intros Hl. pose proof (locks_steps_ok _ _ _ (start_locked ts) Hl) as Hs. split.
  - intros i t Hi Hn. pose proof (thread_next t (Forall_lookup_1 _ _ _ _ (ok_threads _ Hs) Hi)) as H.
    by destruct Hn as [Hn|Hn]; rewrite Hn in H.
  - intros i t k Hi Hm.
    destruct (becomes_free (left s) s i t k ltac:(done) Hs Hi Hm) as (l' & s' & Hl' & _ & Hi' & Hf).
    exists l', s'. split_and!; [done|done|]. unfold step. rewrite Hi'. cbn.
    unfold act, next in *. destruct (todo t) as [|a ?]; [done|]. cbn in Hm. injection Hm as ->.
    rewrite Hf. by eexists.
Qed.

(** ** The theorems on a concrete system *)

(** Worker 0 in a superstep of two vertices, one of them halted; the monitor, which
    reports worker 1; and a thread of the pool that runs a task of worker 0. *)
Definition sample_threads : list Thread :=
  [Superstep true 0 (mkPath [1] [false; true] [0%nat; 1%nat] [0%nat; 3%nat] [(0, 1%nat); (1, 2%nat)]);
   Monitor [([(0, 2); (1, 3)], [1])]; PoolThread 0 [(1%nat, Some (0, true))]].

(** The worker selects its tasks, inside the section of [vertices_mu_], while the
    monitor wants to count its vertices. *)
Definition sample_schedule : list nat := replicate 14 0%nat ++ replicate 5 1%nat.
Definition sample_system : list Running := default [] (steps (start sample_threads) sample_schedule).

Lemma sample_reachable : steps (start sample_threads) sample_schedule = Some sample_system.
Proof. vm_compute. reflexivity. Qed.

Lemma locks_exclude_witness :
  (held <$> sample_system) = [[(vertices_mu 0, Exclusive)]; [(hb_mu, Exclusive)]; []] ∧
  ∀ i t d, sample_system !! i = Some t → next t = Some (Use d) → (guard d, Exclusive) ∈ held t.
Proof.
  split; [vm_compute; reflexivity|].
  exact (proj1 (proj2 (locks_exclude _ _ _ sample_reachable))).
Defined.

Lemma no_deadlock_witness :
  step sample_system 1 = None ∧
  ∃ t l' s', holder_steps sample_system l' = Some s' ∧ s' !! 1%nat = Some t ∧ is_Some (step s' 1).
Proof.
  split; [vm_compute; reflexivity|].
  destruct (no_deadlock _ _ _ sample_reachable) as [_ H].
  eexists. refine (H 1%nat _ (vertices_mu 0, Exclusive) _ _); vm_compute; reflexivity.
Defined.

End Locks.
