(* ===== verification/Report.v ===== *)
(** What the program reports: the throughputs and the texts it prints.

    The throughput of a worker ([src/worker_node.cpp]), the engine's benchmark result
    ([src/graph_engine.cpp]), the rows and the summary of the coordinator
    ([src/coordinator.cpp]) and the table of the benchmark
    ([src/bench_throughput.cpp]) are [double]s made of counters and clock readings.
    They are computed here in binary64, as in [Float64], and printed as the
    stream would print them.  A duration is its number of nanoseconds.  [None] is
    undefined behaviour: the conversion to [uint64_t] of a [double] out of range. *)
From Stdlib Require Import SpecFloat DecimalString.
From S2P Require Import Prelude Types Vertex PartitionMap RdmaTransport MessageBus NumaScheduler Heartbeat Float64 WorkerNode OrderBook OrderBookGraph Superstep Coordinator Engine.
Local Open Scope Z_scope.

Module Report.
Import F64.

(** ** Numbers *)

(** [std::chrono::duration<double>(d).count()] *)
Definition seconds (ns : Z) : float := div (of_Z ns) (of_Z 1000000000).

(** The end of [run_superstep]: the throughput of a worker that had the throughput
    [old], from its counter and the duration of the superstep. *)
Definition throughput_vps (old : float) (processed ns : Z) : float :=
  let elapsed_s := seconds ns in
  if lt (of_Z 0) elapsed_s then div (of_Z processed) elapsed_s else old.

(** The result of [GraphEngine::benchmark]. *)
Definition benchmark_vps (total_verts ns : Z) : float :=
  let elapsed := seconds ns in
  if lt (of_Z 0) elapsed then div (of_Z total_verts) elapsed else of_Z 0.

(** The loop over the workers in [print_superstep_stats]. *)
Definition max_throughput (tputs : list float) : float := foldl max (of_Z 0) tputs.

(** The scaling column of the benchmark. *)
Definition scaling (vps baseline : float) : float :=
  if lt (of_Z 0) baseline then div vps baseline else of_Z 1.

(** The integer part of a [double], and its conversion to [uint64_t]. *)
Definition truncate (f : float) : option Z :=
  match f with
  | S754_zero _ => Some 0
  | S754_finite s m e =>
      let t := Z.shiftl (Z.pos m) e in Some (if s then - t else t)
  | _ => None
  end.

Definition to_uint64 (f : float) : option Z :=
  t ← truncate f; if decide (in_u64 t) then Some t else None.

(** ** Texts *)

(** An unsigned integer on a stream. *)
Definition dec (z : Z) : string := NilZero.string_of_uint (N.to_uint (Z.to_N z)).

Fixpoint spaces (n : nat) : string :=
  (match n with O => "" | S n => " " +:+ spaces n end)%string.

(** [std::setw(n)] *)
Definition setw (n : nat) (s : string) : string := spaces (n - String.length s) +:+ s.

(** A number of [p] digits, with leading zeros. *)
Definition padded (p : nat) (z : Z) : string :=
  let s := dec z in String.concat "" (replicate (p - String.length s) "0"%string) +:+ s.

(** The quotient of [a] by [b], to the nearest, ties to even. *)
Definition round_half_even (a b : Z) : Z :=
  let q := a / b in
  let r := a mod b in
  if decide (2 * r < b) then q
  else if decide (b < 2 * r) then q + 1
  else if Z.even q then q else q + 1.

(** [std::fixed << std::setprecision(p)] on a [double]: its exact value rounded to
    [p] decimals. *)
Definition fixed (p : nat) (f : float) : string :=
  let scaled m e :=
    if decide (0 ≤ e) then m * 2 ^ e * 10 ^ Z.of_nat p
    else round_half_even (m * 10 ^ Z.of_nat p) (2 ^ (- e)) in
  let text h := dec (h / 10 ^ Z.of_nat p) +:+ "." +:+ padded p (h mod 10 ^ Z.of_nat p) in
  match f with
  | S754_zero s => (if s then "-" else "") +:+ text 0
  | S754_finite s m e => (if s then "-" else "") +:+ text (scaled (Z.pos m) e)
  | S754_infinity s => (if s then "-inf" else "inf")
  | S754_nan => "nan"
  end%string.

(** The throughput column of [print_superstep_stats] and of the benchmark. *)
Definition throughput_text (tput : float) : option string :=
  if le (of_Z 1000000000) tput then Some (fixed 2 (div tput (of_Z 1000000000)) +:+ "B/s")
  else if le (of_Z 1000000) tput then Some (fixed 2 (div tput (of_Z 1000000)) +:+ "M/s")
  else if le (of_Z 1000) tput then Some (fixed 2 (div tput (of_Z 1000)) +:+ "K/s")
  else n ← to_uint64 tput; Some (dec n +:+ "/s").

(** [fmt_big] of [print_summary]. *)
Definition fmt_big (v : Z) : string :=
  if decide (1000000000 ≤ v) then fixed 2 (div (of_Z v) (of_Z 1000000000)) +:+ "B"
  else if decide (1000000 ≤ v) then fixed 2 (div (of_Z v) (of_Z 1000000)) +:+ "M"
  else if decide (1000 ≤ v) then fixed 2 (div (of_Z v) (of_Z 1000)) +:+ "K"
  else dec v.

(** The line of [print_superstep_stats]. *)
Definition row_text (step active msgs : Z) (tputs : list float) : option string :=
  tput_str ← throughput_text (max_throughput tputs);
  Some ("│  " +:+ setw 9 (dec step) +:+ "  │  " +:+ setw 12 (dec active) +:+ "  │  " +:+
        setw 11 (dec msgs) +:+ "  │  " +:+ setw 10 tput_str +:+ "  │")%string.

(** The line of one worker count in the benchmark. *)
Definition bench_text (wc : Z) (vps baseline : float) : option string :=
  vps_str ← throughput_text vps;
  Some ("║  " +:+ setw 16 (dec wc) +:+ "  ║  " +:+ setw 17 vps_str +:+ "  ║  " +:+
        setw 17 (fixed 2 (scaling vps baseline) +:+ "x") +:+ "  ║")%string.

(** The throughput line of [print_summary], from the vertices of all workers and the
    wall time. *)
Definition summary_throughput (total_v ns : Z) : option (list string) :=
  let elapsed := seconds ns in
  if lt (of_Z 0) elapsed then
    n ← to_uint64 (div (of_Z total_v) elapsed);
    Some ["  Throughput        : " +:+ fmt_big n +:+ " vertices/sec"]%string
  else Some [].

(** The lines of [print_summary], for the wall time [ns]. *)
Definition summary_text {D} (c : Coord.Coordinator (D := D)) (ns : Z) : option (list string) :=
  let s := Coord.print_summary c in
  throughput ← summary_throughput (Coord.s_vertices s) ns;
  Some (["  DISTRIBUTED GRAPH ENGINE — FINAL STATISTICS";
         "  Wall time         : " +:+ fixed 3 (seconds ns) +:+ "s";
         "  Workers           : " +:+ dec (Z.of_nat (length (Coord.workers_ c)));
         "  Supersteps        : " +:+ dec (Coord.s_supersteps s);
         "  Vertices computed : " +:+ fmt_big (Coord.s_vertices s);
         "  Messages routed   : " +:+ fmt_big (Coord.s_messages s);
         "  RDMA operations   : " +:+ fmt_big (Coord.s_rdma s);
         "  Latency spikes    : " +:+ dec (Coord.s_spikes s);
         "  NUMA migrations   : " +:+ dec (Coord.s_migrations s)]%string ++ throughput).

(** The line that [run] prints when the workers have converged. *)
Definition converged_text (step : Z) : string :=
  ("│  CONVERGED at superstep " +:+ setw 4 (dec step) +:+ "                                    │")%string.

(** The counts that [load_graph] prints.. *)
Definition built_text {R} (data : Graph.GraphData (R := R)) : list string :=
  ["[Engine] Graph built:";
   "  Venues        : " +:+ dec (Graph.venue_count data);
   "  Price levels  : " +:+ dec (Graph.price_level_count data);
   "  Orders        : " +:+ dec (Graph.order_count data);
   "  Market makers : " +:+ dec (Graph.mm_count data);
   "  Total vertices: " +:+ dec (Z.of_nat (length (Graph.vertices data)));
   "  Total edges   : " +:+ dec (Graph.total_edges data)]%string.

(** ..and those of [distribute_vertices]. *)
Definition owns_text {D} (workers : list (Worker.WorkerNode D)) : list string :=
  imap (λ i w, "[Engine] Worker " +:+ dec (Z.of_nat i) +:+ " owns " +:+
               dec (Z.of_nat (Worker.vertex_count w)) +:+ " vertices")%string workers.

(** The configuration that [main] prints. *)
Definition config_text (cfg : EngineConfig) : list string :=
  let on (b : bool) := if b then "ON" else "OFF" in
  ["Configuration:";
   "  Workers          : " +:+ dec (worker_count cfg);
   "  NUMA nodes       : " +:+ dec (numa_nodes cfg);
   "  Max supersteps   : " +:+ dec (max_supersteps cfg);
   "  RDMA simulation  : " +:+ on (enable_rdma_sim cfg);
   "  Fault injection  : " +:+ on (enable_fault_injection cfg)]%string.

Example row_example :
  row_text 7 12 3456 [throughput_vps (of_Z 0) 1500 1000000] =
  Some "│          7  │            12  │         3456  │     1.50M/s  │"%string.
Proof. vm_compute. reflexivity. Qed.

Example fmt_big_example : fmt_big 1234567 = "1.23M"%string ∧ fmt_big 999 = "999"%string.
Proof. vm_compute. done. Qed.

(** ** Rounding *)

(** A number that is no NaN and not negative, with a mantissa of 53 bits. *)
Definition measure (f : float) : Prop :=
  match f with
  | S754_zero s | S754_infinity s => s = false
  | S754_finite s m _ => s = false ∧ Z.pos m < 2 ^ 53
  | S754_nan => False
  end.

Definition finite (f : float) : Prop :=
  match f with S754_infinity _ | S754_nan => False | _ => True end.

(** Rounding a number that is not negative: no NaN, and finite unless the exponent
    is huge. *)
Lemma round_aux_measure m e l :
  0 ≤ m →
  measure (binary_round_aux 53 1024 false m e l) ∧
  (e ≤ 900 → Zdigits2 m + e ≤ 900 → finite (binary_round_aux 53 1024 false m e l)).
Proof.
  intros Hm. unfold binary_round_aux.
  destruct (shr_fexp_bound m e l Hm) as [Hb1 He1].
  destruct (shr_fexp 53 1024 m e l) as [mrs1 e1]. cbn [fst snd] in *.
  set (m1 := round_nearest_even _ _).
  assert (0 ≤ m1 ≤ 2 ^ 53) as Hm1.
  { pose proof (round_even_bound (shr_m mrs1) (loc_of_shr_record mrs1)). lia. }
  destruct (shr_fexp_bound m1 e1 loc_Exact ltac:(lia)) as [Hb2 He2].
  assert (Zdigits2 m1 ≤ 54) as Hd1 by (apply Zdigits_le; lia).
  destruct (shr_fexp 53 1024 m1 e1 loc_Exact) as [mrs2 e2]. cbn [fst snd] in *.
  destruct (shr_m mrs2) as [|p|p]; [done| |lia].
  destruct (Z.leb_spec e2 (1024 - 53)) as [Hle|Hgt].
  - split; [split; [done|]|done]. lia.
  - split; [done|]. intros. lia.
Qed.


(** *** Conversions and divisions *)

Lemma of_Z_measure z : 0 ≤ z < 2 ^ 64 → measure (of_Z z) ∧ finite (of_Z z).
Proof.
  intros Hz. unfold of_Z, binary_normalize. destruct z as [|p|p]; [by split| |lia].
  unfold binary_round. pose proof (digits_upper p) as Hup.
  assert (Zdigits2 (Z.pos p) ≤ 64) as Hd by (apply Zdigits_le; lia). cbn [Zdigits2] in Hd.
  set (d := digits2_pos p) in *. unfold shl_align, fexp, emin.
  replace (Z.max (Z.pos d + 0 - 53) (3 - 1024 - 53) - 0) with (Z.pos d - 53) by lia.
  replace (Z.max (Z.pos d + 0 - 53) (3 - 1024 - 53)) with (Z.pos d - 53) by lia.
  destruct (Z.pos d - 53) as [|k|k] eqn:Ek.
  - destruct (round_aux_measure (Z.pos p) 0 loc_Exact) as [? Hf]; [lia|]. split; [done|].
    apply Hf; cbn [Zdigits2]; fold d; lia.
  - destruct (round_aux_measure (Z.pos p) 0 loc_Exact) as [? Hf]; [lia|]. split; [done|].
    apply Hf; cbn [Zdigits2]; fold d; lia.
  - set (q := Pos.iter xO p k).
    destruct (round_aux_measure (Z.pos q) (Z.neg k) loc_Exact) as [? Hf]; [lia|]. split; [done|].
    assert (Zdigits2 (Z.pos q) ≤ 53) as Hq.
    { apply Zdigits_le; [|lia]. unfold q. rewrite iter_xO. split; [lia|].
      replace 53 with (Z.pos d + Z.pos k) by lia. rewrite Z.pow_add_r by lia.
      apply Z.mul_lt_mono_pos_r; [apply Z.pow_pos_nonneg; lia|exact Hup]. }
    apply Hf; lia.
Qed.

(** The quotient of a finite number by a positive one is a number. *)
Lemma div_measure x y :
  measure x → finite x → measure y → lt (of_Z 0) y = true → measure (div x y).
Proof.
  intros Hx Hfx Hy Hpos. unfold div, SFdiv.
  destruct x as [sx|sx| |sx mx ex]; cbn in Hx, Hfx; try done;
    destruct y as [sy|sy| |sy my ey]; cbn in Hy, Hpos; try done;
    try (destruct_and?; subst; done).
  - destruct Hx as [-> _], Hy as [-> _]. cbn [xorb].
    destruct (SFdiv_core_binary 53 1024 (Z.pos mx) ex (Z.pos my) ey) as [[q e] l] eqn:E.
    apply round_aux_measure. unfold SFdiv_core_binary in E.
    set (m' := match _ with Z0 => _ | Zpos _ => _ | Zneg _ => _ end) in E.
    assert (0 ≤ m') as Hm'.
    { unfold m'. destruct (ex - ey - _); [lia|by apply Z.shiftl_nonneg|lia]. }
    clearbody m'. pose proof (Z_div_pos m' (Z.pos my) ltac:(lia) Hm') as Hq. unfold Z.div in Hq.
    destruct (Z.div_eucl m' (Z.pos my)) as [q' r']. by injection E as <- _ _.
Qed.

Lemma max_measure a b : measure a → measure b → measure (max a b).
Proof. intros. unfold max. by destruct (lt a b). Qed.

Lemma throughput_measure old processed ns :
  measure old → in_u64 processed → in_u64 ns → measure (throughput_vps old processed ns).
Proof.
  intros Ho Hp Hn. unfold throughput_vps. destruct (lt _ _) eqn:Hpos; [|done].
  destruct (of_Z_measure processed Hp). apply div_measure; try done.
  destruct (of_Z_measure ns Hn). by apply div_measure.
Qed.

Lemma max_throughput_measure l : Forall measure l → measure (max_throughput l).
Proof.
  unfold max_throughput. assert (measure (of_Z 0)) as H0 by done. revert H0.
  generalize (of_Z 0). induction l as [|x l IH]; intros t Ht Hl; [done|].
  apply Forall_cons in Hl as [Hx Hl]. cbn [foldl]. apply IH; [by apply max_measure|done].
Qed.

(** What is below a thousand fits in a [uint64_t]. *)
Lemma below_thousand f :
  measure f → le (of_Z 1000) f = false → ∃ n, to_uint64 f = Some n ∧ 0 ≤ n < 2 ^ 53.
Proof.
  assert (of_Z 1000 = S754_finite false 8796093022208000 (-43)) as Ek by reflexivity.
  unfold le, SFleb. rewrite Ek. destruct f as [s|s| |s m e]; cbn [measure]; intros Hm; try done.
  - intros _. exists 0. done.
  - subst s. done.
  - destruct Hm as [-> Hm]. cbn [SFcompare]. intros Hle.
    assert (e ≤ -43) as He by (destruct (Z.compare_spec (-43) e); [lia|done|lia]).
    unfold to_uint64, truncate. cbn [mbind option_bind].
    assert (0 ≤ Z.shiftl (Z.pos m) e < 2 ^ 53) as Hs.
    { split; [by apply Z.shiftl_nonneg|]. rewrite Z.shiftl_div_pow2 by lia.
      eapply Z.le_lt_trans; [|exact Hm].
      apply Z.div_le_upper_bound; [apply Z.pow_pos_nonneg; lia|].
      assert (0 < 2 ^ (- e)) by (apply Z.pow_pos_nonneg; lia). nia. }
    eexists. rewrite decide_True; [done|]. unfold in_u64. lia.
Qed.

Lemma throughput_text_defined f : measure f → is_Some (throughput_text f).
Proof.
  intros Hf. unfold throughput_text.
  destruct (le (of_Z 1000000000) f); [by eexists|]. destruct (le (of_Z 1000000) f); [by eexists|].
  destruct (le (of_Z 1000) f) eqn:Hle; [by eexists|].
  destruct (below_thousand f Hf Hle) as (n & -> & _). by eexists.
Qed.

(** *** Magnitudes *)

(** The leading bit of a quotient. *)
Lemma div_leading lx ux ly uy x y :
  leading lx ux x → leading ly uy y → -1000 ≤ lx - uy → ux - ly ≤ 800 →
  leading (lx - uy) (ux - ly + 2) (div x y).
Proof.
  intros (m1 & e1 & -> & H1) (m2 & e2 & -> & H2) Hlow Hhigh. unfold div, SFdiv. cbn [xorb].
  unfold SFdiv_core_binary, fexp, emin.
  set (d1 := Zdigits2 (Z.pos m1)) in *. set (d2 := Zdigits2 (Z.pos m2)) in *.
  replace (Z.max (d1 + e1 - (d2 + e2) - 53) (3 - 1024 - 53)) with (d1 + e1 - (d2 + e2) - 53) by lia.
  set (e' := Z.min _ _). set (s := e1 - e2 - e').
  assert (0 ≤ s ∧ d2 + 53 ≤ d1 + s) as [Hs Hs'] by (unfold s, e'; lia).
  assert (match s with Z0 => Z.pos m1 | Z.pos _ => Z.shiftl (Z.pos m1) s | Z.neg _ => 0 end =
    Z.pos m1 * 2 ^ s) as ->.
  { destruct s as [|p|p]; [by rewrite Z.mul_1_r|by rewrite Z.shiftl_mul_pow2 by lia|lia]. }
  destruct (Zdigits_lower (Z.pos m1) eq_refl) as [Hlo1 Hd1].
  destruct (Zdigits_upper (Z.pos m1) ltac:(lia)) as [Hup1 _].
  destruct (Zdigits_lower (Z.pos m2) eq_refl) as [Hlo2 Hd2].
  destruct (Zdigits_upper (Z.pos m2) ltac:(lia)) as [Hup2 _].
  fold d1 in Hlo1, Hup1, Hd1. fold d2 in Hlo2, Hd2, Hup2.
  assert (0 < 2 ^ s) as Hps by (apply Z.pow_pos_nonneg; lia).
  assert (Hqlo : 2 ^ (d1 + s - 1 - d2) ≤ Z.pos m1 * 2 ^ s / Z.pos m2).
  { apply Z.div_le_lower_bound; [lia|].
    assert (2 ^ (d1 - 1) * 2 ^ s = 2 ^ d2 * 2 ^ (d1 + s - 1 - d2)) as E
      by (rewrite <- !Z.pow_add_r by lia; f_equal; lia).
    assert (0 < 2 ^ (d1 + s - 1 - d2)) by (apply Z.pow_pos_nonneg; lia).
    etrans; [|by apply Z.mul_le_mono_nonneg_r; [lia|exact Hlo1]]. rewrite E.
    apply Z.mul_le_mono_nonneg_r; lia. }
  assert (Hqhi : Z.pos m1 * 2 ^ s / Z.pos m2 < 2 ^ (d1 + s - d2 + 1)).
  { apply Z.div_lt_upper_bound; [lia|].
    assert (2 ^ d1 * 2 ^ s = 2 ^ (d2 - 1) * 2 ^ (d1 + s - d2 + 1)) as E
      by (rewrite <- !Z.pow_add_r by lia; f_equal; lia).
    assert (0 < 2 ^ (d1 + s - d2 + 1)) by (apply Z.pow_pos_nonneg; lia).
    eapply Z.lt_le_trans; [by apply Z.mul_lt_mono_pos_r; [lia|exact Hup1]|]. rewrite E.
    apply Z.mul_le_mono_nonneg_r; lia. }
  unfold Z.div in Hqlo, Hqhi. destruct (Z.div_eucl _ _) as [q r].
  assert (0 < 2 ^ (d1 + s - 1 - d2)) by (apply Z.pow_pos_nonneg; lia).
  pose proof (Zdigits_ge q (d1 + s - 1 - d2) ltac:(lia) Hqlo).
  pose proof (Zdigits_le q (d1 + s - d2 + 1) ltac:(lia) ltac:(lia)).
  assert (e' = e1 - e2 - s) as He' by (unfold s; lia). clearbody s e'.
  destruct (round_aux_leading q e' (new_location (Z.pos m2) r)) as (m & e & -> & Hme); [lia|lia|].
  exists m, e. split; [done|]. lia.
Qed.

Lemma leading_to_uint64 l u f : leading l u f → u ≤ 64 → is_Some (to_uint64 f).
Proof.
  intros (m & e & -> & Hme) Hu. unfold to_uint64, truncate. cbn [mbind option_bind].
  rewrite decide_True; [by eexists|]. destruct (Zdigits_upper (Z.pos m) ltac:(lia)) as [Hup H0].
  split; [by apply Z.shiftl_nonneg|]. set (d := Zdigits2 (Z.pos m)) in *.
  destruct (decide (0 ≤ e)) as [He|He].
  - rewrite Z.shiftl_mul_pow2 by done.
    assert (0 < 2 ^ e) by (apply Z.pow_pos_nonneg; lia).
    assert (2 ^ d * 2 ^ e ≤ 2 ^ 64); [|nia]. rewrite <- Z.pow_add_r by lia.
    apply Z.pow_le_mono_r; lia.
  - rewrite Z.shiftl_div_pow2 by lia. assert (0 < 2 ^ (- e)) by (apply Z.pow_pos_nonneg; lia).
    apply Z.div_lt_upper_bound; [done|].
    assert (2 ^ d ≤ 2 ^ (- e) * 2 ^ 64); [|lia]. rewrite <- Z.pow_add_r by lia.
    apply Z.pow_le_mono_r; lia.
Qed.

(** The conversion of [print_summary] at a rate below 2^31 vertices in a
    nanosecond.. *)
Lemma summary_defined total ns :
  in_u64 total → in_u64 ns → total < 2 ^ 31 * ns → is_Some (summary_throughput total ns).
Proof.
  unfold in_u64. intros Ht Hn Hrate. assert (0 < ns) as Hpos by lia.
  pose proof (of_Z_leading ns ltac:(lia)) as Hln.
  assert (leading 30 30 (of_Z 1000000000)) as Hl9
    by (exists 8388608000000000%positive, (-23); split; [reflexivity|vm_compute; split; discriminate]).
  destruct (Zdigits_lower ns Hpos) as [Hlo H0].
  assert (Zdigits2 ns ≤ 64) as Hd by (apply Zdigits_le; lia).
  assert (leading (Zdigits2 ns - 30) (Zdigits2 ns - 27) (seconds ns)) as Hs.
  { unfold seconds. destruct (div_leading _ _ _ _ _ _ Hln Hl9) as (m & e & E & Hme); [lia..|].
    exists m, e. split; [exact E|]. lia. }
  unfold summary_throughput. destruct (lt _ _); [|by eexists].
  assert (is_Some (to_uint64 (div (of_Z total) (seconds ns)))) as [n ->]; [|by eexists].
  destruct (decide (total = 0)) as [->|Hne].
  { destruct Hs as (m & e & -> & _). by eexists. }
  pose proof (of_Z_leading total ltac:(lia)) as Hlt.
  destruct (Zdigits_lower total ltac:(lia)) as [_ Ht0].
  assert (Zdigits2 total ≤ 31 + Zdigits2 ns) as Hdt.
  { apply Zdigits_le; [|lia]. destruct (Zdigits_upper ns ltac:(lia)) as [Hup _].
    rewrite Z.pow_add_r by lia. lia. }
  eapply leading_to_uint64; [eapply div_leading; [exact Hlt|exact Hs|lia|lia]|]. lia.
Qed.

(** ..and at one beyond its range. *)
Example summary_out_of_range : summary_throughput (2 ^ 63) 1 = None.
Proof. vm_compute. reflexivity. Qed.

(** ** Properties *)

(** The supersteps of a worker: the counter of processed vertices at the end of
    each, and its duration. *)
Definition worker_throughput (supersteps : list (Z * Z)) : float :=
  foldl (λ old pn, throughput_vps old pn.1 pn.2) (of_Z 0) supersteps.

(** C30: The rows of the tables are defined.  Whatever the counters and the clock
    readings, zero durations included, the throughput of every worker, their maximum
    and the throughput of the benchmark are numbers, not NaN and not negative; the
    conversions to [uint64_t] in the superstep rows of the coordinator and in the
    rows of the benchmark are in range, and the rows can be printed.  The conversion
    in [print_summary] is in range too, at a rate below 2^31 vertices in a
    nanosecond; it is not for every rate, [summary_out_of_range]. *)
Theorem rows_defined step active msgs (workers : list (list (Z * Z))) wc total ns baseline :
  Forall (Forall (λ pn, in_u64 pn.1 ∧ in_u64 pn.2)) workers → in_u64 total → in_u64 ns →
  Forall measure (worker_throughput <$> workers) ∧
  measure (max_throughput (worker_throughput <$> workers)) ∧
  is_Some (row_text step active msgs (worker_throughput <$> workers)) ∧
  measure (benchmark_vps total ns) ∧ is_Some (bench_text wc (benchmark_vps total ns) baseline) ∧
  (total < 2 ^ 31 * ns → is_Some (summary_throughput total ns)).
Proof.
  intros Hw Ht Hn.
  assert (Forall measure (worker_throughput <$> workers)) as Hm.
  { apply Forall_fmap. eapply Forall_impl; [exact Hw|]. intros l Hl. cbn. unfold worker_throughput.
    assert (measure (of_Z 0)) as H0 by done. revert H0. generalize (of_Z 0).
    induction Hl as [|[p n] l [Hp Hns] _ IH]; intros t Hmt; [done|]. cbn [foldl fst snd].
    apply IH. by apply throughput_measure. }
  pose proof (max_throughput_measure _ Hm) as Hmax.
  assert (measure (benchmark_vps total ns)) as Hb by (by apply (throughput_measure (of_Z 0))).
  split_and!; [done|done| |done| |].
  - unfold row_text. destruct (throughput_text_defined _ Hmax) as [t ->]. by eexists.
  - unfold bench_text. destruct (throughput_text_defined _ Hb) as [t ->]. by eexists.
  - by apply summary_defined.
Qed.

(** ** The theorem on concrete readings *)

(** Two workers; the first has made two supersteps, the second of which took no time
    that the clock could see. *)
Lemma rows_defined_witness :
  Forall measure (worker_throughput <$> [[(1500, 1000000); (3000, 0)]; [(700, 2000000)]]) ∧
  is_Some (summary_throughput 3700 5000000).
Proof.
  destruct (rows_defined 1 4 12 [[(1500, 1000000); (3000, 0)]; [(700, 2000000)]] 2 3700 5000000
    (of_Z 0)) as (Hm & _ & _ & _ & _ & Hs);
    [apply (bool_decide_unpack _); vm_compute; exact I..|].
  split; [exact Hm|apply Hs; reflexivity].
Defined.

(** Ten supersteps of a thousand vertices in a millisecond each: the counter is that
    of the whole run, the duration that of the last superstep. *)
Example throughput_of_whole_run :
  throughput_text (worker_throughput ((λ k, (1000 * k, 1000000)) <$> [1;2;3;4;5;6;7;8;9;10])) =
  Some "10.00M/s"%string.
Proof. vm_compute. reflexivity. Qed.

End Report.
